(** * Simply-AI Home Edition: chat orchestration and retrieval pipeline

    A shallow embedding of the Python services of the repository
    (app/services, app/models, app/routes/chat.py) together with the
    properties the specification states about them.

    Python [str] values are modelled as [string] at the interfaces and as
    [list ascii] inside the text-processing code; Python [int] as [Z];
    [dict]s used as tables as [gmap]; generators as the finite list of the
    values they yield; exceptions as an explicit error result. *)

From Stdlib Require Import String Ascii List ZArith Lia Bool Arith.
From Stdlib Require QArith.
From stdpp Require Import base gmap strings list pretty.
Import ListNotations.

Local Open Scope string_scope.
Local Open Scope list_scope.

(** Python [str] as a character list, and back. *)
Definition chars (s : string) : list ascii := list_ascii_of_string s.
Definition text (l : list ascii) : string := string_of_list_ascii l.

(** The double quote, which a string literal cannot hold. *)
Definition dquote : ascii := "034"%char.
Definition squote : ascii := "039"%char.

(** ** Character classification, as Python's [re] and [str] do on ASCII *)
Module Chr.

Definition code (c : ascii) : nat := nat_of_ascii c.

Definition between (lo hi : nat) (c : ascii) : bool :=
  (lo <=? code c)%nat && (code c <=? hi)%nat.

Definition is_lower (c : ascii) : bool := between 97 122 c.
Definition is_upper (c : ascii) : bool := between 65 90 c.
Definition is_digit (c : ascii) : bool := between 48 57 c.

(** [\s] and [str.isspace]: tab, newline, vertical tab, form feed,
    carriage return, the four separators 0x1c-0x1f and the space. *)
Definition is_space (c : ascii) : bool :=
  between 9 13 c || between 28 31 c || (code c =? 32)%nat.

(** [\w]: letters, digits and the underscore. *)
Definition is_word (c : ascii) : bool :=
  is_lower c || is_upper c || is_digit c || (code c =? 95)%nat.

Definition lower (c : ascii) : ascii :=
  if is_upper c then ascii_of_nat (code c + 32) else c.

Definition swapcase (c : ascii) : ascii :=
  if is_upper c then ascii_of_nat (code c + 32)
  else if is_lower c then ascii_of_nat (code c - 32)
  else c.

Definition eqb (a b : ascii) : bool := Ascii.eqb a b.

End Chr.

(** ** Methods of Python's [str], on character lists *)
Module Str.

(** [str.startswith] on character lists. *)
Fixpoint starts_with (p s : list ascii) : bool :=
  match p, s with
  | [], _ => true
  | x :: p', c :: s' => Chr.eqb x c && starts_with p' s'
  | _ :: _, [] => false
  end.

(** [s.replace(old, new)]: every non-overlapping occurrence, left to
    right; [skip] counts the characters of an occurrence still to drop. *)
Fixpoint replace_go (old new : list ascii) (skip : nat) (s : list ascii) : list ascii :=
  match s with
  | [] => []
  | c :: s' =>
      match skip with
      | S n => replace_go old new n s'
      | O =>
          if starts_with old s
          then new ++ replace_go old new (length old - 1) s'
          else c :: replace_go old new 0 s'
      end
  end.

Definition str_replace (old new s : list ascii) : list ascii :=
  match old with
  | [] => new ++ flat_map (fun c => c :: new) s
  | _ => replace_go old new 0 s
  end.

(** [s.lstrip()], [s.rstrip()], [s.strip()]. *)
Fixpoint lstrip (s : list ascii) : list ascii :=
  match s with
  | c :: s' => if Chr.is_space c then lstrip s' else s
  | [] => []
  end.

Definition rstrip (s : list ascii) : list ascii := rev (lstrip (rev s)).

Definition strip (s : list ascii) : list ascii := rstrip (lstrip s).

(** [s.split()]: the maximal runs of non-blank characters; [cur] holds the
    run being read, last character first. *)
Fixpoint split_ws_go (cur : list ascii) (s : list ascii) : list (list ascii) :=
  match s with
  | [] => match cur with [] => [] | _ => [rev cur] end
  | c :: s' =>
      if Chr.is_space c
      then match cur with
           | [] => split_ws_go [] s'
           | _ => rev cur :: split_ws_go [] s'
           end
      else split_ws_go (c :: cur) s'
  end.

Definition split_ws (s : list ascii) : list (list ascii) := split_ws_go [] s.

(** [s.split(sep)] for a non-empty separator: every occurrence cuts, empty
    pieces are kept. *)
Fixpoint split_go (sep : list ascii) (skip : nat) (cur : list ascii) (s : list ascii)
  : list (list ascii) :=
  match s with
  | [] => [rev cur]
  | c :: s' =>
      match skip with
      | S n => split_go sep n cur s'
      | O =>
          if starts_with sep s
          then rev cur :: split_go sep (length sep - 1) [] s'
          else split_go sep 0 (c :: cur) s'
      end
  end.

Definition split_on (sep : list ascii) (s : list ascii) : list (list ascii) :=
  split_go sep 0 [] s.

(** [sep.join(parts)]. *)
Fixpoint join (sep : list ascii) (parts : list (list ascii)) : list ascii :=
  match parts with
  | [] => []
  | [p] => p
  | p :: ps => p ++ sep ++ join sep ps
  end.

(** [s.find(sub)]: the index of the first occurrence, or -1. *)
Fixpoint find_go (sub : list ascii) (i : Z) (s : list ascii) : Z :=
  if starts_with sub s then i
  else match s with
       | [] => (-1)%Z
       | _ :: s' => find_go sub (i + 1)%Z s'
       end.

Definition find (sub s : list ascii) : Z := find_go sub 0%Z s.

(** [len(s)] as a Python integer. *)
Definition len {A : Type} (s : list A) : Z := Z.of_nat (length s).

(** [s[:k]]: a negative [k] counts from the end. *)
Definition slice_to {A : Type} (s : list A) (k : Z) : list A :=
  if (k <? 0)%Z then firstn (Z.to_nat (len s + k)) s else firstn (Z.to_nat k) s.

End Str.

(** ** A backtracking matcher with the semantics of Python's [re]

    Leftmost match, alternatives tried in order, greedy repetition tried
    longest first and lazy repetition shortest first, as in the [sre]
    engine the code runs on. *)
Module Re.

Inductive citem : Type :=
| CChar (c : ascii)
| CRange (lo hi : ascii)
| CDigit
| CSpace
| CNonSpace.

Record charset : Type := { cs_neg : bool; cs_items : list citem }.

Definition item_has (it : citem) (c : ascii) : bool :=
  match it with
  | CChar x => Chr.eqb x c
  | CRange lo hi => Chr.between (Chr.code lo) (Chr.code hi) c
  | CDigit => Chr.is_digit c
  | CSpace => Chr.is_space c
  | CNonSpace => negb (Chr.is_space c)
  end.

(** With IGNORECASE a character is in a set when it or its other case is. *)
Definition cs_has (icase : bool) (cs : charset) (c : ascii) : bool :=
  let hit :=
    existsb (fun it => item_has it c || (icase && item_has it (Chr.swapcase c)))
            (cs_items cs) in
  if cs_neg cs then negb hit else hit.

Definition chr_eq (icase : bool) (x c : ascii) : bool :=
  Chr.eqb x c || (icase && Chr.eqb x (Chr.swapcase c)).

Inductive regex : Type :=
| Lit (s : string)
| Cls (cs : charset)
| Seq (a b : regex)
| Alt (a b : regex)
| Rep (a : regex) (lo : nat) (hi : option nat) (greedy : bool)
| Grp (n : nat) (a : regex)
| Ahead (a : regex)
| NotAhead (a : regex)
| Behind (cs : charset)
| WordB
| Eos.

(** Capture groups: number and matched text, latest first. *)
Definition captures : Type := list (nat * list ascii).

Fixpoint group (n : nat) (cp : captures) : list ascii :=
  match cp with
  | [] => []
  | (m, t) :: cp' => if (m =? n)%nat then t else group n cp'
  end.

(** What a successful match leaves: the unread input and the groups. *)
Definition outcome : Type := (list ascii * captures)%type.

Definition kont : Type := option ascii -> list ascii -> captures -> option outcome.

Fixpoint eat (icase : bool) (l : list ascii) (prev : option ascii) (s : list ascii)
  : option (option ascii * list ascii) :=
  match l with
  | [] => Some (prev, s)
  | x :: l' =>
      match s with
      | c :: s' => if chr_eq icase x c then eat icase l' (Some c) s' else None
      | [] => None
      end
  end.

Definition word_at (o : option ascii) : bool :=
  match o with Some c => Chr.is_word c | None => false end.

Definition under (hi : option nat) (n : nat) : bool :=
  match hi with Some h => (n <? h)%nat | None => true end.

(** [run icase r prev s cp k]: match [r] at the head of [s], [prev] being
    the character before it, then continue with [k]. *)
Fixpoint run (icase : bool) (r : regex) (prev : option ascii) (s : list ascii)
         (cp : captures) (k : kont) {struct r} : option outcome :=
  match r with
  | Lit l =>
      match eat icase (chars l) prev s with
      | Some (p1, s1) => k p1 s1 cp
      | None => None
      end
  | Cls cs =>
      match s with
      | c :: s1 => if cs_has icase cs c then k (Some c) s1 cp else None
      | [] => None
      end
  | Seq a b => run icase a prev s cp (fun p1 s1 c1 => run icase b p1 s1 c1 k)
  | Alt a b =>
      match run icase a prev s cp k with
      | Some o => Some o
      | None => run icase b prev s cp k
      end
  | Rep a lo hi greedy =>
      (fix loop (fuel n : nat) (prev : option ascii) (s : list ascii)
           (cp : captures) {struct fuel} : option outcome :=
         match fuel with
         | O => if (lo <=? n)%nat then k prev s cp else None
         | S fuel' =>
             if greedy then
               match (if under hi n
                      then run icase a prev s cp
                             (fun p1 s1 c1 =>
                                if (length s1 <? length s)%nat
                                then loop fuel' (S n) p1 s1 c1 else None)
                      else None) with
               | Some o => Some o
               | None => if (lo <=? n)%nat then k prev s cp else None
               end
             else
               match (if (lo <=? n)%nat then k prev s cp else None) with
               | Some o => Some o
               | None =>
                   if under hi n
                   then run icase a prev s cp
                          (fun p1 s1 c1 =>
                             if (length s1 <? length s)%nat
                             then loop fuel' (S n) p1 s1 c1 else None)
                   else None
               end
         end) (S (length s)) 0%nat prev s cp
  | Grp n a =>
      run icase a prev s cp
          (fun p1 s1 c1 => k p1 s1 ((n, firstn (length s - length s1) s) :: c1))
  | Ahead a =>
      match run icase a prev s cp (fun _ s1 c1 => Some (s1, c1)) with
      | Some _ => k prev s cp
      | None => None
      end
  | NotAhead a =>
      match run icase a prev s cp (fun _ s1 c1 => Some (s1, c1)) with
      | Some _ => None
      | None => k prev s cp
      end
  | Behind cs =>
      match prev with
      | Some c => if cs_has icase cs c then k prev s cp else None
      | None => None
      end
  | WordB =>
      if xorb (word_at prev) (word_at (head s)) then k prev s cp else None
  | Eos =>
      match s with
      | [] => k prev s cp
      | [c] => if Chr.eqb c "010"%char then k prev s cp else None
      | _ => None
      end
  end.

(** One match: the text skipped before it, the matched text, the groups. *)
Record rmatch : Type := { m_pre : list ascii; m_text : list ascii; m_caps : captures }.

(** Where the scan stands after a match. *)
Definition last_of (prev : option ascii) (l : list ascii) : option ascii :=
  match rev l with c :: _ => Some c | [] => prev end.

(** [search]: the leftmost match at or after the head of [s].  With
    [must_advance] an empty match at the head itself is refused, as the
    engine does right after an empty match. *)
Fixpoint search (icase : bool) (r : regex) (must_advance : bool)
         (prev : option ascii) (s : list ascii) : option (rmatch * list ascii) :=
  match run icase r prev s []
            (fun _ s1 c1 =>
               if must_advance && (length s1 =? length s)%nat
               then None else Some (s1, c1)) with
  | Some (s1, c1) =>
      Some ({| m_pre := []; m_text := firstn (length s - length s1) s; m_caps := c1 |}, s1)
  | None =>
      match s with
      | [] => None
      | c :: s' =>
          match search icase r false (Some c) s' with
          | Some (m, rest) =>
              Some ({| m_pre := c :: m_pre m; m_text := m_text m; m_caps := m_caps m |}, rest)
          | None => None
          end
      end
  end.

(** All non-overlapping matches from left to right, and the text after
    the last one. *)
Fixpoint scan (fuel : nat) (icase : bool) (r : regex) (must_advance : bool)
         (prev : option ascii) (s : list ascii) : list rmatch * list ascii :=
  match fuel with
  | O => ([], s)
  | S fuel' =>
      match search icase r must_advance prev s with
      | None => ([], s)
      | Some (m, rest) =>
          let '(ms, tl) :=
            scan fuel' icase r
                 (match m_text m with [] => true | _ => false end)
                 (last_of prev (m_pre m ++ m_text m)) rest in
          (m :: ms, tl)
      end
  end.

Definition scan_all (icase : bool) (r : regex) (s : list ascii) : list rmatch * list ascii :=
  scan (2 * length s + 2) icase r false None s.

(** [re.search(pattern, s)] as a truth value. *)
Definition found (icase : bool) (r : regex) (s : list ascii) : bool :=
  match search icase r false None s with Some _ => true | None => false end.

(** [re.finditer(pattern, s)]. *)
Definition finditer (icase : bool) (r : regex) (s : list ascii) : list rmatch :=
  fst (scan_all icase r s).

(** [re.sub(pattern, repl, s)] with a callable [repl]. *)
Definition sub (icase : bool) (r : regex) (repl : rmatch -> list ascii) (s : list ascii)
  : list ascii :=
  let '(ms, tl) := scan_all icase r s in
  flat_map (fun m => m_pre m ++ repl m) ms ++ tl.

(** [re.split(pattern, s)] for a pattern without groups. *)
Definition split (icase : bool) (r : regex) (s : list ascii) : list (list ascii) :=
  let '(ms, tl) := scan_all icase r s in
  map m_pre ms ++ [tl].

(** Abbreviations for writing patterns. *)
Definition set_of (items : list citem) : regex := Cls {| cs_neg := false; cs_items := items |}.
Definition not_of (items : list citem) : regex := Cls {| cs_neg := true; cs_items := items |}.
Definition opt (a : regex) : regex := Rep a 0 (Some 1%nat) true.
Definition plus (a : regex) : regex := Rep a 1 None true.
Definition star (a : regex) : regex := Rep a 0 None true.
Definition exactly (n : nat) (a : regex) : regex := Rep a n (Some n) true.
Definition at_least (n : nat) (a : regex) : regex := Rep a n None true.

Fixpoint seqs (l : list regex) : regex :=
  match l with
  | [] => Lit ""
  | [a] => a
  | a :: l' => Seq a (seqs l')
  end.

Fixpoint alts (l : list regex) : regex :=
  match l with
  | [] => NotAhead (Lit "")
  | [a] => a
  | a :: l' => Alt a (alts l')
  end.

End Re.

(** ** Redactor: app/services/sensitive_info_filter.py *)
Module SensitiveInfoFilter.
Import Re Str.

(** A replacement is a fixed string or a callable over the match; every
    callable of [PATTERNS] is an f-string over groups of the match. *)
Inductive tpart : Type :=
| TText (s : string)
| TGroup (n : nat).

Inductive replacement : Type :=
| Plain (s : string)
| Callable (t : list tpart).

Definition render (t : list tpart) (m : rmatch) : list ascii :=
  flat_map (fun p => match p with
                     | TText s => chars s
                     | TGroup n => group n (m_caps m)
                     end) t.

Record pattern : Type :=
  { pattern_name : string; pattern_re : regex; pattern_repl : replacement }.

(** Character sets that recur in [PATTERNS].  In the comment above each
    pattern, DQ stands for the double quote character. *)
Definition az : citem := CRange "a" "z".
Definition AZ : citem := CRange "A" "Z".
Definition d09 : citem := CRange "0" "9".
Definition dash : citem := CChar "-".
Definition uscore : citem := CChar "_".
Definition key_chars : list citem := [az; AZ; d09; dash; uscore].
Definition quote : regex := set_of [CChar dquote; CChar squote].
Definition ws : regex := set_of [CSpace].
Definition digit : regex := set_of [CDigit].
Definition assign : regex := seqs [star ws; set_of [CChar ":"; CChar "="]; star ws].
Definition sep : regex := opt (set_of [dash; CSpace]).

(** r'\b(sk-ant-(?:api\d+-)?[a-zA-Z0-9\-_]{20,})\b' *)
Definition anthropic_key : regex :=
  seqs [WordB;
        Grp 1 (seqs [Lit "sk-ant-";
                     opt (seqs [Lit "api"; plus digit; Lit "-"]);
                     at_least 20 (set_of key_chars)]);
        WordB].

(** r'\b(sk-(?!ant-)(?:proj-|svcacct-)?[a-zA-Z0-9\-_]{20,})\b' *)
Definition openai_key : regex :=
  seqs [WordB;
        Grp 1 (seqs [Lit "sk-"; NotAhead (Lit "ant-");
                     opt (Alt (Lit "proj-") (Lit "svcacct-"));
                     at_least 20 (set_of key_chars)]);
        WordB].

(** r'\b(AIza[a-zA-Z0-9\-_]{35})\b' *)
Definition google_api_key : regex :=
  seqs [WordB; Grp 1 (seqs [Lit "AIza"; exactly 35 (set_of key_chars)]); WordB].

(** r'\b(AKIA[0-9A-Z]{16})\b' *)
Definition aws_access_key : regex :=
  seqs [WordB; Grp 1 (seqs [Lit "AKIA"; exactly 16 (set_of [d09; AZ])]); WordB].

(** r'(aws_secret_access_key[DQ\']?\s*[:=]\s*[DQ\']?)([a-zA-Z0-9/+=]{40})([DQ\']?)' *)
Definition aws_secret_key : regex :=
  seqs [Grp 1 (seqs [Lit "aws_secret_access_key"; opt quote; assign; opt quote]);
        Grp 2 (exactly 40 (set_of [az; AZ; d09; CChar "/"; CChar "+"; CChar "="]));
        Grp 3 (opt quote)].

(** r'\b(gh[psro]_[a-zA-Z0-9]{36,})\b' *)
Definition github_token : regex :=
  seqs [WordB;
        Grp 1 (seqs [Lit "gh"; set_of [CChar "p"; CChar "s"; CChar "r"; CChar "o"];
                     Lit "_"; at_least 36 (set_of [az; AZ; d09])]);
        WordB].

(** r'\b(xai-[a-zA-Z0-9\-_]{20,})\b' *)
Definition xai_key : regex :=
  seqs [WordB; Grp 1 (seqs [Lit "xai-"; at_least 20 (set_of key_chars)]); WordB].

(** r'(api[_-]?key\s*[:=]\s*[DQ\']?)([a-zA-Z0-9\-_]{20,})([DQ\']?)' *)
Definition generic_api_key : regex :=
  seqs [Grp 1 (seqs [Lit "api"; opt (set_of [uscore; dash]); Lit "key"; assign; opt quote]);
        Grp 2 (at_least 20 (set_of key_chars));
        Grp 3 (opt quote)].

(** r'(\b[Bb]earer\s+)([a-zA-Z0-9\-_\.]{20,})\b' *)
Definition bearer_token : regex :=
  seqs [Grp 1 (seqs [WordB; set_of [CChar "B"; CChar "b"]; Lit "earer"; plus ws]);
        Grp 2 (at_least 20 (set_of [az; AZ; d09; dash; uscore; CChar "."]));
        WordB].

(** r'\beyJ[a-zA-Z0-9\-_=]+\.eyJ[a-zA-Z0-9\-_=]+\.[a-zA-Z0-9\-_=]+\b' *)
Definition jwt_chars : regex := plus (set_of [az; AZ; d09; dash; uscore; CChar "="]).
Definition jwt_token : regex :=
  seqs [WordB; Lit "eyJ"; jwt_chars; Lit ".eyJ"; jwt_chars; Lit "."; jwt_chars; WordB].

(** r'-----BEGIN (?:RSA |EC |DSA |ED25519 |OPENSSH |ENCRYPTED )?PRIVATE KEY-----
      [\s\S]*?-----END (?:RSA |EC |DSA |ED25519 |OPENSSH |ENCRYPTED )?PRIVATE KEY-----' *)
Definition key_kind : regex :=
  opt (alts [Lit "RSA "; Lit "EC "; Lit "DSA "; Lit "ED25519 "; Lit "OPENSSH ";
             Lit "ENCRYPTED "]).
Definition private_key : regex :=
  seqs [Lit "-----BEGIN "; key_kind; Lit "PRIVATE KEY-----";
        Rep (set_of [CSpace; CNonSpace]) 0 None false;
        Lit "-----END "; key_kind; Lit "PRIVATE KEY-----"].

(** r'((?:postgres(?:ql)?|mysql|mariadb|mongodb(?:\+srv)?|redis|mssql|sqlserver)
      ://[^:]+:)([^@]+)(@[^\s]+)' *)
Definition db_connection : regex :=
  seqs [Grp 1 (seqs [alts [Seq (Lit "postgres") (opt (Lit "ql")); Lit "mysql";
                           Lit "mariadb"; Seq (Lit "mongodb") (opt (Lit "+srv"));
                           Lit "redis"; Lit "mssql"; Lit "sqlserver"];
                     Lit "://"; plus (not_of [CChar ":"]); Lit ":"]);
        Grp 2 (plus (not_of [CChar "@"]));
        Grp 3 (seqs [Lit "@"; plus (not_of [CSpace])])].

(** r'(?i)((?:password|passwd|pwd)\s*[:=]\s*[DQ\']?)([^\sDQ\']{6,})([DQ\']?)' *)
Definition password_assignment : regex :=
  seqs [Grp 1 (seqs [alts [Lit "password"; Lit "passwd"; Lit "pwd"]; assign; opt quote]);
        Grp 2 (at_least 6 (not_of [CSpace; CChar dquote; CChar squote]));
        Grp 3 (opt quote)].

(** r'(?i)((?:my |the )?password is\s+)([^\s]{6,})' *)
Definition password_phrase : regex :=
  seqs [Grp 1 (seqs [opt (Alt (Lit "my ") (Lit "the ")); Lit "password is"; plus ws]);
        Grp 2 (at_least 6 (not_of [CSpace]))].

(** r'\b([3-6]\d{3}[-\s]?\d{4}[-\s]?\d{4}[-\s]?\d{4})\b' *)
Definition credit_card : regex :=
  seqs [WordB;
        Grp 1 (seqs [set_of [CRange "3" "6"]; exactly 3 digit; sep; exactly 4 digit; sep;
                     exactly 4 digit; sep; exactly 4 digit]);
        WordB].

(** r'\b(\d{3}[-\s]?\d{2}[-\s]?\d{4})\b' *)
Definition ssn : regex :=
  seqs [WordB;
        Grp 1 (seqs [exactly 3 digit; sep; exactly 2 digit; sep; exactly 4 digit]);
        WordB].

(** r'(?i)((?:identity\s*(?:number|no)|id\s*(?:number|no))\s*[:]\s* )(\d{13})\b'
    (the blank before the closing parenthesis is not part of the pattern) *)
Definition number_or_no : regex := Alt (Lit "number") (Lit "no").
Definition sa_id_number : regex :=
  seqs [Grp 1 (seqs [Alt (seqs [Lit "identity"; star ws; number_or_no])
                         (seqs [Lit "id"; star ws; number_or_no]);
                     star ws; set_of [CChar ":"]; star ws]);
        Grp 2 (exactly 13 digit);
        WordB].

(** r'(https?://[a-zA-Z0-9._-]+:)([^@\s]+)(@[^\s]+)' *)
Definition url_with_password : regex :=
  seqs [Grp 1 (seqs [Lit "http"; opt (Lit "s"); Lit "://";
                     plus (set_of [az; AZ; d09; CChar "."; uscore; dash]); Lit ":"]);
        Grp 2 (plus (not_of [CChar "@"; CSpace]));
        Grp 3 (seqs [Lit "@"; plus (not_of [CSpace])])].

(** r'(?i)((?:secret|client_secret|app_secret|api_secret)\s*[:=]\s*[DQ\'])
      ([a-zA-Z0-9\-_]{16,})([DQ\'])' *)
Definition secret_assignment : regex :=
  seqs [Grp 1 (seqs [alts [Lit "secret"; Lit "client_secret"; Lit "app_secret";
                           Lit "api_secret"];
                     assign; quote]);
        Grp 2 (at_least 16 (set_of key_chars));
        Grp 3 quote].

(** r'([A-Z_]*(?:SECRET|TOKEN|PASSWORD|API_KEY)[A-Z_]*\s*=\s*[DQ\']?)
      ([a-zA-Z0-9\-_/+=]{16,})([DQ\']?)' *)
Definition env_secret : regex :=
  seqs [Grp 1 (seqs [star (set_of [AZ; uscore]);
                     alts [Lit "SECRET"; Lit "TOKEN"; Lit "PASSWORD"; Lit "API_KEY"];
                     star (set_of [AZ; uscore]);
                     star ws; Lit "="; star ws; opt quote]);
        Grp 2 (at_least 16 (set_of [az; AZ; d09; dash; uscore; CChar "/"; CChar "+";
                                    CChar "="]));
        Grp 3 (opt quote)].

Definition keep_1_3 (label : string) : replacement :=
  Callable [TGroup 1; TText label; TGroup 3].
Definition keep_1 (label : string) : replacement :=
  Callable [TGroup 1; TText label].

(** [PATTERNS], in the insertion order of the dict. *)
Definition PATTERNS : list pattern :=
  [ {| pattern_name := "anthropic_key"; pattern_re := anthropic_key;
       pattern_repl := Plain "[ANTHROPIC_KEY_REDACTED]" |};
    {| pattern_name := "openai_key"; pattern_re := openai_key;
       pattern_repl := Plain "[OPENAI_KEY_REDACTED]" |};
    {| pattern_name := "google_api_key"; pattern_re := google_api_key;
       pattern_repl := Plain "[GOOGLE_KEY_REDACTED]" |};
    {| pattern_name := "aws_access_key"; pattern_re := aws_access_key;
       pattern_repl := Plain "[AWS_ACCESS_KEY_REDACTED]" |};
    {| pattern_name := "aws_secret_key"; pattern_re := aws_secret_key;
       pattern_repl := keep_1_3 "[AWS_SECRET_REDACTED]" |};
    {| pattern_name := "github_token"; pattern_re := github_token;
       pattern_repl := Plain "[GITHUB_TOKEN_REDACTED]" |};
    {| pattern_name := "xai_key"; pattern_re := xai_key;
       pattern_repl := Plain "[XAI_KEY_REDACTED]" |};
    {| pattern_name := "generic_api_key"; pattern_re := generic_api_key;
       pattern_repl := keep_1_3 "[API_KEY_REDACTED]" |};
    {| pattern_name := "bearer_token"; pattern_re := bearer_token;
       pattern_repl := keep_1 "[TOKEN_REDACTED]" |};
    {| pattern_name := "jwt_token"; pattern_re := jwt_token;
       pattern_repl := Plain "[JWT_REDACTED]" |};
    {| pattern_name := "private_key"; pattern_re := private_key;
       pattern_repl := Plain "[PRIVATE_KEY_REDACTED]" |};
    {| pattern_name := "db_connection"; pattern_re := db_connection;
       pattern_repl := keep_1_3 "[PASSWORD_REDACTED]" |};
    {| pattern_name := "password_assignment"; pattern_re := password_assignment;
       pattern_repl := keep_1_3 "[PASSWORD_REDACTED]" |};
    {| pattern_name := "password_phrase"; pattern_re := password_phrase;
       pattern_repl := keep_1 "[PASSWORD_REDACTED]" |};
    {| pattern_name := "credit_card"; pattern_re := credit_card;
       pattern_repl := Plain "[CARD_REDACTED]" |};
    {| pattern_name := "ssn"; pattern_re := ssn;
       pattern_repl := Plain "[SSN_REDACTED]" |};
    {| pattern_name := "sa_id_number"; pattern_re := sa_id_number;
       pattern_repl := keep_1 "[ID_REDACTED]" |};
    {| pattern_name := "url_with_password"; pattern_re := url_with_password;
       pattern_repl := keep_1_3 "[PASSWORD_REDACTED]" |};
    {| pattern_name := "secret_assignment"; pattern_re := secret_assignment;
       pattern_repl := keep_1_3 "[SECRET_REDACTED]" |};
    {| pattern_name := "env_secret"; pattern_re := env_secret;
       pattern_repl := keep_1_3 "[REDACTED]" |} ].

(** The inner loop of [filter_text] for one pattern: the matches are
    those of the text as it was when the pattern was reached; each of them
    triggers one rewrite of the current text. *)
Definition apply_pattern (p : pattern) (filtered_text : list ascii) : list ascii :=
  fold_left
    (fun cur m =>
       match pattern_repl p with
       | Callable t => sub true (pattern_re p) (render t) cur
       | Plain r => str_replace (m_text m) (chars r) cur
       end)
    (finditer true (pattern_re p) filtered_text)
    filtered_text.

(** [filter_text(text, verbose)]: the filtered text and, when [verbose],
    the name of the pattern of every match. *)
Definition filter_text (txt : string) (verbose : bool) : string * list string :=
  match txt with
  | EmptyString => (txt, [])
  | _ =>
      let '(out, detected) :=
        fold_left
          (fun '(cur, det) p =>
             (apply_pattern p cur,
              if verbose
              then det ++ map (fun _ => pattern_name p)
                              (finditer true (pattern_re p) cur)
              else det))
          PATTERNS (chars txt, []) in
      (text out, detected)
  end.

Definition filter_message (message_content : string) : string :=
  fst (filter_text message_content false).

Definition has_sensitive_info (txt : string) : bool :=
  match txt with
  | EmptyString => false
  | _ => existsb (fun p => found true (pattern_re p) (chars txt)) PATTERNS
  end.

End SensitiveInfoFilter.

(** ** What the redactor leaves alone *)
Module RedactorSpec.
Import Re Str SensitiveInfoFilter.

(** What pattern [p] writes in place of the match [m]. *)
Definition written_for (p : pattern) (m : rmatch) : list ascii :=
  match pattern_repl p with
  | Plain r => chars r
  | Callable t => render t m
  end.

(** A match that its pattern rewrites to itself: the text to hide is
    already the pattern's placeholder. *)
Definition kept (p : pattern) (m : rmatch) : bool :=
  String.eqb (text (written_for p m)) (text (m_text m)).

(** A text is settled when every match that a pattern of [PATTERNS] finds
    in it is kept.  A text without any match is settled. *)
Definition settled (txt : string) : bool :=
  forallb (fun p => forallb (kept p) (finditer true (pattern_re p) (chars txt))) PATTERNS.

End RedactorSpec.

(** ** Chunker: app/services/chunking_service.py *)
Module ChunkingService.
Import Re Str.

Local Open Scope Z_scope.

Definition DEFAULT_CHUNK_SIZE : Z := 512.
Definition DEFAULT_CHUNK_OVERLAP : Z := 50.
Definition DEFAULT_MIN_CHUNK_SIZE : Z := 50.
Definition CHARS_PER_TOKEN : Z := 4.

(** What [_get_tokenizer] returns: [None], or the tiktoken encoding, of which
    only the length of [encode(text)] is used; [encode] may raise. *)
Definition tokenizer_t : Type := option (list ascii -> option Z).

(** A chunk dictionary. *)
Record chunk : Type :=
  { content : string;
    token_count : Z;
    start_char : Z;
    end_char : Z;
    page_number : option Z }.

(** [_count_tokens]: the encoding's count, or the estimate [len(text) // 4]
    when there is no tokenizer or it raises.  The length is that of the
    character list, which is [len(text)] when the text is ASCII. *)
Definition _count_tokens (txt : list ascii) (tokenizer : tokenizer_t) : Z :=
  match tokenizer with
  | Some encode_len =>
      match encode_len txt with
      | Some n => n
      | None => len txt / CHARS_PER_TOKEN
      end
  | None => len txt / CHARS_PER_TOKEN
  end.

Definition space : list ascii := [" "%char].
Definition newline : list ascii := ["010"%char].

(** The chunk appended at each of the flush sites. *)
Definition make_chunk (parts : list (list ascii)) (tokens start : Z) : chunk :=
  let chunk_text := join space parts in
  {| content := text chunk_text;
     token_count := tokens;
     start_char := start;
     end_char := start + len chunk_text;
     page_number := None |}.

(** The overlap loop: walk the flushed parts from the last one backwards and
    keep them while their tokens fit in [overlap]; stop at the first that
    does not.  [count] is the token count of one part as the call site
    computes it. *)
Fixpoint overlap_loop (count : list ascii -> Z) (overlap : Z)
         (reversed : list (list ascii)) (kept : list (list ascii)) (kept_tokens : Z)
  : list (list ascii) * Z :=
  match reversed with
  | [] => (kept, kept_tokens)
  | s :: rest =>
      if kept_tokens + count s <=? overlap
      then overlap_loop count overlap rest (s :: kept) (kept_tokens + count s)
      else (kept, kept_tokens)
  end.

Definition take_overlap (count : list ascii -> Z) (overlap : Z)
           (parts : list (list ascii)) : list (list ascii) * Z :=
  overlap_loop count overlap (rev parts) [] 0.

(** The state both packing loops carry. *)
Record acc : Type :=
  { chunks : list chunk;
    current : list (list ascii);
    current_tokens : Z;
    current_start : Z }.

(** r'(?<=[.!?])\s+(?=[A-Z])|(?<=[.!?])$' *)
Definition terminator : charset :=
  {| cs_neg := false; cs_items := [CChar "."; CChar "!"; CChar "?"] |}.

Definition sentence_pattern : regex :=
  Alt (seqs [Behind terminator; plus (set_of [CSpace]); Ahead (set_of [CRange "A" "Z"])])
      (seqs [Behind terminator; Eos]).

Definition nonblank (s : list ascii) : bool :=
  match strip s with [] => false | _ => true end.

Definition stripped_nonblank (parts : list (list ascii)) : list (list ascii) :=
  map strip (filter (fun s => nonblank s) parts).

(** [_split_into_sentences]. *)
Definition _split_into_sentences (txt : list ascii) : list (list ascii) :=
  let parts := Re.split false sentence_pattern txt in
  let sentences := stripped_nonblank parts in
  if (len sentences <=? 1) && (500 <? len txt) then
    let paragraphs := split_on (newline ++ newline) txt in
    if 1 <? len paragraphs then stripped_nonblank paragraphs
    else
      let lines := split_on newline txt in
      if 1 <? len lines then stripped_nonblank lines else sentences
  else sentences.

(** One round of the loop of [_split_large_text]. *)
Definition word_tokens (tokenizer : tokenizer_t) (w : list ascii) : Z :=
  _count_tokens (w ++ space) tokenizer.

Definition large_step (chunk_size overlap : Z) (tokenizer : tokenizer_t)
           (a : acc) (word : list ascii) : acc :=
  let wt := word_tokens tokenizer word in
  let a1 :=
    if (chunk_size <? current_tokens a + wt)
       && match current a with [] => false | _ => true end
    then
      let chunk_text := join space (current a) in
      let '(overlap_words, overlap_tokens) :=
        take_overlap (word_tokens tokenizer) overlap (current a) in
      {| chunks := chunks a ++ [make_chunk (current a) (current_tokens a) (current_start a)];
         current := overlap_words;
         current_tokens := overlap_tokens;
         current_start :=
           current_start a + (len chunk_text - len (join space overlap_words)) |}
    else a in
  {| chunks := chunks a1;
     current := current a1 ++ [word];
     current_tokens := current_tokens a1 + wt;
     current_start := current_start a1 |}.

(** [_split_large_text]. *)
Definition _split_large_text (txt : list ascii) (chunk_size overlap : Z)
           (tokenizer : tokenizer_t) (start_offset : Z) : list chunk :=
  let a := fold_left (large_step chunk_size overlap tokenizer) (split_ws txt)
                     {| chunks := []; current := []; current_tokens := 0;
                        current_start := start_offset |} in
  match current a with
  | [] => chunks a
  | _ => chunks a ++ [make_chunk (current a) (current_tokens a) (current_start a)]
  end.

(** One round of the loop of [_chunk_text] over the sentences; [txt] is the
    stripped text the sentences come from. *)
Definition sentence_step (txt : list ascii) (chunk_size overlap : Z)
           (tokenizer : tokenizer_t) (start_offset : Z)
           (a : acc) (sentence : list ascii) : acc :=
  let sentence_tokens := _count_tokens sentence tokenizer in
  if chunk_size <? sentence_tokens then
    let saved :=
      match current a with
      | [] => chunks a
      | _ => chunks a ++ [make_chunk (current a) (current_tokens a) (current_start a)]
      end in
    let sub_chunks := _split_large_text sentence chunk_size overlap tokenizer start_offset in
    {| chunks := saved ++ sub_chunks;
       current := [];
       current_tokens := 0;
       current_start :=
         start_offset + len (slice_to txt (find sentence txt + len sentence)) |}
  else
    let a1 :=
      if (chunk_size <? current_tokens a + sentence_tokens)
         && match current a with [] => false | _ => true end
      then
        let chunk_text := join space (current a) in
        let '(overlap_sentences, overlap_tokens) :=
          take_overlap (fun s => _count_tokens s tokenizer) overlap (current a) in
        {| chunks := chunks a ++ [make_chunk (current a) (current_tokens a) (current_start a)];
           current := overlap_sentences;
           current_tokens := overlap_tokens;
           current_start :=
             start_offset + len chunk_text - len (join space overlap_sentences) |}
      else a in
    {| chunks := chunks a1;
       current := current a1 ++ [sentence];
       current_tokens := current_tokens a1 + sentence_tokens;
       current_start := current_start a1 |}.

(** [_chunk_text]. *)
Definition _chunk_text (txt0 : list ascii) (chunk_size overlap : Z)
           (tokenizer : tokenizer_t) (start_offset : Z) : list chunk :=
  let txt := strip txt0 in
  match txt with
  | [] => []
  | _ =>
      let sentences := _split_into_sentences txt in
      let a := fold_left (sentence_step txt chunk_size overlap tokenizer start_offset)
                         sentences
                         {| chunks := []; current := []; current_tokens := 0;
                            current_start := start_offset |} in
      match current a with
      | [] => chunks a
      | _ =>
          let chunk_text := join space (current a) in
          if DEFAULT_MIN_CHUNK_SIZE <=? _count_tokens chunk_text tokenizer
          then chunks a ++ [make_chunk (current a) (current_tokens a) (current_start a)]
          else chunks a
      end
  end.

Definition set_page (page_num : Z) (c : chunk) : chunk :=
  {| content := content c; token_count := token_count c; start_char := start_char c;
     end_char := end_char c; page_number := Some page_num |}.

(** [_chunk_with_pages]: the loop over [enumerate(pages, start=1)]. *)
Fixpoint pages_loop (pages : list (list ascii)) (page_num : Z) (chunk_size overlap : Z)
         (tokenizer : tokenizer_t) (overall_char_offset : Z) : list chunk :=
  match pages with
  | [] => []
  | page_text :: rest =>
      if nonblank page_text then
        map (set_page page_num)
            (_chunk_text page_text chunk_size overlap tokenizer overall_char_offset)
        ++ pages_loop rest (page_num + 1) chunk_size overlap tokenizer
                      (overall_char_offset + (len page_text + 2))
      else
        pages_loop rest (page_num + 1) chunk_size overlap tokenizer
                   (overall_char_offset + (len page_text + 2))
  end.

Definition _chunk_with_pages (pages : list (list ascii)) (chunk_size overlap : Z)
           (tokenizer : tokenizer_t) : list chunk :=
  pages_loop pages 1 chunk_size overlap tokenizer 0.

(** [chunk_document]; [tokenizer] is what [_get_tokenizer()] returns. *)
Definition chunk_document (txt : string) (chunk_size overlap : Z)
           (pages : option (list string)) (tokenizer : tokenizer_t) : list chunk :=
  if nonblank (chars txt) then
    match pages with
    | Some (p :: ps) => _chunk_with_pages (map chars (p :: ps)) chunk_size overlap tokenizer
    | _ => _chunk_text (chars txt) chunk_size overlap tokenizer 0
    end
  else [].

End ChunkingService.

(** ** Notions used to state the chunker's properties *)
Module ChunkingSpec.
Import Str ChunkingService.

Local Open Scope Z_scope.

(** The version of the claimed bound on one chunk. *)
Definition within_bound (chunk_size overlap : Z) (c : chunk) : Prop :=
  0 < token_count c <= chunk_size + overlap.

(** A sentence fits when the tokenizer counts it at least one token and,
    if it is longer than [chunk_size] (so that it is split into words),
    counts each of its words, with the blank the code appends, between one
    and [chunk_size] tokens. *)
Definition word_fits (tokenizer : tokenizer_t) (chunk_size : Z) (w : list ascii) : bool :=
  (0 <? word_tokens tokenizer w) && (word_tokens tokenizer w <=? chunk_size).

Definition sentence_fits (tokenizer : tokenizer_t) (chunk_size : Z) (s : list ascii) : bool :=
  (0 <? _count_tokens s tokenizer)
  && ((_count_tokens s tokenizer <=? chunk_size)
      || forallb (word_fits tokenizer chunk_size) (split_ws s)).

Definition text_fits (tokenizer : tokenizer_t) (chunk_size : Z) (txt : list ascii) : bool :=
  forallb (sentence_fits tokenizer chunk_size) (_split_into_sentences (strip txt)).

Definition document_fits (tokenizer : tokenizer_t) (chunk_size : Z)
           (txt : string) (pages : option (list string)) : bool :=
  match pages with
  | Some (p :: ps) => forallb (fun pg => text_fits tokenizer chunk_size (chars pg)) (p :: ps)
  | _ => text_fits tokenizer chunk_size (chars txt)
  end.

(** The units the chunker packs: the sentences of the text, an over-long
    sentence being replaced by its words. *)
Definition sentence_units (tokenizer : tokenizer_t) (chunk_size : Z) (s : list ascii)
  : list (list ascii) :=
  if chunk_size <? _count_tokens s tokenizer then split_ws s else [s].

Definition text_units (tokenizer : tokenizer_t) (chunk_size : Z) (txt : list ascii)
  : list (list ascii) :=
  flat_map (sentence_units tokenizer chunk_size) (_split_into_sentences (strip txt)).

Definition document_units (tokenizer : tokenizer_t) (chunk_size : Z)
           (txt : string) (pages : option (list string)) : list (list ascii) :=
  match pages with
  | Some (p :: ps) => flat_map (fun pg => text_units tokenizer chunk_size (chars pg)) (p :: ps)
  | _ => text_units tokenizer chunk_size (chars txt)
  end.

(** Chunk [c] is the units [i], ..., [j-1] of [U], where [r = (i, j)], joined
    by single blanks; the run is not empty. *)
Definition spans (U : list (list ascii)) (c : chunk) (r : nat * nat) : Prop :=
  exists before units after : list (list ascii),
    U = before ++ units ++ after
    /\ length before = r.1
    /\ length (before ++ units) = r.2
    /\ units <> []
    /\ content c = text (join space units).

(** Successive ranges advance through the text: a later range starts no
    earlier and ends strictly later. *)
Definition advancing (ranges : list (nat * nat)) : Prop :=
  forall (k : nat) (a b : nat * nat),
    ranges !! k = Some a -> ranges !! (S k) = Some b ->
    (a.1 <= b.1)%nat /\ (a.2 < b.2)%nat.

(** The chunks follow the order of the text. *)
Definition in_text_order (U : list (list ascii)) (cs : list chunk) : Prop :=
  exists ranges : list (nat * nat), Forall2 (spans U) cs ranges /\ advancing ranges.

(** The text holds ASCII characters only.  The chunker is modelled on
    such text, where a character is a byte: the length, the blanks and the
    capital letters are then those Python sees. *)
Definition is_ascii (s : string) : bool :=
  forallb (fun c => (Chr.code c <? 128)%nat) (chars s).

Definition ascii_document (txt : string) (pages : option (list string)) : bool :=
  is_ascii txt && match pages with Some ps => forallb is_ascii ps | None => true end.

(** The text the chunks are cut from: the pages, joined by a blank line as
    the extractor joins them into the text of the document, when pages are
    given; the text otherwise. *)
Definition source_text (txt : string) (pages : option (list string)) : list ascii :=
  match pages with
  | Some (p :: ps) => join (newline ++ newline) (map chars (p :: ps))
  | _ => chars txt
  end.

Definition blank (s : list ascii) : bool := forallb Chr.is_space s.

(** A piece of text that starts and ends with a character that is not a
    blank. *)
Definition trimmed (s : list ascii) : bool :=
  match s with
  | c :: _ => negb (Chr.is_space c) && negb (Chr.is_space (List.last s c))
  | [] => false
  end.

(** Chunk [c] is the piece of the text [T] from position [r.1] up to
    position [r.2], modulo whitespace normalization: the piece starts and
    ends with a character that is not a blank, and splitting it at its
    blanks gives the words of the chunk ([content.split()]). *)
Definition piece_of (T : list ascii) (c : chunk) (r : nat * nat) : Prop :=
  exists before piece after : list ascii,
    T = before ++ piece ++ after
    /\ length before = r.1
    /\ length (before ++ piece) = r.2
    /\ trimmed piece = true
    /\ split_ws (chars (content c)) = split_ws piece.

(** The chunks follow the order of the text [T]: each is a piece of it,
    and from one chunk to the next the piece starts no earlier and ends
    strictly later. *)
Definition follows_text (T : list ascii) (cs : list chunk) : Prop :=
  exists ranges : list (nat * nat), Forall2 (piece_of T) cs ranges /\ advancing ranges.

End ChunkingSpec.

(** ** Secrets: app/services/encryption_service.py *)
Module EncryptionService.
Import Str.

(** The Fernet cipher derived from SECRET_KEY is an opaque collaborator:
    [cipher_decrypt] is [None] when the library raises (bad token, missing
    SECRET_KEY). *)
Definition cipher : Type := string -> option string.

(** [decrypt]: the empty string for an empty input, the plaintext, or the
    ValueError the except clause raises ([None]). *)
Definition decrypt (cipher_decrypt : cipher) (encrypted_text : string) : option string :=
  match encrypted_text with
  | EmptyString => Some ""
  | _ => cipher_decrypt encrypted_text
  end.

(** [mask_api_key(api_key, show_chars)]. *)
Definition mask_api_key (api_key : string) (show_chars : Z) : string :=
  match api_key with
  | EmptyString => ""
  | _ =>
      if (len (chars api_key) <? show_chars)%Z then ""
      else text (slice_to (chars api_key) show_chars) ++ "..."
  end.

(** [encrypt(plaintext)]: [cipher_encrypt] gives the Fernet token of a
    plaintext, [None] when the library raises. *)
Definition encrypt (cipher_encrypt : cipher) (plaintext : string) : option string :=
  match plaintext with
  | EmptyString => Some ""
  | _ => cipher_encrypt plaintext
  end.

End EncryptionService.

(** ** Settings store: app/models/admin_settings.py *)
Module AdminSettings.
Import Str.

(** A row of [admin_settings], keyed by [setting_key] in the table. *)
Record setting : Type :=
  { setting_value : option string;
    setting_type : string;
    description : option string }.

(** What [get_typed_value] returns.  [json.loads] and [int] belong to the
    Python library: a parsed JSON document stays opaque ([VJson], with its
    truth value), [int] is a parameter. *)
Inductive value : Type :=
| VNone
| VStr (s : string)
| VBool (b : bool)
| VInt (z : Z)
| VJson (raw : string) (truth : bool).

Definition truthy (v : value) : bool :=
  match v with
  | VNone => false
  | VStr s => match s with EmptyString => false | _ => true end
  | VBool b => b
  | VInt z => negb (z =? 0)%Z
  | VJson _ t => t
  end.

(** The Python library functions the typed projection calls. *)
Record pylib : Type :=
  { py_int : string -> option Z;
    json_loads : string -> option value }.

Definition str_lower (s : string) : string := text (map Chr.lower (chars s)).

Definition get_typed_value (lib : pylib) (row : setting) : value :=
  match setting_value row with
  | None => VNone
  | Some v =>
      if String.eqb (setting_type row) "boolean" then
        VBool (existsb (String.eqb (str_lower v)) ["true"; "1"; "yes"; "on"])
      else if String.eqb (setting_type row) "integer" then
        match py_int lib v with Some z => VInt z | None => VInt 0 end
      else if String.eqb (setting_type row) "json" then
        match json_loads lib v with Some j => j | None => VJson "{}" false end
      else VStr v
  end.

Definition get_setting (lib : pylib) (table : gmap string setting)
           (key : string) (default : value) : value :=
  match table !! key with
  | Some row => get_typed_value lib row
  | None => default
  end.

Definition SUPPORTED_PROVIDERS : list string := ["gemini"; "openai"; "anthropic"; "xai"].

Definition supported (provider : string) : bool :=
  existsb (String.eqb provider) SUPPORTED_PROVIDERS.

Definition api_key_setting (provider : string) : string := "system_api_key_" ++ provider.

(** [get_system_api_key(provider)].  A stored value that is not a string
    makes [decrypt] raise inside its own try block, hence the empty result. *)
Definition get_system_api_key (lib : pylib) (cipher_decrypt : EncryptionService.cipher)
           (table : gmap string setting) (provider : string) : string :=
  if supported provider then
    let encrypted_key := get_setting lib table (api_key_setting provider) (VStr "") in
    if truthy encrypted_key then
      match encrypted_key with
      | VStr e =>
          match EncryptionService.decrypt cipher_decrypt e with
          | Some plain => plain
          | None => ""
          end
      | _ => ""
      end
    else ""
  else "".

(** [has_system_api_key(provider)]. *)
Definition has_system_api_key (lib : pylib) (table : gmap string setting)
           (provider : string) : bool :=
  if supported provider
  then truthy (get_setting lib table (api_key_setting provider) (VStr ""))
  else false.

(** [get_masked_system_api_key(provider, show_chars)]. *)
Definition get_masked_system_api_key (lib : pylib) (cipher_decrypt : EncryptionService.cipher)
           (table : gmap string setting) (provider : string) (show_chars : Z) : string :=
  match get_system_api_key lib cipher_decrypt table provider with
  | EmptyString => ""
  | api_key => EncryptionService.mask_api_key api_key show_chars
  end.

(** [SUPPORTED_MODEL_PROVIDERS], [DEFAULT_MODEL_IDS], [DEFAULT_LOCAL_URLS]. *)
Definition SUPPORTED_MODEL_PROVIDERS : list string :=
  ["gemini"; "openai"; "anthropic"; "xai"; "lm_studio"; "ollama"].

Definition DEFAULT_MODEL_IDS : list (string * string) :=
  [("gemini", "gemini-3-flash-preview");
   ("openai", "gpt-5-mini-2025-08-07");
   ("anthropic", "claude-haiku-4-5-20251001");
   ("xai", "grok-4-1-fast-non-reasoning-latest");
   ("lm_studio", "");
   ("ollama", "")].

Definition DEFAULT_LOCAL_URLS : list (string * string) :=
  [("lm_studio", "http://localhost:1234/v1/chat/completions");
   ("ollama", "http://localhost:11434/api/chat")].

(** [d.get(key, '')] on a dict of strings. *)
Fixpoint dict_get (key : string) (d : list (string * string)) : string :=
  match d with
  | [] => ""
  | (k, v) :: rest => if String.eqb k key then v else dict_get key rest
  end.

(** [get_system_model_id(provider)]. *)
Definition get_system_model_id (lib : pylib) (table : gmap string setting)
           (provider : string) : value :=
  if negb (existsb (String.eqb provider) SUPPORTED_MODEL_PROVIDERS) then VStr ""
  else
    match get_setting lib table ("system_model_id_" ++ provider) VNone with
    | VNone => VStr (dict_get provider DEFAULT_MODEL_IDS)
    | model_id => model_id
    end.

(** [get_local_model_url(provider)]. *)
Definition get_local_model_url (lib : pylib) (table : gmap string setting)
           (provider : string) : value :=
  if negb (existsb (String.eqb provider) ["lm_studio"; "ollama"]) then VStr ""
  else
    match get_setting lib table ("system_model_url_" ++ provider) VNone with
    | VNone => VStr (dict_get provider DEFAULT_LOCAL_URLS)
    | url => url
    end.

(** The feature switches. *)
Definition is_sensitive_info_filter_enabled (lib : pylib) (table : gmap string setting) : value :=
  get_setting lib table "sensitive_info_filter_enabled" (VBool false).

Definition is_child_safety_enabled (lib : pylib) (table : gmap string setting) : value :=
  get_setting lib table "child_safety_enabled" (VBool true).

Definition is_distilled_context_enabled (lib : pylib) (table : gmap string setting) : value :=
  get_setting lib table "distilled_context_enabled" (VBool false).

(** [get_child_system_prompt()], [get_teen_system_prompt()] and
    [get_age_based_system_prompt(age_group)]. *)
Definition get_child_system_prompt (lib : pylib) (table : gmap string setting) : value :=
  if negb (truthy (is_child_safety_enabled lib table)) then VNone
  else get_setting lib table "child_system_prompt" VNone.

Definition get_teen_system_prompt (lib : pylib) (table : gmap string setting) : value :=
  if negb (truthy (is_child_safety_enabled lib table)) then VNone
  else get_setting lib table "teen_system_prompt" VNone.

Definition get_age_based_system_prompt (lib : pylib) (table : gmap string setting)
           (age_group : string) : value :=
  if String.eqb age_group "child" then get_child_system_prompt lib table
  else if String.eqb age_group "teen" then get_teen_system_prompt lib table
  else VNone.

(** What [str] and [json.dumps] make of a parsed JSON document. *)
Record dumper : Type :=
  { str_of_json : string -> string;
    json_dumps : value -> string }.

(** [str(value)]. *)
Definition py_str (out : dumper) (v : value) : string :=
  match v with
  | VNone => "None"
  | VStr s => s
  | VBool b => if b then "True" else "False"
  | VInt z => pretty z
  | VJson raw _ => str_of_json out raw
  end.

(** [set_typed_value(value)]. *)
Definition set_typed_value (out : dumper) (row : setting) (v : value) : setting :=
  {| setting_value :=
       if String.eqb (setting_type row) "boolean" then
         Some (if truthy v then "true" else "false")
       else if String.eqb (setting_type row) "integer" then Some (py_str out v)
       else if String.eqb (setting_type row) "json" then Some (json_dumps out v)
       else match v with
            | VNone => None
            | _ => Some (py_str out v)
            end;
     setting_type := setting_type row;
     description := description row |}.

(** [set_setting(key, value, setting_type, description)]: a row that is
    there keeps its type; [commit_error] is what [db.session.commit()]
    raises, if it does, and the table then keeps its rows. *)
Definition set_setting (out : dumper) (commit_error : option string)
           (table : gmap string setting) (key : string) (v : value)
           (type_of_new_row : string) (new_description : option string)
  : string + gmap string setting :=
  let row :=
    match table !! key with
    | Some existing => existing
    | None => {| setting_value := None; setting_type := type_of_new_row;
                 description := new_description |}
    end in
  let row := set_typed_value out row v in
  let row :=
    match new_description with
    | Some (String _ _ as d) =>
        {| setting_value := setting_value row; setting_type := setting_type row;
           description := Some d |}
    | _ => row
    end in
  match commit_error with
  | Some e => inl e
  | None => inr (<[key := row]> table)
  end.

(** [set_distilled_context_enabled(enabled)]. *)
Definition set_distilled_context_enabled (out : dumper) (commit_error : option string)
           (table : gmap string setting) (enabled : bool) : bool * gmap string setting :=
  match set_setting out commit_error table "distilled_context_enabled" (VBool enabled)
                    "boolean" (Some "Enable distilled context for longer conversations") with
  | inr table' => (true, table')
  | inl _ => (false, table)
  end.

(** [set_system_model_id(provider, model_id)]. *)
Definition set_system_model_id (out : dumper) (commit_error : option string)
           (table : gmap string setting) (provider model_id : string)
  : bool * gmap string setting :=
  if negb (existsb (String.eqb provider) SUPPORTED_MODEL_PROVIDERS) then (false, table)
  else
    match set_setting out commit_error table ("system_model_id_" ++ provider)%string
                      (VStr (match model_id with
                             | EmptyString => ""
                             | _ => text (strip (chars model_id))
                             end))
                      "string" (Some ("System model ID for " ++ provider)%string) with
    | inr table' => (true, table')
    | inl _ => (false, table)
    end.

(** [set_local_model_url(provider, url)]. *)
Definition set_local_model_url (out : dumper) (commit_error : option string)
           (table : gmap string setting) (provider url : string)
  : bool * gmap string setting :=
  if negb (existsb (String.eqb provider) ["lm_studio"; "ollama"]) then (false, table)
  else
    match set_setting out commit_error table ("system_model_url_" ++ provider)%string
                      (VStr (match url with
                             | EmptyString => dict_get provider DEFAULT_LOCAL_URLS
                             | _ => text (strip (chars url))
                             end))
                      "string" (Some ("System URL for " ++ provider)%string) with
    | inr table' => (true, table')
    | inl _ => (false, table)
    end.

(** [set_system_api_key(provider, api_key)]: an empty key removes the row,
    outside the try block ([inl] is the exception of that commit). *)
Definition set_system_api_key (out : dumper) (cipher_encrypt : EncryptionService.cipher)
           (commit_error : option string) (table : gmap string setting)
           (provider api_key : string) : string + (bool * gmap string setting) :=
  if negb (supported provider) then inr (false, table)
  else
    match api_key with
    | EmptyString =>
        match table !! api_key_setting provider with
        | Some _ =>
            match commit_error with
            | Some e => inl e
            | None => inr (true, delete (api_key_setting provider) table)
            end
        | None => inr (true, table)
        end
    | _ =>
        match EncryptionService.encrypt cipher_encrypt api_key with
        | None => inr (false, table)
        | Some encrypted_key =>
            match set_setting out commit_error table (api_key_setting provider)
                              (VStr encrypted_key) "string"
                              (Some ("Encrypted system API key for " ++ provider)%string) with
            | inr table' => inr (true, table')
            | inl _ => inr (false, table)
            end
        end
    end.

End AdminSettings.

(** ** Documents: app/models/document.py *)
Module Document.

(** A row of [documents].  [status] is one of pending, processing, ready,
    failed; timestamps are seconds of a clock. *)
Record t : Type :=
  { id : Z;
    user_id : Z;
    original_filename : string;
    stored_filename : string;
    file_path : string;
    mime_type : string;
    file_size : Z;
    file_type : string;
    status : string;
    error_message : option string;
    chunk_count : Z;
    total_tokens : Z;
    embedding_model : option string;
    processed_at : option Z }.

Definition mark_processing (d : t) : t :=
  {| id := id d; user_id := user_id d; original_filename := original_filename d;
     stored_filename := stored_filename d; file_path := file_path d;
     mime_type := mime_type d; file_size := file_size d; file_type := file_type d;
     status := "processing";
     error_message := None;
     chunk_count := chunk_count d; total_tokens := total_tokens d;
     embedding_model := embedding_model d; processed_at := processed_at d |}.

Definition mark_ready (d : t) (n_chunks n_tokens : Z) (model : option string) (now : Z) : t :=
  {| id := id d; user_id := user_id d; original_filename := original_filename d;
     stored_filename := stored_filename d; file_path := file_path d;
     mime_type := mime_type d; file_size := file_size d; file_type := file_type d;
     status := "ready";
     error_message := None;
     chunk_count := n_chunks; total_tokens := n_tokens;
     embedding_model := model; processed_at := Some now |}.

Definition mark_failed (d : t) (message : string) : t :=
  {| id := id d; user_id := user_id d; original_filename := original_filename d;
     stored_filename := stored_filename d; file_path := file_path d;
     mime_type := mime_type d; file_size := file_size d; file_type := file_type d;
     status := "failed";
     error_message := Some message;
     chunk_count := chunk_count d; total_tokens := total_tokens d;
     embedding_model := embedding_model d; processed_at := processed_at d |}.

Definition is_ready (d : t) : bool := String.eqb (status d) "ready".

(** Every name [hasattr(Document, name)] holds for: the columns, the
    relationships, the properties and methods of the class, and what
    [db.Model] gives every model. *)
Definition attributes : list string :=
  ["id"; "user_id"; "original_filename"; "stored_filename"; "file_path"; "mime_type";
   "file_size"; "file_type"; "status"; "error_message"; "chunk_count"; "total_tokens";
   "embedding_model"; "created_at"; "updated_at"; "processed_at"; "user"; "chunks";
   "to_dict"; "is_ready"; "is_processing"; "has_failed"; "mark_processing";
   "mark_ready"; "mark_failed"; "get_file_type_from_mime"; "get_supported_mime_types";
   "query"; "query_class"; "metadata"; "registry"].

(** A keyword argument of the constructor. *)
Inductive kwarg : Type :=
| KNone
| KInt (z : Z)
| KStr (s : string).

Fixpoint lookup_kw (name : string) (kwargs : list (string * kwarg)) : kwarg :=
  match kwargs with
  | [] => KNone
  | (k, v) :: rest => if String.eqb k name then v else lookup_kw name rest
  end.

Definition kw_int (default : Z) (v : kwarg) : Z :=
  match v with KInt z => z | _ => default end.
Definition kw_str (v : kwarg) : string :=
  match v with KStr s => s | _ => "" end.

(** The constructor every declarative model inherits: a keyword that is
    not an attribute of the class raises [TypeError]; the others are set.
    The primary key is assigned when the row is flushed. *)
Definition init (kwargs : list (string * kwarg)) : string + t :=
  match List.find (fun kv => negb (existsb (String.eqb (fst kv)) attributes)) kwargs with
  | Some (k, _) =>
      inl ("'" ++ k ++ "' is an invalid keyword argument for Document")%string
  | None =>
      inr {| id := 0;
             user_id := kw_int 0 (lookup_kw "user_id" kwargs);
             original_filename := kw_str (lookup_kw "original_filename" kwargs);
             stored_filename := kw_str (lookup_kw "stored_filename" kwargs);
             file_path := kw_str (lookup_kw "file_path" kwargs);
             mime_type := kw_str (lookup_kw "mime_type" kwargs);
             file_size := kw_int 0 (lookup_kw "file_size" kwargs);
             file_type := kw_str (lookup_kw "file_type" kwargs);
             status := match lookup_kw "status" kwargs with
                       | KStr s => s
                       | _ => "pending"
                       end;
             error_message := None;
             chunk_count := kw_int 0 (lookup_kw "chunk_count" kwargs);
             total_tokens := kw_int 0 (lookup_kw "total_tokens" kwargs);
             embedding_model := None;
             processed_at := None |}
  end.

End Document.

Module DocumentChunk.

(** A row of [document_chunks]. *)
Record t : Type :=
  { document_id : Z;
    chunk_index : Z;
    content : string;
    token_count : Z;
    start_char : option Z;
    end_char : option Z;
    page_number : option Z;
    chroma_id : string }.

End DocumentChunk.

(** ** Vector store: app/services/vector_store.py *)
Module VectorStore.
Import Str.

(** An embedding vector; its components are floats in the code and
    rationals here. *)
Definition embedding : Type := list QArith_base.Q.

(** The metadata stored with a vector. *)
Record metadata : Type :=
  { md_document_id : Z;
    md_chunk_index : Z;
    md_page_number : Z;
    md_token_count : Z;
    md_start_char : Z;
    md_end_char : Z }.

(** One record of a ChromaDB collection. *)
Record entry : Type :=
  { e_id : string;
    e_embedding : embedding;
    e_document : string;
    e_metadata : metadata }.

(** The persistent client: whether [get_client()] yields one, and the
    collections, [user_<id>] being keyed by the user id. *)
Record store : Type :=
  { client : bool;
    collections : gmap Z (list entry) }.

(** What the ChromaDB library does and the code cannot see: the error
    [collection.add] or [collection.delete] raises, if any, and the hits of
    a nearest-neighbour query with their distances ([inl] when it raises). *)
Record chroma : Type :=
  { add_error : option string;
    delete_error : option string;
    nearest : list entry -> embedding -> Z -> option (list Z)
              -> string + list (entry * QArith_base.Q) }.

(** A chunk dictionary once [process_document] has set its index. *)
Record indexed_chunk : Type :=
  { ic_index : Z;
    ic_chunk : ChunkingService.chunk }.

Definition with_collection (st : store) (user : Z) (c : list entry) : store :=
  {| client := client st; collections := <[user := c]> (collections st) |}.

(** [get_user_collection(user_id, create)]: the collection, if any, and the
    store, in which [get_or_create_collection] may have created it. *)
Definition get_user_collection (st : store) (user : Z) (create : bool)
  : option (list entry) * store :=
  if client st then
    match collections st !! user with
    | Some c => (Some c, st)
    | None => if create then (Some [], with_collection st user []) else (None, st)
    end
  else (None, st).

Record add_result : Type :=
  { add_success : bool;
    chroma_ids : list string;
    add_err : option string }.

Definition metadata_of (document_id : Z) (c : indexed_chunk) : metadata :=
  {| md_document_id := document_id;
     md_chunk_index := ic_index c;
     md_page_number := match ChunkingService.page_number (ic_chunk c) with
                       | Some p => p
                       | None => 0%Z
                       end;
     md_token_count := ChunkingService.token_count (ic_chunk c);
     md_start_char := ChunkingService.start_char (ic_chunk c);
     md_end_char := ChunkingService.end_char (ic_chunk c) |}.

Fixpoint zip_entries (document_id : Z) (ids : list string) (chunks : list indexed_chunk)
         (embeddings : list embedding) : list entry :=
  match ids, chunks, embeddings with
  | i :: ids', c :: chunks', v :: embeddings' =>
      {| e_id := i; e_embedding := v;
         e_document := ChunkingService.content (ic_chunk c);
         e_metadata := metadata_of document_id c |}
      :: zip_entries document_id ids' chunks' embeddings'
  | _, _, _ => []
  end.

(** [add_chunks(user_id, chunks, embeddings, document_id)]; [fresh] are the
    values [uuid.uuid4()] returns, one per chunk.  When [collection.add]
    raises, the collection is taken to be as before the call: what the
    library has written by then is not visible in this code. *)
Definition add_chunks (lib : chroma) (fresh : list string) (st : store) (user : Z)
           (chunks : list indexed_chunk) (embeddings : list embedding) (document_id : Z)
  : add_result * store :=
  if negb (length chunks =? length embeddings)%nat then
    ({| add_success := false; chroma_ids := [];
        add_err := Some "Chunks and embeddings count mismatch" |}, st)
  else
    match get_user_collection st user true with
    | (None, st1) =>
        ({| add_success := false; chroma_ids := [];
            add_err := Some "Could not get user collection" |}, st1)
    | (Some c, st1) =>
        match add_error lib with
        | Some e =>
            ({| add_success := false; chroma_ids := [];
                add_err := Some ("Failed to add chunks: " ++ e)%string |}, st1)
        | None =>
            let ids := firstn (length chunks) fresh in
            ({| add_success := true; chroma_ids := ids; add_err := None |},
             with_collection st1 user (c ++ zip_entries document_id ids chunks embeddings))
        end
    end.

Record hit : Type :=
  { h_chroma_id : string;
    h_content : string;
    h_metadata : metadata;
    h_distance : QArith_base.Q;
    h_similarity : QArith_base.Q }.

Record query_result : Type :=
  { results : list hit;
    error : option string }.

(** [1 / (1 + distance)]. *)
Definition similarity_of (distance : QArith_base.Q) : QArith_base.Q :=
  QArith_base.Qdiv (QArith_base.Qmake 1 1)
                   (QArith_base.Qplus (QArith_base.Qmake 1 1) distance).

Definition format_hit (r : entry * QArith_base.Q) : hit :=
  {| h_chroma_id := e_id (fst r);
     h_content := e_document (fst r);
     h_metadata := e_metadata (fst r);
     h_distance := snd r;
     h_similarity := similarity_of (snd r) |}.

(** [query(user_id, query_embedding, n_results, document_ids)]; an empty
    [document_ids] list is no filter. *)
Definition query (lib : chroma) (st : store) (user : Z) (query_embedding : embedding)
           (n_results : Z) (document_ids : option (list Z)) : query_result :=
  match get_user_collection st user false with
  | (None, _) => {| results := []; error := Some "User has no document collection" |}
  | (Some c, _) =>
      let where_filter :=
        match document_ids with
        | Some (d :: ds) => Some (d :: ds)
        | _ => None
        end in
      match nearest lib c query_embedding n_results where_filter with
      | inr raw => {| results := map format_hit raw; error := None |}
      | inl e => {| results := []; error := Some ("Query failed: " ++ e)%string |}
      end
  end.

Record delete_result : Type :=
  { del_success : bool;
    deleted_count : Z;
    del_error : option string }.

Definition of_document (document_id : Z) (e : entry) : bool :=
  (md_document_id (e_metadata e) =? document_id)%Z.

(** [delete_document(user_id, document_id)]. *)
Definition delete_document (lib : chroma) (st : store) (user document_id : Z)
  : delete_result * store :=
  match get_user_collection st user false with
  | (None, _) => ({| del_success := true; deleted_count := 0; del_error := None |}, st)
  | (Some c, _) =>
      match List.filter (of_document document_id) c with
      | [] => ({| del_success := true; deleted_count := 0; del_error := None |}, st)
      | found =>
          match delete_error lib with
          | Some e =>
              ({| del_success := false; deleted_count := 0;
                  del_error := Some ("Delete failed: " ++ e)%string |}, st)
          | None =>
              ({| del_success := true; deleted_count := len found; del_error := None |},
               with_collection st user
                 (List.filter (fun e => negb (of_document document_id e)) c))
          end
      end
  end.

(** [delete_chunks_by_ids(user_id, chroma_ids)]. *)
Definition delete_chunks_by_ids (lib : chroma) (st : store) (user : Z) (ids : list string)
  : (bool * option string) * store :=
  match get_user_collection st user false with
  | (None, _) => ((true, None), st)
  | (Some c, _) =>
      match delete_error lib with
      | Some e => ((false, Some e), st)
      | None =>
          ((true, None),
           with_collection st user
             (List.filter (fun e => negb (existsb (String.eqb (e_id e)) ids)) c))
      end
  end.

(** The vectors the store holds for a document of a user. *)
Definition vectors_of (st : store) (user document_id : Z) : list entry :=
  match collections st !! user with
  | Some c => List.filter (of_document document_id) c
  | None => []
  end.

End VectorStore.

(** ** Ingestion and retrieval: app/services/rag_service.py *)
Module RAGService.
Import Str VectorStore.

Local Open Scope Z_scope.

Definition DEFAULT_TOP_K : Z := 5.
Definition DEFAULT_CHUNK_SIZE : Z := 512.
Definition DEFAULT_CHUNK_OVERLAP : Z := 50.

(** What [get_settings()] returns, already typed. *)
Record settings : Type :=
  { rag_enabled : bool;
    rag_default_chunk_size : Z;
    rag_default_overlap : Z;
    rag_default_top_k : Z;
    rag_embedding_model : string;
    rag_max_documents_per_user : Z;
    rag_min_similarity_score : QArith_base.Q }.

(** The result dictionaries of the collaborators. *)
Record extraction : Type :=
  { ex_text : string;
    ex_pages : list string;
    ex_error : option string }.

Record embedding_batch : Type :=
  { eb_embeddings : list embedding;
    eb_model : option string;
    eb_error : option string }.

Record embedding_one : Type :=
  { eo_embedding : option embedding;
    eo_error : option string }.

(** The collaborators of the service, whose code reads files, settings
    rows and remote services: they are taken as given. *)
Record env : Type :=
  { is_enabled : bool;
    get_settings : settings;
    extract : string -> string -> extraction;
    get_embeddings_batch : list string -> string -> embedding_batch;
    get_embedding : string -> string -> embedding_one;
    get_provider_for_model : string -> string;
    get_tokenizer : ChunkingService.tokenizer_t;
    chroma_lib : chroma;
    uuid4 : nat -> string;
    utcnow : Z;
    secure_filename : string -> string;
    guess_type : string -> option string;
    save_error : option string;
    getsize : string -> Z }.

(** A call the upload path makes to code outside the service, recorded in
    the order of the calls. *)
Inductive call : Type :=
| FileSave (path : string)
| DocumentInit (kwargs : list (string * Document.kwarg)).

(** The state the service works on: the committed rows of the two tables,
    the vector store, how many uuids were drawn, the outcome of each coming
    [db.session.commit()] ([Some e]: it raises [e]; it succeeds once the list
    is used up), and the calls recorded so far.  The head of [commits] is
    also where the state of the session is kept: after a commit has raised
    it is [Some pending_rollback] until the session is rolled back. *)
Record world : Type :=
  { documents : gmap Z Document.t;
    document_chunks : list DocumentChunk.t;
    vectors : store;
    uuids_drawn : nat;
    commits : list (option string);
    calls : list call }.

(** Code that changes the state and returns or raises. *)
Inductive outcome (A : Type) : Type :=
| Returns (a : A)
| Raises (e : string).
Arguments Returns {A} a.
Arguments Raises {A} e.

Definition M (A : Type) : Type := world -> outcome A * world.

Definition ret {A : Type} (a : A) : M A := fun w => (Returns a, w).

Definition raise {A : Type} (e : string) : M A := fun w => (Raises e, w).

Definition bind {A B : Type} (c : M A) (k : A -> M B) : M B :=
  fun w => match c w with
           | (Returns a, w1) => k a w1
           | (Raises e, w1) => (Raises e, w1)
           end.

(** [try: body except Exception as e: handler(e)]. *)
Definition try_except {A : Type} (body : M A) (handler : string -> M A) : M A :=
  fun w => match body w with
           | (Returns a, w1) => (Returns a, w1)
           | (Raises e, w1) => handler e w1
           end.

Notation "'let*' x ':=' c 'in' k" := (bind c (fun x => k))
  (at level 10, x name, c at level 100, k at level 200, only parsing).

(** What [str] gives for SQLAlchemy's [PendingRollbackError]: the session
    has seen a commit raise and was not rolled back since. *)
Definition pending_rollback : string :=
  "This Session's transaction has been rolled back due to a previous exception during flush. To begin a new transaction with this Session, first issue Session.rollback().".

(** [db.session.commit()] with the session holding the changed document
    [doc] and the added chunk rows [rows].  When it raises, nothing of the
    session reaches the tables, and the session is left in need of a
    rollback: as long as [db.session.rollback()] is not called, which
    [process_document] never does, every further commit raises
    [PendingRollbackError]. *)
Definition commit (doc : Document.t) (rows : list DocumentChunk.t) : M unit :=
  fun w =>
    match commits w with
    | Some e :: rest =>
        (Raises e,
         {| documents := documents w; document_chunks := document_chunks w;
            vectors := vectors w; uuids_drawn := uuids_drawn w;
            commits := Some pending_rollback :: rest;
            calls := calls w |})
    | _ =>
        (Returns tt,
         {| documents := <[Document.id doc := doc]> (documents w);
            document_chunks := document_chunks w ++ rows;
            vectors := vectors w; uuids_drawn := uuids_drawn w;
            commits := tl (commits w); calls := calls w |})
    end.

(** [VectorStore.add_chunks] run on the state, drawing one uuid per chunk. *)
Definition store_add_chunks (E : env) (user : Z) (chunks : list indexed_chunk)
           (embeddings : list embedding) (document_id : Z) : M add_result :=
  fun w =>
    let fresh := map (fun i => uuid4 E (uuids_drawn w + i)%nat) (seq 0 (length chunks)) in
    let '(r, st) := add_chunks (chroma_lib E) fresh (vectors w) user chunks embeddings
                               document_id in
    (Returns r,
     {| documents := documents w; document_chunks := document_chunks w;
        vectors := st;
        uuids_drawn := if add_success r then (uuids_drawn w + length chunks)%nat
                       else uuids_drawn w;
        commits := commits w; calls := calls w |}).

Record result : Type :=
  { success : bool;
    chunk_count : Z;
    total_tokens : Z;
    error : option string }.

Definition failure (e : option string) : result :=
  {| success := false; chunk_count := 0; total_tokens := 0; error := e |}.

(** The truth value of an optional string. *)
Definition nonempty (o : option string) : option string :=
  match o with
  | Some EmptyString => None
  | _ => o
  end.

(** [for i, chunk in enumerate(chunks): chunk['chunk_index'] = i]. *)
Fixpoint enumerate (i : Z) (chunks : list ChunkingService.chunk) : list indexed_chunk :=
  match chunks with
  | [] => []
  | c :: rest => {| ic_index := i; ic_chunk := c |} :: enumerate (i + 1) rest
  end.

(** The rows of step 5: one per chunk, with [chroma_ids[i]]; [None] when
    the index is out of range. *)
Fixpoint chunk_rows (document_id : Z) (chunks : list indexed_chunk) (ids : list string)
  : option (list DocumentChunk.t) :=
  match chunks with
  | [] => Some []
  | c :: rest =>
      match ids with
      | [] => None
      | i :: ids' =>
          match chunk_rows document_id rest ids' with
          | None => None
          | Some rows =>
              Some ({| DocumentChunk.document_id := document_id;
                       DocumentChunk.chunk_index := ic_index c;
                       DocumentChunk.content := ChunkingService.content (ic_chunk c);
                       DocumentChunk.token_count :=
                         ChunkingService.token_count (ic_chunk c);
                       DocumentChunk.start_char :=
                         Some (ChunkingService.start_char (ic_chunk c));
                       DocumentChunk.end_char :=
                         Some (ChunkingService.end_char (ic_chunk c));
                       DocumentChunk.page_number :=
                         ChunkingService.page_number (ic_chunk c);
                       DocumentChunk.chroma_id := i |} :: rows)
          end
      end
  end.

Definition sum_tokens (chunks : list indexed_chunk) : Z :=
  fold_left (fun n c => n + ChunkingService.token_count (ic_chunk c)) chunks 0.

(** The try block of [process_document]; [document] is the document as
    committed in state processing. *)
Definition process_body (E : env) (document : Document.t) : M result :=
  let document_id := Document.id document in
  let chunk_size := rag_default_chunk_size (get_settings E) in
  let chunk_overlap := rag_default_overlap (get_settings E) in
  let embedding_provider := rag_embedding_model (get_settings E) in
  let extraction_result :=
    extract E (Document.file_path document) (Document.file_type document) in
  match nonempty (ex_error extraction_result) with
  | Some e =>
      let* _ := commit (Document.mark_failed document ("Extraction failed: " ++ e)%string) [] in
      ret (failure (Some e))
  | None =>
      if negb (ChunkingService.nonblank (chars (ex_text extraction_result))) then
        let* _ := commit (Document.mark_failed document
                       "No text content extracted from document") [] in
        ret (failure (Some "No text content in document"%string))
      else
        let chunks0 :=
          ChunkingService.chunk_document
            (ex_text extraction_result) chunk_size chunk_overlap
            (match ex_pages extraction_result with [] => None | ps => Some ps end)
            (get_tokenizer E) in
        match chunks0 with
        | [] =>
            let* _ := commit (Document.mark_failed document
                           "Failed to create chunks from document") [] in
            ret (failure (Some "No chunks created"%string))
        | _ =>
            let chunks := enumerate 0 chunks0 in
            let chunk_texts := map (fun c => ChunkingService.content (ic_chunk c)) chunks in
            let embedding_result := get_embeddings_batch E chunk_texts embedding_provider in
            match nonempty (eb_error embedding_result) with
            | Some e =>
                let* _ := commit (Document.mark_failed document
                               ("Embedding failed: " ++ e)%string) [] in
                ret (failure (Some e))
            | None =>
                let embeddings := eb_embeddings embedding_result in
                if negb (length embeddings =? length chunks)%nat then
                  let* _ := commit (Document.mark_failed document
                                 "Embedding count mismatch") [] in
                  ret (failure (Some "Embedding count mismatch"%string))
                else
                  let* store_result := store_add_chunks E (Document.user_id document) chunks
                                                   embeddings document_id in
                  if negb (add_success store_result) then
                    let* _ := commit (Document.mark_failed document
                                   ("Vector store failed: "
                                    ++ default "None" (add_err store_result))%string) [] in
                    ret (failure (add_err store_result))
                  else
                    match chunk_rows document_id chunks (chroma_ids store_result) with
                    | None => raise "list index out of range"
                    | Some rows =>
                        let total := sum_tokens chunks in
                        let* _ := commit (Document.mark_ready document (len chunks) total
                                       (eb_model embedding_result) (utcnow E)) rows in
                        ret {| success := true; chunk_count := len chunks;
                               total_tokens := total; error := None |}
                    end
            end
        end
  end.

(** [process_document(document_id)]. *)
Definition process_document (E : env) (document_id : Z) : M result :=
  fun w =>
    match documents w !! document_id with
    | None => (Returns (failure (Some "Document not found"%string)), w)
    | Some document0 =>
        let document := Document.mark_processing document0 in
        (let* _ := commit document [] in
         try_except (process_body E document)
                    (fun e =>
                       let* _ := commit (Document.mark_failed document e) [] in
                       ret (failure (Some e)))) w
    end.

(** [retrieve_context(user_id, query, top_k, min_score, document_ids,
    model_provider)]. *)
Record retrieved : Type :=
  { r_content : string;
    r_document_id : Z;
    r_document_name : option string;
    r_chunk_index : Z;
    r_page_number : Z;
    r_similarity : QArith_base.Q;
    r_token_count : Z }.

Definition retrieve_context (E : env) (w : world) (user : Z) (query_text : string)
           (top_k : option Z) (min_score : option QArith_base.Q)
           (document_ids : option (list Z)) (model_provider : option string)
  : list retrieved :=
  if negb (is_enabled E) then []
  else
    let k := default (rag_default_top_k (get_settings E)) top_k in
    let s := default (rag_min_similarity_score (get_settings E)) min_score in
    let embedding_provider :=
      match nonempty model_provider with
      | Some p => get_provider_for_model E p
      | None => rag_embedding_model (get_settings E)
      end in
    let embedding_result := get_embedding E query_text embedding_provider in
    match nonempty (eo_error embedding_result) with
    | Some _ => []
    | None =>
        match eo_embedding embedding_result with
        | None | Some [] => []
        | Some query_embedding =>
            let query_result :=
              query (chroma_lib E) (vectors w) user query_embedding k document_ids in
            match nonempty (VectorStore.error query_result) with
            | Some _ => []
            | None =>
                map (fun h =>
                       let doc_id := md_document_id (h_metadata h) in
                       {| r_content := h_content h;
                          r_document_id := doc_id;
                          r_document_name :=
                            if doc_id =? 0 then None
                            else Document.original_filename <$> (documents w !! doc_id);
                          r_chunk_index := md_chunk_index (h_metadata h);
                          r_page_number := md_page_number (h_metadata h);
                          r_similarity := h_similarity h;
                          r_token_count := md_token_count (h_metadata h) |})
                    (List.filter (fun h => QArith_base.Qle_bool s (h_similarity h))
                                 (results query_result))
            end
        end
    end.

(** [get_user_document_count(user_id)]. *)
Definition get_user_document_count (w : world) (user : Z) : Z :=
  len (List.filter (fun kv => (Document.user_id (snd kv) =? user))
                   (map_to_list (documents w))).

(** [can_upload_document(user_id)]. *)
Definition can_upload_document (E : env) (w : world) (user : Z) : bool * option string :=
  if negb (is_enabled E) then (false, Some "RAG is disabled"%string)
  else if rag_max_documents_per_user (get_settings E) <=? get_user_document_count w user
       then (false, Some ("Maximum document limit reached ("
                          ++ pretty (rag_max_documents_per_user (get_settings E))
                          ++ ")")%string)
       else (true, None).

(** [Path(name).suffix]: the last dot of the final path component and what
    follows it, unless that dot is the first or the last character. *)
Definition final_component (s : list ascii) : list ascii :=
  List.last (split_on ["/"%char] s) [].

Definition path_suffix (name : string) : string :=
  let n := final_component (chars name) in
  match rev (split_on ["."%char] n) with
  | ext :: _ :: _ =>
      if ((length ext =? 0)%nat || (length ext + 1 =? length n)%nat)%bool then ""
      else text ("."%char :: ext)
  | _ => ""
  end.

(** [s.strip('.')] and [s.lower()]. *)
Fixpoint lstrip_dots (s : list ascii) : list ascii :=
  match s with
  | c :: s' => if Chr.eqb c "." then lstrip_dots s' else s
  | [] => []
  end.

Definition strip_dots (s : string) : string :=
  text (rev (lstrip_dots (rev (lstrip_dots (chars s))))).

Definition lower (s : string) : string := text (map Chr.lower (chars s)).

(** [DocumentExtractor.SUPPORTED_TYPES] and [is_supported]. *)
Definition SUPPORTED_TYPES : list string :=
  ["pdf"; "txt"; "md"; "csv"; "json"; "docx"; "xlsx"].

Definition is_supported (file_type : string) : bool :=
  existsb (String.eqb (strip_dots (lower file_type))) SUPPORTED_TYPES.

(** The file object of the request: [None] stands for a missing one. *)
Record upload : Type := { filename : string }.

Record save_result : Type :=
  { s_success : bool;
    s_document_id : option Z;
    s_error : option string }.

Definition refused (e : option string) : save_result :=
  {| s_success := false; s_document_id := None; s_error := e |}.

Definition record_call (c : call) : M unit :=
  fun w =>
    (Returns tt,
     {| documents := documents w; document_chunks := document_chunks w;
        vectors := vectors w; uuids_drawn := uuids_drawn w; commits := commits w;
        calls := calls w ++ [c] |}).

Definition draw_uuid (E : env) : M string :=
  fun w =>
    (Returns (uuid4 E (uuids_drawn w)),
     {| documents := documents w; document_chunks := document_chunks w;
        vectors := vectors w; uuids_drawn := S (uuids_drawn w); commits := commits w;
        calls := calls w |}).

(** [file.save(path)]. *)
Definition file_save (E : env) (path : string) : M unit :=
  let* _ := record_call (FileSave path) in
  match save_error E with
  | Some e => raise e
  | None => ret tt
  end.

(** The call of the [Document] constructor with keyword arguments. *)
Definition new_document (kwargs : list (string * Document.kwarg)) : M Document.t :=
  let* _ := record_call (DocumentInit kwargs) in
  match Document.init kwargs with
  | inl e => raise e
  | inr d => ret d
  end.

(** [db.session.add(document); db.session.commit()]: the row gets the next
    primary key. *)
Definition next_id (w : world) : Z :=
  1 + fold_right Z.max 0 (map fst (map_to_list (documents w))).

Definition with_id (i : Z) (d : Document.t) : Document.t :=
  {| Document.id := i; Document.user_id := Document.user_id d;
     Document.original_filename := Document.original_filename d;
     Document.stored_filename := Document.stored_filename d;
     Document.file_path := Document.file_path d;
     Document.mime_type := Document.mime_type d;
     Document.file_size := Document.file_size d;
     Document.file_type := Document.file_type d;
     Document.status := Document.status d;
     Document.error_message := Document.error_message d;
     Document.chunk_count := Document.chunk_count d;
     Document.total_tokens := Document.total_tokens d;
     Document.embedding_model := Document.embedding_model d;
     Document.processed_at := Document.processed_at d |}.

Definition add_and_commit (d : Document.t) : M Z :=
  fun w =>
    match commit (with_id (next_id w) d) [] w with
    | (Returns _, w1) => (Returns (next_id w), w1)
    | (Raises e, w1) => (Raises e, w1)
    end.

Definition kw_opt (o : option Z) : Document.kwarg :=
  match o with Some z => Document.KInt z | None => Document.KNone end.

(** The try block of [save_uploaded_document]. *)
Definition save_body (E : env) (user : Z) (file : option upload) (project_id : option Z)
  : M save_result :=
  match file with
  | None => ret (refused (Some "No file provided"%string))
  | Some f =>
      match filename f with
      | EmptyString => ret (refused (Some "No file provided"%string))
      | _ =>
          let original_filename := secure_filename E (filename f) in
          let file_ext := strip_dots (lower (path_suffix original_filename)) in
          if negb (is_supported file_ext) then
            ret (refused (Some ("Unsupported file type. Supported: "
                                ++ text (join (chars ", ") (map chars SUPPORTED_TYPES)))%string))
          else
            let* u := draw_uuid E in
            let stored_filename := (u ++ "." ++ file_ext)%string in
            let relative_path := ("rag_documents/" ++ stored_filename)%string in
            let* _ := file_save E relative_path in
            let file_size := getsize E relative_path in
            let mime_type := default "application/octet-stream"%string
                                     (nonempty (guess_type E original_filename)) in
            let* document :=
              new_document
                [("user_id", Document.KInt user);
                 ("project_id", kw_opt project_id);
                 ("original_filename", Document.KStr original_filename);
                 ("stored_filename", Document.KStr stored_filename);
                 ("file_path", Document.KStr relative_path);
                 ("mime_type", Document.KStr mime_type);
                 ("file_size", Document.KInt file_size);
                 ("file_type", Document.KStr file_ext);
                 ("status", Document.KStr "pending")]%string in
            let* new_id := add_and_commit document in
            ret {| s_success := true; s_document_id := Some new_id; s_error := None |}
      end
  end.

(** [save_uploaded_document(user_id, file, project_id)]; the except clause
    rolls the session back, which holds nothing yet. *)
Definition save_uploaded_document (E : env) (user : Z) (file : option upload)
           (project_id : option Z) : M save_result :=
  fun w =>
    match can_upload_document E w user with
    | (false, reason) => (Returns (refused reason), w)
    | (true, _) =>
        try_except (save_body E user file project_id)
                   (fun e => ret (refused (Some e))) w
    end.

Record upload_result : Type :=
  { u_success : bool;
    u_document_id : option Z;
    u_chunk_count : Z;
    u_total_tokens : Z;
    u_error : option string }.

(** [upload_and_process(user_id, file, project_id)]. *)
Definition upload_and_process (E : env) (user : Z) (file : option upload)
           (project_id : option Z) : M upload_result :=
  let* save := save_uploaded_document E user file project_id in
  if negb (s_success save) then
    ret {| u_success := false; u_document_id := s_document_id save; u_chunk_count := 0;
           u_total_tokens := 0; u_error := s_error save |}
  else
    let* r := process_document E (default 0 (s_document_id save)) in
    ret {| u_success := success r; u_document_id := s_document_id save;
           u_chunk_count := chunk_count r; u_total_tokens := total_tokens r;
           u_error := error r |}.

(** The upload directory, as [delete_document] uses it: whether the file
    of a document is there, and what [os.remove] raises on it, if it does. *)
Record disk : Type :=
  { file_exists : string -> bool;
    remove_error : string -> option string }.

(** [VectorStore.delete_document] run on the state. *)
Definition store_delete_document (E : env) (user document_id : Z) : M delete_result :=
  fun w =>
    let '(r, st) := VectorStore.delete_document (chroma_lib E) (vectors w) user document_id in
    (Returns r,
     {| documents := documents w; document_chunks := document_chunks w;
        vectors := st; uuids_drawn := uuids_drawn w; commits := commits w;
        calls := calls w |}).

(** [db.session.delete(document)] and the commit: the relationship
    cascades to the chunk rows of the document.  When the commit raises,
    the except clause of [delete_document] rolls the session back, so that
    the session is usable again. *)
Definition commit_delete (document : Document.t) : M unit :=
  fun w =>
    match commits w with
    | Some e :: rest =>
        (Raises e,
         {| documents := documents w; document_chunks := document_chunks w;
            vectors := vectors w; uuids_drawn := uuids_drawn w; commits := rest;
            calls := calls w |})
    | _ =>
        (Returns tt,
         {| documents := delete (Document.id document) (documents w);
            document_chunks :=
              List.filter (fun r => negb (DocumentChunk.document_id r =? Document.id document))
                          (document_chunks w);
            vectors := vectors w; uuids_drawn := uuids_drawn w;
            commits := tl (commits w); calls := calls w |})
    end.

Record deletion : Type :=
  { d_success : bool;
    d_error : option string }.

(** [delete_document(document_id)]: the answer of the vector store is not
    looked at. *)
Definition delete_document (E : env) (D : disk) (document_id : Z) : M deletion :=
  fun w =>
    match documents w !! document_id with
    | None => (Returns {| d_success := false; d_error := Some "Document not found" |}, w)
    | Some document =>
        try_except
          (let* _ := store_delete_document E (Document.user_id document) document_id in
           let* _ :=
             (if file_exists D (Document.file_path document) then
                match remove_error D (Document.file_path document) with
                | Some e => raise e
                | None => ret tt
                end
              else ret tt) in
           let* _ := commit_delete document in
           ret {| d_success := true; d_error := None |})
          (fun e => ret {| d_success := false; d_error := Some e |}) w
    end.

End RAGService.

(** ** What a run of the ingestion pipeline computes on its way *)
Module IngestionSpec.
Import RAGService VectorStore.

Local Open Scope Z_scope.

(** The chunk rows persisted for a document. *)
Definition rows_of (w : world) (document_id : Z) : list DocumentChunk.t :=
  List.filter (fun r => DocumentChunk.document_id r =? document_id) (document_chunks w).

(** Steps 1 to 3 of [process_document] read nothing of the state: the
    extraction, the indexed chunks and the embeddings of a document. *)
Definition extraction_of (E : env) (d : Document.t) : extraction :=
  extract E (Document.file_path d) (Document.file_type d).

Definition chunks_of (E : env) (d : Document.t) : list indexed_chunk :=
  enumerate 0
    (ChunkingService.chunk_document
       (ex_text (extraction_of E d))
       (rag_default_chunk_size (get_settings E))
       (rag_default_overlap (get_settings E))
       (match ex_pages (extraction_of E d) with [] => None | ps => Some ps end)
       (get_tokenizer E)).

Definition batch_of (E : env) (d : Document.t) : embedding_batch :=
  get_embeddings_batch E
    (map (fun c => ChunkingService.content (ic_chunk c)) (chunks_of E d))
    (rag_embedding_model (get_settings E)).

(** The run gets as far as the vector store: extraction, chunking and
    embedding went through. *)
Definition reaches_store (E : env) (d : Document.t) : Prop :=
  nonempty (ex_error (extraction_of E d)) = None
  /\ ChunkingService.nonblank (chars (ex_text (extraction_of E d))) = true
  /\ chunks_of E d <> []
  /\ nonempty (eb_error (batch_of E d)) = None
  /\ length (eb_embeddings (batch_of E d)) = length (chunks_of E d).

(** The handles [add_chunks] draws in a state, and the vectors it inserts
    for a document. *)
Definition fresh_ids (E : env) (w : world) (n : nat) : list string :=
  map (fun i => uuid4 E (uuids_drawn w + i)%nat) (seq 0 n).

Definition inserted (E : env) (w : world) (d : Document.t) : list entry :=
  zip_entries (Document.id d) (fresh_ids E w (length (chunks_of E d)))
              (chunks_of E d) (eb_embeddings (batch_of E d)).

(** The primary key of a row is the key it is stored under. *)
Definition keyed (w : world) : Prop :=
  forall k d, documents w !! k = Some d -> Document.id d = k.

End IngestionSpec.

(** ** Sample collaborators to run the ingestion with *)
Module Samples.
Import RAGService VectorStore.

Local Open Scope Z_scope.

Definition sample_document_text : string :=
  "Alpha beta gamma delta. Epsilon zeta theta iota. Kappa lambda omicron sigma. Upsilon omega digamma koppa. Sampi heta stigma sho. One two three four five. The quick brown foxes jump over the lazy dogs every single morning before dawn. And then they rest.".

Definition lib0 : chroma :=
  {| add_error := None; delete_error := None; nearest := fun _ _ _ _ => inr [] |}.

(** Chunks of 12 tokens with overlap 6, one-component embeddings, no
    tokenizer, and a quota of [max_docs] documents. *)
Definition sample_env (max_docs : Z) : env :=
  {| is_enabled := true;
     get_settings :=
       {| rag_enabled := true; rag_default_chunk_size := 12; rag_default_overlap := 6;
          rag_default_top_k := 5; rag_embedding_model := "gemini";
          rag_max_documents_per_user := max_docs;
          rag_min_similarity_score := QArith_base.Qmake 7 10 |};
     extract := fun _ _ =>
       {| ex_text := sample_document_text; ex_pages := []; ex_error := None |};
     get_embeddings_batch := fun ts _ =>
       {| eb_embeddings := map (fun _ => [QArith_base.Qmake 1 1]) ts;
          eb_model := Some "gemini-embedding-001"; eb_error := None |};
     get_embedding := fun _ _ =>
       {| eo_embedding := Some [QArith_base.Qmake 1 1]; eo_error := None |};
     get_provider_for_model := fun _ => "gemini";
     get_tokenizer := None;
     chroma_lib := lib0;
     uuid4 := fun n => ("uuid-" ++ pretty (Z.of_nat n))%string;
     utcnow := 1000;
     secure_filename := fun s => s;
     guess_type := fun _ => Some "text/plain";
     save_error := None;
     getsize := fun _ => 10 |}.

Definition E0 : env := sample_env 50.

(** Document 1 of user 7, pending. *)
Definition doc1 : Document.t :=
  {| Document.id := 1; Document.user_id := 7; Document.original_filename := "a.txt";
     Document.stored_filename := "u.txt"; Document.file_path := "rag_documents/u.txt";
     Document.mime_type := "text/plain"; Document.file_size := 10;
     Document.file_type := "txt"; Document.status := "pending";
     Document.error_message := None; Document.chunk_count := 0;
     Document.total_tokens := 0; Document.embedding_model := None;
     Document.processed_at := None |}.

(** A state holding that document only, an empty vector store, and the
    outcomes [cs] of the coming commits. *)
Definition w0 (cs : list (option string)) : world :=
  {| documents := {[ 1 := doc1 ]}; document_chunks := [];
     vectors := {| client := true; collections := ∅ |};
     uuids_drawn := 0; commits := cs; calls := [] |}.

End Samples.

(** ** The fragment of Python the provider adapter runs on *)
Module Py.

Local Open Scope Z_scope.
#[local] Set Warnings "-register-all".

(** The objects [json.loads] builds.  A number with a fraction or an
    exponent is a float, kept as its literal; what the interpreter computes
    with floats is taken from the interpreter below. *)
Inductive value : Type :=
| PNone
| PBool (b : bool)
| PInt (z : Z)
| PFloat (literal : string)
| PStr (s : string)
| PList (items : list value)
| PDict (fields : list (string * value)).

Definition type_name (v : value) : string :=
  match v with
  | PNone => "NoneType"
  | PBool _ => "bool"
  | PInt _ => "int"
  | PFloat _ => "float"
  | PStr _ => "str"
  | PList _ => "list"
  | PDict _ => "dict"
  end.

(** The exceptions the interpreter raises on these objects, with the type
    of the object at fault. *)
Inductive fault : Type :=
| AttributeError (type : string) (name : string)
| TypeError (operation : string) (type : string)
| KeyError (key : string)
| IndexError
| UnicodeDecodeError.

(** Exceptions, by the except clause that catches them; [text] is
    [str(e)], and an [HTTPError] comes with the status code of the response. *)
Inductive exn : Type :=
| HTTPError (status_code : Z) (text : string)
| ConnectionError (text : string)
| Timeout (text : string)
| JSONDecodeError (text : string)
| Fault (f : fault)
| Exception (text : string).

Inductive res (A : Type) : Type :=
| Ok (a : A)
| Err (e : exn).
Arguments Ok {A} a.
Arguments Err {A} e.

Definition and_then {A B : Type} (c : res A) (k : A -> res B) : res B :=
  match c with
  | Ok a => k a
  | Err e => Err e
  end.

Notation "'let+' x ':=' c 'in' k" := (and_then c (fun x => k))
  (at level 10, x name, c at level 100, k at level 200, only parsing).

(** What belongs to the interpreter and its library: float arithmetic, the
    text of a fault, [json.loads]. *)
Record interpreter : Type :=
  { float_truthy : string -> bool;
    float_gt_int : string -> Z -> bool;
    float_add : value -> value -> string;
    fault_text : fault -> string;
    json_loads : string -> res value }.

Definition str (I : interpreter) (e : exn) : string :=
  match e with
  | HTTPError _ text | ConnectionError text | Timeout text
  | JSONDecodeError text | Exception text => text
  | Fault f => fault_text I f
  end.

(** [bool(v)]. *)
Definition truthy (I : interpreter) (v : value) : bool :=
  match v with
  | PNone => false
  | PBool b => b
  | PInt z => negb (z =? 0)
  | PFloat f => float_truthy I f
  | PStr s => match s with EmptyString => false | _ => true end
  | PList l => match l with [] => false | _ => true end
  | PDict d => match d with [] => false | _ => true end
  end.

Fixpoint lookup (key : string) (fields : list (string * value)) : option value :=
  match fields with
  | [] => None
  | (k, v) :: rest => if String.eqb k key then Some v else lookup key rest
  end.

Definition is_str (v : value) (s : string) : bool :=
  match v with
  | PStr t => String.eqb t s
  | _ => false
  end.

(** [key in v], for a string [key]. *)
Definition contains (key : string) (v : value) : res bool :=
  match v with
  | PDict d => Ok (match lookup key d with Some _ => true | None => false end)
  | PList l => Ok (existsb (fun x => is_str x key) l)
  | PStr s => Ok (0 <=? Str.find (chars key) (chars s))
  | _ => Err (Fault (TypeError "in" (type_name v)))
  end.

(** [v[key]], for a string [key]. *)
Definition getitem (v : value) (key : string) : res value :=
  match v with
  | PDict d => match lookup key d with
               | Some x => Ok x
               | None => Err (Fault (KeyError key))
               end
  | _ => Err (Fault (TypeError "subscript" (type_name v)))
  end.

(** [v[0]]. *)
Definition first_item (v : value) : res value :=
  match v with
  | PList l => match l with
               | x :: _ => Ok x
               | [] => Err (Fault IndexError)
               end
  | PStr s => match s with
              | String c _ => Ok (PStr (String c EmptyString))
              | EmptyString => Err (Fault IndexError)
              end
  | PDict _ => Err (Fault (KeyError "0"))
  | _ => Err (Fault (TypeError "subscript" (type_name v)))
  end.

(** [len(v)]. *)
Definition len (v : value) : res Z :=
  match v with
  | PList l => Ok (Str.len l)
  | PStr s => Ok (Str.len (chars s))
  | PDict d => Ok (Str.len d)
  | _ => Err (Fault (TypeError "len" (type_name v)))
  end.

(** [v.get(key, default)]: only a dict has the method. *)
Definition get (v : value) (key : string) (default : value) : res value :=
  match v with
  | PDict d => Ok (match lookup key d with Some x => x | None => default end)
  | _ => Err (Fault (AttributeError (type_name v) "get"))
  end.

Definition as_int (v : value) : option Z :=
  match v with
  | PBool b => Some (if b then 1 else 0)
  | PInt z => Some z
  | _ => None
  end.

Definition is_float (v : value) : bool :=
  match v with PFloat _ => true | _ => false end.

Definition is_number (v : value) : bool :=
  match v with PBool _ | PInt _ | PFloat _ => true | _ => false end.

(** [a + b]. *)
Definition add (I : interpreter) (a b : value) : res value :=
  match as_int a, as_int b with
  | Some x, Some y => Ok (PInt (x + y))
  | _, _ =>
      if (is_number a && is_number b)%bool then Ok (PFloat (float_add I a b))
      else match a, b with
           | PStr s, PStr t => Ok (PStr (s ++ t))
           | PList l, PList m => Ok (PList (l ++ m))
           | _, _ => Err (Fault (TypeError "+" (type_name b)))
           end
  end.

(** [v > n], for an int [n]. *)
Definition gt_int (I : interpreter) (v : value) (n : Z) : res bool :=
  match v with
  | PFloat f => Ok (float_gt_int I f n)
  | _ => match as_int v with
         | Some z => Ok (n <? z)
         | None => Err (Fault (TypeError ">" (type_name v)))
         end
  end.

(** [s += v], for a str [s]. *)
Definition concat (s : string) (v : value) : res string :=
  match v with
  | PStr t => Ok (s ++ t)%string
  | _ => Err (Fault (TypeError "+=" (type_name v)))
  end.

End Py.

(** ** Token counting: app/services/token_service.py *)
Module TokenService.
Import Str.

Local Open Scope Z_scope.

Definition CHARS_PER_TOKEN : Z := 4.

(** [count_tokens(text)]: the tokenizer is [None] when tiktoken could not
    be loaded, and its [encode] may raise. *)
Definition count_tokens (tokenizer : ChunkingService.tokenizer_t) (txt : string) : Z :=
  match txt with
  | EmptyString => 0
  | _ =>
      match tokenizer with
      | Some encode_len =>
          match encode_len (chars txt) with
          | Some n => n
          | None => len (chars txt) / CHARS_PER_TOKEN
          end
      | None => len (chars txt) / CHARS_PER_TOKEN
      end
  end.

End TokenService.

(** ** Provider adapter: app/services/ai_service.py *)
Module AIService.
Import Str Py.

Local Open Scope Z_scope.

Definition nl : string := String "010"%char EmptyString.

Definition nonempty_str (s : string) : bool :=
  match s with EmptyString => false | _ => true end.

(** [sub in s]. *)
Definition occurs (sub s : string) : bool := 0 <=? find (chars sub) (chars s).

(** *** Messages and attachments *)

(** [Attachment.to_dict()], as far as the adapter reads it. *)
Record attachment : Type :=
  { att_file_path : string;
    att_mime_type : string;
    att_file_type : string;
    att_original_filename : string }.

(** A message dictionary of the chat route; no [attachments] key is the
    empty list. *)
Record message : Type :=
  { role : string;
    content : string;
    attachments : list attachment }.

(** What [_get_attachment_content] returns. *)
Inductive attachment_content : Type :=
| Image (mime_type base64 filename : string)
| TextDocument (mime_type content filename : string).

(** The file system and the extractor, as the adapter uses them:
    [read_base64] is [None] when reading the file raises; [read_text] takes
    the encoding. *)
Record files : Type :=
  { join_path : string -> string -> string;
    path_exists : string -> bool;
    read_base64 : string -> option string;
    read_text : string -> string -> res string;
    extract : string -> string -> res RAGService.extraction }.

(** [_encode_image_to_base64(file_path)]. *)
Definition _encode_image_to_base64 (F : files) (file_path : string) : option string :=
  read_base64 F file_path.

Definition PLAIN_TEXT_TYPES : list string :=
  ["text/plain"; "text/csv"; "text/markdown"; "application/json"].

Definition EXTRACTED_TYPES : list string :=
  ["application/pdf";
   "application/vnd.openxmlformats-officedocument.wordprocessingml.document";
   "application/vnd.openxmlformats-officedocument.spreadsheetml.sheet";
   "application/msword";
   "application/vnd.ms-excel"].

(** [_get_attachment_content(attachment, upload_folder)]: every exception
    ends in [None]. *)
Definition _get_attachment_content (F : files) (a : attachment) (upload_folder : string)
  : option attachment_content :=
  let file_path := join_path F upload_folder (att_file_path a) in
  let mime_type := att_mime_type a in
  let filename := att_original_filename a in
  if negb (path_exists F file_path) then None
  else if String.eqb (att_file_type a) "image" then
    match _encode_image_to_base64 F file_path with
    | Some base64_data =>
        if nonempty_str base64_data then Some (Image mime_type base64_data filename) else None
    | None => None
    end
  else if String.eqb (att_file_type a) "document" then
    if existsb (String.eqb mime_type) PLAIN_TEXT_TYPES then
      match read_text F file_path "utf-8" with
      | Ok text_content => Some (TextDocument mime_type text_content filename)
      | Err (Fault UnicodeDecodeError) =>
          match read_text F file_path "latin-1" with
          | Ok text_content => Some (TextDocument mime_type text_content filename)
          | Err _ => None
          end
      | Err _ => None
      end
    else if existsb (String.eqb mime_type) EXTRACTED_TYPES then
      let suffix := RAGService.strip_dots (RAGService.lower (RAGService.path_suffix filename)) in
      let ext := if String.eqb suffix "doc" then "docx"
                 else if String.eqb suffix "xls" then "xlsx"
                 else suffix in
      match extract F file_path ext with
      | Err _ => None
      | Ok result =>
          match RAGService.nonempty (RAGService.ex_error result) with
          | Some _ => None
          | None =>
              if ChunkingService.nonblank (chars (RAGService.ex_text result))
              then Some (TextDocument "text/plain" (RAGService.ex_text result) filename)
              else None
          end
      end
    else None
  else None.

(** *** What is sent to a provider *)

Inductive part : Type :=
| Text (text : string)
| ImageUrl (url : string)
| ImageSource (media_type data : string)
| DocumentSource (data : string)
| InlineData (mime_type data : string).

Inductive wire_content : Type :=
| Plain (text : string)
| Parts (parts : list part).

Record wire_message : Type :=
  { wire_role : string;
    wire_body : wire_content;
    wire_images : list string }.

(** The [requests.post] call: url, key, and the payload. *)
Record request : Type :=
  { url : AdminSettings.value;
    api_key : string;
    model : AdminSettings.value;
    system : option string;
    wire_messages : list wire_message;
    include_usage : bool;
    timeout : Z }.

(** The [generate_content_stream] call of the Gemini SDK. *)
Record gemini_request : Type :=
  { g_api_key : string;
    g_model : AdminSettings.value;
    g_contents : list wire_message;
    g_system_instruction : option string }.

Definition file_text (filename content : string) : string :=
  nl ++ nl ++ "[File: " ++ filename ++ "]" ++ nl ++ content.

Definition data_url (mime_type base64 : string) : string :=
  "data:" ++ mime_type ++ ";base64," ++ base64.

(** The content list a message is turned into: its text, if any, then one
    part per attachment that could be read; [of_image] is the part an image
    becomes, if it is sent at all. *)
Definition content_parts (F : files) (upload_folder : string)
           (of_image : string -> string -> option part) (msg : message) : list part :=
  (if nonempty_str (content msg) then [Text (content msg)] else [])
  ++ flat_map (fun a =>
                 match _get_attachment_content F a upload_folder with
                 | Some (Image mime_type base64 _) =>
                     match of_image mime_type base64 with
                     | Some p => [p]
                     | None => []
                     end
                 | Some (TextDocument _ text_content filename) =>
                     [Text (file_text filename text_content)]
                 | None => []
                 end)
              (attachments msg).

(** An image attachment of the message could be read. *)
Definition has_image_content (F : files) (upload_folder : string) (msg : message) : bool :=
  existsb (fun a =>
             match _get_attachment_content F a upload_folder with
             | Some (Image _ _ _) => true
             | _ => false
             end)
          (attachments msg).

(** One text part is sent as a plain string, anything else as a list. *)
Definition simple_or_parts (ps : list part) : wire_content :=
  match ps with
  | [Text t] => Plain t
  | _ => Parts ps
  end.

(** *** Events and runs of a generator *)

Record usage : Type :=
  { input_tokens : value;
    output_tokens : value;
    total_tokens : value;
    estimated : bool }.

(** The JSON envelope of an SSE frame [data: {...}]: its [type] is
    content, done or error; a done event has a [usage] key when usage data
    is there. *)
Inductive event : Type :=
| EContent (content : string)
| EDone (full_content : string) (usage_data : option usage)
| EError (content : string).

(** A run of a generator to its end: what it yielded, and the exception
    that ended it, if one did. *)
Definition gen : Type := list event * option exn.

(** *** The upstream *)

(** A line of [response.iter_lines()]: bytes that decode as UTF-8 (the
    empty line is [Decoded ""]), or bytes that do not. *)
Inductive line : Type :=
| Decoded (text : string)
| Undecodable.

(** A response: [raise_for_status] holds the text of the [HTTPError] it
    raises, if the status is an error; [iter_lines] yields [lines] and then
    ends, or raises [lines_raise]. *)
Record response : Type :=
  { status_code : Z;
    raise_for_status : option string;
    lines : list line;
    lines_raise : option exn }.

Inductive posted : Type :=
| PostRaises (e : exn)
| Responds (r : response).

(** A chunk of the Gemini SDK stream. *)
Record usage_metadata : Type :=
  { prompt_token_count : option Z;
    candidates_token_count : option Z;
    total_token_count : option Z }.

Record gemini_chunk : Type :=
  { chunk_text : res (option string);
    chunk_usage_metadata : option usage_metadata }.

Record sdk_stream : Type :=
  { client_raises : option exn;
    chunks : list gemini_chunk;
    chunks_raise : option exn }.

(** The collaborators of the adapter. *)
Record env : Type :=
  { interp : interpreter;
    json_str : string -> string;
    json_lower : string -> res string;
    lib : AdminSettings.pylib;
    cipher : EncryptionService.cipher;
    table : gmap string AdminSettings.setting;
    fs : files;
    tokenizer : ChunkingService.tokenizer_t;
    post : request -> posted;
    generate_content_stream : gemini_request -> sdk_stream }.

(** [_get_user_api_key(provider, user_id)]. *)
Definition _get_user_api_key (E : env) (provider : string) (user_id : option Z)
  : option string :=
  match AdminSettings.get_system_api_key (lib E) (cipher E) (table E) provider with
  | EmptyString => None
  | system_key => Some system_key
  end.

(** *** The streaming loop *)

(** The variables of the loop. *)
Record acc : Type :=
  { full : string;
    usage_so_far : option usage }.

Definition start : acc := {| full := ""; usage_so_far := None |}.

(** One iteration: it goes on, breaks, or raises, having yielded at most
    one event before. *)
Inductive step : Type :=
| Next (a : acc) (yielded : option event)
| Break (a : acc) (yielded : option event)
| Raise (yielded : option event) (e : exn).

Definition emitted (o : option event) : list event :=
  match o with Some e => [e] | None => [] end.

(** [for x in xs: body], over an iterator that ends or raises [raises]
    after [xs]. *)
Fixpoint for_each {X : Type} (body : acc -> X -> step) (xs : list X) (raises : option exn)
         (a : acc) : list event * res acc :=
  match xs with
  | [] =>
      match raises with
      | Some e => ([], Err e)
      | None => ([], Ok a)
      end
  | x :: rest =>
      match body a x with
      | Next a' y =>
          let '(events, r) := for_each body rest raises a' in (emitted y ++ events, r)
      | Break a' y => (emitted y, Ok a')
      | Raise y e => (emitted y, Err e)
      end
  end.

(** The step a computation that may raise amounts to. *)
Definition step_of (r : res step) : step :=
  match r with
  | Ok s => s
  | Err e => Raise None e
  end.

(** [line_text[6:]] when the line starts with [data: ]. *)
Definition data_of (line_text : string) : option string :=
  if starts_with (chars "data: ") (chars line_text)
  then Some (text (skipn 6 (chars line_text)))
  else None.

(** [json.loads(data_str)] under [except json.JSONDecodeError: continue]. *)
Definition parsed (E : env) (a : acc) (data_str : string) (handle : value -> res step) : step :=
  match json_loads (interp E) data_str with
  | Err (JSONDecodeError _) => Next a None
  | Err e => Raise None e
  | Ok data => step_of (handle data)
  end.

(** A line of an OpenAI-compatible stream. *)
Definition sse_line (E : env) (handle : acc -> value -> res step) (a : acc) (l : line) : step :=
  match l with
  | Undecodable => Raise None (Fault UnicodeDecodeError)
  | Decoded line_text =>
      if nonempty_str line_text then
        match data_of line_text with
        | None => Next a None
        | Some data_str =>
            if String.eqb data_str "[DONE]" then Break a None
            else parsed E a data_str (handle a)
        end
      else Next a None
  end.

(** The usage block of a chunk, when it has one. *)
Definition usage_of_chunk (E : env) (chunk_data : value) (a : acc) : res acc :=
  let+ has_usage := contains "usage" chunk_data in
  if has_usage then
    let+ u := getitem chunk_data "usage" in
    if truthy (interp E) u then
      let+ i := get u "prompt_tokens" (PInt 0) in
      let+ o := get u "completion_tokens" (PInt 0) in
      let+ t := get u "total_tokens" (PInt 0) in
      Ok {| full := full a;
            usage_so_far := Some {| input_tokens := i; output_tokens := o;
                                    total_tokens := t; estimated := false |} |}
    else Ok a
  else Ok a.

(** [chunk_data['choices'][0].get('delta', {})], when there is a choice. *)
Definition delta_of_chunk (chunk_data : value) : res (option value) :=
  let+ has_choices := contains "choices" chunk_data in
  if has_choices then
    let+ choices := getitem chunk_data "choices" in
    let+ n := len choices in
    if 0 <? n then
      let+ choice := first_item choices in
      let+ delta := get choice "delta" (PDict []) in
      Ok (Some delta)
    else Ok None
  else Ok None.

(** [full_content += content] and the yield of the content event. *)
Definition append_and_yield (a : acc) (c : value) : res step :=
  let+ full_content := concat (full a) c in
  Ok (Next {| full := full_content; usage_so_far := usage_so_far a |}
           (Some (EContent (match c with PStr s => s | _ => "" end)))).

(** The chunk of the OpenAI stream: content that is [None] or empty is
    skipped. *)
Definition openai_chunk (E : env) (a : acc) (chunk_data : value) : res step :=
  let+ a1 := usage_of_chunk E chunk_data a in
  let+ delta := delta_of_chunk chunk_data in
  match delta with
  | Some d =>
      let+ c := get d "content" PNone in
      if truthy (interp E) c then append_and_yield a1 c else Ok (Next a1 None)
  | None => Ok (Next a1 None)
  end.

(** The chunk of the xAI and LM Studio streams: a [content] key is taken
    as it is. *)
Definition compatible_chunk (E : env) (a : acc) (chunk_data : value) : res step :=
  let+ a1 := usage_of_chunk E chunk_data a in
  let+ delta := delta_of_chunk chunk_data in
  match delta with
  | Some d =>
      let+ has_content := contains "content" d in
      if has_content then
        let+ c := getitem d "content" in
        append_and_yield a1 c
      else Ok (Next a1 None)
  | None => Ok (Next a1 None)
  end.

(** The validation of the usage data before the done event: an output
    count above twice the length of the text (and above 50) is replaced by a
    local estimate. *)
Definition validated_usage (E : env) (a : acc) : res (option usage) :=
  match usage_so_far a with
  | Some u =>
      if nonempty_str (full a) then
        let max_reasonable := Z.max (Str.len (chars (full a)) * 2) 50 in
        let+ too_many := gt_int (interp E) (output_tokens u) max_reasonable in
        if too_many then
          let estimated_output := TokenService.count_tokens (tokenizer E) (full a) in
          let+ total := add (interp E) (input_tokens u) (PInt estimated_output) in
          Ok (Some {| input_tokens := input_tokens u;
                      output_tokens := PInt estimated_output;
                      total_tokens := total;
                      estimated := true |})
        else Ok (Some u)
      else Ok (Some u)
  | None => Ok None
  end.

(** The local estimate used when the server sent no usage data:
    [input_text] joins the contents of the messages with blanks. *)
Definition estimated_usage (E : env) (messages : list message) (a : acc) : option usage :=
  match usage_so_far a with
  | Some u => Some u
  | None =>
      let out := TokenService.count_tokens (tokenizer E) (full a) in
      let input_text := text (join (chars " ") (map (fun m => chars (content m)) messages)) in
      let inp := TokenService.count_tokens (tokenizer E) input_text in
      Some {| input_tokens := PInt inp; output_tokens := PInt out;
              total_tokens := PInt (inp + out); estimated := true |}
  end.

(** The try block of a provider that is called over HTTP: the post, the
    status check, the loop over the lines, and the done event. *)
Definition http_try (E : env) (req : request) (body : acc -> line -> step)
           (finish : acc -> res (option usage)) : gen :=
  match post E req with
  | PostRaises e => ([], Some e)
  | Responds r =>
      match raise_for_status r with
      | Some http_err => ([], Some (HTTPError (status_code r) http_err))
      | None =>
          match for_each body (lines r) (lines_raise r) start with
          | (events, Err e) => (events, Some e)
          | (events, Ok a) =>
              match finish a with
              | Err e => (events, Some e)
              | Ok usage_data => (events ++ [EDone (full a) usage_data], None)
              end
          end
      end
  end.
(** [str(v)] and [v.lower()] for a typed setting value; a parsed JSON
    document is the library's. *)
Definition str_of (E : env) (v : AdminSettings.value) : string :=
  match v with
  | AdminSettings.VNone => "None"
  | AdminSettings.VStr s => s
  | AdminSettings.VBool b => if b then "True" else "False"
  | AdminSettings.VInt z => pretty z
  | AdminSettings.VJson raw _ => json_str E raw
  end.

Definition lower_of (E : env) (v : AdminSettings.value) : res string :=
  match v with
  | AdminSettings.VNone => Err (Fault (AttributeError "NoneType" "lower"))
  | AdminSettings.VStr s => Ok (RAGService.lower s)
  | AdminSettings.VBool _ => Err (Fault (AttributeError "bool" "lower"))
  | AdminSettings.VInt _ => Err (Fault (AttributeError "int" "lower"))
  | AdminSettings.VJson raw _ => json_lower E raw
  end.

(** The model of a call: the one asked for, or the system setting. *)
Definition model_or_system (E : env) (model_name : option string) (provider : string)
  : AdminSettings.value :=
  match model_name with
  | Some m => AdminSettings.VStr m
  | None => AdminSettings.get_system_model_id (lib E) (table E) provider
  end.

(** The four except clauses of a provider called over HTTP. *)
Record error_texts : Type :=
  { on_http : Z -> string -> string;
    on_connection : string;
    on_timeout : string;
    on_other : string -> string }.

Definition handled (E : env) (texts : error_texts) (run : gen) : gen :=
  match run with
  | (events, None) => (events, None)
  | (events, Some (HTTPError status http_err)) =>
      (events ++ [EError (on_http texts status http_err)], None)
  | (events, Some (ConnectionError _)) => (events ++ [EError (on_connection texts)], None)
  | (events, Some (Timeout _)) => (events ++ [EError (on_timeout texts)], None)
  | (events, Some e) => (events ++ [EError (on_other texts (str (interp E) e))], None)
  end.

(** *** OpenAI *)

Definition openai_message (F : files) (upload_folder : string) (msg : message) : wire_message :=
  {| wire_role := role msg;
     wire_body := simple_or_parts
                    (content_parts F upload_folder
                       (fun mime_type base64 => Some (ImageUrl (data_url mime_type base64))) msg);
     wire_images := [] |}.

Definition openai_texts : error_texts :=
  {| on_http := fun status http_err =>
       ("OpenAI API HTTP Error " ++ pretty status ++ ": " ++ http_err)%string;
     on_connection := "Connection Error to OpenAI API";
     on_timeout := "Request to OpenAI API timed out";
     on_other := fun e => ("Error communicating with OpenAI API: " ++ e)%string |}.

(** [_get_openai_response_stream(messages, model_name, user_id,
    upload_folder)]. *)
Definition _get_openai_response_stream (E : env) (messages : list message)
           (model_name : option string) (user_id : option Z) (upload_folder : string) : gen :=
  match _get_user_api_key E "openai" user_id with
  | None =>
      ([EError "OpenAI API key not configured. Please add your API key in your application settings."],
       None)
  | Some key =>
      let model_name := model_or_system E model_name "openai" in
      let openai_messages := map (openai_message (fs E) upload_folder) messages in
      let has_images := existsb (has_image_content (fs E) upload_folder) messages in
      let blocked :=
        if has_images then
          let+ lowered := lower_of E model_name in
          Ok (negb (existsb (fun x => occurs x lowered) ["gpt-4"; "gpt-5"; "vision"]))
        else Ok false in
      match blocked with
      | Err e => ([], Some e)
      | Ok true =>
          ([EError ("Model " ++ str_of E model_name
                    ++ " does not support image inputs. Please use a vision-capable model.")],
           None)
      | Ok false =>
          handled E openai_texts
            (http_try E
               {| url := AdminSettings.VStr "https://api.openai.com/v1/chat/completions";
                  api_key := key; model := model_name; system := None;
                  wire_messages := openai_messages; include_usage := true; timeout := 60 |}
               (sse_line E (openai_chunk E))
               (validated_usage E))
      end
  end.

(** *** xAI *)

Definition grok_texts : error_texts :=
  {| on_http := fun status http_err =>
       ("xAI API HTTP Error " ++ pretty status ++ ": " ++ http_err)%string;
     on_connection := "Connection Error to xAI API";
     on_timeout := "Request to xAI API timed out";
     on_other := fun e => ("Error communicating with xAI API: " ++ e)%string |}.

(** [_get_grok_response_stream(messages, model_name, user_id,
    upload_folder)]. *)
Definition _get_grok_response_stream (E : env) (messages : list message)
           (model_name : option string) (user_id : option Z) (upload_folder : string) : gen :=
  match _get_user_api_key E "xai" user_id with
  | None =>
      ([EError "xAI API key not configured. Please add your API key in your application settings."],
       None)
  | Some key =>
      let model_name := model_or_system E model_name "xai" in
      let xai_messages := map (openai_message (fs E) upload_folder) messages in
      handled E grok_texts
        (http_try E
           {| url := AdminSettings.VStr "https://api.x.ai/v1/chat/completions";
              api_key := key; model := model_name; system := None;
              wire_messages := xai_messages; include_usage := true; timeout := 3600 |}
           (sse_line E (compatible_chunk E))
           (validated_usage E))
  end.

(** *** Anthropic *)

(** The system parameter: the content of the last system message. *)
Definition anthropic_system (messages : list message) : option string :=
  fold_left (fun system_message msg =>
               if String.eqb (role msg) "system" then Some (content msg) else system_message)
            messages None.

Definition anthropic_message (F : files) (upload_folder : string) (msg : message)
  : wire_message :=
  {| wire_role := role msg;
     wire_body := simple_or_parts
                    (content_parts F upload_folder
                       (fun mime_type base64 => Some (ImageSource mime_type base64)) msg);
     wire_images := [] |}.

Definition set_usage (a : acc) (u : usage) : acc :=
  {| full := full a; usage_so_far := Some u |}.

(** An event of the Anthropic stream. *)
Definition anthropic_event (E : env) (a : acc) (event_data : value) : res step :=
  let+ event_type := get event_data "type" PNone in
  if is_str event_type "content_block_delta" then
    let+ delta := get event_data "delta" (PDict []) in
    let+ delta_type := get delta "type" PNone in
    if is_str delta_type "text_delta" then
      let+ c := get delta "text" (PStr "") in
      append_and_yield a c
    else Ok (Next a None)
  else if is_str event_type "message_delta" then
    let+ u := get event_data "usage" (PDict []) in
    if truthy (interp E) u then
      let+ out := get u "output_tokens" (PInt 0) in
      match usage_so_far a with
      | Some old =>
          let+ total := add (interp E) (input_tokens old) out in
          Ok (Next (set_usage a {| input_tokens := input_tokens old; output_tokens := out;
                                   total_tokens := total; estimated := estimated old |})
                   None)
      | None =>
          Ok (Next (set_usage a {| input_tokens := PInt 0; output_tokens := out;
                                   total_tokens := out; estimated := false |})
                   None)
      end
    else Ok (Next a None)
  else if is_str event_type "message_start" then
    let+ message := get event_data "message" (PDict []) in
    let+ u := get message "usage" (PDict []) in
    if truthy (interp E) u then
      let+ inp := get u "input_tokens" (PInt 0) in
      Ok (Next (set_usage a {| input_tokens := inp; output_tokens := PInt 0;
                               total_tokens := inp; estimated := false |})
               None)
    else Ok (Next a None)
  else if is_str event_type "message_stop" then Ok (Break a None)
  else Ok (Next a None).

Definition anthropic_line (E : env) (a : acc) (l : line) : step :=
  match l with
  | Undecodable => Raise None (Fault UnicodeDecodeError)
  | Decoded line_text =>
      if nonempty_str line_text then
        match data_of line_text with
        | None => Next a None
        | Some data_str => parsed E a data_str (anthropic_event E a)
        end
      else Next a None
  end.

Definition anthropic_texts : error_texts :=
  {| on_http := fun status http_err =>
       ("Anthropic API HTTP Error " ++ pretty status ++ ": " ++ http_err)%string;
     on_connection := "Connection Error to Anthropic API";
     on_timeout := "Request to Anthropic API timed out";
     on_other := fun e => ("Error communicating with Anthropic API: " ++ e)%string |}.

(** [_get_anthropic_response_stream(messages, model_name, user_id,
    upload_folder)]. *)
Definition _get_anthropic_response_stream (E : env) (messages : list message)
           (model_name : option string) (user_id : option Z) (upload_folder : string) : gen :=
  match _get_user_api_key E "anthropic" user_id with
  | None =>
      ([EError "Anthropic API key not configured. Please add your API key in your application settings."],
       None)
  | Some key =>
      let model_name := model_or_system E model_name "anthropic" in
      let system_message := anthropic_system messages in
      let anthropic_messages :=
        map (anthropic_message (fs E) upload_folder)
            (List.filter (fun msg => negb (String.eqb (role msg) "system")) messages) in
      handled E anthropic_texts
        (http_try E
           {| url := AdminSettings.VStr "https://api.anthropic.com/v1/messages";
              api_key := key; model := model_name;
              system := match system_message with
                        | Some s => if nonempty_str s then Some s else None
                        | None => None
                        end;
              wire_messages := anthropic_messages; include_usage := false; timeout := 60 |}
           (anthropic_line E)
           (validated_usage E))
  end.
(** *** Local models *)

(** Some message has an attachment whose [file_type] is image. *)
Definition has_image_attachment (messages : list message) : bool :=
  existsb (fun msg => existsb (fun att => String.eqb (att_file_type att) "image")
                              (attachments msg))
          messages.

Definition VISION_OFF : string :=
  "Enable vision support using the eye icon button next to attachments if using a vision-capable model.".

Definition lmstudio_message (F : files) (upload_folder : string) (vision_enabled : bool)
           (msg : message) : wire_message :=
  let parts :=
    content_parts F upload_folder
      (fun mime_type base64 =>
         if vision_enabled then Some (ImageUrl (data_url mime_type base64)) else None)
      msg in
  {| wire_role := role msg;
     wire_body := match parts with
                  | [Text t] => Plain t
                  | [] => Plain (content msg)
                  | _ => Parts parts
                  end;
     wire_images := [] |}.

Definition lmstudio_texts (E : env) (lm_studio_url : AdminSettings.value) : error_texts :=
  {| on_http := fun _ http_err => ("LM Studio HTTP Error: " ++ http_err)%string;
     on_connection := "Connection Error to LM Studio: Please ensure LM Studio is running at "
                      ++ str_of E lm_studio_url;
     on_timeout := "Request to LM Studio timed out";
     on_other := fun e => ("Error communicating with LM Studio: " ++ e)%string |}.

(** [_get_lmstudio_response_stream(messages, model_name, user_id,
    upload_folder, vision_enabled)]. *)
Definition _get_lmstudio_response_stream (E : env) (messages : list message)
           (model_name : option string) (user_id : option Z) (upload_folder : string)
           (vision_enabled : bool) : gen :=
  let lm_studio_url := AdminSettings.get_local_model_url (lib E) (table E) "lm_studio" in
  let model_name := model_or_system E model_name "lm_studio" in
  if (has_image_attachment messages && negb vision_enabled)%bool then
    ([EError VISION_OFF], None)
  else
    let lmstudio_messages :=
      map (lmstudio_message (fs E) upload_folder vision_enabled) messages in
    handled E (lmstudio_texts E lm_studio_url)
      (http_try E
         {| url := lm_studio_url; api_key := ""; model := model_name; system := None;
            wire_messages := lmstudio_messages; include_usage := false; timeout := 120 |}
         (sse_line E (compatible_chunk E))
         (fun a => Ok (estimated_usage E messages a))).

(** The Ollama message: the text with the documents appended, and the
    images apart. *)
Definition ollama_message (F : files) (upload_folder : string) (vision_enabled : bool)
           (msg : message) : wire_message :=
  let contents := map (fun a => _get_attachment_content F a upload_folder) (attachments msg) in
  {| wire_role := role msg;
     wire_body :=
       Plain (fold_left (fun text_content c =>
                           match c with
                           | Some (Image _ _ _) => text_content
                           | Some (TextDocument _ doc filename) =>
                               (text_content ++ file_text filename doc)%string
                           | None => text_content
                           end)
                        contents (content msg));
     wire_images :=
       flat_map (fun c =>
                   match c with
                   | Some (Image _ base64 _) => if vision_enabled then [base64] else []
                   | _ => []
                   end)
                contents |}.

(** The first statement of the loop body: the content of the message of
    the chunk, appended and yielded. *)
Definition ollama_content (a : acc) (chunk_data : value) : res (acc * option event) :=
  let+ has_message := contains "message" chunk_data in
  if has_message then
    let+ message := getitem chunk_data "message" in
    let+ has_content := contains "content" message in
    if has_content then
      let+ c := getitem message "content" in
      let+ full_content := concat (full a) c in
      Ok ({| full := full_content; usage_so_far := usage_so_far a |},
          Some (EContent (match c with PStr s => s | _ => "" end)))
    else Ok (a, None)
  else Ok (a, None).

(** The second statement: on a chunk that is done the counts are taken, if
    any, and the loop is left. *)
Definition ollama_done (E : env) (a : acc) (chunk_data : value) : res (bool * acc) :=
  let+ done := get chunk_data "done" (PBool false) in
  if truthy (interp E) done then
    let+ prompt_tokens := get chunk_data "prompt_eval_count" (PInt 0) in
    let+ out := get chunk_data "eval_count" (PInt 0) in
    if (truthy (interp E) prompt_tokens || truthy (interp E) out)%bool then
      let+ total := add (interp E) prompt_tokens out in
      Ok (true, set_usage a {| input_tokens := prompt_tokens; output_tokens := out;
                               total_tokens := total; estimated := false |})
    else Ok (true, a)
  else Ok (false, a).

Definition ollama_line (E : env) (a : acc) (l : line) : step :=
  match l with
  | Undecodable => Raise None (Fault UnicodeDecodeError)
  | Decoded line_text =>
      if nonempty_str line_text then
        match json_loads (interp E) line_text with
        | Err (JSONDecodeError _) => Next a None
        | Err e => Raise None e
        | Ok chunk_data =>
            match ollama_content a chunk_data with
            | Err e => Raise None e
            | Ok (a1, y) =>
                match ollama_done E a1 chunk_data with
                | Err e => Raise y e
                | Ok (true, a2) => Break a2 y
                | Ok (false, a2) => Next a2 y
                end
            end
        end
      else Next a None
  end.

Definition ollama_texts (E : env) (ollama_url : AdminSettings.value) : error_texts :=
  {| on_http := fun _ http_err => ("Ollama HTTP Error: " ++ http_err)%string;
     on_connection := "Connection Error to Ollama: Please ensure Ollama is running at "
                      ++ str_of E ollama_url;
     on_timeout := "Request to Ollama timed out";
     on_other := fun e => ("Error communicating with Ollama: " ++ e)%string |}.

(** [_get_ollama_response_stream(messages, model_name, user_id,
    upload_folder, vision_enabled)]. *)
Definition _get_ollama_response_stream (E : env) (messages : list message)
           (model_name : option string) (user_id : option Z) (upload_folder : string)
           (vision_enabled : bool) : gen :=
  let ollama_url := AdminSettings.get_local_model_url (lib E) (table E) "ollama" in
  let model_name := model_or_system E model_name "ollama" in
  if (has_image_attachment messages && negb vision_enabled)%bool then
    ([EError VISION_OFF], None)
  else
    let ollama_messages := map (ollama_message (fs E) upload_folder vision_enabled) messages in
    handled E (ollama_texts E ollama_url)
      (http_try E
         {| url := ollama_url; api_key := ""; model := model_name; system := None;
            wire_messages := ollama_messages; include_usage := false; timeout := 120 |}
         (ollama_line E)
         (fun a => Ok (estimated_usage E messages a))).

(** *** Gemini *)

Definition gemini_message (F : files) (upload_folder : string) (msg : message) : wire_message :=
  {| wire_role := if String.eqb (role msg) "assistant" then "model" else "user";
     wire_body := Parts (content_parts F upload_folder
                           (fun mime_type base64 => Some (InlineData mime_type base64)) msg);
     wire_images := [] |}.

(** The contents of the system messages that have one, joined by a blank
    line; [None] without any. *)
Definition gemini_system_instruction (messages : list message) : option string :=
  match List.filter (fun msg => (String.eqb (role msg) "system" && nonempty_str (content msg))%bool)
                    messages with
  | [] => None
  | system_instructions =>
      Some (text (join (chars (nl ++ nl)) (map (fun msg => chars (content msg)) system_instructions)))
  end.

Definition gemini_chunk_step (a : acc) (chunk : gemini_chunk) : step :=
  match chunk_text chunk with
  | Err e => Raise None e
  | Ok (Some t) =>
      if nonempty_str t
      then Next {| full := full a ++ t; usage_so_far := usage_so_far a |} (Some (EContent t))
      else Next a None
  | Ok None => Next a None
  end.

(** The usage data of the done event: the metadata of the last chunk, or
    a local estimate. *)
Definition gemini_usage (E : env) (messages : list message) (stream_chunks : list gemini_chunk)
           (a : acc) : usage :=
  match match rev stream_chunks with
        | last_chunk :: _ => chunk_usage_metadata last_chunk
        | [] => None
        end with
  | Some metadata =>
      {| input_tokens := PInt (default 0 (prompt_token_count metadata));
         output_tokens := PInt (default 0 (candidates_token_count metadata));
         total_tokens := PInt (default 0 (total_token_count metadata));
         estimated := false |}
  | None =>
      let out := TokenService.count_tokens (tokenizer E) (full a) in
      let input_text := text (join (chars " ") (map (fun m => chars (content m)) messages)) in
      let inp := TokenService.count_tokens (tokenizer E) input_text in
      {| input_tokens := PInt inp; output_tokens := PInt out;
         total_tokens := PInt (inp + out); estimated := true |}
  end.

(** The text of the error event, by what the message of the exception
    contains. *)
Definition gemini_error (error_message : string) : string :=
  if (occurs "API_KEY_INVALID" error_message
      || occurs "invalid_api_key" (RAGService.lower error_message))%bool
  then "Invalid Gemini API key. Please check your API key in application settings."
  else if occurs "quota" (RAGService.lower error_message)
  then "Gemini API quota exceeded. Please check your API usage."
  else if occurs "timeout" (RAGService.lower error_message)
  then "Request to Gemini API timed out"
  else "Error communicating with Gemini API: " ++ error_message.

(** [_get_gemini_response_stream(messages, user_id, upload_folder)]. *)
Definition _get_gemini_response_stream (E : env) (messages : list message)
           (user_id : option Z) (upload_folder : string) : gen :=
  match _get_user_api_key E "gemini" user_id with
  | None =>
      ([EError "Gemini API key not configured. Please add your API key in your application settings."],
       None)
  | Some key =>
      let model_name := AdminSettings.get_system_model_id (lib E) (table E) "gemini" in
      let gemini_messages :=
        map (gemini_message (fs E) upload_folder)
            (List.filter (fun msg => negb (String.eqb (role msg) "system")) messages) in
      let stream :=
        generate_content_stream E
          {| g_api_key := key; g_model := model_name; g_contents := gemini_messages;
             g_system_instruction := gemini_system_instruction messages |} in
      match client_raises stream with
      | Some e => ([EError (gemini_error (str (interp E) e))], None)
      | None =>
          match for_each gemini_chunk_step (chunks stream) (chunks_raise stream) start with
          | (events, Err e) => (events ++ [EError (gemini_error (str (interp E) e))], None)
          | (events, Ok a) =>
              (events ++ [EDone (full a) (Some (gemini_usage E messages (chunks stream) a))],
               None)
          end
      end
  end.

(** *** The adapter *)

Definition system_message (text_content : string) : message :=
  {| role := "system"; content := text_content; attachments := [] |}.

Definition rag_prompt (rag_context : string) : string :=
  "You have access to the following document context that may be relevant to the user's questions."
  ++ nl
  ++ "            Use this information to provide accurate, informed responses. If the context doesn't contain relevant information,"
  ++ nl
  ++ "            you can still answer based on your knowledge, but mention that the provided documents didn't contain specific information about that topic."
  ++ nl ++ nl
  ++ "            " ++ rag_context
  ++ nl ++ nl
  ++ "            Remember to cite the source documents when using information from them.".

(** The message list handed to the provider function: the age-based
    prompt is put in front of the history, then the document context in
    front of that. *)
Definition injected (messages : list message) (rag_context age_system_prompt : option string)
  : list message :=
  let messages :=
    match age_system_prompt with
    | Some p => if nonempty_str p then system_message p :: messages else messages
    | None => messages
    end in
  match rag_context with
  | Some c => if nonempty_str c then system_message (rag_prompt c) :: messages else messages
  | None => messages
  end.

Definition normalized (provider : string) : string :=
  let provider := RAGService.lower provider in
  if String.eqb provider "lm_studio" then "lmstudio" else provider.

(** The provider function a name selects, run on the messages. *)
Definition dispatch (E : env) (messages : list message) (provider : string)
           (model_name : option string) (user_id : option Z) (upload_folder : string)
           (local_vision_enabled : bool) : gen :=
  if String.eqb provider "gemini" then
    _get_gemini_response_stream E messages user_id upload_folder
  else if String.eqb provider "openai" then
    _get_openai_response_stream E messages model_name user_id upload_folder
  else if String.eqb provider "anthropic" then
    _get_anthropic_response_stream E messages model_name user_id upload_folder
  else if String.eqb provider "xai" then
    _get_grok_response_stream E messages model_name user_id upload_folder
  else if String.eqb provider "lmstudio" then
    _get_lmstudio_response_stream E messages model_name user_id upload_folder
                                  local_vision_enabled
  else if String.eqb provider "ollama" then
    _get_ollama_response_stream E messages model_name user_id upload_folder
                                local_vision_enabled
  else ([EError ("Unknown provider: " ++ provider)], None).

(** [get_response_stream(messages, provider, model_name, user_id,
    upload_folder, rag_context, age_system_prompt, local_vision_enabled)]:
    the events it yields. *)
Definition get_response_stream (E : env) (messages : list message) (provider : string)
           (model_name : option string) (user_id : option Z) (upload_folder : string)
           (rag_context age_system_prompt : option string) (local_vision_enabled : bool)
  : list event :=
  match dispatch E (injected messages rag_context age_system_prompt) (normalized provider)
                 model_name user_id upload_folder local_vision_enabled with
  | (events, None) => events
  | (events, Some e) => events ++ [EError (str (interp E) e)]
  end.

(** A call of [get_response_stream] with the [provider] its caller hands
    over: the chat route passes [data.get("model", "gemini")], which is
    whatever JSON value the request holds.  [provider.lower()] is the first
    statement of the generator, before the try block: for a value that is
    not a string it raises, and the generator ends with nothing yielded. *)
Definition get_response_stream_call (E : env) (messages : list message) (provider : value)
           (model_name : option string) (user_id : option Z) (upload_folder : string)
           (rag_context age_system_prompt : option string) (local_vision_enabled : bool)
  : gen :=
  match provider with
  | PStr name =>
      (get_response_stream E messages name model_name user_id upload_folder
                           rag_context age_system_prompt local_vision_enabled, None)
  | _ => ([], Some (Fault (AttributeError (type_name provider) "lower")))
  end.

End AIService.

(** ** The shape of an event stream *)
Module AdapterSpec.
Import AIService.

Definition is_content (e : event) : bool :=
  match e with
  | EContent _ => true
  | _ => false
  end.

(** Content events, then one terminal event, done or error, and nothing
    after it. *)
Definition terminated (events : list event) : Prop :=
  exists contents t,
    events = contents ++ [t]
    /\ List.Forall (fun e => is_content e = true) contents
    /\ is_content t = false.

(** A run of a provider function: either it ends by itself, having
    yielded a terminated stream, or an exception leaves it, and it has
    yielded content events only. *)
Definition well_run (run : gen) : Prop :=
  match run with
  | (events, None) => terminated events
  | (events, Some _) => List.Forall (fun e => is_content e = true) events
  end.

(** The events an iteration may yield are content events. *)
Definition yields_content (s : step) : Prop :=
  match s with
  | Next _ y | Break _ y | Raise y _ => forall e, y = Some e -> is_content e = true
  end.

End AdapterSpec.

(** ** Users: app/models/user.py *)
Module User.

Local Open Scope Z_scope.

Record date : Type :=
  { year : Z;
    month : Z;
    day : Z }.

(** A row of [users], as far as the chat route reads it. *)
Record t : Type :=
  { id : Z;
    date_of_birth : option date }.

(** [(today.month, today.day) < (born.month, born.day)]. *)
Definition before_birthday (today born : date) : bool :=
  (month today <? month born) || ((month today =? month born) && (day today <? day born)).

(** [get_age()], on the day [today]. *)
Definition get_age (today : date) (u : t) : option Z :=
  match date_of_birth u with
  | None => None
  | Some born =>
      Some (year today - year born - (if before_birthday today born then 1 else 0))
  end.

(** [get_age_group()]. *)
Definition get_age_group (today : date) (u : t) : string :=
  match get_age today u with
  | None => "unknown"
  | Some age =>
      if age <? 12 then "child"
      else if age <? 18 then "teen"
      else "adult"
  end.

End User.

(** ** Attachments: app/models/attachment.py *)
Module Attachment.

Record t : Type :=
  { id : Z;
    message_id : Z;
    original_filename : string;
    stored_filename : string;
    file_path : string;
    mime_type : string;
    file_size : Z;
    file_type : string }.

(** [to_dict()], as far as the adapter reads it. *)
Definition to_dict (a : t) : AIService.attachment :=
  {| AIService.att_file_path := file_path a;
     AIService.att_mime_type := mime_type a;
     AIService.att_file_type := file_type a;
     AIService.att_original_filename := original_filename a |}.

Definition DOCUMENT_MIME_TYPES : list string :=
  ["application/pdf"; "application/msword";
   "application/vnd.openxmlformats-officedocument.wordprocessingml.document";
   "application/vnd.ms-excel";
   "application/vnd.openxmlformats-officedocument.spreadsheetml.sheet";
   "text/plain"; "text/csv"; "text/markdown"].

(** [get_file_type(mime_type)]. *)
Definition get_file_type (mime : string) : string :=
  if Str.starts_with (chars "image/") (chars mime) then "image"
  else if existsb (String.eqb mime) DOCUMENT_MIME_TYPES then "document"
  else "other".

End Attachment.

(** ** Chats and messages: app/models/chat.py *)
Module Chat.

Record t : Type :=
  { id : Z;
    session_id : string;
    name : string;
    user_id : Z;
    model_provider : string;
    model_name : option string }.

End Chat.

Module Message.

Record t : Type :=
  { id : Z;
    chat_id : Z;
    role : string;
    content : string;
    distilled_content : option string;
    tokens_used : Z;
    model_used : string;
    input_tokens : Z;
    output_tokens : Z;
    tokens_estimated : bool }.

End Message.

(** ** The chat routes: app/routes/chat.py *)
Module ChatRoute.
Import Str.

Local Open Scope Z_scope.

(** The three tables, rows in the order of their creation, and the uuids
    drawn so far. *)
Record db : Type :=
  { chats : list Chat.t;
    messages : list Message.t;
    attachments : list Attachment.t;
    uuids_drawn : nat }.

(** What the routes take from outside. *)
Record env : Type :=
  { lib : AdminSettings.pylib;
    table : gmap string AdminSettings.setting;
    tokenizer : ChunkingService.tokenizer_t;
    uuid4 : nat -> string;
    today : User.date }.

(** An entry of [attachments] in the request body. *)
Record attachment_data : Type :=
  { ad_original_filename : string;
    ad_stored_filename : string;
    ad_file_path : string;
    ad_mime_type : string;
    ad_file_size : Z;
    ad_file_type : string }.

(** The JSON body of a chat request, with the defaults of [data.get]. *)
Record chat_request : Type :=
  { message : string;
    model : string;
    local_model_provider : string;
    session_id : option string;
    model_name : option string;
    attachments_data : list attachment_data;
    local_vision_enabled : bool }.

(** What the generator of a chat turn starts from. *)
Record turn : Type :=
  { turn_session_id : string;
    turn_chat : Chat.t;
    turn_user_msg : Message.t;
    turn_message_content : string;
    turn_provider : string;
    turn_messages : list AIService.message;
    turn_age_system_prompt : AdminSettings.value }.

(** A JSON reply with its status code, or the event stream of a turn. *)
Inductive reply : Type :=
| Json (status : Z) (error : string)
| Stream (t : turn).

Definition next_id (ids : list Z) : Z := 1 + fold_right Z.max 0 ids.

(** [Chat.query.filter_by(session_id=session_id).first()]. *)
Definition find_chat (st : db) (sid : string) : option Chat.t :=
  List.find (fun c => String.eqb (Chat.session_id c) sid) (chats st).

(** [chat.messages.all()]. *)
Definition messages_of (st : db) (c : Chat.t) : list Message.t :=
  List.filter (fun m => Message.chat_id m =? Chat.id c) (messages st).

Definition attachments_of (st : db) (m : Message.t) : list Attachment.t :=
  List.filter (fun a => Attachment.message_id a =? Message.id m) (attachments st).

Definition nonempty_str (s : string) : bool :=
  match s with EmptyString => false | _ => true end.

(** [a or b] on strings. *)
Definition or_else (a : option string) (b : string) : string :=
  match a with
  | Some s => if nonempty_str s then s else b
  | None => b
  end.

(** The dictionary the history holds for a stored message. *)
Definition msg_dict (st : db) (use_distilled_context : bool) (m : Message.t)
  : AIService.message :=
  {| AIService.role :=
       if (String.eqb (Message.role m) "bot" || String.eqb (Message.role m) "assistant")%bool
       then "assistant" else "user";
     AIService.content :=
       match Message.distilled_content m with
       | Some d => if (use_distilled_context && nonempty_str d)%bool then d else Message.content m
       | None => Message.content m
       end;
     AIService.attachments := map Attachment.to_dict (attachments_of st m) |}.

(** The attachment rows of the user message. *)
Fixpoint new_attachments (first_id message_id : Z) (atts : list attachment_data)
  : list Attachment.t :=
  match atts with
  | [] => []
  | a :: rest =>
      {| Attachment.id := first_id;
         Attachment.message_id := message_id;
         Attachment.original_filename := ad_original_filename a;
         Attachment.stored_filename := ad_stored_filename a;
         Attachment.file_path := ad_file_path a;
         Attachment.mime_type := ad_mime_type a;
         Attachment.file_size := ad_file_size a;
         Attachment.file_type := ad_file_type a |}
      :: new_attachments (first_id + 1) message_id rest
  end.

(** The new chat of a request without session handle: the handle is a
    fresh uuid, the name the first five words of the message. *)
Definition new_chat (E : env) (current_user : User.t) (data : chat_request)
           (message_content model_provider : string) (st : db) : string * Chat.t * db :=
  let sid := uuid4 E (uuids_drawn st) in
  let chat_name :=
    if nonempty_str message_content
    then text (join (chars " ") (firstn 5 (split_ws (chars message_content))))
    else "New Chat" in
  let c := {| Chat.id := next_id (map Chat.id (chats st));
              Chat.session_id := sid;
              Chat.name := chat_name;
              Chat.user_id := User.id current_user;
              Chat.model_provider := model_provider;
              Chat.model_name := model_name data |} in
  (sid, c,
   {| chats := chats st ++ [c]; messages := messages st;
      attachments := attachments st; uuids_drawn := S (uuids_drawn st) |}).

(** The chat the turn runs in: the one the session handle names, whoever
    owns it, or a new one of the current user. *)
Definition resolve (E : env) (current_user : User.t) (data : chat_request)
           (message_content model_provider : string) (st : db)
  : reply + (string * Chat.t * db) :=
  match session_id data with
  | Some sid =>
      if nonempty_str sid then
        match find_chat st sid with
        | Some c => inr (sid, c, st)
        | None => inl (Json 404 "Session not found")
        end
      else inr (new_chat E current_user data message_content model_provider st)
  | None => inr (new_chat E current_user data message_content model_provider st)
  end.

(** [chat()], up to the commit of the user message and the history read
    after it; the answer is streamed from there.  The run modelled is the
    one in which no statement raises: a request whose attachment entries
    lack a key, or a commit that fails, ends the code with the exception
    and without the answer given here. *)
Definition chat (E : env) (current_user : User.t) (data : chat_request) (st : db)
  : reply * db :=
  let message_content := text (strip (chars (message data))) in
  if (negb (nonempty_str message_content)
      && match attachments_data data with [] => true | _ => false end)%bool
  then (Json 400 "No message or attachments provided", st)
  else
    let message_content :=
      if (AdminSettings.truthy (AdminSettings.is_sensitive_info_filter_enabled (lib E) (table E))
          && nonempty_str message_content)%bool
      then SensitiveInfoFilter.filter_message message_content
      else message_content in
    let age_system_prompt :=
      match User.date_of_birth current_user with
      | Some _ =>
          AdminSettings.get_age_based_system_prompt (lib E) (table E)
            (User.get_age_group (today E) current_user)
      | None => AdminSettings.VNone
      end in
    let model_provider :=
      if String.eqb (model data) "simply" then local_model_provider data else model data in
    match resolve E current_user data message_content model_provider st with
    | inl refusal => (refusal, st)
    | inr (sid, c, st1) =>
        let user_input_tokens :=
          if nonempty_str message_content
          then TokenService.count_tokens (tokenizer E) message_content
          else 0 in
        let user_msg :=
          {| Message.id := next_id (map Message.id (messages st1));
             Message.chat_id := Chat.id c;
             Message.role := "user";
             Message.content := if nonempty_str message_content then message_content
                                else "See attached files";
             Message.distilled_content := None;
             Message.tokens_used := user_input_tokens;
             Message.model_used := or_else (model_name data) model_provider;
             Message.input_tokens := user_input_tokens;
             Message.output_tokens := 0;
             Message.tokens_estimated := true |} in
        let st2 :=
          {| chats := chats st1;
             messages := messages st1 ++ [user_msg];
             attachments :=
               attachments st1
               ++ new_attachments (next_id (map Attachment.id (attachments st1)))
                                  (Message.id user_msg) (attachments_data data);
             uuids_drawn := uuids_drawn st1 |} in
        let use_distilled_context :=
          AdminSettings.truthy (AdminSettings.is_distilled_context_enabled (lib E) (table E)) in
        (Stream {| turn_session_id := sid;
                   turn_chat := c;
                   turn_user_msg := user_msg;
                   turn_message_content := message_content;
                   turn_provider := model_provider;
                   turn_messages := map (msg_dict st2 use_distilled_context) (messages_of st2 c);
                   turn_age_system_prompt := age_system_prompt |},
         st2)
    end.

(** [get_history()]: the stored messages of the chat, for its owner. *)
Definition get_history (current_user : User.t) (sid : option string) (st : db)
  : (Z * string) + list Message.t :=
  match sid with
  | None => inl (400, "No session_id provided")
  | Some EmptyString => inl (400, "No session_id provided")
  | Some s =>
      match find_chat st s with
      | None => inl (404, "Session not found")
      | Some c =>
          if negb (Chat.user_id c =? User.id current_user) then inl (403, "Unauthorized")
          else inr (messages_of st c)
      end
  end.

(** [rename_chat(session_id)], with the [name] of the request body. *)
Definition rename_chat (current_user : User.t) (sid : string) (new_name : string) (st : db)
  : (Z * string) * db :=
  match find_chat st sid with
  | None => ((404, "Session not found"), st)
  | Some c =>
      if negb (Chat.user_id c =? User.id current_user) then ((403, "Unauthorized"), st)
      else
        let stripped := text (strip (chars new_name)) in
        if negb (nonempty_str stripped) then ((400, "Name cannot be empty"), st)
        else
          ((200, "Chat renamed"),
           {| chats := map (fun x => if Chat.id x =? Chat.id c
                                     then {| Chat.id := Chat.id x;
                                             Chat.session_id := Chat.session_id x;
                                             Chat.name := stripped;
                                             Chat.user_id := Chat.user_id x;
                                             Chat.model_provider := Chat.model_provider x;
                                             Chat.model_name := Chat.model_name x |}
                                     else x)
                           (chats st);
              messages := messages st;
              attachments := attachments st;
              uuids_drawn := uuids_drawn st |})
  end.

(** [delete_chat(session_id)]: [raises] is the exception of the try block
    (the file service, the reads, the commit), if one is raised; deleting
    the chat cascades to its messages and to their attachments. *)
Definition delete_chat (raises : option string) (current_user : User.t) (sid : string)
           (st : db) : (Z * string) * db :=
  match find_chat st sid with
  | None => ((404, "Session not found"), st)
  | Some c =>
      if negb (Chat.user_id c =? User.id current_user) then ((403, "Unauthorized"), st)
      else
        match raises with
        | Some e => ((500, "Failed to delete chat: " ++ e)%string, st)
        | None =>
            ((200, "Chat deleted successfully"),
             {| chats := List.filter (fun x => negb (Chat.id x =? Chat.id c)) (chats st);
                messages :=
                  List.filter (fun m => negb (Message.chat_id m =? Chat.id c)) (messages st);
                attachments :=
                  List.filter
                    (fun a => negb (existsb (fun m => Message.id m =? Attachment.message_id a)
                                            (messages_of st c)))
                    (attachments st);
                uuids_drawn := uuids_drawn st |})
        end
  end.

End ChatRoute.

(** ** A sample upstream to run the adapter with *)
Module AdapterSamples.
Import Py AIService.

Local Open Scope Z_scope.

(** A chunk of an OpenAI-compatible stream with a content delta. *)
Definition delta_chunk (c : string) : value :=
  PDict [("choices", PList [PDict [("delta", PDict [("content", PStr c)])]])].

(** The parser knows two documents, A and B. *)
Definition sample_interpreter : interpreter :=
  {| float_truthy := fun _ => true;
     float_gt_int := fun _ _ => false;
     float_add := fun _ _ => "0.0";
     fault_text := fun _ => "fault";
     json_loads := fun s =>
       if String.eqb s "A" then Ok (delta_chunk "Hel")
       else if String.eqb s "B" then Ok (delta_chunk "lo")
       else Err (JSONDecodeError "Expecting value") |}.

(** Two chunks, a keep-alive line, a line that is no JSON, the end mark,
    and a line after it. *)
Definition sample_response : response :=
  {| status_code := 200;
     raise_for_status := None;
     lines := [Decoded "data: A"; Decoded ""; Decoded "data: ?"; Decoded "data: B";
               Decoded "data: [DONE]"; Decoded "data: A"];
     lines_raise := None |}.

Definition no_files : files :=
  {| join_path := fun folder path => (folder ++ "/" ++ path)%string;
     path_exists := fun _ => false;
     read_base64 := fun _ => None;
     read_text := fun _ _ => Err (Exception "No such file");
     extract := fun _ _ => Err (Exception "No such file") |}.

(** Settings that hold a key for OpenAI only, stored as it is. *)
Definition sample_adapter : env :=
  {| interp := sample_interpreter;
     json_str := fun raw => raw;
     json_lower := fun raw => Ok raw;
     lib := {| AdminSettings.py_int := fun _ => None;
               AdminSettings.json_loads := fun _ => None |};
     cipher := fun encrypted => Some encrypted;
     table := {[ "system_api_key_openai"%string :=
                   {| AdminSettings.setting_value := Some "sk-test"%string;
                      AdminSettings.setting_type := "string";
                      AdminSettings.description := None |} ]};
     fs := no_files;
     tokenizer := None;
     post := fun _ => Responds sample_response;
     generate_content_stream := fun _ =>
       {| client_raises := None; chunks := []; chunks_raise := None |} |}.

Definition hello : list message :=
  [{| role := "user"; content := "hello"; attachments := [] |}].

End AdapterSamples.

(** * Properties *)

Lemma text_chars (s : string) : text (chars s) = s.
Proof. apply string_of_list_ascii_of_string. Qed.

Lemma chars_text (l : list ascii) : chars (text l) = l.
Proof. apply list_ascii_of_string_of_list_ascii. Qed.

(** ** The regular-expression engine: what a match consumes *)
Module ReProps.
Import Re Str.

Section Consumed.

Variable icase : bool.
Variable Q : ascii -> Prop.

(** Every character [r] can consume satisfies [Q]. *)
Fixpoint only (r : regex) : Prop :=
  match r with
  | Lit l => forall x c, In x (chars l) -> chr_eq icase x c = true -> Q c
  | Cls cs => forall c, cs_has icase cs c = true -> Q c
  | Seq a b | Alt a b => only a /\ only b
  | Rep a _ _ _ | Grp _ a => only a
  | Ahead _ | NotAhead _ | Behind _ | WordB | Eos => True
  end.

Lemma eat_consumes (l : list ascii) :
  (forall x c, In x l -> chr_eq icase x c = true -> Q c) ->
  forall prev s p1 s1,
    eat icase l prev s = Some (p1, s1) ->
    exists consumed, s = consumed ++ s1 /\ List.Forall Q consumed.
Proof.
  induction l as [|x l IH]; intros HQ prev s p1 s1 H; cbn in H.
  - injection H as _ <-. exists []. split; [reflexivity | constructor].
  - destruct s as [|c s']; [discriminate|].
    destruct (chr_eq icase x c) eqn:Hc; [|discriminate].
    destruct (IH (fun y d Hy => HQ y d (or_intror Hy)) _ _ _ _ H) as (consumed & -> & Hall).
    exists (c :: consumed). split; [reflexivity|].
    constructor; [|exact Hall]. exact (HQ x c (or_introl eq_refl) Hc).
Qed.

(** The loop of a repetition, as [run] has it. *)
Definition rep_loop (a : regex) (lo : nat) (hi : option nat) (greedy : bool) (k : kont)
  : nat -> nat -> option ascii -> list ascii -> captures -> option outcome :=
  fix loop (fuel n : nat) (prev : option ascii) (s : list ascii)
      (cp : captures) {struct fuel} : option outcome :=
    match fuel with
    | O => if (lo <=? n)%nat then k prev s cp else None
    | S fuel' =>
        if greedy then
          match (if under hi n
                 then run icase a prev s cp
                        (fun p1 s1 c1 =>
                           if (length s1 <? length s)%nat
                           then loop fuel' (S n) p1 s1 c1 else None)
                 else None) with
          | Some o => Some o
          | None => if (lo <=? n)%nat then k prev s cp else None
          end
        else
          match (if (lo <=? n)%nat then k prev s cp else None) with
          | Some o => Some o
          | None =>
              if under hi n
              then run icase a prev s cp
                     (fun p1 s1 c1 =>
                        if (length s1 <? length s)%nat
                        then loop fuel' (S n) p1 s1 c1 else None)
              else None
          end
    end.

Lemma run_rep (a : regex) (lo : nat) (hi : option nat) (greedy : bool)
      (prev : option ascii) (s : list ascii) (cp : captures) (k : kont) :
  run icase (Rep a lo hi greedy) prev s cp k
  = rep_loop a lo hi greedy k (S (length s)) 0 prev s cp.
Proof. reflexivity. Qed.

Lemma rep_loop_step (a : regex) (lo : nat) (hi : option nat) (greedy : bool) (k : kont)
      (fuel n : nat) (prev : option ascii) (s : list ascii) (cp : captures) :
  rep_loop a lo hi greedy k (S fuel) n prev s cp
  = let again :=
      if under hi n
      then run icase a prev s cp
             (fun p1 s1 c1 =>
                if (length s1 <? length s)%nat
                then rep_loop a lo hi greedy k fuel (S n) p1 s1 c1 else None)
      else None in
    let stop := if (lo <=? n)%nat then k prev s cp else None in
    if greedy
    then match again with Some o => Some o | None => stop end
    else match stop with Some o => Some o | None => again end.
Proof. reflexivity. Qed.

Lemma rep_loop_only (a : regex) (lo : nat) (hi : option nat) (greedy : bool) (k : kont)
      (o : outcome) :
  (forall prev s cp (kk : kont),
      run icase a prev s cp kk = Some o ->
      exists consumed p1 s1 c1,
        s = consumed ++ s1 /\ List.Forall Q consumed /\ kk p1 s1 c1 = Some o) ->
  forall fuel n prev s cp,
    rep_loop a lo hi greedy k fuel n prev s cp = Some o ->
    exists consumed p1 s1 c1,
      s = consumed ++ s1 /\ List.Forall Q consumed /\ k p1 s1 c1 = Some o.
Proof.
  intros IHa.
  assert (Hstop : forall n prev s cp,
             (if (lo <=? n)%nat then k prev s cp else None) = Some o ->
             exists consumed p2 s2 c2,
               s = consumed ++ s2 /\ List.Forall Q consumed /\ k p2 s2 c2 = Some o).
  { intros n prev s cp Hk. destruct (lo <=? n)%nat; [|discriminate].
    exists [], prev, s, cp. split; [reflexivity|]. split; [constructor | exact Hk]. }
  induction fuel as [|fuel IHf]; intros n prev s cp H.
  - exact (Hstop _ _ _ _ H).
  - rewrite rep_loop_step in H. cbv zeta in H.
    assert (Hagain : (if under hi n
                      then run icase a prev s cp
                             (fun p1 s1 c1 =>
                                if (length s1 <? length s)%nat
                                then rep_loop a lo hi greedy k fuel (S n) p1 s1 c1 else None)
                      else None) = Some o ->
                     exists consumed p2 s2 c2,
                       s = consumed ++ s2 /\ List.Forall Q consumed /\ k p2 s2 c2 = Some o).
    { intros Hrun. destruct (under hi n); [|discriminate].
      destruct (IHa _ _ _ _ Hrun) as (c1 & p1 & s1 & cp1 & -> & Hall1 & H1).
      destruct (length s1 <? length (c1 ++ s1))%nat; [|discriminate].
      destruct (IHf _ _ _ _ H1) as (c2 & p2 & s2 & cp2 & -> & Hall2 & H2).
      exists (c1 ++ c2), p2, s2, cp2. rewrite <- app_assoc. split; [reflexivity|].
      split; [apply List.Forall_app; split; assumption | exact H2]. }
    destruct greedy.
    + match type of H with
      | match ?x with Some _ => _ | None => _ end = _ => destruct x as [o'|] eqn:Hx
      end.
      * injection H as <-. exact (Hagain eq_refl).
      * exact (Hstop _ _ _ _ H).
    + match type of H with
      | match ?x with Some _ => _ | None => _ end = _ => destruct x as [o'|] eqn:Hx
      end.
      * injection H as <-. exact (Hstop _ _ _ _ Hx).
      * exact (Hagain H).
Qed.

(** A successful run has consumed a prefix of the input whose characters
    satisfy [Q], and continued with what is left. *)
Lemma run_only (r : regex) :
  only r ->
  forall prev s cp (k : kont) o,
    run icase r prev s cp k = Some o ->
    exists consumed p1 s1 c1,
      s = consumed ++ s1 /\ List.Forall Q consumed /\ k p1 s1 c1 = Some o.
Proof.
  induction r as [l|cs|a IHa b IHb|a IHa b IHb|a IHa lo hi greedy|n a IHa|a _|a _|cs| |];
    intros Hr prev s cp k o H; [cbn [run] in H|cbn [run] in H|cbn [run] in H|cbn [run] in H
    |rewrite run_rep in H|cbn [run] in H..].
  - destruct (eat icase (chars l) prev s) as [[p1 s1]|] eqn:He; [|discriminate].
    destruct (eat_consumes _ Hr _ _ _ _ He) as (consumed & -> & Hall).
    exists consumed, p1, s1, cp. auto.
  - destruct s as [|c s1]; [discriminate|].
    destruct (cs_has icase cs c) eqn:Hc; [|discriminate].
    exists [c], (Some c), s1, cp. split; [reflexivity|].
    split; [constructor; [exact (Hr c Hc) | constructor] | exact H].
  - destruct Hr as [Ha Hb].
    destruct (IHa Ha _ _ _ _ _ H) as (c1 & p1 & s1 & cp1 & -> & Hall1 & H1).
    destruct (IHb Hb _ _ _ _ _ H1) as (c2 & p2 & s2 & cp2 & -> & Hall2 & H2).
    exists (c1 ++ c2), p2, s2, cp2. rewrite <- app_assoc. split; [reflexivity|].
    split; [apply List.Forall_app; split; assumption | exact H2].
  - destruct Hr as [Ha Hb].
    destruct (run icase a prev s cp k) as [o'|] eqn:Hrun.
    + injection H as <-. exact (IHa Ha _ _ _ _ _ Hrun).
    + exact (IHb Hb _ _ _ _ _ H).
  - cbn [only] in Hr.
    exact (rep_loop_only a lo hi greedy k o
             (fun prev s cp kk => IHa Hr prev s cp kk o) _ _ _ _ _ H).
  - cbn [only] in Hr.
    destruct (IHa Hr _ _ _ _ _ H) as (c1 & p1 & s1 & cp1 & -> & Hall1 & H1).
    exists c1, p1, s1, ((n, firstn (length (c1 ++ s1) - length s1) (c1 ++ s1)) :: cp1). auto.
  - destruct (run icase a prev s cp (fun _ s1 c1 => Some (s1, c1))); [|discriminate].
    exists [], prev, s, cp. split; [reflexivity|]. split; [constructor | exact H].
  - destruct (run icase a prev s cp (fun _ s1 c1 => Some (s1, c1))); [discriminate|].
    exists [], prev, s, cp. split; [reflexivity|]. split; [constructor | exact H].
  - destruct prev as [c|]; [|discriminate].
    destruct (cs_has icase cs c); [|discriminate].
    exists [], (Some c), s, cp. split; [reflexivity|]. split; [constructor | exact H].
  - destruct (xorb (word_at prev) (word_at (head s))); [|discriminate].
    exists [], prev, s, cp. split; [reflexivity|]. split; [constructor | exact H].
  - destruct s as [|c [|c' s']].
    + exists [], prev, [], cp. split; [reflexivity|]. split; [constructor | exact H].
    + destruct (Chr.eqb c "010"%char); [|discriminate].
      exists [], prev, [c], cp. split; [reflexivity|]. split; [constructor | exact H].
    + discriminate.
Qed.

(** The leftmost match cuts the text in three: what is skipped, what is
    matched, and what is left. *)
Lemma search_decomposes (r : regex) :
  only r ->
  forall s must_advance prev m rest,
    search icase r must_advance prev s = Some (m, rest) ->
    s = m_pre m ++ m_text m ++ rest /\ List.Forall Q (m_text m).
Proof.
  intros Hr. induction s as [|c s IH]; intros must_advance prev m rest H; cbn [search] in H.
  - match type of H with
    | match ?x with Some _ => _ | None => _ end = _ => destruct x as [[s1 c1]|] eqn:Hrun
    end; [|discriminate].
    injection H as <- <-. cbn [m_pre m_text].
    destruct (run_only r Hr _ _ _ _ _ Hrun) as (consumed & p1 & s1' & c1' & Hs & Hall & Hk).
    destruct (must_advance && (length s1' =? length [])%nat)%bool; [discriminate|].
    injection Hk as -> _. destruct consumed; [|discriminate]. cbn in Hs. subst s1.
    split; [reflexivity | constructor].
  - match type of H with
    | match ?x with Some _ => _ | None => _ end = _ => destruct x as [[s1 c1]|] eqn:Hrun
    end.
    + injection H as <- <-. cbn [m_pre m_text].
      destruct (run_only r Hr _ _ _ _ _ Hrun) as (consumed & p1 & s1' & c1' & Hs & Hall & Hk).
      destruct (must_advance && (length s1' =? length (c :: s))%nat)%bool; [discriminate|].
      injection Hk as -> _. rewrite Hs.
      assert (Hl : (S (length s) - length s1)%nat = length consumed).
      { apply (f_equal (@length ascii)) in Hs. cbn [length] in Hs.
        rewrite length_app in Hs. lia. }
      cbn [length]. rewrite Hl, take_app_length.
      split; [reflexivity | exact Hall].
    + destruct (search icase r false (Some c) s) as [[m' rest']|] eqn:Hs; [|discriminate].
      injection H as <- <-. cbn [m_pre m_text].
      destruct (IH _ _ _ _ Hs) as [Hd Hall]. split; [|exact Hall].
      rewrite Hd at 1. reflexivity.
Qed.

(** The matches of a scan, with what they skip, and the text after the
    last one, make up the text. *)
Lemma scan_decomposes (r : regex) :
  only r ->
  forall fuel must_advance prev s ms tl,
    scan fuel icase r must_advance prev s = (ms, tl) ->
    s = flat_map (fun m => m_pre m ++ m_text m) ms ++ tl
    /\ List.Forall (fun m => List.Forall Q (m_text m)) ms.
Proof.
  intros Hr. induction fuel as [|fuel IH]; intros must_advance prev s ms tl H; cbn [scan] in H.
  - injection H as <- <-. split; [reflexivity | constructor].
  - destruct (search icase r must_advance prev s) as [[m rest]|] eqn:Hs.
    + destruct (scan fuel icase r _ _ rest) as [ms' tl'] eqn:Hrest.
      injection H as <- <-.
      destruct (search_decomposes r Hr _ _ _ _ _ Hs) as [Hd Hall].
      destruct (IH _ _ _ _ _ Hrest) as [Hd' Hall'].
      split; [|constructor; assumption].
      cbn [flat_map]. rewrite Hd, Hd' at 1. rewrite <- !app_assoc. reflexivity.
    + injection H as <- <-. split; [reflexivity | constructor].
Qed.

End Consumed.

Lemma only_anything (icase : bool) (r : regex) : only icase (fun _ => True) r.
Proof. induction r; cbn; auto. Qed.

(** A pattern that consumes at least one character whenever it matches. *)
Fixpoint advances (r : regex) : bool :=
  match r with
  | Lit l => match chars l with [] => false | _ => true end
  | Cls _ => true
  | Seq a b => advances a || advances b
  | Alt a b => advances a && advances b
  | Rep a lo _ _ => advances a && (1 <=? lo)%nat
  | Grp _ a => advances a
  | Ahead _ | NotAhead _ | Behind _ | WordB | Eos => false
  end.

Section Advances.

Variable icase : bool.

Let any : ascii -> Prop := fun _ => True.

Lemma run_consumes (r : regex) (prev : option ascii) (s : list ascii) (cp : captures)
      (k : kont) (o : outcome) :
  run icase r prev s cp k = Some o ->
  exists consumed p1 s1 c1, s = consumed ++ s1 /\ k p1 s1 c1 = Some o.
Proof.
  intros H.
  destruct (run_only icase any r (only_anything icase r) _ _ _ _ _ H)
    as (consumed & p1 & s1 & c1 & Hs & _ & Hk).
  exists consumed, p1, s1, c1. auto.
Qed.

Lemma rep_loop_advances (a : regex) (lo : nat) (hi : option nat) (greedy : bool) (k : kont)
      (o : outcome) :
  (forall prev s cp (kk : kont),
      run icase a prev s cp kk = Some o ->
      exists consumed p1 s1 c1,
        s = consumed ++ s1 /\ consumed <> [] /\ kk p1 s1 c1 = Some o) ->
  forall fuel n prev s cp,
    (n < lo)%nat ->
    rep_loop icase a lo hi greedy k fuel n prev s cp = Some o ->
    exists consumed p1 s1 c1,
      s = consumed ++ s1 /\ consumed <> [] /\ k p1 s1 c1 = Some o.
Proof.
  intros IHa fuel n prev s cp Hn H.
  assert (Hstop : (lo <=? n)%nat = false) by (apply Nat.leb_gt; exact Hn).
  destruct fuel as [|fuel].
  - cbn in H. rewrite Hstop in H. discriminate.
  - rewrite rep_loop_step in H. cbv zeta in H. rewrite Hstop in H.
    assert (Hagain : (if under hi n
                      then run icase a prev s cp
                             (fun p1 s1 c1 =>
                                if (length s1 <? length s)%nat
                                then rep_loop icase a lo hi greedy k fuel (S n) p1 s1 c1
                                else None)
                      else None) = Some o ->
                     exists consumed p2 s2 c2,
                       s = consumed ++ s2 /\ consumed <> [] /\ k p2 s2 c2 = Some o).
    { intros Hrun. destruct (under hi n); [|discriminate].
      destruct (IHa _ _ _ _ Hrun) as (c1 & p1 & s1 & cp1 & -> & Hne & H1).
      destruct (length s1 <? length (c1 ++ s1))%nat; [|discriminate].
      destruct (rep_loop_only icase any a lo hi greedy k o
                  (fun prev s cp kk Hr =>
                     run_only icase any a (only_anything icase a) prev s cp kk o Hr)
                  _ _ _ _ _ H1)
        as (c2 & p2 & s2 & cp2 & -> & _ & H2).
      exists (c1 ++ c2), p2, s2, cp2. rewrite <- app_assoc. split; [reflexivity|].
      split; [|exact H2]. intros Hnil. apply app_eq_nil in Hnil as [Hnil _]. auto. }
    destruct greedy.
    + match type of H with
      | match ?x with Some _ => _ | None => _ end = _ => destruct x as [o'|] eqn:Hx
      end; [|discriminate].
      injection H as <-. exact (Hagain eq_refl).
    + exact (Hagain H).
Qed.

(** A successful run of a pattern that advances has consumed a prefix
    that is not empty. *)
Lemma run_advances (r : regex) :
  advances r = true ->
  forall prev s cp (k : kont) o,
    run icase r prev s cp k = Some o ->
    exists consumed p1 s1 c1,
      s = consumed ++ s1 /\ consumed <> [] /\ k p1 s1 c1 = Some o.
Proof.
  induction r as [l|cs|a IHa b IHb|a IHa b IHb|a IHa lo hi greedy|n a IHa|a _|a _|cs| |];
    intros Hr prev s cp k o H; cbn [advances] in Hr; try discriminate.
  - cbn [run] in H.
    destruct (eat icase (chars l) prev s) as [[p1 s1]|] eqn:He; [|discriminate].
    destruct (eat_consumes icase any _ (fun _ _ _ _ => I) _ _ _ _ He) as (consumed & -> & _).
    exists consumed, p1, s1, cp. split; [reflexivity|]. split; [|exact H].
    destruct (chars l) as [|x l']; [discriminate|].
    destruct consumed as [|c consumed]; [|discriminate].
    cbn in He. destruct s1 as [|c s1]; [discriminate|].
    destruct (chr_eq icase x c); [|discriminate].
    apply (eat_consumes icase any _ (fun _ _ _ _ => I)) in He.
    destruct He as (consumed & He & _).
    apply (f_equal (@length ascii)) in He. rewrite length_app in He. cbn in He. lia.
  - cbn [run] in H. destruct s as [|c s1]; [discriminate|].
    destruct (cs_has icase cs c); [|discriminate].
    exists [c], (Some c), s1, cp. split; [reflexivity|]. split; [discriminate | exact H].
  - cbn [run] in H. destruct (advances a) eqn:Ha.
    + destruct (IHa eq_refl _ _ _ _ _ H) as (c1 & p1 & s1 & cp1 & -> & Hne & H1).
      destruct (run_consumes _ _ _ _ _ _ H1) as (c2 & p2 & s2 & cp2 & -> & H2).
      exists (c1 ++ c2), p2, s2, cp2. rewrite <- app_assoc. split; [reflexivity|].
      split; [|exact H2]. intros Hnil. apply app_eq_nil in Hnil as [Hnil _]. auto.
    + cbn in Hr.
      destruct (run_consumes _ _ _ _ _ _ H) as (c1 & p1 & s1 & cp1 & -> & H1).
      destruct (IHb Hr _ _ _ _ _ H1) as (c2 & p2 & s2 & cp2 & -> & Hne & H2).
      exists (c1 ++ c2), p2, s2, cp2. rewrite <- app_assoc. split; [reflexivity|].
      split; [|exact H2]. intros Hnil. apply app_eq_nil in Hnil as [_ Hnil]. auto.
  - cbn [run] in H. apply andb_prop in Hr as [Ha Hb].
    destruct (run icase a prev s cp k) as [o'|] eqn:Hrun.
    + injection H as <-. exact (IHa Ha _ _ _ _ _ Hrun).
    + exact (IHb Hb _ _ _ _ _ H).
  - rewrite run_rep in H. apply andb_prop in Hr as [Ha Hlo]. apply Nat.leb_le in Hlo.
    exact (rep_loop_advances a lo hi greedy k o
             (fun prev s cp kk => IHa Ha prev s cp kk o) _ _ _ _ _ Hlo H).
  - cbn [run] in H.
    destruct (IHa Hr _ _ _ _ _ H) as (c1 & p1 & s1 & cp1 & -> & Hne & H1).
    exists c1, p1, s1, ((n, firstn (length (c1 ++ s1) - length s1) (c1 ++ s1)) :: cp1). auto.
Qed.

End Advances.

(** [re.sub] with a callable that gives every match back leaves the text
    as it is. *)
Lemma sub_gives_back (icase : bool) (r : regex) (repl : rmatch -> list ascii) (s : list ascii) :
  List.Forall (fun m => repl m = m_text m) (finditer icase r s) ->
  sub icase r repl s = s.
Proof.
  unfold finditer, sub, scan_all.
  destruct (scan (2 * length s + 2) icase r false None s) as [ms tl] eqn:Hscan.
  cbn [fst]. intros Hall.
  destruct (scan_decomposes icase (fun _ => True) r (only_anything icase r) _ _ _ _ _ _ Hscan)
    as [Hd _].
  etransitivity; [|symmetry; exact Hd]. f_equal.
  clear Hd Hscan. induction Hall as [|m ms Hm _ IH]; [reflexivity|].
  cbn [flat_map]. rewrite Hm, IH. reflexivity.
Qed.

Lemma starts_with_spec (p s : list ascii) :
  starts_with p s = true -> exists rest, s = p ++ rest.
Proof.
  revert s. induction p as [|x p IH]; intros s H; [exists s; reflexivity|].
  destruct s as [|c s]; [discriminate|]. cbn in H.
  apply andb_prop in H as [Hx Hp]. apply Ascii.eqb_eq in Hx. subst c.
  destruct (IH _ Hp) as [rest ->]. exists rest. reflexivity.
Qed.

Lemma replace_go_skip (old new : list ascii) (x rest : list ascii) :
  replace_go old new (length x) (x ++ rest) = replace_go old new 0 rest.
Proof. induction x as [|c x IH]; [reflexivity | exact IH]. Qed.

(** [s.replace(x, x)] is [s]. *)
Lemma str_replace_same (x s : list ascii) : str_replace x x s = s.
Proof.
  unfold str_replace. destruct x as [|c0 x0] eqn:Hx.
  - cbn. induction s as [|c s IH]; [reflexivity | cbn; f_equal; exact IH].
  - rewrite <- Hx. assert (Hne : x <> []) by (rewrite Hx; discriminate). clear Hx c0 x0.
    remember (length s) as n eqn:Hn. revert s Hn.
    induction n as [n IH] using lt_wf_ind. intros s Hn.
    destruct s as [|c s']; [reflexivity|]. cbn [replace_go].
    destruct (starts_with x (c :: s')) eqn:Hs.
    + destruct (starts_with_spec _ _ Hs) as [rest Hrest].
      destruct x as [|x0 x']; [contradiction|]. cbn in Hrest. injection Hrest as -> ->.
      replace (length (x0 :: x') - 1)%nat with (length x') by (cbn [length]; lia).
      rewrite replace_go_skip.
      rewrite (IH (length rest)); [reflexivity | | reflexivity].
      rewrite Hn. cbn. rewrite length_app. lia.
    + f_equal. apply (IH (length s')); [rewrite Hn; cbn; lia | reflexivity].
Qed.

End ReProps.

(** ** Redactor *)
Module RedactorProps.
Import Re SensitiveInfoFilter RedactorSpec.

(** A pattern that [re.search] does not find yields no [finditer] match. *)
Lemma finditer_not_found (r : regex) (s : list ascii) :
  found true r s = false -> finditer true r s = [].
Proof.
  unfold found, finditer, scan_all.
  replace (2 * length s + 2)%nat with (S (2 * length s + 1)) by lia.
  cbn [scan].
  destruct (search true r false None s) as [[m rest]|]; [discriminate | reflexivity].
Qed.

Lemma apply_pattern_not_found (p : pattern) (s : list ascii) :
  found true (pattern_re p) s = false -> apply_pattern p s = s.
Proof.
  intros H. unfold apply_pattern. rewrite (finditer_not_found _ _ H). reflexivity.
Qed.

(** The loop of [filter_text] over any list of patterns none of which is
    found leaves the text and the detections as they were. *)
Lemma filter_loop_not_found (ps : list pattern) (verbose : bool)
      (s : list ascii) (det : list string) :
  existsb (fun p => found true (pattern_re p) s) ps = false ->
  fold_left
    (fun '(cur, det) p =>
       (apply_pattern p cur,
        if verbose
        then det ++ map (fun _ => pattern_name p) (finditer true (pattern_re p) cur)
        else det))
    ps (s, det) = (s, det).
Proof.
  induction ps as [|p ps IH]; intros H; [reflexivity|].
  cbn [existsb] in H. apply orb_false_iff in H as [Hp Hps].
  cbn [fold_left]. rewrite (apply_pattern_not_found _ _ Hp).
  rewrite (finditer_not_found _ _ Hp). cbn [map]. rewrite app_nil_r.
  destruct verbose; apply IH; exact Hps.
Qed.

(** A text in which [has_sensitive_info] finds nothing passes through
    [filter_text] unchanged, with nothing detected. *)
Lemma filter_text_clean (txt : string) (verbose : bool) :
  has_sensitive_info txt = false -> filter_text txt verbose = (txt, []).
Proof.
  unfold has_sensitive_info, filter_text.
  destruct txt as [|c txt']; [reflexivity|].
  intros H. rewrite (filter_loop_not_found _ _ _ _ H). rewrite text_chars. reflexivity.
Qed.

(** A pattern whose matches in the text are all kept leaves the text as
    it is. *)
Lemma apply_pattern_kept (p : pattern) (s : list ascii) :
  forallb (kept p) (finditer true (pattern_re p) s) = true -> apply_pattern p s = s.
Proof.
  intros H. rewrite forallb_forall in H.
  assert (Hkept : forall m, In m (finditer true (pattern_re p) s) ->
                            written_for p m = m_text m).
  { intros m Hm. specialize (H m Hm). unfold kept in H. apply String.eqb_eq in H.
    rewrite <- (chars_text (written_for p m)), H. apply chars_text. }
  clear H. unfold apply_pattern. unfold written_for in Hkept.
  destruct (pattern_repl p) as [r|t].
  - induction (finditer true (pattern_re p) s) as [|m ms IH]; [reflexivity|].
    cbn [fold_left]. rewrite <- (Hkept m (or_introl eq_refl)), ReProps.str_replace_same.
    apply IH. intros m' Hm'. apply Hkept. right. exact Hm'.
  - assert (Hsub : sub true (pattern_re p) (render t) s = s).
    { apply ReProps.sub_gives_back. apply List.Forall_forall. exact Hkept. }
    clear Hkept. induction (finditer true (pattern_re p) s) as [|m ms IH]; [reflexivity|].
    cbn [fold_left]. rewrite Hsub. exact IH.
Qed.

(** The loop of [filter_text] over patterns that each leave the text as it
    is returns the text. *)
Lemma filter_loop_kept (ps : list pattern) (s : list ascii) (det : list string) :
  forallb (fun p => forallb (kept p) (finditer true (pattern_re p) s)) ps = true ->
  fold_left
    (fun '(cur, det) p =>
       (apply_pattern p cur,
        if false
        then det ++ map (fun _ => pattern_name p) (finditer true (pattern_re p) cur)
        else det))
    ps (s, det) = (s, det).
Proof.
  induction ps as [|p ps IH]; intros H; [reflexivity|].
  cbn [forallb] in H. apply andb_prop in H as [Hp Hps].
  cbn [fold_left]. rewrite (apply_pattern_kept _ _ Hp). exact (IH Hps).
Qed.

(** A text without a match is settled. *)
Lemma clean_is_settled (txt : string) : has_sensitive_info txt = false -> settled txt = true.
Proof.
  unfold has_sensitive_info, settled. destruct txt as [|c txt'].
  - intros _. vm_compute. reflexivity.
  - generalize (chars (String c txt')) as s. intros s.
    induction PATTERNS as [|p ps IH]; intros H; [reflexivity|].
    cbn [existsb] in H. apply orb_false_iff in H as [Hp Hps].
    cbn [forallb]. rewrite (finditer_not_found _ _ Hp). cbn [forallb]. exact (IH Hps).
Qed.




End RedactorProps.

(** ** Chunker *)
Module ChunkerProps.
Import Str ChunkingService ChunkingSpec.

Local Open Scope Z_scope.

(** Both packing loops run the same round: flush when the next part would
    overflow, restart from the overlap, append the part.  They differ in how
    a part is counted and in the start offset they restart from. *)
Definition pack (count : list ascii -> Z) (chunk_size overlap : Z)
           (restart : acc -> list (list ascii) -> Z) (a : acc) (u : list ascii) : acc :=
  let a1 :=
    if (chunk_size <? current_tokens a + count u)
       && match current a with [] => false | _ => true end
    then
      {| chunks := chunks a ++ [make_chunk (current a) (current_tokens a) (current_start a)];
         current := (take_overlap count overlap (current a)).1;
         current_tokens := (take_overlap count overlap (current a)).2;
         current_start := restart a (take_overlap count overlap (current a)).1 |}
    else a in
  {| chunks := chunks a1;
     current := current a1 ++ [u];
     current_tokens := current_tokens a1 + count u;
     current_start := current_start a1 |}.

Lemma large_step_pack chunk_size overlap tokenizer a w :
  large_step chunk_size overlap tokenizer a w
  = pack (word_tokens tokenizer) chunk_size overlap
         (fun a kept => current_start a
                        + (len (join space (current a)) - len (join space kept))) a w.
Proof.
  unfold large_step, pack.
  destruct (take_overlap (word_tokens tokenizer) overlap (current a)) as [kept kt].
  destruct ((chunk_size <? current_tokens a + word_tokens tokenizer w)
            && match current a with [] => false | _ => true end); reflexivity.
Qed.

Lemma sentence_step_pack txt chunk_size overlap tokenizer start_offset a s :
  (chunk_size <? _count_tokens s tokenizer) = false ->
  sentence_step txt chunk_size overlap tokenizer start_offset a s
  = pack (fun s => _count_tokens s tokenizer) chunk_size overlap
         (fun a kept => start_offset + len (join space (current a))
                        - len (join space kept)) a s.
Proof.
  intros H. unfold sentence_step, pack. rewrite H.
  destruct (take_overlap (fun s0 => _count_tokens s0 tokenizer) overlap (current a))
    as [kept kt].
  destruct ((chunk_size <? current_tokens a + _count_tokens s tokenizer)
            && match current a with [] => false | _ => true end); reflexivity.
Qed.

(** *** The overlap is a suffix of the flushed parts *)

Fixpoint total (count : list ascii -> Z) (l : list (list ascii)) : Z :=
  match l with
  | [] => 0
  | u :: l' => count u + total count l'
  end.

Lemma total_app count l1 l2 : total count (l1 ++ l2) = total count l1 + total count l2.
Proof. induction l1 as [|u l1 IH]; cbn; [lia | rewrite IH; lia]. Qed.

Lemma total_rev count l : total count (rev l) = total count l.
Proof.
  induction l as [|u l IH]; [reflexivity|].
  cbn [rev]. rewrite total_app, IH. cbn. lia.
Qed.

Lemma total_pos count l :
  l <> [] -> Forall (fun u => 0 < count u) l -> 0 < total count l.
Proof.
  intros Hne Hall. destruct l as [|u l]; [congruence|].
  inversion Hall as [|? ? Hu Hl]; subst. cbn.
  assert (0 <= total count l).
  { clear -Hl. induction Hl as [|v l Hv Hl IH]; cbn; lia. }
  lia.
Qed.

Lemma overlap_loop_spec count overlap reversed kept kt :
  exists taken rest,
    reversed = taken ++ rest
    /\ overlap_loop count overlap reversed kept kt
       = (rev taken ++ kept, kt + total count taken)
    /\ (kt <= overlap -> kt + total count taken <= overlap).
Proof.
  revert kept kt.
  induction reversed as [|s rest IH]; intros kept kt.
  - exists [], []. cbn. repeat split; [f_equal; lia | lia].
  - cbn [overlap_loop].
    destruct (kt + count s <=? overlap) eqn:E.
    + apply Z.leb_le in E.
      destruct (IH (s :: kept) (kt + count s)) as (taken & rest' & -> & Heq & Hle).
      exists (s :: taken), rest'. split; [reflexivity|]. split.
      * rewrite Heq. cbn [rev]. rewrite <- app_assoc. cbn. f_equal. lia.
      * intros _. cbn. specialize (Hle E). lia.
    + exists [], (s :: rest). cbn. repeat split; [f_equal; lia | lia].
Qed.

Lemma take_overlap_spec count overlap parts :
  0 <= overlap ->
  exists dropped,
    parts = dropped ++ (take_overlap count overlap parts).1
    /\ (take_overlap count overlap parts).2
       = total count (take_overlap count overlap parts).1
    /\ (take_overlap count overlap parts).2 <= overlap.
Proof.
  intros Hov. unfold take_overlap.
  destruct (overlap_loop_spec count overlap (rev parts) [] 0)
    as (taken & rest & Hrev & Heq & Hle).
  rewrite Heq. cbn [fst snd]. rewrite app_nil_r.
  exists (rev rest). split; [|split].
  - rewrite <- (rev_involutive parts), Hrev, rev_app_distr. reflexivity.
  - rewrite total_rev. lia.
  - specialize (Hle Hov). lia.
Qed.

Lemma take_overlap_suffix count overlap parts :
  exists dropped, parts = dropped ++ (take_overlap count overlap parts).1.
Proof.
  unfold take_overlap.
  destruct (overlap_loop_spec count overlap (rev parts) [] 0)
    as (taken & rest & Hrev & Heq & _).
  rewrite Heq. cbn [fst]. rewrite app_nil_r.
  exists (rev rest).
  rewrite <- (rev_involutive parts), Hrev, rev_app_distr. reflexivity.
Qed.

(** *** Token bounds *)

Section Bounds.
Variables (count : list ascii -> Z) (chunk_size overlap : Z).
Hypothesis overlap_nonneg : 0 <= overlap.

(** What the packing loops maintain between rounds. *)
Record bounded (a : acc) : Prop :=
  { b_chunks : Forall (within_bound chunk_size overlap) (chunks a);
    b_sum : current_tokens a = total count (current a);
    b_pos : Forall (fun u => 0 < count u) (current a);
    b_top : current a <> [] -> current_tokens a <= chunk_size + overlap }.

Lemma bounded_flush a :
  bounded a -> current a <> [] ->
  within_bound chunk_size overlap
               (make_chunk (current a) (current_tokens a) (current_start a)).
Proof.
  intros [Hc Hs Hp Ht] Hne. unfold within_bound. cbn [make_chunk token_count].
  split; [rewrite Hs; apply total_pos; assumption | apply Ht; assumption].
Qed.

Lemma bounded_pack restart a u :
  bounded a -> 0 < count u <= chunk_size ->
  bounded (pack count chunk_size overlap restart a u).
Proof.
  intros Ha [Hu1 Hu2]. pose proof Ha as [Hc Hs Hp Ht]. unfold pack.
  destruct ((chunk_size <? current_tokens a + count u)
            && match current a with [] => false | _ => true end) eqn:E.
  - apply andb_true_iff in E as [_ Hne].
    assert (Hne' : current a <> []) by (destruct (current a); [discriminate | congruence]).
    destruct (take_overlap_spec count overlap (current a) overlap_nonneg)
      as (dropped & Hsplit & Hsum & Hle).
    constructor; cbn [chunks current current_tokens].
    + apply Forall_app. split; [exact Hc|].
      constructor; [apply bounded_flush; assumption | constructor].
    + rewrite total_app, Hsum. cbn. lia.
    + apply Forall_app. split; [|constructor; [exact Hu1 | constructor]].
      rewrite Hsplit in Hp. apply Forall_app in Hp. apply Hp.
    + intros _. lia.
  - constructor; cbn [chunks current current_tokens].
    + exact Hc.
    + rewrite total_app, Hs. cbn. lia.
    + apply Forall_app. split; [exact Hp | constructor; [exact Hu1 | constructor]].
    + intros _. apply andb_false_iff in E as [E|E].
      * apply Z.ltb_ge in E. lia.
      * destruct (current a) eqn:Hcur; [|discriminate].
        rewrite Hs. cbn. lia.
Qed.

Lemma bounded_fold restart (us : list (list ascii)) a :
  bounded a -> Forall (fun u => 0 < count u <= chunk_size) us ->
  bounded (fold_left (pack count chunk_size overlap restart) us a).
Proof.
  revert a. induction us as [|u us IH]; intros a Ha Hus; [exact Ha|].
  inversion Hus as [|? ? Hu Hus']; subst. cbn [fold_left].
  apply IH; [apply bounded_pack; assumption | exact Hus'].
Qed.

End Bounds.


Section TokenBounds.
Variables (tokenizer : tokenizer_t) (chunk_size overlap : Z).
Hypothesis overlap_nonneg : 0 <= overlap.

Local Abbreviation count := (fun s => _count_tokens s tokenizer).
Local Abbreviation ok := (within_bound chunk_size overlap).

Lemma fold_large_step_pack (ws : list (list ascii)) (a : acc) :
  fold_left (large_step chunk_size overlap tokenizer) ws a
  = fold_left (pack (word_tokens tokenizer) chunk_size overlap
                    (fun a kept => current_start a
                                   + (len (join space (current a)) - len (join space kept))))
              ws a.
Proof.
  revert a. induction ws as [|w ws IH]; intros a; [reflexivity|].
  cbn [fold_left]. rewrite large_step_pack. apply IH.
Qed.

Lemma word_fits_spec (w : list ascii) :
  word_fits tokenizer chunk_size w = true ->
  0 < word_tokens tokenizer w <= chunk_size.
Proof.
  unfold word_fits. intros H. apply andb_true_iff in H as [H1 H2].
  apply Z.ltb_lt in H1. apply Z.leb_le in H2. lia.
Qed.

Lemma split_large_text_bounded (s : list ascii) (start_offset : Z) :
  forallb (word_fits tokenizer chunk_size) (split_ws s) = true ->
  Forall ok (_split_large_text s chunk_size overlap tokenizer start_offset).
Proof.
  intros Hfit. unfold _split_large_text. rewrite fold_large_step_pack.
  match goal with |- context [fold_left ?f ?l ?a0] =>
    assert (Hb : bounded (word_tokens tokenizer) chunk_size overlap (fold_left f l a0)) end.
  { apply bounded_fold; [exact overlap_nonneg | |].
    - constructor; cbn; [constructor | reflexivity | constructor | congruence].
    - apply List.Forall_forall. intros w Hw. apply word_fits_spec.
      rewrite forallb_forall in Hfit. apply Hfit, Hw. }
  match type of Hb with bounded _ _ _ ?a => set (a1 := a) in * end.
  destruct (current a1) eqn:Hcur; [apply Hb|].
  apply Forall_app. split; [apply Hb|].
  constructor; [|constructor]. rewrite <- Hcur.
  eapply bounded_flush; [exact Hb | congruence].
Qed.

Lemma sentence_step_bounded (txt : list ascii) (start_offset : Z) (a : acc) (s : list ascii) :
  bounded count chunk_size overlap a ->
  sentence_fits tokenizer chunk_size s = true ->
  bounded count chunk_size overlap
          (sentence_step txt chunk_size overlap tokenizer start_offset a s).
Proof.
  intros Ha Hfit. unfold sentence_fits in Hfit.
  apply andb_true_iff in Hfit as [Hpos Hfit]. apply Z.ltb_lt in Hpos.
  destruct (chunk_size <? _count_tokens s tokenizer) eqn:Hlarge.
  - unfold sentence_step. rewrite Hlarge.
    apply Z.ltb_lt in Hlarge.
    apply orb_true_iff in Hfit as [Hfit|Hfit]; [apply Z.leb_le in Hfit; lia|].
    constructor; cbn [chunks current current_tokens].
    + apply Forall_app. split.
      * destruct (current a) eqn:Hcur; [apply Ha|].
        apply Forall_app. split; [apply Ha|].
        constructor; [|constructor]. rewrite <- Hcur.
        eapply bounded_flush; [exact Ha | congruence].
      * apply split_large_text_bounded, Hfit.
    + reflexivity.
    + constructor.
    + congruence.
  - rewrite sentence_step_pack by exact Hlarge.
    apply bounded_pack; [exact overlap_nonneg | exact Ha |].
    apply Z.ltb_ge in Hlarge. cbn beta. lia.
Qed.

Lemma chunk_text_bounded (txt : list ascii) (start_offset : Z) :
  text_fits tokenizer chunk_size txt = true ->
  Forall ok (_chunk_text txt chunk_size overlap tokenizer start_offset).
Proof.
  unfold text_fits, _chunk_text. intros Hfit.
  destruct (strip txt) as [|c0 rest] eqn:Hstrip; [constructor|].
  set (stxt := c0 :: rest) in *.
  match goal with |- context [fold_left ?f ?l ?a0] =>
    assert (Hb : bounded count chunk_size overlap (fold_left f l a0)) end.
  { generalize dependent (_split_into_sentences stxt). intros ss Hss.
    match goal with |- bounded _ _ _ (fold_left _ _ ?a0) =>
      assert (H0 : bounded count chunk_size overlap a0)
        by (constructor; cbn; [constructor | reflexivity | constructor | congruence]);
      generalize dependent a0 end.
    induction ss as [|s ss IH]; intros a0 H0; [exact H0|].
    cbn [forallb] in Hss. apply andb_true_iff in Hss as [Hs Hss].
    cbn [fold_left]. apply IH; [exact Hss|].
    apply sentence_step_bounded; assumption. }
  match type of Hb with bounded _ _ _ ?a => set (a1 := a) in * end.
  destruct (current a1) eqn:Hcur; [apply Hb|].
  match goal with |- context [if ?b then _ else _] => destruct b end; [|apply Hb].
  apply Forall_app. split; [apply Hb|].
  constructor; [|constructor]. rewrite <- Hcur.
  eapply bounded_flush; [exact Hb | congruence].
Qed.

Lemma pages_loop_bounded (pages : list (list ascii)) (page_num offset : Z) :
  forallb (text_fits tokenizer chunk_size) pages = true ->
  Forall ok (pages_loop pages page_num chunk_size overlap tokenizer offset).
Proof.
  revert page_num offset.
  induction pages as [|p ps IH]; intros page_num offset Hfit; [constructor|].
  cbn [forallb] in Hfit. apply andb_true_iff in Hfit as [Hp Hps].
  cbn [pages_loop]. destruct (nonblank p); [|apply IH, Hps].
  apply Forall_app. split; [|apply IH, Hps].
  apply List.Forall_forall. intros c Hc. apply in_map_iff in Hc as (c0 & <- & Hc0).
  pose proof (chunk_text_bounded p offset Hp) as Hall.
  rewrite List.Forall_forall in Hall. exact (Hall c0 Hc0).
Qed.

Lemma chunk_document_bounded (txt : string) (pages : option (list string)) :
  document_fits tokenizer chunk_size txt pages = true ->
  Forall ok (chunk_document txt chunk_size overlap pages tokenizer).
Proof.
  unfold document_fits, chunk_document. intros Hfit.
  destruct (nonblank (chars txt)); [|constructor].
  destruct pages as [[|p ps]|]; try (apply chunk_text_bounded; exact Hfit).
  unfold _chunk_with_pages. apply pages_loop_bounded.
  rewrite forallb_forall in *. intros pg Hpg.
  apply in_map_iff in Hpg as (pg0 & <- & Hpg0). apply Hfit, Hpg0.
Qed.

End TokenBounds.

End ChunkerProps.

Module ChunkerOrder.
Import Str ChunkingService ChunkingSpec ChunkerProps.

(** *** Ranges *)

Lemma spans_bounds U c r : spans U c r -> (r.1 < r.2 <= length U)%nat.
Proof.
  intros (b & u & a & -> & H1 & H2 & Hne & _).
  rewrite length_app in H2. rewrite !length_app.
  destruct u; [congruence|]. cbn [length] in *. lia.
Qed.

Lemma spans_app_r U X c r : spans U c r -> spans (U ++ X) c r.
Proof.
  intros (b & u & a & -> & H1 & H2 & Hne & Hc).
  exists b, u, (a ++ X). rewrite <- !app_assoc. auto.
Qed.

Definition shift (n : nat) (r : nat * nat) : nat * nat := (n + r.1, n + r.2)%nat.

Lemma spans_shift V U c r : spans U c r -> spans (V ++ U) c (shift (length V) r).
Proof.
  intros (b & u & a & -> & H1 & H2 & Hne & Hc).
  exists (V ++ b), u, a. rewrite <- !app_assoc. cbn [shift fst snd].
  rewrite !length_app in *. repeat split; auto; lia.
Qed.

Lemma spans_content U c c' r : content c' = content c -> spans U c r -> spans U c' r.
Proof.
  intros E (b & u & a & HU & H1 & H2 & Hne & Hc).
  exists b, u, a. rewrite E. auto.
Qed.

Lemma advancing_app (rs1 rs2 : list (nat * nat)) :
  advancing rs1 -> advancing rs2 ->
  (forall a b, last rs1 = Some a -> head rs2 = Some b ->
               (a.1 <= b.1)%nat /\ (a.2 < b.2)%nat) ->
  advancing (rs1 ++ rs2).
Proof.
  intros H1 H2 Hb k a b Ha Hb'.
  destruct (decide (S k < length rs1)%nat) as [Hlt|Hge].
  - rewrite lookup_app_l in Ha by lia. rewrite lookup_app_l in Hb' by lia.
    exact (H1 k a b Ha Hb').
  - destruct (decide (k < length rs1)%nat) as [Hk|Hk].
    + rewrite lookup_app_l in Ha by lia. rewrite lookup_app_r in Hb' by lia.
      replace (S k - length rs1)%nat with 0%nat in Hb' by lia.
      apply Hb.
      * rewrite last_lookup. replace (Nat.pred (length rs1)) with k by lia. exact Ha.
      * rewrite head_lookup. exact Hb'.
    + rewrite lookup_app_r in Ha by lia. rewrite lookup_app_r in Hb' by lia.
      replace (S k - length rs1)%nat with (S (k - length rs1)) in Hb' by lia.
      exact (H2 _ a b Ha Hb').
Qed.

Lemma advancing_nil : advancing [].
Proof. intros k a b Ha. rewrite lookup_nil in Ha. discriminate. Qed.

Lemma advancing_one (r : nat * nat) : advancing [r].
Proof.
  intros k a b Ha Hb. destruct k; cbn in Hb; discriminate.
Qed.

Lemma advancing_snoc (rs : list (nat * nat)) (r : nat * nat) :
  advancing rs ->
  (forall a, last rs = Some a -> (a.1 <= r.1)%nat /\ (a.2 < r.2)%nat) ->
  advancing (rs ++ [r]).
Proof.
  intros H Hl. apply advancing_app; [exact H | apply advancing_one |].
  intros a b Ha Hb. cbn in Hb. injection Hb as <-. apply Hl, Ha.
Qed.

Lemma advancing_shift (n : nat) (rs : list (nat * nat)) :
  advancing rs -> advancing (shift n <$> rs).
Proof.
  intros H k a b Ha Hb. rewrite list_lookup_fmap in Ha, Hb.
  destruct (rs !! k) as [a0|] eqn:Ea; [|discriminate].
  destruct (rs !! S k) as [b0|] eqn:Eb; [|discriminate].
  cbn in Ha, Hb. injection Ha as <-. injection Hb as <-.
  destruct (H k a0 b0 Ea Eb). cbn. lia.
Qed.

Lemma Forall2_last_spans U cs rs r :
  Forall2 (spans U) cs rs -> last rs = Some r -> (r.1 < r.2 <= length U)%nat.
Proof.
  intros HF Hl. rewrite last_lookup in Hl.
  destruct (Forall2_lookup_r _ _ _ _ _ HF Hl) as (c & _ & Hs).
  eapply spans_bounds, Hs.
Qed.

Lemma Forall2_head_spans U cs rs r :
  Forall2 (spans U) cs rs -> head rs = Some r -> (r.1 < r.2 <= length U)%nat.
Proof.
  intros HF Hl. rewrite head_lookup in Hl.
  destruct (Forall2_lookup_r _ _ _ _ _ HF Hl) as (c & _ & Hs).
  eapply spans_bounds, Hs.
Qed.

(** Chunk lists in order over [U1] and over [U2] concatenate to one in
    order over [U1 ++ U2]. *)
Lemma in_text_order_app U1 U2 cs1 cs2 :
  in_text_order U1 cs1 -> in_text_order U2 cs2 ->
  in_text_order (U1 ++ U2) (cs1 ++ cs2).
Proof.
  intros (rs1 & HF1 & HA1) (rs2 & HF2 & HA2).
  exists (rs1 ++ (shift (length U1) <$> rs2)). split.
  - apply Forall2_app.
    + eapply Forall2_impl; [exact HF1|]. intros c r. apply spans_app_r.
    + apply Forall2_fmap_r. eapply Forall2_impl; [exact HF2|].
      intros c r. apply spans_shift.
  - apply advancing_app; [exact HA1 | apply advancing_shift, HA2 |].
    intros a b Ha Hb.
    pose proof (Forall2_last_spans _ _ _ _ HF1 Ha) as Ba.
    rewrite head_lookup, list_lookup_fmap in Hb.
    destruct (rs2 !! 0%nat) as [b0|] eqn:Eb; [|discriminate].
    cbn in Hb. injection Hb as <-.
    assert (Bb : (b0.1 < b0.2 <= length U2)%nat).
    { eapply Forall2_head_spans; [exact HF2 | rewrite head_lookup; exact Eb]. }
    cbn. lia.
Qed.

Lemma in_text_order_nil U : in_text_order U [].
Proof. exists []. split; [constructor | apply advancing_nil]. Qed.

Lemma in_text_order_app_r U X cs : in_text_order U cs -> in_text_order (U ++ X) cs.
Proof.
  intros H. rewrite <- (app_nil_r cs). apply in_text_order_app; [exact H|].
  apply in_text_order_nil.
Qed.

Lemma in_text_order_app_l V U cs : in_text_order U cs -> in_text_order (V ++ U) cs.
Proof.
  intros H. change cs with ([] ++ cs). apply in_text_order_app; [|exact H].
  apply in_text_order_nil.
Qed.

Lemma in_text_order_set_page U n cs :
  in_text_order U cs -> in_text_order U (map (set_page n) cs).
Proof.
  intros (rs & HF & HA). exists rs. split; [|exact HA].
  change (map (set_page n) cs) with (set_page n <$> cs).
  apply Forall2_fmap_l. eapply Forall2_impl; [exact HF|].
  intros c r. apply spans_content. reflexivity.
Qed.

(** *** The packing loops *)

(** What a packing loop maintains, [P] being the parts read so far: the
    chunks are in order over [P], the buffer is the tail of [P] from some
    index on, no chunk starts after that index, and a non-empty buffer
    reaches past the end of the last chunk. *)
Definition tracked (P : list (list ascii)) (a : acc) : Prop :=
  exists (rs : list (nat * nat)) (i : nat),
    Forall2 (spans P) (chunks a) rs
    /\ advancing rs
    /\ (i <= length P)%nat
    /\ current a = skipn i P
    /\ (forall r, last rs = Some r ->
                  (r.1 <= i)%nat /\ (current a <> [] -> (r.2 < length P)%nat)).

Lemma tracked_order P a : tracked P a -> in_text_order P (chunks a).
Proof. intros (rs & i & HF & HA & _). exists rs. auto. Qed.

Lemma tracked_flush P a tokens start :
  tracked P a -> current a <> [] ->
  in_text_order P (chunks a ++ [make_chunk (current a) tokens start]).
Proof.
  intros (rs & i & HF & HA & Hi & Hcur & Hlast) Hne.
  exists (rs ++ [(i, length P)]). split.
  - apply Forall2_app; [exact HF|]. constructor; [|constructor].
    exists (firstn i P), (current a), []. cbn [fst snd make_chunk content].
    rewrite app_nil_r, Hcur, firstn_skipn.
    repeat split; auto.
    + apply length_take_le. exact Hi.
    + rewrite <- Hcur. exact Hne.
  - apply advancing_snoc; [exact HA|]. intros r Hr.
    destruct (Hlast r Hr) as [H1 H2]. cbn. split; [exact H1 | exact (H2 Hne)].
Qed.

Lemma tracked_emptied P cs tokens start :
  in_text_order P cs ->
  tracked P {| chunks := cs; current := []; current_tokens := tokens;
               current_start := start |}.
Proof.
  intros (rs & HF & HA). exists rs, (length P). cbn [chunks current].
  split; [exact HF|]. split; [exact HA|]. split; [lia|].
  split; [rewrite drop_all; reflexivity|].
  intros r Hr. pose proof (Forall2_last_spans _ _ _ _ HF Hr).
  split; [lia | congruence].
Qed.

Lemma skipn_nonnil_lt {A : Type} (i : nat) (l : list A) :
  skipn i l <> [] -> (i < length l)%nat.
Proof.
  intros H. destruct (le_lt_dec (length l) i) as [Hle|Hlt]; [|exact Hlt].
  exfalso. apply H. apply skipn_all2. exact Hle.
Qed.

Lemma tracked_pack count chunk_size overlap restart P a u :
  tracked P a -> tracked (P ++ [u]) (pack count chunk_size overlap restart a u).
Proof.
  intros Ha. unfold pack.
  destruct ((chunk_size <? current_tokens a + count u)%Z
            && match current a with [] => false | _ => true end) eqn:E.
  - apply andb_true_iff in E as [_ Hne].
    assert (Hne' : current a <> []) by (destruct (current a); [discriminate | congruence]).
    destruct (tracked_flush P a (current_tokens a) (current_start a) Ha Hne')
      as (rs' & HF' & HA').
    destruct Ha as (rs & i & HF & HA & Hi & Hcur & Hlast).
    destruct (take_overlap_suffix count overlap (current a)) as (dropped & Hsplit).
    set (kept := (take_overlap count overlap (current a)).1) in *.
    assert (Hilt : (i < length P)%nat) by (apply skipn_nonnil_lt; rewrite <- Hcur; exact Hne').
    assert (Hlen : (length dropped + length kept = length P - i)%nat).
    { rewrite <- length_app, <- Hsplit, Hcur, length_skipn. reflexivity. }
    exists (rs ++ [(i, length P)]), (i + length dropped)%nat.
    cbn [chunks current].
    split; [|split; [|split; [|split]]].
    + apply Forall2_app.
      * eapply Forall2_impl; [exact HF|]. intros c r. apply spans_app_r.
      * constructor; [|constructor].
        exists (firstn i P), (current a), [u]. cbn [fst snd make_chunk content].
        rewrite Hcur. rewrite (app_assoc (firstn i P)), firstn_skipn.
        repeat split; auto.
        -- apply length_take_le. lia.
        -- rewrite <- Hcur. exact Hne'.
    + apply advancing_snoc; [exact HA|]. intros r Hr.
      destruct (Hlast r Hr) as [H1 H2]. cbn. split; [exact H1 | exact (H2 Hne')].
    + rewrite length_app. cbn. lia.
    + symmetry. rewrite drop_app_le by lia. f_equal.
      rewrite <- drop_drop, <- Hcur, Hsplit. apply drop_app_length.
    + intros r Hr. rewrite last_snoc in Hr. injection Hr as <-. cbn.
      rewrite length_app. cbn. split; [lia | intros _; lia].
  - destruct Ha as (rs & i & HF & HA & Hi & Hcur & Hlast).
    exists rs, i. cbn [chunks current].
    split; [|split; [|split; [|split]]].
    + eapply Forall2_impl; [exact HF|]. intros c r. apply spans_app_r.
    + exact HA.
    + rewrite length_app. lia.
    + rewrite Hcur, drop_app_le by lia. reflexivity.
    + intros r Hr. destruct (Hlast r Hr) as [H1 H2].
      pose proof (Forall2_last_spans _ _ _ _ HF Hr) as B.
      rewrite length_app. cbn. split; [exact H1 | intros _; lia].
Qed.

Lemma tracked_fold count chunk_size overlap restart (us : list (list ascii)) P a :
  tracked P a ->
  tracked (P ++ us) (fold_left (pack count chunk_size overlap restart) us a).
Proof.
  revert P a. induction us as [|u us IH]; intros P a Ha.
  - rewrite app_nil_r. exact Ha.
  - cbn [fold_left]. replace (P ++ u :: us) with ((P ++ [u]) ++ us)
      by (rewrite <- app_assoc; reflexivity).
    apply IH, tracked_pack, Ha.
Qed.

Lemma tracked_initial start :
  tracked [] {| chunks := []; current := []; current_tokens := 0;
                current_start := start |}.
Proof. apply tracked_emptied, in_text_order_nil. Qed.

Section Order.
Variables (tokenizer : tokenizer_t) (chunk_size overlap : Z).

Lemma split_large_text_order (s : list ascii) (start_offset : Z) :
  in_text_order (split_ws s)
                (_split_large_text s chunk_size overlap tokenizer start_offset).
Proof.
  unfold _split_large_text. rewrite fold_large_step_pack.
  match goal with |- context [fold_left ?f ?l ?a0] =>
    assert (Ht : tracked l (fold_left f l a0))
      by (apply (tracked_fold _ _ _ _ l [] a0), tracked_initial) end.
  match type of Ht with tracked _ ?a => set (a1 := a) in * end.
  destruct (current a1) eqn:Hcur; [apply tracked_order, Ht|].
  rewrite <- Hcur. apply tracked_flush; [exact Ht | congruence].
Qed.

Lemma sentence_step_tracked (txt : list ascii) (start_offset : Z) P (a : acc)
      (s : list ascii) :
  tracked P a ->
  tracked (P ++ sentence_units tokenizer chunk_size s)
          (sentence_step txt chunk_size overlap tokenizer start_offset a s).
Proof.
  intros Ha. unfold sentence_units.
  destruct (chunk_size <? _count_tokens s tokenizer)%Z eqn:Hlarge.
  - unfold sentence_step. rewrite Hlarge.
    apply tracked_emptied. apply in_text_order_app.
    + destruct (current a) eqn:Hcur; [apply tracked_order, Ha|].
      rewrite <- Hcur. apply tracked_flush; [exact Ha | congruence].
    + apply split_large_text_order.
  - rewrite sentence_step_pack by exact Hlarge. apply tracked_pack, Ha.
Qed.

Lemma chunk_text_order (txt : list ascii) (start_offset : Z) :
  in_text_order (text_units tokenizer chunk_size txt)
                (_chunk_text txt chunk_size overlap tokenizer start_offset).
Proof.
  unfold text_units, _chunk_text.
  destruct (strip txt) as [|c0 rest] eqn:Hstrip; [apply in_text_order_nil|].
  set (stxt := c0 :: rest) in *.
  match goal with |- context [fold_left ?f ?l ?a0] =>
    assert (Ht : tracked (flat_map (sentence_units tokenizer chunk_size) l)
                         (fold_left f l a0)) end.
  { change (flat_map (sentence_units tokenizer chunk_size) (_split_into_sentences stxt))
      with ([] ++ flat_map (sentence_units tokenizer chunk_size)
                           (_split_into_sentences stxt)).
    generalize (tracked_initial start_offset).
    generalize (@nil (list ascii)) at 1 3.
    generalize ({| chunks := []; current := []; current_tokens := 0;
                   current_start := start_offset |}).
    induction (_split_into_sentences stxt) as [|s ss IH]; intros a0 P H0.
    - cbn. rewrite app_nil_r. exact H0.
    - cbn [fold_left flat_map]. rewrite app_assoc.
      apply IH, sentence_step_tracked, H0. }
  match type of Ht with tracked _ ?a => set (a1 := a) in * end.
  destruct (current a1) eqn:Hcur; [apply tracked_order, Ht|].
  match goal with |- context [if ?b then _ else _] => destruct b end;
    [|apply tracked_order, Ht].
  rewrite <- Hcur. apply tracked_flush; [exact Ht | congruence].
Qed.

Lemma pages_loop_order (pages : list (list ascii)) (page_num offset : Z) :
  in_text_order (flat_map (text_units tokenizer chunk_size) pages)
                (pages_loop pages page_num chunk_size overlap tokenizer offset).
Proof.
  revert page_num offset.
  induction pages as [|p ps IH]; intros page_num offset; [apply in_text_order_nil|].
  cbn [pages_loop flat_map]. destruct (nonblank p).
  - apply in_text_order_app; [|apply IH].
    apply in_text_order_set_page, chunk_text_order.
  - apply in_text_order_app_l, IH.
Qed.

Lemma chunk_document_order (txt : string) (pages : option (list string)) :
  in_text_order (document_units tokenizer chunk_size txt pages)
                (chunk_document txt chunk_size overlap pages tokenizer).
Proof.
  unfold document_units, chunk_document.
  destruct (nonblank (chars txt)); [|apply in_text_order_nil].
  destruct pages as [[|p ps]|]; try apply chunk_text_order.
  unfold _chunk_with_pages.
  replace (flat_map (fun pg => text_units tokenizer chunk_size (chars pg)) (p :: ps))
    with (flat_map (text_units tokenizer chunk_size) (map chars (p :: ps))).
  - apply pages_loop_order.
  - generalize (p :: ps). intros l. induction l as [|x l IH]; [reflexivity|].
    cbn [map flat_map]. rewrite IH. reflexivity.
Qed.

End Order.

End ChunkerOrder.

(** ** Chunker: where the units lie in the text *)
Module ChunkerLayout.
Import Re Str ChunkingService ChunkingSpec ChunkerProps ChunkerOrder.

(** *** Blanks and trimmed pieces *)

Lemma blank_app (a b : list ascii) : blank (a ++ b) = blank a && blank b.
Proof. apply forallb_app. Qed.

Lemma blank_rev (a : list ascii) : blank (rev a) = blank a.
Proof.
  unfold blank. induction a as [|c a IH]; [reflexivity|].
  cbn [rev forallb]. rewrite forallb_app, IH. cbn. rewrite andb_true_r. apply andb_comm.
Qed.

Lemma trimmed_not_blank (u : list ascii) : trimmed u = true -> blank u = false.
Proof.
  destruct u as [|c u]; [discriminate|]. cbn [trimmed blank forallb].
  intros H. apply andb_prop in H as [H _]. destruct (Chr.is_space c); [discriminate | reflexivity].
Qed.

Lemma trimmed_not_nil (u : list ascii) : trimmed u = true -> u <> [].
Proof. destruct u; [discriminate | discriminate]. Qed.

Lemma trimmed_spec (u : list ascii) :
  trimmed u = true <->
  exists c d m, Chr.is_space c = false /\ Chr.is_space d = false
                /\ (u = [c] /\ d = c \/ u = c :: m ++ [d]).
Proof.
  split.
  - destruct u as [|c u]; [discriminate|]. cbn [trimmed]. intros H.
    apply andb_prop in H as [Hc Hd]. apply negb_true_iff in Hc, Hd.
    destruct (exists_last (l := c :: u)) as (m & d & Hm); [discriminate|].
    rewrite Hm, last_last in Hd.
    destruct m as [|c' m]; cbn in Hm; injection Hm as -> Hu.
    + exists d, d, []. subst u. auto.
    + exists c', d, m. subst u. auto.
  - intros (c & d & m & Hc & Hd & [ [-> ->] | -> ]).
    + cbn. rewrite Hc. reflexivity.
    + cbn [trimmed]. rewrite Hc. cbn [negb andb].
      change (c :: m ++ [d]) with ((c :: m) ++ [d]). rewrite last_last, Hd. reflexivity.
Qed.

Lemma trimmed_ends (c d : ascii) (m : list ascii) :
  Chr.is_space c = false -> Chr.is_space d = false -> trimmed (c :: m ++ [d]) = true.
Proof. intros Hc Hd. apply trimmed_spec. exists c, d, m. auto. Qed.

(** Two trimmed pieces with anything between them make a trimmed piece. *)
Lemma trimmed_app (a m b : list ascii) :
  trimmed a = true -> trimmed b = true -> trimmed (a ++ m ++ b) = true.
Proof.
  intros Ha Hb.
  apply trimmed_spec in Ha as (c & d & x & Hc & Hd & Ha).
  apply trimmed_spec in Hb as (c' & d' & y & Hc' & Hd' & Hb).
  destruct Ha as [ [-> ->] | -> ], Hb as [ [-> ->] | -> ].
  - change ([c] ++ m ++ [c']) with (c :: m ++ [c']). apply trimmed_ends; assumption.
  - replace ([c] ++ m ++ c' :: y ++ [d']) with (c :: (m ++ c' :: y) ++ [d'])
      by (cbn; rewrite <- app_assoc; reflexivity).
    apply trimmed_ends; assumption.
  - replace ((c :: x ++ [d]) ++ m ++ [c']) with (c :: (x ++ d :: m) ++ [c'])
      by (cbn; rewrite <- !app_assoc; reflexivity).
    apply trimmed_ends; assumption.
  - replace ((c :: x ++ [d]) ++ m ++ c' :: y ++ [d'])
      with (c :: (x ++ d :: m ++ c' :: y) ++ [d'])
      by (cbn; rewrite <- !app_assoc; cbn; rewrite <- !app_assoc; reflexivity).
    apply trimmed_ends; assumption.
Qed.

(** *** Stripping *)

Lemma lstrip_split (s : list ascii) :
  exists g, s = g ++ lstrip s /\ blank g = true
            /\ match lstrip s with c :: _ => Chr.is_space c = false | [] => True end.
Proof.
  induction s as [|c s IH].
  { exists []. cbn. auto. }
  destruct IH as (g & Hs & Hg & Hhd). cbn [lstrip]. destruct (Chr.is_space c) eqn:Hc.
  - exists (c :: g). cbn [blank forallb app]. rewrite Hc. fold (blank g).
    split; [f_equal; exact Hs | auto].
  - exists []. cbn [app blank forallb]. auto.
Qed.

Lemma rstrip_split (s : list ascii) :
  exists g, s = rstrip s ++ g /\ blank g = true
            /\ (rstrip s = [] \/ exists m d, rstrip s = m ++ [d] /\ Chr.is_space d = false).
Proof.
  unfold rstrip. destruct (lstrip_split (rev s)) as (g & Hs & Hg & Hhd).
  exists (rev g). split.
  - rewrite <- rev_app_distr, <- Hs, rev_involutive. reflexivity.
  - split; [rewrite blank_rev; exact Hg|].
    destruct (lstrip (rev s)) as [|d m]; [left; reflexivity|].
    right. exists (rev m), d. auto.
Qed.

(** A text is its stripped text between two runs of blanks; the stripped
    text, when it is not empty, is trimmed. *)
Lemma strip_split (s : list ascii) :
  exists g1 g2, s = g1 ++ strip s ++ g2 /\ blank g1 = true /\ blank g2 = true
                /\ (strip s = [] \/ trimmed (strip s) = true).
Proof.
  unfold strip.
  destruct (lstrip_split s) as (g1 & Hs1 & Hg1 & Hhd).
  destruct (rstrip_split (lstrip s)) as (g2 & Hs2 & Hg2 & Hlast).
  exists g1, g2. split; [rewrite <- Hs2; exact Hs1|].
  split; [exact Hg1|]. split; [exact Hg2|].
  destruct Hlast as [Hnil|(m & d & Hm & Hd)]; [left; exact Hnil|].
  right. rewrite Hm in *. rewrite Hs2 in Hhd.
  destruct m as [|c m]; cbn in Hhd |- *.
  - rewrite Hd. reflexivity.
  - apply (trimmed_ends c d m Hhd Hd).
Qed.

(** *** Layout: a text made of units separated by blanks

    [lay b T U]: the text [T] is the units [U], in this order, each
    trimmed, with nothing but blanks before, between and after them, and at
    least one blank between two units; when [b] is false there is at least
    one blank before the first unit as well. *)
Inductive lay : bool -> list ascii -> list (list ascii) -> Prop :=
| lay_end (b : bool) (g : list ascii) : blank g = true -> lay b g []
| lay_unit (b : bool) (g u T : list ascii) (U : list (list ascii)) :
    blank g = true -> (b = false -> g <> []) -> trimmed u = true ->
    lay false T U -> lay b (g ++ u ++ T) (u :: U).

Lemma lay_any (b : bool) (T : list ascii) (U : list (list ascii)) :
  lay false T U -> lay b T U.
Proof.
  intros H. inversion H; subst.
  - apply lay_end. assumption.
  - apply lay_unit; auto.
Qed.

Lemma lay_gap (b : bool) (g T : list ascii) (U : list (list ascii)) :
  blank g = true -> lay b T U -> lay b (g ++ T) U.
Proof.
  intros Hg H. inversion H; subst.
  - apply lay_end. rewrite blank_app, Hg. assumption.
  - rewrite app_assoc.
    apply lay_unit; [rewrite blank_app, Hg; assumption | | assumption | assumption].
    intros Hb Hnil. apply app_eq_nil in Hnil as [_ Hnil].
    match goal with Hx : _ -> _ <> [] |- _ => exact (Hx Hb Hnil) end.
Qed.

Lemma lay_gap_strict (b : bool) (g T : list ascii) (U : list (list ascii)) :
  blank g = true -> g <> [] -> lay b T U -> lay false (g ++ T) U.
Proof.
  intros Hg Hne H. inversion H; subst.
  - apply lay_end. rewrite blank_app, Hg. assumption.
  - rewrite app_assoc.
    apply lay_unit; [rewrite blank_app, Hg; assumption | | assumption | assumption].
    intros _ Hnil. apply app_eq_nil in Hnil as [Hnil _]. exact (Hne Hnil).
Qed.

Lemma lay_app (b : bool) (T1 T2 : list ascii) (U1 U2 : list (list ascii)) :
  lay b T1 U1 -> lay false T2 U2 -> lay b (T1 ++ T2) (U1 ++ U2).
Proof.
  intros H1 H2. induction H1 as [b g Hg|b g u T U Hg Hne Hu _ IH].
  - apply lay_any. apply lay_gap; assumption.
  - rewrite <- !app_assoc. cbn [app]. apply lay_unit; auto.
Qed.

Lemma lay_blank_nil (b : bool) (T : list ascii) (U : list (list ascii)) :
  lay b T U -> blank T = true -> U = [].
Proof.
  intros H. inversion H; subst; [reflexivity|].
  rewrite !blank_app. intros Hb. apply andb_prop in Hb as [_ Hb].
  apply andb_prop in Hb as [Hb _].
  rewrite (trimmed_not_blank u) in Hb by assumption. discriminate.
Qed.

Lemma lay_one (u : list ascii) : trimmed u = true -> lay true u [u].
Proof.
  intros Hu. replace u with ([] ++ u ++ []) at 1 by (cbn; apply app_nil_r).
  apply lay_unit; [reflexivity | discriminate | exact Hu | apply lay_end; reflexivity].
Qed.

(** Replacing each unit by units laid out in it gives a layout. *)
Lemma lay_refine (f : list ascii -> list (list ascii)) (b : bool) (T : list ascii)
      (S : list (list ascii)) :
  (forall s, trimmed s = true -> lay true s (f s)) ->
  lay b T S -> lay b T (flat_map f S).
Proof.
  intros Hf H. induction H as [b g Hg|b g u T U Hg Hne Hu _ IH].
  - apply lay_end. exact Hg.
  - cbn [flat_map]. rewrite app_assoc. apply lay_app; [|exact IH].
    destruct b.
    + apply lay_gap; [exact Hg | apply Hf; exact Hu].
    + apply (lay_gap_strict true); [exact Hg | apply Hne; reflexivity | apply Hf; exact Hu].
Qed.

(** A part, stripped when it is not blank and dropped when it is. *)
Definition kept_part (p : list ascii) : list (list ascii) :=
  if nonblank p then [strip p] else [].

Lemma stripped_nonblank_parts (parts : list (list ascii)) :
  stripped_nonblank parts = flat_map kept_part parts.
Proof.
  unfold stripped_nonblank, kept_part. induction parts as [|p ps IH]; [reflexivity|].
  rewrite filter_cons. cbn [flat_map]. rewrite <- IH.
  destruct (decide (nonblank p)) as [H|H]; destruct (nonblank p); cbn in H;
    try contradiction; try reflexivity.
Qed.

Lemma lay_kept_part (p : list ascii) : lay true p (kept_part p).
Proof.
  unfold kept_part, nonblank.
  destruct (strip_split p) as (g1 & g2 & Hp & Hg1 & Hg2 & Hs).
  destruct (strip p) as [|c s] eqn:Hstrip.
  - apply lay_end. rewrite Hp, !blank_app, Hg1, Hg2. reflexivity.
  - destruct Hs as [Hs|Hs]; [discriminate|].
    rewrite Hp. apply lay_unit; [exact Hg1 | discriminate | exact Hs | apply lay_end; exact Hg2].
Qed.

(** Parts joined by a separator of blanks. *)
Lemma lay_join (f : list ascii -> list (list ascii)) (sep : list ascii)
      (parts : list (list ascii)) :
  blank sep = true -> sep <> [] ->
  (forall p, lay true p (f p)) ->
  lay true (join sep parts) (flat_map f parts).
Proof.
  intros Hsep Hne Hf. induction parts as [|p ps IH]; [apply lay_end; reflexivity|].
  destruct ps as [|q ps].
  - cbn [join flat_map]. rewrite app_nil_r. apply Hf.
  - change (join sep (p :: q :: ps)) with (p ++ sep ++ join sep (q :: ps)).
    change (flat_map f (p :: q :: ps)) with (f p ++ flat_map f (q :: ps)).
    apply lay_app; [apply Hf|].
    apply (lay_gap_strict true); assumption.
Qed.

(** *** [str.split(sep)] *)

Lemma split_go_skip (sep cur x rest : list ascii) :
  split_go sep (length x) cur (x ++ rest) = split_go sep 0 cur rest.
Proof. induction x as [|c x IH]; [reflexivity | exact IH]. Qed.

Lemma split_go_not_nil (sep : list ascii) (skip : nat) (cur s : list ascii) :
  split_go sep skip cur s <> [].
Proof.
  revert skip cur. induction s as [|c s IH]; intros skip cur; [discriminate|].
  cbn [split_go]. destruct skip; [|apply IH].
  destruct (starts_with sep (c :: s)); [discriminate | apply IH].
Qed.

Lemma join_split_go (sep : list ascii) :
  sep <> [] ->
  forall s cur, join sep (split_go sep 0 cur s) = rev cur ++ s.
Proof.
  intros Hne s. remember (length s) as n eqn:Hn. revert s Hn.
  induction n as [n IH] using lt_wf_ind. intros s Hn cur.
  destruct s as [|c s']; [cbn; rewrite app_nil_r; reflexivity|].
  cbn [split_go]. destruct (starts_with sep (c :: s')) eqn:Hs.
  - destruct (ReProps.starts_with_spec _ _ Hs) as [rest Hrest].
    destruct sep as [|x0 x']; [contradiction|]. cbn in Hrest. injection Hrest as -> ->.
    replace (length (x0 :: x') - 1)%nat with (length x') by (cbn [length]; lia).
    rewrite split_go_skip.
    pose proof (split_go_not_nil (x0 :: x') 0 [] rest) as Hnn.
    pose proof (IH (length rest)) as IHr.
    destruct (split_go (x0 :: x') 0 [] rest) as [|q qs] eqn:Hq; [contradiction|].
    change (join (x0 :: x') (rev cur :: q :: qs))
      with (rev cur ++ (x0 :: x') ++ join (x0 :: x') (q :: qs)).
    rewrite <- Hq, (IHr ltac:(rewrite Hn; cbn; rewrite length_app; lia) rest eq_refl []).
    reflexivity.
  - rewrite (IH (length s') ltac:(rewrite Hn; cbn; lia) s' eq_refl (c :: cur)).
    cbn [rev]. rewrite <- app_assoc. reflexivity.
Qed.

Lemma join_split_on (sep s : list ascii) : sep <> [] -> join sep (split_on sep s) = s.
Proof. intros Hne. unfold split_on. rewrite join_split_go by exact Hne. reflexivity. Qed.

Lemma lay_split_on (sep s : list ascii) :
  blank sep = true -> sep <> [] -> lay true s (stripped_nonblank (split_on sep s)).
Proof.
  intros Hsep Hne. rewrite stripped_nonblank_parts.
  rewrite <- (join_split_on sep s Hne) at 1.
  apply lay_join; [exact Hsep | exact Hne | apply lay_kept_part].
Qed.

(** *** [str.split()] *)

Lemma trimmed_word (u : list ascii) :
  u <> [] -> (forall y, In y u -> Chr.is_space y = false) -> trimmed u = true.
Proof.
  intros Hne Hall. destruct u as [|a r]; [contradiction|].
  cbn [trimmed]. rewrite (Hall a (or_introl eq_refl)). cbn [negb andb].
  destruct (exists_last (l := a :: r)) as (m & d & Hm); [discriminate|].
  rewrite Hm, last_last. rewrite Hall; [reflexivity|].
  rewrite Hm. apply in_or_app. right. left. reflexivity.
Qed.

Lemma trimmed_run (cur : list ascii) :
  cur <> [] -> forallb (fun c => negb (Chr.is_space c)) cur = true ->
  trimmed (rev cur) = true.
Proof.
  intros Hne Hcur. apply trimmed_word.
  - intros Hnil. apply Hne. rewrite <- (rev_involutive cur), Hnil. reflexivity.
  - intros y Hy. apply in_rev in Hy. rewrite forallb_forall in Hcur.
    apply negb_true_iff, Hcur, Hy.
Qed.

Lemma lay_split_ws_go (s cur : list ascii) :
  forallb (fun c => negb (Chr.is_space c)) cur = true ->
  lay true (rev cur ++ s) (split_ws_go cur s).
Proof.
  revert cur. induction s as [|c s IH]; intros cur Hcur.
  - cbn [split_ws_go]. rewrite app_nil_r. destruct cur as [|x cur'].
    + apply lay_end. reflexivity.
    + apply lay_one, trimmed_run; [discriminate | exact Hcur].
  - cbn [split_ws_go]. destruct (Chr.is_space c) eqn:Hc.
    + assert (Hrest : lay false (c :: s) (split_ws_go [] s)).
      { apply (lay_gap_strict true [c] s); [cbn; rewrite Hc; reflexivity | discriminate|].
        apply (IH []). reflexivity. }
      destruct cur as [|x cur'].
      * cbn [rev app]. apply lay_any. exact Hrest.
      * change (rev (x :: cur') :: split_ws_go [] s)
          with ([rev (x :: cur')] ++ split_ws_go [] s).
        apply lay_app; [|exact Hrest].
        apply lay_one, trimmed_run; [discriminate | exact Hcur].
    + replace (rev cur ++ c :: s) with (rev (c :: cur) ++ s)
        by (cbn [rev]; rewrite <- app_assoc; reflexivity).
      apply IH. cbn [forallb]. rewrite Hc. exact Hcur.
Qed.

Lemma lay_split_ws (s : list ascii) : lay true s (split_ws s).
Proof. apply (lay_split_ws_go s []). reflexivity. Qed.

(** *** The sentence pattern *)

Lemma sentence_pattern_blanks :
  ReProps.only false (fun c => Chr.is_space c = true) sentence_pattern.
Proof.
  cbn. repeat split; try exact I.
  intros c H. unfold cs_has in H. cbn in H. rewrite !orb_false_r in H. exact H.
Qed.

(** A match of the sentence pattern is a run of blanks that is not empty,
    or it is empty and nothing but blanks follows it. *)
Lemma sentence_run (prev : option ascii) (s : list ascii) (cp : captures) (k : kont)
      (o : outcome) :
  run false sentence_pattern prev s cp k = Some o ->
  (exists consumed p1 s1 c1, s = consumed ++ s1 /\ consumed <> [] /\ k p1 s1 c1 = Some o)
  \/ (blank s = true /\ k prev s cp = Some o).
Proof.
  unfold sentence_pattern. intros H. cbn [run] in H.
  match type of H with
  | match ?x with Some _ => _ | None => _ end = _ => destruct x as [o'|] eqn:Hx
  end.
  - injection H as <-. left.
    exact (ReProps.run_advances false
             (seqs [Behind terminator; plus (set_of [CSpace]); Ahead (set_of [CRange "A" "Z"])])
             eq_refl _ _ _ _ _ Hx).
  - right. clear Hx. cbn [seqs run] in H.
    destruct prev as [c|]; [|discriminate].
    destruct (cs_has false terminator c); [|discriminate].
    destruct s as [|x [|y s']]; [auto | | discriminate].
    destruct (Chr.eqb x "010"%char) eqn:Hxx; [|discriminate].
    apply Ascii.eqb_eq in Hxx. subst x. auto.
Qed.

Lemma sentence_search (s : list ascii) :
  forall must_advance prev m rest,
    search false sentence_pattern must_advance prev s = Some (m, rest) ->
    s = m_pre m ++ m_text m ++ rest
    /\ blank (m_text m) = true
    /\ (m_text m = [] -> blank rest = true).
Proof.
  intros must_advance prev m rest H.
  destruct (ReProps.search_decomposes false _ sentence_pattern sentence_pattern_blanks
              _ _ _ _ _ H) as [Hd Hall].
  split; [exact Hd|]. split.
  { unfold blank. apply forallb_forall. rewrite List.Forall_forall in Hall. exact Hall. }
  clear Hd Hall. revert must_advance prev m rest H.
  induction s as [|c s IH]; intros must_advance prev m rest H; cbn [search] in H.
  - match type of H with
    | match ?x with Some _ => _ | None => _ end = _ => destruct x as [[s1 c1]|] eqn:Hrun
    end; [|discriminate].
    injection H as <- <-. intros _.
    destruct (sentence_run _ _ _ _ _ Hrun) as [(consumed & p1 & s1' & c1' & Hs & Hne & Hk)|[_ Hk]].
    + destruct consumed; [contradiction | discriminate].
    + destruct (must_advance && (length (@nil ascii) =? length (@nil ascii))%nat)%bool;
        [discriminate|]. injection Hk as <- _. reflexivity.
  - match type of H with
    | match ?x with Some _ => _ | None => _ end = _ => destruct x as [[s1 c1]|] eqn:Hrun
    end.
    + injection H as <- <-. cbn [m_text].
      destruct (sentence_run _ _ _ _ _ Hrun) as [(consumed & p1 & s1' & c1' & Hs & Hne & Hk)|[Hb Hk]].
      * destruct (must_advance && (length s1' =? length (c :: s))%nat)%bool; [discriminate|].
        injection Hk as -> _. intros Hnil. exfalso.
        apply (f_equal (@length ascii)) in Hnil. rewrite length_firstn in Hnil.
        apply (f_equal (@length ascii)) in Hs. rewrite length_app in Hs.
        cbn [length] in *. destruct consumed; [contradiction|]. cbn [length] in Hs. lia.
      * destruct (must_advance && (length (c :: s) =? length (c :: s))%nat)%bool;
          [discriminate|]. injection Hk as <- _. intros _. exact Hb.
    + destruct (search false sentence_pattern false (Some c) s) as [[m' rest']|] eqn:Hs;
        [|discriminate].
      injection H as <- <-. cbn [m_text]. exact (IH _ _ _ _ Hs).
Qed.

(** The parts [re.split] cuts at the sentence pattern, stripped, lie in
    the text in their order. *)
Lemma lay_sentence_scan (fuel : nat) :
  forall must_advance prev s ms tl,
    scan fuel false sentence_pattern must_advance prev s = (ms, tl) ->
    lay true s (flat_map kept_part (map m_pre ms ++ [tl])).
Proof.
  induction fuel as [|fuel IH]; intros must_advance prev s ms tl H; cbn [scan] in H.
  - injection H as <- <-. cbn [map app flat_map]. rewrite app_nil_r. apply lay_kept_part.
  - destruct (search false sentence_pattern must_advance prev s) as [[m rest]|] eqn:Hs.
    + destruct (scan fuel false sentence_pattern _ _ rest) as [ms' tl'] eqn:Hrest.
      injection H as <- <-.
      destruct (sentence_search _ _ _ _ _ Hs) as (Hd & Hblank & Hempty).
      specialize (IH _ _ _ _ _ Hrest).
      cbn [map app flat_map]. rewrite Hd.
      apply lay_app; [apply lay_kept_part|].
      destruct (m_text m) as [|x t] eqn:Ht.
      * cbn [app]. specialize (Hempty eq_refl).
        rewrite (lay_blank_nil _ _ _ IH Hempty). apply lay_end. exact Hempty.
      * apply (lay_gap_strict true); [exact Hblank | discriminate | exact IH].
    + injection H as <- <-. cbn [map app flat_map]. rewrite app_nil_r. apply lay_kept_part.
Qed.

Lemma lay_sentence_split (s : list ascii) :
  lay true s (stripped_nonblank (Re.split false sentence_pattern s)).
Proof.
  rewrite stripped_nonblank_parts. unfold Re.split, scan_all.
  destruct (scan (2 * length s + 2) false sentence_pattern false None s) as [ms tl] eqn:H.
  exact (lay_sentence_scan _ _ _ _ _ _ H).
Qed.

(** *** Sentences, units, pages *)

Lemma lay_sentences (txt : list ascii) : lay true txt (_split_into_sentences txt).
Proof.
  unfold _split_into_sentences.
  destruct (_ && _).
  - destruct (1 <? len (split_on (newline ++ newline) txt))%Z.
    + apply lay_split_on; [reflexivity | discriminate].
    + destruct (1 <? len (split_on newline txt))%Z.
      * apply lay_split_on; [reflexivity | discriminate].
      * apply lay_sentence_split.
  - apply lay_sentence_split.
Qed.

Lemma lay_sentence_units (tokenizer : tokenizer_t) (chunk_size : Z) (s : list ascii) :
  trimmed s = true -> lay true s (sentence_units tokenizer chunk_size s).
Proof.
  intros Hs. unfold sentence_units.
  destruct (chunk_size <? _count_tokens s tokenizer)%Z; [apply lay_split_ws | apply lay_one, Hs].
Qed.

Lemma lay_text_units (tokenizer : tokenizer_t) (chunk_size : Z) (txt : list ascii) :
  lay true txt (text_units tokenizer chunk_size txt).
Proof.
  unfold text_units.
  destruct (strip_split txt) as (g1 & g2 & Ht & Hg1 & Hg2 & _).
  rewrite Ht at 1.
  apply lay_gap; [exact Hg1|].
  rewrite <- (app_nil_r (flat_map _ _)).
  apply lay_app; [|apply lay_end; exact Hg2].
  apply lay_refine; [apply lay_sentence_units | apply lay_sentences].
Qed.

Lemma lay_document_units (tokenizer : tokenizer_t) (chunk_size : Z)
      (txt : string) (pages : option (list string)) :
  lay true (source_text txt pages) (document_units tokenizer chunk_size txt pages).
Proof.
  unfold source_text, document_units.
  destruct pages as [[|p ps]|]; try apply lay_text_units.
  replace (flat_map (fun pg => text_units tokenizer chunk_size (chars pg)) (p :: ps))
    with (flat_map (text_units tokenizer chunk_size) (map chars (p :: ps))).
  - apply lay_join; [reflexivity | discriminate | apply lay_text_units].
  - generalize (p :: ps). intros l. induction l as [|x l IH]; [reflexivity|].
    cbn [map flat_map]. rewrite IH. reflexivity.
Qed.

(** *** The words of a text *)

Lemma split_ws_go_blank (c : ascii) (a s cur : list ascii) :
  Chr.is_space c = true ->
  split_ws_go cur (a ++ c :: s) = split_ws_go cur a ++ split_ws_go [] s.
Proof.
  intros Hc. revert cur. induction a as [|x a IH]; intros cur.
  - cbn [app split_ws_go]. rewrite Hc. destruct cur; reflexivity.
  - cbn [app split_ws_go]. destruct (Chr.is_space x).
    + destruct cur; rewrite IH; reflexivity.
    + apply IH.
Qed.

Lemma split_ws_go_blanks (g s : list ascii) :
  blank g = true -> split_ws_go [] (g ++ s) = split_ws_go [] s.
Proof.
  induction g as [|c g IH]; intros Hg; [reflexivity|].
  cbn [blank forallb] in Hg. apply andb_prop in Hg as [Hc Hg].
  cbn [app split_ws_go]. rewrite Hc. apply IH. exact Hg.
Qed.

(** Blanks between two texts separate the words of the one from the words
    of the other. *)
Lemma split_ws_gap (a g b : list ascii) :
  blank g = true -> g <> [] -> split_ws (a ++ g ++ b) = split_ws a ++ split_ws b.
Proof.
  intros Hg Hne. destruct g as [|c g]; [contradiction|].
  cbn [blank forallb] in Hg. apply andb_prop in Hg as [Hc Hg].
  unfold split_ws. cbn [app]. rewrite (split_ws_go_blank c a (g ++ b) [] Hc).
  rewrite (split_ws_go_blanks g b Hg). reflexivity.
Qed.

Lemma split_ws_join (u : list ascii) (us : list (list ascii)) :
  split_ws (join space (u :: us)) = split_ws u ++ flat_map split_ws us.
Proof.
  revert u. induction us as [|v vs IH]; intros u.
  - cbn [join flat_map]. rewrite app_nil_r. reflexivity.
  - change (join space (u :: v :: vs)) with (u ++ space ++ join space (v :: vs)).
    rewrite split_ws_gap by (reflexivity || discriminate).
    rewrite IH. reflexivity.
Qed.

(** *** From units to positions

    A layout as data: each unit with the blanks before it, and the blanks
    after the last unit. *)
Definition seg : Type := (list ascii * list ascii)%type.

Definition flat (segs : list seg) : list ascii := flat_map (fun s => s.1 ++ s.2) segs.

(** Where unit [i] starts, and where the units before unit [j] end. *)
Definition char_start (segs : list seg) (i : nat) : nat :=
  (length (flat (firstn i segs)) + length (nth i segs ([], [])).1)%nat.

Definition char_end (segs : list seg) (j : nat) : nat := length (flat (firstn j segs)).

Definition well_laid (segs : list seg) : Prop :=
  Forall (fun s => trimmed s.2 = true) segs
  /\ Forall (fun s => blank s.1 = true) segs
  /\ Forall (fun s => s.1 <> []) (tl segs).

Lemma flat_app (a b : list seg) : flat (a ++ b) = flat a ++ flat b.
Proof. apply flat_map_app. Qed.

Lemma lay_segs (b : bool) (T : list ascii) (U : list (list ascii)) :
  lay b T U ->
  exists segs gend,
    T = flat segs ++ gend /\ U = map snd segs /\ well_laid segs
    /\ (b = false -> Forall (fun s : seg => s.1 <> []) segs).
Proof.
  intros H. induction H as [b g Hg|b g u T U Hg Hne Hu _ IH].
  - exists [], g. repeat split; try constructor.
  - destruct IH as (segs & gend & HT & HU & (Ht & Hb & _) & Hgaps).
    exists ((g, u) :: segs), gend. split.
    { rewrite HT. cbn. rewrite <- !app_assoc. reflexivity. }
    split; [cbn; rewrite HU; reflexivity|].
    split.
    + split; [constructor; assumption|]. split; [constructor; assumption|].
      cbn [tl]. apply Hgaps. reflexivity.
    + intros Hbf. constructor; [exact (Hne Hbf) | apply Hgaps; reflexivity].
Qed.

Lemma split_ws_flat (mid : list seg) (u : list ascii) :
  Forall (fun s : seg => blank s.1 = true) mid ->
  Forall (fun s : seg => s.1 <> []) mid ->
  split_ws (u ++ flat mid) = split_ws u ++ flat_map split_ws (map snd mid).
Proof.
  revert u. induction mid as [|[g v] mid IH]; intros u Hb Hn.
  - cbn. rewrite !app_nil_r. reflexivity.
  - inversion Hb; subst. inversion Hn; subst. cbn [fst snd] in *.
    change (flat ((g, v) :: mid)) with ((g ++ v) ++ flat mid).
    replace (u ++ (g ++ v) ++ flat mid) with ((u ++ g ++ v) ++ flat mid)
      by (rewrite <- !app_assoc; reflexivity).
    rewrite IH by assumption. rewrite split_ws_gap by assumption.
    cbn [map flat_map snd]. rewrite <- app_assoc. reflexivity.
Qed.

Lemma trimmed_flat (mid : list seg) (u : list ascii) :
  trimmed u = true ->
  Forall (fun s : seg => trimmed s.2 = true) mid ->
  trimmed (u ++ flat mid) = true.
Proof.
  revert u. induction mid as [|[g v] mid IH]; intros u Hu Ht.
  - cbn. rewrite app_nil_r. exact Hu.
  - inversion Ht; subst. cbn [fst snd] in *.
    change (flat ((g, v) :: mid)) with ((g ++ v) ++ flat mid).
    replace (u ++ (g ++ v) ++ flat mid) with ((u ++ g ++ v) ++ flat mid)
      by (rewrite <- !app_assoc; reflexivity).
    apply IH; [|assumption]. apply trimmed_app; assumption.
Qed.

Lemma Forall_tl_middle {A : Type} (P : A -> Prop) (sb : list A) (x : A) (mid sa : list A) :
  Forall P (tl (sb ++ x :: mid ++ sa)) -> Forall P mid.
Proof.
  intros H. destruct sb as [|y sb]; cbn [tl app] in H.
  - apply List.Forall_app in H. tauto.
  - apply List.Forall_app in H as [_ H]. inversion H; subst.
    match goal with Hx : Forall P (mid ++ sa) |- _ => apply List.Forall_app in Hx; tauto end.
Qed.

(** A chunk that is a run of units of a layout is the piece of the text
    from the start of the first to the end of the last of them. *)
Lemma spans_piece (segs : list seg) (gend : list ascii) (c : chunk) (r : nat * nat) :
  well_laid segs ->
  spans (map snd segs) c r ->
  piece_of (flat segs ++ gend) c (char_start segs r.1, char_end segs r.2).
Proof.
  intros (Ht & Hb & Hg) (before & units & after & HU & Hlb & Hlbu & Hne & Hc).
  apply map_eq_app in HU as (sb & rest & Hsegs & Hsb & Hrest).
  apply map_eq_app in Hrest as (su & sa & Hrest & Hsu & Hsa).
  subst rest segs. destruct su as [|[g u] mid]; [cbn in Hsu; subst units; contradiction|].
  remember (sb ++ ((g, u) :: mid) ++ sa) as segs eqn:Hsegs.
  assert (Hlen_sb : length sb = r.1).
  { rewrite <- Hlb, <- Hsb. symmetry. apply length_map. }
  assert (Hlen_su : length (sb ++ (g, u) :: mid) = r.2).
  { rewrite <- Hlbu, <- Hsb, <- Hsu, !length_app, !length_map. reflexivity. }
  assert (Hfirst : @firstn seg r.1 segs = sb).
  { rewrite Hsegs, <- Hlen_sb. apply take_app_length. }
  assert (Hnth : @nth seg r.1 segs ([], []) = (g, u)).
  { rewrite Hsegs, <- Hlen_sb. cbn [app]. apply nth_middle. }
  assert (Hlast : @firstn seg r.2 segs = sb ++ (g, u) :: mid).
  { rewrite Hsegs, <- Hlen_su, (app_assoc sb ((g, u) :: mid) sa). apply take_app_length. }
  assert (Hflat : flat segs = (flat sb ++ g) ++ (u ++ flat mid) ++ flat sa).
  { rewrite Hsegs, !flat_app. cbn [app].
    change (flat ((g, u) :: mid)) with ((g ++ u) ++ flat mid).
    rewrite <- !app_assoc. reflexivity. }
  assert (Hmid_t : trimmed u = true /\ Forall (fun s : seg => trimmed s.2 = true) mid).
  { rewrite Hsegs in Ht. apply List.Forall_app in Ht as [_ Ht]. apply List.Forall_app in Ht as [Ht _].
    inversion Ht; subst. auto. }
  assert (Hmid_b : Forall (fun s : seg => blank s.1 = true) mid).
  { rewrite Hsegs in Hb. apply List.Forall_app in Hb as [_ Hb]. apply List.Forall_app in Hb as [Hb _].
    inversion Hb; subst. auto. }
  assert (Hmid_g : Forall (fun s : seg => s.1 <> []) mid).
  { rewrite Hsegs in Hg. cbn [app] in Hg. apply Forall_tl_middle in Hg. exact Hg. }
  exists (flat sb ++ g), (u ++ flat mid), (flat sa ++ gend).
  cbn [fst snd]. unfold char_start, char_end. rewrite Hfirst, Hnth, Hlast, Hflat.
  split; [rewrite <- !app_assoc; reflexivity|].
  split; [rewrite length_app; reflexivity|].
  split.
  { rewrite flat_app. change (flat ((g, u) :: mid)) with ((g ++ u) ++ flat mid).
    rewrite <- !app_assoc. reflexivity. }
  split; [apply trimmed_flat; tauto|].
  rewrite Hc, chars_text, <- Hsu. cbn [map snd].
  rewrite split_ws_join, split_ws_flat by assumption. reflexivity.
Qed.

Lemma flat_cons (s : seg) (segs : list seg) : flat (s :: segs) = (s.1 ++ s.2) ++ flat segs.
Proof. reflexivity. Qed.

Lemma char_end_step (s : seg) (segs : list seg) (j : nat) :
  char_end (s :: segs) (S j) = (length s.1 + length s.2 + char_end segs j)%nat.
Proof. unfold char_end. cbn [firstn]. rewrite flat_cons, !length_app. reflexivity. Qed.

Lemma char_start_step (s : seg) (segs : list seg) (i : nat) :
  char_start (s :: segs) (S i) = (length s.1 + length s.2 + char_start segs i)%nat.
Proof.
  unfold char_start. cbn [firstn nth]. rewrite flat_cons, !length_app. lia.
Qed.

Lemma char_end_le (segs : list seg) (j j' : nat) :
  (j <= j')%nat -> (char_end segs j <= char_end segs j')%nat.
Proof.
  revert j j'. induction segs as [|s segs IH]; intros j j' Hj.
  - unfold char_end. rewrite !firstn_nil. reflexivity.
  - destruct j as [|j]; [unfold char_end at 1; cbn; lia|].
    destruct j' as [|j']; [lia|].
    rewrite !char_end_step. specialize (IH j j'). lia.
Qed.

Lemma char_end_lt (segs : list seg) (j j' : nat) :
  Forall (fun s : seg => trimmed s.2 = true) segs ->
  (j < j' <= length segs)%nat -> (char_end segs j < char_end segs j')%nat.
Proof.
  intros Ht. revert j j'. induction Ht as [|s segs Hs _ IH]; intros j j' Hj.
  - cbn in Hj. lia.
  - destruct j' as [|j']; [lia|]. cbn [length] in Hj.
    assert (Hpos : (0 < length s.2)%nat).
    { destruct s.2; [discriminate | cbn; lia]. }
    destruct j as [|j].
    + rewrite char_end_step. unfold char_end at 1. cbn [firstn flat flat_map length]. lia.
    + rewrite !char_end_step. specialize (IH j j'). lia.
Qed.

Lemma char_start_end (segs : list seg) (i : nat) :
  (char_end segs i <= char_start segs i)%nat
  /\ (char_start segs i <= char_end segs (S i))%nat.
Proof.
  revert i. induction segs as [|s segs IH]; intros i.
  - unfold char_start, char_end. rewrite !firstn_nil. destruct i; cbn; lia.
  - destruct i as [|i].
    + rewrite char_end_step. unfold char_start, char_end. cbn. lia.
    + rewrite char_start_step, !char_end_step. specialize (IH i). lia.
Qed.

Lemma char_start_le (segs : list seg) (i i' : nat) :
  (i <= i')%nat -> (char_start segs i <= char_start segs i')%nat.
Proof.
  intros Hi. destruct (Nat.eq_dec i i') as [->|Hne]; [reflexivity|].
  pose proof (char_start_end segs i) as [_ H1].
  pose proof (char_start_end segs i') as [H2 _].
  pose proof (char_end_le segs (S i) i' ltac:(lia)). lia.
Qed.

(** The chunks of units laid out in a text follow the text. *)
Lemma lay_follows (T : list ascii) (U : list (list ascii)) (cs : list chunk) :
  lay true T U -> in_text_order U cs -> follows_text T cs.
Proof.
  intros Hlay (ranges & Hspans & Hadv).
  destruct (lay_segs _ _ _ Hlay) as (segs & gend & -> & -> & Hwl & _).
  exists (map (fun r => (char_start segs r.1, char_end segs r.2)) ranges). split.
  - apply Forall2_fmap_r. eapply Forall2_impl; [exact Hspans|].
    intros c r Hs. apply spans_piece; assumption.
  - intros k a b Ha Hb. rewrite list_lookup_fmap in Ha, Hb.
    destruct (ranges !! k) as [a0|] eqn:Ha0; [|discriminate].
    destruct (ranges !! S k) as [b0|] eqn:Hb0; [|discriminate].
    cbn in Ha, Hb. injection Ha as <-. injection Hb as <-. cbn [fst snd].
    destruct (Hadv k a0 b0 Ha0 Hb0) as [H1 H2].
    destruct (Forall2_lookup_r _ _ _ _ _ Hspans Hb0) as (c & _ & Hc).
    apply spans_bounds in Hc. rewrite length_map in Hc.
    split; [apply char_start_le; exact H1|].
    apply char_end_lt; [apply Hwl | split; [exact H2 | exact (proj2 Hc)]].
Qed.

End ChunkerLayout.

Module ChunkerClaims.
Import Str ChunkingService ChunkingSpec ChunkerProps ChunkerOrder ChunkerLayout.

Local Open Scope Z_scope.

(** Fifty-one three-character sentences: 203 characters. *)
Definition short_sentences : string :=
  "Hi. Hi. Hi. Hi. Hi. Hi. Hi. Hi. Hi. Hi. Hi. Hi. Hi. Hi. Hi. Hi. Hi. Hi. Hi. Hi. Hi. Hi. Hi. Hi. Hi. Hi. Hi. Hi. Hi. Hi. Hi. Hi. Hi. Hi. Hi. Hi. Hi. Hi. Hi. Hi. Hi. Hi. Hi. Hi. Hi. Hi. Hi. Hi. Hi. Hi. Hi.".



Definition sample_text : string :=
  "Alpha beta gamma delta. Epsilon zeta theta iota. Kappa lambda omicron sigma. Upsilon omega digamma koppa. Sampi heta stigma sho. One two three four five. The quick brown foxes jump over the lazy dogs every single morning before dawn. And then they rest.".


End ChunkerClaims.

(** ** Secrets *)
Module SecretProps.
Import Str EncryptionService AdminSettings.

Local Open Scope Z_scope.

(** A library and a cipher to run examples with: the identity cipher. *)
Definition plain_lib : pylib :=
  {| py_int := fun _ => None; json_loads := fun _ => None |}.
Definition plain_cipher : cipher := fun c => Some c.
Definition one_key (provider secret : string) : gmap string setting :=
  {[ api_key_setting provider :=
       {| setting_value := Some secret; setting_type := "string"; description := None |} ]}.

Lemma stored_key (lib : pylib) (cipher_decrypt : cipher) (table : gmap string setting)
      (provider e s : string) (d : option string) :
  supported provider = true ->
  table !! api_key_setting provider
  = Some {| setting_value := Some e; setting_type := "string"; description := d |} ->
  e <> "" -> cipher_decrypt e = Some s ->
  get_system_api_key lib cipher_decrypt table provider = s.
Proof.
  intros Hsup Hrow He Hdec. unfold get_system_api_key, get_setting.
  rewrite Hsup, Hrow. unfold get_typed_value. cbn.
  destruct e as [|c e']; [congruence|]. cbn. rewrite Hdec. reflexivity.
Qed.

Lemma mask_long (s : string) (n : Z) :
  s <> "" -> 0 <= n <= len (chars s) ->
  mask_api_key s n = (text (firstn (Z.to_nat n) (chars s)) ++ "...")%string.
Proof.
  intros Hs [H0 Hn]. unfold mask_api_key. destruct s as [|c s']; [congruence|].
  destruct (len (chars (String c s')) <? n) eqn:E; [apply Z.ltb_lt in E; lia|].
  unfold slice_to. destruct (n <? 0) eqn:E0; [apply Z.ltb_lt in E0; lia|]. reflexivity.
Qed.

Lemma mask_short (s : string) (n : Z) :
  len (chars s) < n -> mask_api_key s n = "".
Proof.
  intros Hn. unfold mask_api_key. destruct s as [|c s']; [reflexivity|].
  apply Z.ltb_lt in Hn. rewrite Hn. reflexivity.
Qed.

(** C9, counterexample: a stored secret shorter than the shown prefix is
    masked to the empty string, not to its characters followed by an
    ellipsis. *)
Lemma masked_short_secret_is_empty :
  get_system_api_key plain_lib plain_cipher (one_key "openai" "sk-1") "openai" = "sk-1"
  /\ get_masked_system_api_key plain_lib plain_cipher (one_key "openai" "sk-1") "openai" 8 = ""
  /\ get_masked_system_api_key plain_lib plain_cipher (one_key "openai" "sk-1") "openai" 8
     <> ("sk-1" ++ "...")%string.
Proof. vm_compute. repeat split; discriminate. Qed.

(** C9, amended: for a supported provider whose stored secret decrypts to a
    non-empty [s], the masked secret is the first [n] characters of [s]
    followed by three dots when [0 <= n <= len(s)], and the empty string
    when [len(s) < n]; when no secret is stored it is the empty string. *)
Theorem masked_secret_spec (lib : pylib) (cipher_decrypt : cipher)
        (table : gmap string setting) (provider : string) (n : Z) :
  (forall (e s : string) (d : option string),
      supported provider = true ->
      table !! api_key_setting provider
      = Some {| setting_value := Some e; setting_type := "string"; description := d |} ->
      e <> "" -> cipher_decrypt e = Some s -> s <> "" ->
      (0 <= n <= len (chars s) ->
       get_masked_system_api_key lib cipher_decrypt table provider n
       = (text (firstn (Z.to_nat n) (chars s)) ++ "...")%string)
      /\ (len (chars s) < n ->
          get_masked_system_api_key lib cipher_decrypt table provider n = ""))
  /\ (table !! api_key_setting provider = None ->
      get_masked_system_api_key lib cipher_decrypt table provider n = "").
Proof.
  split.
  - intros e s d Hsup Hrow He Hdec Hs.
    unfold get_masked_system_api_key.
    rewrite (stored_key lib cipher_decrypt table provider e s d Hsup Hrow He Hdec).
    destruct s as [|c s'] eqn:Es; [congruence|]. rewrite <- Es in *.
    split; intros Hn.
    + apply mask_long; [congruence | exact Hn].
    + apply mask_short. exact Hn.
  - intros Hnone. unfold get_masked_system_api_key, get_system_api_key, get_setting.
    rewrite Hnone. destruct (supported provider); reflexivity.
Qed.

(** The theorem at a stored key of 24 characters, 8 of them shown. *)
Lemma masked_secret_spec_witness :
  get_masked_system_api_key plain_lib plain_cipher
    (one_key "anthropic" "sk-ant-api03-abcdefghijk") "anthropic" 8 = "sk-ant-a...".
Proof.
  destruct (masked_secret_spec plain_lib plain_cipher
              (one_key "anthropic" "sk-ant-api03-abcdefghijk") "anthropic" 8) as [H _].
  destruct (H "sk-ant-api03-abcdefghijk" "sk-ant-api03-abcdefghijk" None) as [Hl _].
  - reflexivity.
  - vm_compute. reflexivity.
  - discriminate.
  - reflexivity.
  - discriminate.
  - rewrite Hl; [reflexivity | vm_compute; split; discriminate].
Defined.

End SecretProps.

(** ** Vector store *)
Module VectorStoreProps.
Import RAGService VectorStore.

(** A library and a store to run examples with: user 7 has no collection. *)
Definition quiet_lib : chroma :=
  {| add_error := None; delete_error := None; nearest := fun _ _ _ _ => inr [] |}.
Definition other_tenants : store :=
  {| client := true; collections := {[ 3%Z := [] ]} |}.

Lemma absent_collection (st : store) (user : Z) :
  collections st !! user = None ->
  fst (get_user_collection st user false) = None.
Proof.
  intros H. unfold get_user_collection. rewrite H. destruct (client st); reflexivity.
Qed.

(** C8, counterexample: a query for a user without a collection reports an
    error in its result. *)
Lemma query_absent_tenant_reports_error :
  results (query quiet_lib other_tenants 7 [] 5 None) = []
  /\ error (query quiet_lib other_tenants 7 [] 5 None)
     = Some "User has no document collection"
  /\ error (query quiet_lib other_tenants 7 [] 5 None) <> None.
Proof. vm_compute. repeat split; discriminate. Qed.

(** C8, amended: for every user that has no collection in the vector
    store, [query] raises nothing and returns an empty result list together
    with the error string [User has no document collection]; the retrieval
    built on it, [retrieve_context], returns the empty list. *)
Theorem query_absent_tenant
        (lib : chroma) (st : store) (user : Z) (query_embedding : embedding)
        (n_results : Z) (document_ids : option (list Z)) :
  collections st !! user = None ->
  query lib st user query_embedding n_results document_ids
  = {| results := []; error := Some "User has no document collection" |}
  /\ forall (E : env) (w : world) (query_text : string) (top_k : option Z)
            (min_score : option QArith_base.Q) (model_provider : option string),
      vectors w = st -> chroma_lib E = lib ->
      retrieve_context E w user query_text top_k min_score document_ids model_provider = [].
Proof.
  intros H.
  assert (Hq : forall v k, query lib st user v k document_ids
                           = {| results := []; error := Some "User has no document collection" |}).
  { intros v k. unfold query.
    pose proof (absent_collection st user H) as Hc.
    destruct (get_user_collection st user false) as [[c|] st']; [discriminate | reflexivity]. }
  split; [apply Hq|].
  intros E w query_text top_k min_score model_provider Hst Hlib.
  unfold retrieve_context. rewrite Hst, Hlib.
  destruct (is_enabled E); [|reflexivity]. cbn [negb].
  destruct (nonempty (eo_error _)); [reflexivity|].
  destruct (eo_embedding _) as [[|x v]|]; try reflexivity.
  rewrite Hq. reflexivity.
Qed.

Lemma query_absent_tenant_witness :
  collections other_tenants !! 7%Z = None
  /\ query quiet_lib other_tenants 7 [] 5 None
     = {| results := []; error := Some "User has no document collection" |}.
Proof.
  assert (H : collections other_tenants !! 7%Z = None) by (vm_compute; reflexivity).
  split; [exact H|].
  exact (proj1 (query_absent_tenant quiet_lib other_tenants 7 [] 5 None H)).
Defined.

End VectorStoreProps.

(** ** Ingestion pipeline *)
Module IngestionProps.
Import Str VectorStore RAGService IngestionSpec.

Local Open Scope Z_scope.

Lemma filter_all {A : Type} (f : A -> bool) (l : list A) :
  List.Forall (fun x => f x = true) l -> List.filter f l = l.
Proof.
  induction 1 as [|x l Hx _ IH]; [reflexivity|].
  cbn. rewrite Hx, IH. reflexivity.
Qed.

(** *** Rows and vectors built from the chunks *)

Lemma chunk_rows_spec (document_id : Z) (chunks : list indexed_chunk) :
  forall ids rows,
    chunk_rows document_id chunks ids = Some rows ->
    length rows = length chunks
    /\ List.Forall (fun r => DocumentChunk.document_id r = document_id) rows.
Proof.
  induction chunks as [|c chunks IH]; intros ids rows H; cbn in H.
  - inversion H. split; [reflexivity | constructor].
  - destruct ids as [|i ids]; [discriminate|].
    destruct (chunk_rows document_id chunks ids) as [rows'|] eqn:Hr; [|discriminate].
    inversion H; subst. destruct (IH _ _ Hr) as [Hl Hf].
    split; [cbn; now rewrite Hl | constructor; [reflexivity | exact Hf]].
Qed.

Lemma chunk_rows_total (document_id : Z) (chunks : list indexed_chunk) :
  forall ids, (length chunks <= length ids)%nat ->
              exists rows, chunk_rows document_id chunks ids = Some rows.
Proof.
  induction chunks as [|c chunks IH]; intros ids H; cbn.
  - eauto.
  - destruct ids as [|i ids]; cbn in H; [lia|].
    destruct (IH ids ltac:(lia)) as [rows Hr]. rewrite Hr. eauto.
Qed.

Lemma zip_entries_length (document_id : Z) (chunks : list indexed_chunk) :
  forall ids embeddings,
    length ids = length chunks -> length embeddings = length chunks ->
    length (zip_entries document_id ids chunks embeddings) = length chunks.
Proof.
  induction chunks as [|c chunks IH]; intros ids embeddings Hi He.
  - destruct ids; [|discriminate]. reflexivity.
  - destruct ids as [|i ids]; [discriminate|].
    destruct embeddings as [|v embeddings]; [discriminate|].
    cbn. f_equal. apply IH; cbn in *; lia.
Qed.

Lemma zip_entries_ids (document_id : Z) (chunks : list indexed_chunk) :
  forall ids embeddings,
    length ids = length chunks -> length embeddings = length chunks ->
    map e_id (zip_entries document_id ids chunks embeddings) = ids.
Proof.
  induction chunks as [|c chunks IH]; intros ids embeddings Hi He.
  - destruct ids; [|discriminate]. reflexivity.
  - destruct ids as [|i ids]; [discriminate|].
    destruct embeddings as [|v embeddings]; [discriminate|].
    cbn. f_equal. apply IH; cbn in *; lia.
Qed.

Lemma zip_entries_of_document (document_id : Z) (ids : list string) :
  forall chunks embeddings,
    List.Forall (fun e => of_document document_id e = true)
                (zip_entries document_id ids chunks embeddings).
Proof.
  induction ids as [|i ids IH]; intros chunks embeddings; [constructor|].
  destruct chunks as [|c chunks]; [constructor|].
  destruct embeddings as [|v embeddings]; [constructor|].
  cbn. constructor; [|apply IH].
  unfold of_document. cbn. apply Z.eqb_refl.
Qed.

Lemma fresh_ids_length (E : env) (w : world) (n : nat) : length (fresh_ids E w n) = n.
Proof. unfold fresh_ids. rewrite length_map, length_seq. reflexivity. Qed.

Lemma enumerate_length (chunks : list ChunkingService.chunk) :
  forall i, length (enumerate i chunks) = length chunks.
Proof. induction chunks as [|c chunks IH]; intros i; cbn; [|rewrite IH]; reflexivity. Qed.

(** *** Commits *)

Lemma commit_returns (doc : Document.t) (rows : list DocumentChunk.t) (w w1 : world) (u : unit) :
  commit doc rows w = (Returns u, w1) ->
  documents w1 = <[Document.id doc := doc]> (documents w)
  /\ document_chunks w1 = document_chunks w ++ rows
  /\ vectors w1 = vectors w
  /\ uuids_drawn w1 = uuids_drawn w
  /\ commits w1 = tl (commits w)
  /\ hd None (commits w) = None.
Proof.
  unfold commit. destruct (commits w) as [|[e|] rest]; intros H; inversion H; subst; cbn;
    repeat split; reflexivity.
Qed.

Lemma commit_raises (doc : Document.t) (rows : list DocumentChunk.t) (w w1 : world) (e : string) :
  commit doc rows w = (Raises e, w1) ->
  documents w1 = documents w
  /\ document_chunks w1 = document_chunks w
  /\ vectors w1 = vectors w
  /\ uuids_drawn w1 = uuids_drawn w
  /\ commits w = Some e :: tl (commits w1)
  /\ hd None (commits w1) = Some pending_rollback.
Proof.
  unfold commit. destruct (commits w) as [|[e'|] rest]; intros H; inversion H; subst; cbn;
    repeat split; reflexivity.
Qed.

Lemma commit_ok (doc : Document.t) (rows : list DocumentChunk.t) (w : world) :
  hd None (commits w) = None ->
  exists w1, commit doc rows w = (Returns tt, w1).
Proof.
  unfold commit. destruct (commits w) as [|[e|] rest]; cbn; intros H;
    [eauto | discriminate | eauto].
Qed.

Lemma commit_fails (doc : Document.t) (rows : list DocumentChunk.t) (w : world)
      (e : string) (rest : list (option string)) :
  commits w = Some e :: rest ->
  exists w1, commit doc rows w = (Raises e, w1) /\ commits w1 = Some pending_rollback :: rest.
Proof. unfold commit. intros ->. eauto. Qed.

(** A branch that marks the document failed does not return success and
    touches neither the chunk rows nor the vectors. *)
Lemma failing_branch (doc : Document.t) (e : option string) (w w2 : world)
      (o : outcome result) :
  (let* _ := commit doc [] in ret (failure e)) w = (o, w2) ->
  (forall r, o = Returns r -> success r = false)
  /\ document_chunks w2 = document_chunks w
  /\ vectors w2 = vectors w.
Proof.
  unfold bind, ret. destruct (commit doc [] w) as [[u|e'] w1] eqn:Hc; intros H;
    inversion H; subst.
  - apply commit_returns in Hc. destruct Hc as (_ & Hr & Hv & _).
    rewrite app_nil_r in Hr.
    split; [intros r Hr'; inversion Hr'; reflexivity | auto].
  - apply commit_raises in Hc. destruct Hc as (_ & Hr & Hv & _).
    split; [intros r Hr'; discriminate | auto].
Qed.

End IngestionProps.

Module IngestionRun.
Import Str VectorStore RAGService IngestionSpec IngestionProps.

Local Open Scope Z_scope.

(** *** Step 4: the vector store *)

Lemma vectors_of_with_collection (st : store) (user document_id : Z) (c : list entry) :
  vectors_of (with_collection st user c) user document_id
  = List.filter (of_document document_id) c.
Proof. unfold vectors_of, with_collection. cbn. rewrite lookup_insert_eq. reflexivity. Qed.

(** What a successful [add_chunks] leaves: the handles drawn, and the
    vectors of the document, to which one entry per chunk was appended. *)
Lemma store_add_chunks_success (E : env) (user : Z) (chunks : list indexed_chunk)
      (embeddings : list embedding) (document_id : Z) (w w2 : world) (sr : add_result) :
  store_add_chunks E user chunks embeddings document_id w = (Returns sr, w2) ->
  add_success sr = true ->
  chroma_ids sr = fresh_ids E w (length chunks)
  /\ length embeddings = length chunks
  /\ vectors_of (vectors w2) user document_id
     = vectors_of (vectors w) user document_id
       ++ zip_entries document_id (fresh_ids E w (length chunks)) chunks embeddings
  /\ documents w2 = documents w
  /\ document_chunks w2 = document_chunks w
  /\ commits w2 = commits w.
Proof.
  unfold store_add_chunks. fold (fresh_ids E w (length chunks)).
  pose proof (fresh_ids_length E w (length chunks)) as Hfresh.
  unfold add_chunks.
  destruct (length chunks =? length embeddings)%nat eqn:Hlen; cbn [negb].
  2: { intros H; inversion H; subst; discriminate. }
  apply Nat.eqb_eq in Hlen.
  unfold get_user_collection.
  destruct (client (vectors w)).
  2: { intros H; inversion H; subst; discriminate. }
  assert (Htake : firstn (length chunks) (fresh_ids E w (length chunks))
                  = fresh_ids E w (length chunks)).
  { apply firstn_all2. lia. }
  destruct (collections (vectors w) !! user) as [c|] eqn:Hc;
    (destruct (add_error (chroma_lib E)); [intros H; inversion H; subst; discriminate|]);
    intros H _; inversion H; subst; cbn; rewrite Htake;
    (split; [reflexivity|]); (split; [lia|]); (split; [|auto]).
  - rewrite vectors_of_with_collection. unfold vectors_of. rewrite Hc.
    rewrite List.filter_app. f_equal. apply filter_all, zip_entries_of_document.
  - rewrite vectors_of_with_collection. unfold vectors_of. rewrite Hc.
    cbn. apply filter_all, zip_entries_of_document.
Qed.

(** With a client, a library that does not raise, and as many embeddings
    as chunks, [add_chunks] succeeds. *)
Lemma store_add_chunks_runs (E : env) (user : Z) (chunks : list indexed_chunk)
      (embeddings : list embedding) (document_id : Z) (w : world) :
  client (vectors w) = true ->
  add_error (chroma_lib E) = None ->
  length embeddings = length chunks ->
  exists sr w2,
    store_add_chunks E user chunks embeddings document_id w = (Returns sr, w2)
    /\ add_success sr = true.
Proof.
  intros Hclient Hadd Hlen.
  unfold store_add_chunks, add_chunks, get_user_collection.
  rewrite Hclient, Hadd.
  replace (length chunks =? length embeddings)%nat with true
    by (symmetry; apply Nat.eqb_eq; lia).
  cbn [negb].
  destruct (collections (vectors w) !! user); eauto.
Qed.

(** *** The try block *)

(** The try block returns success only along one path: the run reached
    the store, [add_chunks] succeeded, and the commit that persists the rows
    and marks the document ready went through. *)
Lemma process_body_success (E : env) (d : Document.t) (w1 w3 : world) (r : result) :
  process_body E d w1 = (Returns r, w3) ->
  success r = true ->
  reaches_store E d
  /\ exists sr w2 rows,
      store_add_chunks E (Document.user_id d) (chunks_of E d)
                       (eb_embeddings (batch_of E d)) (Document.id d) w1 = (Returns sr, w2)
      /\ add_success sr = true
      /\ chunk_rows (Document.id d) (chunks_of E d) (chroma_ids sr) = Some rows
      /\ commit (Document.mark_ready d (len (chunks_of E d)) (sum_tokens (chunks_of E d))
                                     (eb_model (batch_of E d)) (utcnow E)) rows w2
         = (Returns tt, w3)
      /\ r = {| success := true; chunk_count := len (chunks_of E d);
                total_tokens := sum_tokens (chunks_of E d); error := None |}.
Proof.
  unfold process_body. fold (extraction_of E d).
  intros H Hs.
  destruct (nonempty (ex_error (extraction_of E d))) eqn:Hx.
  { apply failing_branch in H. destruct H as [H _]. rewrite (H r eq_refl) in Hs. discriminate. }
  destruct (ChunkingService.nonblank (chars (ex_text (extraction_of E d)))) eqn:Hb; cbn [negb] in H.
  2: { apply failing_branch in H. destruct H as [H _]. rewrite (H r eq_refl) in Hs. discriminate. }
  match type of H with
  | context [enumerate 0 ?c] => remember c as chunks0 eqn:Hc0
  end.
  assert (Hchunks : chunks_of E d = enumerate 0 chunks0).
  { unfold chunks_of. rewrite <- Hc0. reflexivity. }
  destruct chunks0 as [|c0 chunks0'].
  { apply failing_branch in H. destruct H as [H _]. rewrite (H r eq_refl) in Hs. discriminate. }
  rewrite <- Hchunks in H. fold (batch_of E d) in H.
  destruct (nonempty (eb_error (batch_of E d))) eqn:He.
  { apply failing_branch in H. destruct H as [H _]. rewrite (H r eq_refl) in Hs. discriminate. }
  destruct (length (eb_embeddings (batch_of E d)) =? length (chunks_of E d))%nat eqn:Hl;
    cbn [negb] in H.
  2: { apply failing_branch in H. destruct H as [H _]. rewrite (H r eq_refl) in Hs. discriminate. }
  apply Nat.eqb_eq in Hl.
  split.
  { repeat split; auto. rewrite Hchunks. cbn. discriminate. }
  unfold bind at 1 in H.
  destruct (store_add_chunks E (Document.user_id d) (chunks_of E d)
                             (eb_embeddings (batch_of E d)) (Document.id d) w1)
    as [[sr|e] w2] eqn:Hadd.
  2: { unfold store_add_chunks in Hadd. destruct (add_chunks _ _ _ _ _ _ _). discriminate. }
  destruct (add_success sr) eqn:Hsr; cbn [negb] in H.
  2: { apply failing_branch in H. destruct H as [H _]. rewrite (H r eq_refl) in Hs. discriminate. }
  destruct (chunk_rows (Document.id d) (chunks_of E d) (chroma_ids sr)) as [rows|] eqn:Hrows.
  2: { discriminate. }
  exists sr, w2, rows.
  unfold bind, ret in H.
  destruct (commit _ rows w2) as [[[]|e] w3'] eqn:Hcommit; [|discriminate].
  inversion H; subst. auto.
Qed.

(** Along that path the try block is the step-6 commit run after a
    successful [add_chunks]. *)
Lemma process_body_stores (E : env) (d : Document.t) (w1 : world) :
  reaches_store E d ->
  client (vectors w1) = true ->
  add_error (chroma_lib E) = None ->
  exists sr w2 rows,
    store_add_chunks E (Document.user_id d) (chunks_of E d)
                     (eb_embeddings (batch_of E d)) (Document.id d) w1 = (Returns sr, w2)
    /\ add_success sr = true
    /\ chunk_rows (Document.id d) (chunks_of E d) (chroma_ids sr) = Some rows
    /\ process_body E d w1
       = (let* _ := commit (Document.mark_ready d (len (chunks_of E d))
                                                (sum_tokens (chunks_of E d))
                                                (eb_model (batch_of E d)) (utcnow E)) rows in
          ret {| success := true; chunk_count := len (chunks_of E d);
                 total_tokens := sum_tokens (chunks_of E d); error := None |}) w2.
Proof.
  intros (Hx & Hb & Hne & He & Hl) Hclient Hlib.
  destruct (store_add_chunks_runs E (Document.user_id d) (chunks_of E d)
              (eb_embeddings (batch_of E d)) (Document.id d) w1 Hclient Hlib Hl)
    as (sr & w2 & Hadd & Hsr).
  destruct (store_add_chunks_success _ _ _ _ _ _ _ _ Hadd Hsr) as (Hids & _).
  destruct (chunk_rows_total (Document.id d) (chunks_of E d) (chroma_ids sr)) as [rows Hrows].
  { rewrite Hids, fresh_ids_length. lia. }
  exists sr, w2, rows. repeat (split; [assumption|]).
  unfold process_body. fold (extraction_of E d). rewrite Hx, Hb. cbn [negb].
  match goal with
  | |- context [enumerate 0 ?c] => remember c as chunks0 eqn:Hc0
  end.
  assert (Hchunks : chunks_of E d = enumerate 0 chunks0).
  { unfold chunks_of. rewrite <- Hc0. reflexivity. }
  destruct chunks0 as [|c0 chunks0'].
  { exfalso. apply Hne. rewrite Hchunks. reflexivity. }
  rewrite <- Hchunks. fold (batch_of E d). rewrite He.
  replace (length (eb_embeddings (batch_of E d)) =? length (chunks_of E d))%nat with true
    by (symmetry; apply Nat.eqb_eq; exact Hl).
  cbn [negb]. unfold bind at 1. rewrite Hadd, Hsr. cbn [negb]. rewrite Hrows.
  reflexivity.
Qed.

End IngestionRun.

Module IngestionClaims.
Import Str VectorStore RAGService IngestionSpec IngestionProps IngestionRun Samples.

Local Open Scope Z_scope.

(** The document once processed, and processed again (the reprocess route
    calls [process_document] on a document whatever its status). *)
Definition processed_once : world := snd (process_document E0 1 (w0 [])).
Definition processed_twice : world := snd (process_document E0 1 processed_once).

(** C5, counterexample: a document processed to ready a second time has
    chunk_count 6, while 12 chunk rows and 12 vectors are stored for it. *)
Lemma reprocessed_document_counts_differ :
  success <$> (match fst (process_document E0 1 processed_once) with
               | Returns r => Some r
               | Raises _ => None
               end) = Some true
  /\ Document.status <$> (documents processed_twice !! 1) = Some "ready"%string
  /\ Document.chunk_count <$> (documents processed_twice !! 1) = Some 6
  /\ len (rows_of processed_twice 1) = 12
  /\ len (vectors_of (vectors processed_twice) 7 1) = 12.
Proof. vm_compute. repeat split; reflexivity. Qed.

(** C5, amended: when [process_document] returns success for a document,
    the document is ready, its chunk_count is the one returned, and the run
    added exactly chunk_count chunk rows and chunk_count vectors for it; so
    on a document that had no rows and no vectors before (a first
    processing) chunk_count equals the number of its rows and the number of
    its vectors. *)
Theorem ready_document_counts
        (E : env) (document_id : Z) (w w' : world) (d : Document.t) (r : result) :
  documents w !! document_id = Some d ->
  Document.id d = document_id ->
  process_document E document_id w = (Returns r, w') ->
  success r = true ->
  exists d',
    documents w' !! document_id = Some d'
    /\ Document.status d' = "ready"%string
    /\ Document.chunk_count d' = chunk_count r
    /\ len (rows_of w' document_id) = len (rows_of w document_id) + Document.chunk_count d'
    /\ len (vectors_of (vectors w') (Document.user_id d) document_id)
       = len (vectors_of (vectors w) (Document.user_id d) document_id)
         + Document.chunk_count d'
    /\ (rows_of w document_id = [] ->
        vectors_of (vectors w) (Document.user_id d) document_id = [] ->
        Document.chunk_count d' = len (rows_of w' document_id)
        /\ Document.chunk_count d' = len (vectors_of (vectors w') (Document.user_id d) document_id)).
Proof.
  intros Hd Hid Hrun Hs.
  unfold process_document in Hrun. rewrite Hd in Hrun.
  unfold bind at 1 in Hrun.
  destruct (commit (Document.mark_processing d) [] w) as [[u|e] w1] eqn:Hc1; [|discriminate].
  apply commit_returns in Hc1. destruct Hc1 as (Hdocs1 & Hrows1 & Hvec1 & Hu1 & _).
  rewrite app_nil_r in Hrows1.
  unfold try_except in Hrun.
  destruct (process_body E (Document.mark_processing d) w1) as [[r2|e2] w3] eqn:Hbody.
  2: { apply failing_branch in Hrun. destruct Hrun as [H _].
       rewrite (H r eq_refl) in Hs. discriminate. }
  inversion Hrun; subst r2 w3; clear Hrun.
  destruct (process_body_success _ _ _ _ _ Hbody Hs)
    as (_ & sr & w2 & rows & Hadd & Hsr & Hcr & Hc3 & Hr).
  destruct (store_add_chunks_success _ _ _ _ _ _ _ _ Hadd Hsr)
    as (Hids & Hlen & Hvec2 & _ & Hrows2 & _).
  apply commit_returns in Hc3. destruct Hc3 as (Hdocs3 & Hrows3 & Hvec3 & _).
  destruct (chunk_rows_spec _ _ _ _ Hcr) as [Hrl Hrf].
  cbn [Document.id Document.mark_processing Document.mark_ready Document.user_id] in *.
  set (chunks := chunks_of E (Document.mark_processing d)) in *.
  assert (Hnew_rows : rows_of w' document_id = rows_of w document_id ++ rows).
  { unfold rows_of. rewrite Hrows3, Hrows2, Hrows1, List.filter_app. f_equal.
    apply filter_all. eapply List.Forall_impl; [|exact Hrf].
    cbn. intros row Hrow. rewrite Hrow, Hid. apply Z.eqb_refl. }
  assert (Hnew_vecs :
            len (vectors_of (vectors w') (Document.user_id d) document_id)
            = len (vectors_of (vectors w) (Document.user_id d) document_id) + len chunks).
  { rewrite Hvec3, <- Hid, Hvec2, Hvec1. unfold len. rewrite length_app.
    rewrite zip_entries_length; [lia | apply fresh_ids_length | exact Hlen]. }
  assert (Hcount : len (rows_of w' document_id) = len (rows_of w document_id) + len chunks).
  { rewrite Hnew_rows. unfold len. rewrite length_app, Hrl. lia. }
  eexists. split.
  { rewrite Hdocs3, Hid. apply lookup_insert_eq. }
  cbn [Document.status Document.chunk_count].
  split; [reflexivity|].
  split; [rewrite Hr; reflexivity|].
  split; [exact Hcount|].
  split; [exact Hnew_vecs|].
  intros Hr0 Hv0. rewrite Hcount, Hnew_vecs, Hr0, Hv0. cbn. split; reflexivity.
Qed.

Lemma ready_document_counts_witness :
  exists d',
    documents processed_once !! 1 = Some d'
    /\ Document.status d' = "ready"%string
    /\ Document.chunk_count d' = 6
    /\ len (rows_of processed_once 1) = 0 + Document.chunk_count d'
    /\ len (vectors_of (vectors processed_once) 7 1) = 0 + Document.chunk_count d'.
Proof.
  destruct (ready_document_counts E0 1 (w0 []) processed_once doc1
              {| success := true; chunk_count := 6; total_tokens := 68; error := None |})
    as (d' & H1 & H2 & H3 & H4 & H5 & _);
    [vm_compute; reflexivity | reflexivity | vm_compute; reflexivity | reflexivity |].
  exists d'. repeat split; assumption.
Defined.



Lemma fresh_ids_same (E : env) (w w1 : world) (n : nat) :
  uuids_drawn w1 = uuids_drawn w -> fresh_ids E w1 n = fresh_ids E w n.
Proof. unfold fresh_ids. intros ->. reflexivity. Qed.



End IngestionClaims.

(** ** Upload *)
Module UploadProps.
Import Str VectorStore RAGService Samples.

Local Open Scope Z_scope.

(** The keyword arguments [save_uploaded_document] builds. *)
Definition upload_kwargs (user : Z) (project_id : option Z)
           (original stored path mime : string) (size : Z) (ext : string)
  : list (string * Document.kwarg) :=
  [("user_id", Document.KInt user);
   ("project_id", kw_opt project_id);
   ("original_filename", Document.KStr original);
   ("stored_filename", Document.KStr stored);
   ("file_path", Document.KStr path);
   ("mime_type", Document.KStr mime);
   ("file_size", Document.KInt size);
   ("file_type", Document.KStr ext);
   ("status", Document.KStr "pending")]%string.

Definition project_id_error : string :=
  "'project_id' is an invalid keyword argument for Document".

(** [Document] has no attribute [project_id]. *)
Lemma project_id_is_no_attribute :
  existsb (String.eqb "project_id") Document.attributes = false.
Proof. reflexivity. Qed.

(** The constructor raises on these keywords, whatever their values. *)
Lemma init_upload_kwargs user project_id original stored path mime size ext :
  Document.init (upload_kwargs user project_id original stored path mime size ext)
  = inl project_id_error.
Proof. reflexivity. Qed.

(** The extension the upload path computes from a file name. *)
Definition file_ext_of (E : env) (f : upload) : string :=
  strip_dots (lower (path_suffix (secure_filename E (filename f)))).

Definition stored_path (E : env) (w : world) (f : upload) : string :=
  ("rag_documents/" ++ (uuid4 E (uuids_drawn w) ++ "." ++ file_ext_of E f))%string.

(** Whatever the arguments, the upload is refused and no table changes. *)
Lemma save_uploaded_document_refused (E : env) (user : Z) (file : option upload)
      (project_id : option Z) (w : world) :
  exists e w',
    save_uploaded_document E user file project_id w = (Returns (refused e), w')
    /\ documents w' = documents w
    /\ document_chunks w' = document_chunks w
    /\ vectors w' = vectors w.
Proof.
  unfold save_uploaded_document.
  destruct (can_upload_document E w user) as [[|] reason].
  2: { eauto 10. }
  unfold try_except, save_body.
  destruct file as [f|]; [|cbn; eauto 10].
  destruct (filename f) as [|a s] eqn:Hname; [cbn; eauto 10|].
  rewrite <- Hname.
  destruct (is_supported _); cbn [negb]; [|cbn; eauto 10].
  unfold bind, draw_uuid, file_save, bind, record_call, new_document.
  destruct (save_error E) as [e|]; cbn; eauto 10.
Qed.


(** C10, counterexample: user 7 is at the quota of one document.  The
    file is supported and not empty, yet the upload is refused before any
    file is saved or any constructor is invoked. *)
Lemma upload_at_quota_skips_constructor :
  is_supported (file_ext_of (sample_env 1) {| filename := "notes.txt" |}) = true
  /\ fst (save_uploaded_document (sample_env 1) 7 (Some {| filename := "notes.txt" |}) None (w0 []))
     = Returns (refused (Some "Maximum document limit reached (1)"%string))
  /\ calls (snd (save_uploaded_document (sample_env 1) 7 (Some {| filename := "notes.txt" |})
                                        None (w0 []))) = [].
Proof. vm_compute. repeat split; reflexivity. Qed.

(** C10, amended: when the upload check passes (RAG enabled, the user
    under the quota), the file has a name with a supported extension and
    saving it does not raise, [save_uploaded_document] saves the file and
    invokes the [Document] constructor with a [project_id] keyword, which is
    no attribute of the model; the [TypeError] is caught and the result is
    success False, document_id None and the text of that error, and no
    document row is created. *)
Theorem upload_invokes_constructor_and_fails
        (E : env) (user : Z) (f : upload) (project_id : option Z) (w : world) :
  fst (can_upload_document E w user) = true ->
  filename f <> ""%string ->
  is_supported (file_ext_of E f) = true ->
  save_error E = None ->
  exists r w' kwargs,
    save_uploaded_document E user (Some f) project_id w = (Returns r, w')
    /\ calls w' = calls w ++ [FileSave (stored_path E w f); DocumentInit kwargs]
    /\ In ("project_id"%string, kw_opt project_id) kwargs
    /\ existsb (String.eqb "project_id") Document.attributes = false
    /\ Document.init kwargs = inl project_id_error
    /\ s_success r = false
    /\ s_document_id r = None
    /\ s_error r = Some project_id_error
    /\ documents w' = documents w.
Proof.
  intros Hcan Hname Hsup Hsave.
  unfold save_uploaded_document.
  destruct (can_upload_document E w user) as [b reason]. cbn in Hcan. subst b.
  unfold try_except, save_body.
  destruct (filename f) as [|a s] eqn:Hf; [contradiction|]. rewrite <- Hf.
  fold (file_ext_of E f). rewrite Hsup. cbn [negb].
  unfold bind, draw_uuid, file_save, bind, record_call, new_document, bind, record_call.
  rewrite Hsave. cbn.
  eexists _, _, _. split; [reflexivity|]. cbn.
  split; [rewrite <- app_assoc; reflexivity|].
  split; [right; left; reflexivity|].
  repeat split; reflexivity.
Qed.

Lemma upload_invokes_constructor_and_fails_witness :
  exists r w' kwargs,
    save_uploaded_document E0 7 (Some {| filename := "notes.txt" |}) None (w0 [])
    = (Returns r, w')
    /\ calls w' = [FileSave "rag_documents/uuid-0.txt"; DocumentInit kwargs]
    /\ s_success r = false
    /\ documents w' = documents (w0 []).
Proof.
  destruct (upload_invokes_constructor_and_fails E0 7 {| filename := "notes.txt" |} None (w0 []))
    as (r & w' & kwargs & H1 & H2 & _ & _ & _ & H3 & _ & _ & H4).
  - vm_compute; reflexivity.
  - discriminate.
  - vm_compute; reflexivity.
  - reflexivity.
  - exists r, w', kwargs. repeat split; assumption.
Defined.

End UploadProps.

(** ** Provider adapter *)
Module AdapterProps.
Import Py AIService AdapterSpec.

Lemma terminated_single (t : event) : is_content t = false -> terminated [t].
Proof. intros H. exists [], t. repeat split; [constructor | exact H]. Qed.

Lemma terminated_snoc (contents : list event) (t : event) :
  List.Forall (fun e => is_content e = true) contents ->
  is_content t = false ->
  terminated (contents ++ [t]).
Proof. intros Hc Ht. exists contents, t. auto. Qed.

Lemma emitted_content (y : option event) :
  (forall e, y = Some e -> is_content e = true) ->
  List.Forall (fun e => is_content e = true) (emitted y).
Proof.
  intros H. destruct y as [e|]; cbn; [|constructor].
  constructor; [apply H; reflexivity | constructor].
Qed.

(** A loop whose body yields content events yields content events. *)
Lemma for_each_content {X : Type} (body : acc -> X -> step) (xs : list X)
      (raises : option exn) :
  (forall a x, yields_content (body a x)) ->
  forall a, List.Forall (fun e => is_content e = true) (fst (for_each body xs raises a)).
Proof.
  intros Hbody. induction xs as [|x xs IH]; intros a; cbn.
  - destruct raises; constructor.
  - specialize (Hbody a x). destruct (body a x) as [a' y|a' y|y e]; cbn in *.
    + specialize (IH a'). destruct (for_each body xs raises a') as [events r]. cbn in *.
      apply Forall_app. split; [apply emitted_content, Hbody | exact IH].
    + apply emitted_content, Hbody.
    + apply emitted_content, Hbody.
Qed.

Lemma yields_content_none_next (a : acc) : yields_content (Next a None).
Proof. cbn. discriminate. Qed.

Lemma yields_content_none_break (a : acc) : yields_content (Break a None).
Proof. cbn. discriminate. Qed.

Lemma yields_content_none_raise (e : exn) : yields_content (Raise None e).
Proof. cbn. discriminate. Qed.

Create HintDb adapter.

#[local] Hint Resolve yields_content_none_next yields_content_none_break
  yields_content_none_raise : adapter.

Lemma step_of_content (r : res step) :
  (forall s, r = Ok s -> yields_content s) -> yields_content (step_of r).
Proof. destruct r as [s|e]; cbn; intros H; [apply (H s eq_refl) | discriminate]. Qed.

Lemma parsed_content (E : env) (a : acc) (data_str : string) (handle : value -> res step) :
  (forall v s, handle v = Ok s -> yields_content s) ->
  yields_content (parsed E a data_str handle).
Proof.
  intros H. unfold parsed.
  destruct (json_loads (interp E) data_str) as [v|[]]; auto with adapter.
  apply step_of_content. intros s. apply H.
Qed.

Lemma sse_line_content (E : env) (handle : acc -> value -> res step) :
  (forall a v s, handle a v = Ok s -> yields_content s) ->
  forall a l, yields_content (sse_line E handle a l).
Proof.
  intros H a [line_text|]; unfold sse_line; auto with adapter.
  destruct (nonempty_str line_text); auto with adapter.
  destruct (data_of line_text) as [data_str|]; auto with adapter.
  destruct (String.eqb data_str "[DONE]"); auto with adapter.
  apply parsed_content. apply H.
Qed.

(** Taking apart a computation written with [let+]. *)
Tactic Notation "bind_inv" hyp(H) ident(x) :=
  match type of H with
  | and_then ?c _ = Ok _ =>
      let Hx := fresh "H" x in
      destruct c as [x|] eqn:Hx; cbn [and_then] in H; [|discriminate H]
  end.

Lemma append_and_yield_content (a : acc) (c : value) (s : step) :
  append_and_yield a c = Ok s -> yields_content s.
Proof.
  unfold append_and_yield. intros H. bind_inv H full_content. inversion H; subst. cbn.
  intros e He. inversion He; reflexivity.
Qed.

Lemma openai_chunk_content (E : env) (a : acc) (v : value) (s : step) :
  openai_chunk E a v = Ok s -> yields_content s.
Proof.
  unfold openai_chunk. intros H. bind_inv H a1. bind_inv H delta.
  destruct delta as [d|]; [|inversion H; auto with adapter].
  bind_inv H c. destruct (truthy (interp E) c).
  - eapply append_and_yield_content; eauto.
  - inversion H; auto with adapter.
Qed.

Lemma compatible_chunk_content (E : env) (a : acc) (v : value) (s : step) :
  compatible_chunk E a v = Ok s -> yields_content s.
Proof.
  unfold compatible_chunk. intros H. bind_inv H a1. bind_inv H delta.
  destruct delta as [d|]; [|inversion H; auto with adapter].
  bind_inv H has_content. destruct has_content.
  - bind_inv H c. eapply append_and_yield_content; eauto.
  - inversion H; auto with adapter.
Qed.

Lemma anthropic_event_content (E : env) (a : acc) (v : value) (s : step) :
  anthropic_event E a v = Ok s -> yields_content s.
Proof.
  unfold anthropic_event. intros H. bind_inv H event_type.
  destruct (is_str event_type "content_block_delta").
  { bind_inv H delta. bind_inv H delta_type. destruct (is_str delta_type "text_delta").
    - bind_inv H c. eapply append_and_yield_content; eauto.
    - inversion H; auto with adapter. }
  destruct (is_str event_type "message_delta").
  { bind_inv H u. destruct (truthy (interp E) u); [|inversion H; auto with adapter].
    bind_inv H out. destruct (usage_so_far a).
    - bind_inv H total. inversion H; auto with adapter.
    - inversion H; auto with adapter. }
  destruct (is_str event_type "message_start").
  { bind_inv H message. bind_inv H u.
    destruct (truthy (interp E) u); [|inversion H; auto with adapter].
    bind_inv H inp. inversion H; auto with adapter. }
  destruct (is_str event_type "message_stop"); inversion H; auto with adapter.
Qed.

Lemma anthropic_line_content (E : env) (a : acc) (l : line) :
  yields_content (anthropic_line E a l).
Proof.
  destruct l as [line_text|]; unfold anthropic_line; auto with adapter.
  destruct (nonempty_str line_text); auto with adapter.
  destruct (data_of line_text) as [data_str|]; auto with adapter.
  apply parsed_content. intros v s. apply anthropic_event_content.
Qed.

Lemma ollama_content_yields (a a1 : acc) (v : value) (y : option event) :
  ollama_content a v = Ok (a1, y) -> forall e, y = Some e -> is_content e = true.
Proof.
  unfold ollama_content. intros H. bind_inv H has_message.
  destruct has_message; [|inversion H; discriminate].
  bind_inv H message. bind_inv H has_content.
  destruct has_content; [|inversion H; discriminate].
  bind_inv H c. bind_inv H full_content. inversion H; subst.
  intros e He. inversion He; reflexivity.
Qed.

Lemma ollama_line_content (E : env) (a : acc) (l : line) :
  yields_content (ollama_line E a l).
Proof.
  destruct l as [line_text|]; unfold ollama_line; auto with adapter.
  destruct (nonempty_str line_text); auto with adapter.
  destruct (json_loads (interp E) line_text) as [v|[]]; auto with adapter.
  destruct (ollama_content a v) as [[a1 y]|e] eqn:Hc; auto with adapter.
  pose proof (ollama_content_yields _ _ _ _ Hc) as Hy.
  destruct (ollama_done E a1 v) as [[[] a2]|e]; exact Hy.
Qed.

Lemma gemini_chunk_step_content (a : acc) (chunk : gemini_chunk) :
  yields_content (gemini_chunk_step a chunk).
Proof.
  unfold gemini_chunk_step. destruct (chunk_text chunk) as [[t|]|e]; auto with adapter.
  destruct (nonempty_str t); auto with adapter.
  cbn. intros e He. inversion He; reflexivity.
Qed.

(** The try block of an HTTP provider is a well-formed run. *)
Lemma http_try_well_run (E : env) (req : request) (body : acc -> line -> step)
      (finish : acc -> res (option usage)) :
  (forall a l, yields_content (body a l)) ->
  well_run (http_try E req body finish).
Proof.
  intros Hbody. unfold http_try.
  destruct (post E req) as [e|r]; [constructor|].
  destruct (raise_for_status r); [constructor|].
  pose proof (for_each_content body (lines r) (lines_raise r) Hbody start) as Hc.
  destruct (for_each body (lines r) (lines_raise r) start) as [events [a|e]]; cbn in Hc.
  - destruct (finish a) as [u|e]; cbn; [|exact Hc].
    apply terminated_snoc; [exact Hc | reflexivity].
  - exact Hc.
Qed.

(** The except clauses turn a well-formed run into a terminated stream. *)
Lemma handled_terminated (E : env) (texts : error_texts) (run : gen) :
  well_run run ->
  snd (handled E texts run) = None /\ terminated (fst (handled E texts run)).
Proof.
  destruct run as [events [e|]]; cbn; intros H.
  - destruct e; cbn; (split; [reflexivity | apply terminated_snoc; [exact H | reflexivity]]).
  - auto.
Qed.

Lemma handled_well_run (E : env) (texts : error_texts) (run : gen) :
  well_run run -> well_run (handled E texts run).
Proof.
  intros H. destruct (handled_terminated E texts run H) as [Hn Ht].
  destruct (handled E texts run) as [events o]. cbn in *. subst o. exact Ht.
Qed.

End AdapterProps.

Module AdapterClaims.
Import Py AIService AdapterSpec AdapterProps.

Lemma openai_well_run (E : env) messages model_name user_id upload_folder :
  well_run (_get_openai_response_stream E messages model_name user_id upload_folder).
Proof.
  unfold _get_openai_response_stream.
  destruct (_get_user_api_key E "openai" user_id); [|apply terminated_single; reflexivity].
  match goal with |- context [match ?b with Ok _ => _ | Err _ => _ end] => destruct b as [[]|] end.
  - apply terminated_single; reflexivity.
  - apply handled_well_run, http_try_well_run, sse_line_content.
    intros a v st. apply openai_chunk_content.
  - constructor.
Qed.

Lemma grok_well_run (E : env) messages model_name user_id upload_folder :
  well_run (_get_grok_response_stream E messages model_name user_id upload_folder).
Proof.
  unfold _get_grok_response_stream.
  destruct (_get_user_api_key E "xai" user_id); [|apply terminated_single; reflexivity].
  apply handled_well_run, http_try_well_run, sse_line_content.
  intros a v st. apply compatible_chunk_content.
Qed.

Lemma anthropic_well_run (E : env) messages model_name user_id upload_folder :
  well_run (_get_anthropic_response_stream E messages model_name user_id upload_folder).
Proof.
  unfold _get_anthropic_response_stream.
  destruct (_get_user_api_key E "anthropic" user_id); [|apply terminated_single; reflexivity].
  apply handled_well_run, http_try_well_run, anthropic_line_content.
Qed.

Lemma lmstudio_well_run (E : env) messages model_name user_id upload_folder vision_enabled :
  well_run (_get_lmstudio_response_stream E messages model_name user_id upload_folder
                                          vision_enabled).
Proof.
  unfold _get_lmstudio_response_stream.
  destruct (has_image_attachment messages && negb vision_enabled)%bool;
    [apply terminated_single; reflexivity|].
  apply handled_well_run, http_try_well_run, sse_line_content.
  intros a v st. apply compatible_chunk_content.
Qed.

Lemma ollama_well_run (E : env) messages model_name user_id upload_folder vision_enabled :
  well_run (_get_ollama_response_stream E messages model_name user_id upload_folder
                                        vision_enabled).
Proof.
  unfold _get_ollama_response_stream.
  destruct (has_image_attachment messages && negb vision_enabled)%bool;
    [apply terminated_single; reflexivity|].
  apply handled_well_run, http_try_well_run, ollama_line_content.
Qed.

Lemma gemini_well_run (E : env) messages user_id upload_folder :
  well_run (_get_gemini_response_stream E messages user_id upload_folder).
Proof.
  unfold _get_gemini_response_stream.
  destruct (_get_user_api_key E "gemini" user_id) as [key|];
    [|apply terminated_single; reflexivity].
  match goal with |- context [generate_content_stream E ?r] =>
    set (stream := generate_content_stream E r) end.
  destruct (client_raises stream); [apply terminated_single; reflexivity|].
  pose proof (for_each_content gemini_chunk_step (chunks stream) (chunks_raise stream)
                gemini_chunk_step_content start) as Hc.
  destruct (for_each gemini_chunk_step (chunks stream) (chunks_raise stream) start)
    as [events [a|e]]; cbn in Hc; apply terminated_snoc; auto.
Qed.

Lemma dispatch_well_run (E : env) messages provider model_name user_id upload_folder vision :
  well_run (dispatch E messages provider model_name user_id upload_folder vision).
Proof.
  unfold dispatch.
  destruct (String.eqb provider "gemini"); [apply gemini_well_run|].
  destruct (String.eqb provider "openai"); [apply openai_well_run|].
  destruct (String.eqb provider "anthropic"); [apply anthropic_well_run|].
  destruct (String.eqb provider "xai"); [apply grok_well_run|].
  destruct (String.eqb provider "lmstudio"); [apply lmstudio_well_run|].
  destruct (String.eqb provider "ollama"); [apply ollama_well_run|].
  apply terminated_single; reflexivity.
Qed.



(** C4: with an age-based prompt and a document context that are both
    present, the provider function is handed the document-context message
    first, the age-based safety message second, and then the history. *)
Theorem rag_message_precedes_safety_message
        (messages : list message) (rag_context age_system_prompt : string) :
  rag_context <> ""%string ->
  age_system_prompt <> ""%string ->
  injected messages (Some rag_context) (Some age_system_prompt)
  = system_message (rag_prompt rag_context) :: system_message age_system_prompt :: messages.
Proof.
  intros Hr Ha. unfold injected.
  destruct rag_context; [contradiction|]. destruct age_system_prompt; [contradiction|].
  reflexivity.
Qed.

Definition hello : list message :=
  [{| role := "user"; content := "hello"; attachments := [] |}].

Lemma rag_message_precedes_safety_message_witness :
  map role (injected hello (Some "CONTEXT"%string) (Some "Be kind."%string))
  = ["system"; "system"; "user"]%string
  /\ nth_error (injected hello (Some "CONTEXT"%string) (Some "Be kind."%string)) 1
     = Some (system_message "Be kind.").
Proof.
  rewrite (rag_message_precedes_safety_message hello "CONTEXT" "Be kind.");
    [split; reflexivity | discriminate | discriminate].
Defined.

End AdapterClaims.

(** ** Chat routes *)
Module ChatRouteProps.
Import ChatRoute.

Local Open Scope Z_scope.

(** Settings with nothing stored, and a user writing into a chat. *)
Definition bare_env : env :=
  {| lib := {| AdminSettings.py_int := fun _ => None;
               AdminSettings.json_loads := fun _ => None |};
     table := ∅;
     tokenizer := None;
     uuid4 := fun n => ("uuid-" ++ pretty (Z.of_nat n))%string;
     today := {| User.year := 2025; User.month := 6; User.day := 1 |} |}.

Definition alice : User.t := {| User.id := 1; User.date_of_birth := None |}.
Definition bob : User.t := {| User.id := 2; User.date_of_birth := None |}.

(** The chat of Alice, with one message of hers. *)
Definition alices_chat : Chat.t :=
  {| Chat.id := 10; Chat.session_id := "s-alice"; Chat.name := "Holiday plans";
     Chat.user_id := 1; Chat.model_provider := "gemini"; Chat.model_name := None |}.

Definition alices_db : db :=
  {| chats := [alices_chat];
     messages := [{| Message.id := 100; Message.chat_id := 10; Message.role := "user";
                     Message.content := "Where shall we go?";
                     Message.distilled_content := None; Message.tokens_used := 4;
                     Message.model_used := "gemini"; Message.input_tokens := 4;
                     Message.output_tokens := 0; Message.tokens_estimated := true |}];
     attachments := [];
     uuids_drawn := 0 |}.

Definition bobs_request : chat_request :=
  {| message := "hello from Bob"; model := "gemini"; local_model_provider := "lmstudio";
     session_id := Some "s-alice"%string; model_name := None; attachments_data := [];
     local_vision_enabled := false |}.

(** C2: a chat turn on an existing session is never rejected for the
    requesting user: whoever owns the chat the handle names, a request with
    a message gets the event stream of a turn in that chat, the user message
    is persisted to it, and the history handed on is the one of that chat. *)
Theorem chat_turn_ignores_owner
        (E : env) (current_user : User.t) (data : chat_request) (st : db)
        (sid : string) (c : Chat.t) :
  session_id data = Some sid ->
  sid <> ""%string ->
  find_chat st sid = Some c ->
  text (Str.strip (chars (message data))) <> ""%string ->
  exists t st',
    chat E current_user data st = (Stream t, st')
    /\ turn_chat t = c
    /\ Message.chat_id (turn_user_msg t) = Chat.id c
    /\ Message.role (turn_user_msg t) = "user"%string
    /\ messages st' = messages st ++ [turn_user_msg t]
    /\ chats st' = chats st.
Proof.
  intros Hsid Hne Hfind Hmsg. unfold chat.
  destruct (text (Str.strip (chars (message data)))) as [|a0 s0] eqn:Hm; [contradiction|].
  cbn [nonempty_str negb andb].
  unfold resolve. rewrite Hsid.
  destruct sid as [|a1 s1]; [contradiction|]. cbn [nonempty_str].
  rewrite Hfind. cbn.
  eexists _, _. split; [reflexivity|]. cbn. repeat split; reflexivity.
Qed.

Lemma chat_turn_ignores_owner_witness :
  Chat.user_id alices_chat <> User.id bob
  /\ exists t st',
      chat bare_env bob bobs_request alices_db = (Stream t, st')
      /\ turn_chat t = alices_chat
      /\ messages st' = messages alices_db ++ [turn_user_msg t].
Proof.
  split; [discriminate|].
  destruct (chat_turn_ignores_owner bare_env bob bobs_request alices_db "s-alice" alices_chat)
    as (t & st' & H1 & H2 & _ & _ & H3 & _);
    [reflexivity | discriminate | reflexivity | vm_compute; discriminate |].
  exists t, st'. repeat split; assumption.
Defined.

(** The history route, for comparison, answers 403 to a user who does not
    own the chat. *)
Lemma get_history_checks_owner (current_user : User.t) (sid : string) (st : db) (c : Chat.t) :
  sid <> ""%string ->
  find_chat st sid = Some c ->
  Chat.user_id c <> User.id current_user ->
  get_history current_user (Some sid) st = inl (403, "Unauthorized"%string).
Proof.
  intros Hne Hfind Howner. unfold get_history.
  destruct sid; [contradiction|]. rewrite Hfind.
  destruct (Z.eqb_spec (Chat.user_id c) (User.id current_user)); [contradiction | reflexivity].
Qed.

Lemma get_history_checks_owner_witness :
  get_history bob (Some "s-alice"%string) alices_db = inl (403, "Unauthorized"%string).
Proof.
  apply (get_history_checks_owner bob "s-alice" alices_db alices_chat);
    [discriminate | reflexivity | discriminate].
Defined.

(** Renaming a chat one does not own changes nothing. *)
Lemma rename_chat_checks_owner (current_user : User.t) (sid new_name : string) (st : db)
      (c : Chat.t) :
  find_chat st sid = Some c ->
  Chat.user_id c <> User.id current_user ->
  rename_chat current_user sid new_name st = ((403, "Unauthorized"%string), st).
Proof.
  intros Hfind Howner. unfold rename_chat. rewrite Hfind.
  destruct (Z.eqb_spec (Chat.user_id c) (User.id current_user)); [contradiction | reflexivity].
Qed.

Lemma rename_chat_checks_owner_witness :
  rename_chat bob "s-alice" "Mine now" alices_db = ((403, "Unauthorized"%string), alices_db).
Proof.
  apply (rename_chat_checks_owner bob "s-alice" "Mine now" alices_db alices_chat);
    [reflexivity | discriminate].
Defined.

End ChatRouteProps.

(** ** Vector store: insertion, deletion, tenants *)
Module VectorStoreExtras.
Import Str VectorStore.

Local Open Scope Z_scope.

Lemma filter_none {A : Type} (f : A -> bool) (l : list A) :
  List.Forall (fun x => f x = false) l -> List.filter f l = [].
Proof.
  induction 1 as [|x l Hx _ IH]; [reflexivity|]. cbn. rewrite Hx. exact IH.
Qed.

Lemma filter_keeps {A : Type} (f : A -> bool) (l : list A) :
  List.Forall (fun x => f x = true) l -> List.filter f l = l.
Proof.
  induction 1 as [|x l Hx _ IH]; [reflexivity|]. cbn. rewrite Hx, IH. reflexivity.
Qed.

Lemma zip_entries_tagged (document_id : Z) (ids : list string) :
  forall chunks embeddings,
    List.Forall (fun e => md_document_id (e_metadata e) = document_id)
                (zip_entries document_id ids chunks embeddings).
Proof.
  induction ids as [|i ids IH]; intros chunks embeddings; [constructor|].
  destruct chunks as [|c chunks]; [constructor|].
  destruct embeddings as [|v embeddings]; [constructor|].
  cbn. constructor; [reflexivity | apply IH].
Qed.

Lemma zip_entries_handles (document_id : Z) (chunks : list indexed_chunk) :
  forall ids embeddings,
    length ids = length chunks -> length embeddings = length chunks ->
    map e_id (zip_entries document_id ids chunks embeddings) = ids
    /\ length (zip_entries document_id ids chunks embeddings) = length chunks.
Proof.
  induction chunks as [|c chunks IH]; intros ids embeddings Hi He.
  - destruct ids; [|discriminate]. split; reflexivity.
  - destruct ids as [|i ids]; [discriminate|].
    destruct embeddings as [|v embeddings]; [discriminate|].
    cbn in *. destruct (IH ids embeddings ltac:(lia) ltac:(lia)) as [H1 H2].
    rewrite H1, H2. split; reflexivity.
Qed.

Lemma vectors_of_other_user (st : store) (user other document_id : Z) (c : list entry) :
  other <> user ->
  vectors_of (with_collection st user c) other document_id = vectors_of st other document_id.
Proof.
  intros Hne. unfold vectors_of, with_collection. cbn.
  rewrite lookup_insert_ne by congruence. reflexivity.
Qed.

Lemma vectors_of_same_user (st : store) (user document_id : Z) (c : list entry) :
  vectors_of (with_collection st user c) user document_id
  = List.filter (of_document document_id) c.
Proof. unfold vectors_of, with_collection. cbn. rewrite lookup_insert_eq. reflexivity. Qed.

(** X1: an [add_chunks] that fails without the library raising, that is,
    on lists of chunks and embeddings of different lengths or without a
    client, returns no handle and leaves the store as it was. *)
Theorem add_chunks_failure_adds_nothing
        (lib : chroma) (fresh : list string) (st st' : store) (user : Z)
        (chunks : list indexed_chunk) (embeddings : list embedding) (document_id : Z)
        (r : add_result) :
  add_error lib = None ->
  add_chunks lib fresh st user chunks embeddings document_id = (r, st') ->
  add_success r = false ->
  chroma_ids r = []
  /\ add_err r <> None
  /\ st' = st
  /\ (length chunks <> length embeddings \/ client st = false).
Proof.
  intros Hlib. unfold add_chunks.
  destruct (length chunks =? length embeddings)%nat eqn:Hlen; cbn [negb].
  2: { intros H _. inversion H; subst. cbn. split; [reflexivity|]. split; [discriminate|].
       split; [reflexivity|]. left. apply Nat.eqb_neq. exact Hlen. }
  unfold get_user_collection. destruct (client st).
  2: { intros H _. inversion H; subst. cbn. split; [reflexivity|]. split; [discriminate|].
       split; [reflexivity|]. right. reflexivity. }
  rewrite Hlib.
  destruct (collections st !! user) as [c|]; intros H Hs; inversion H; subst; discriminate.
Qed.

Definition one_chunk : list indexed_chunk :=
  [{| ic_index := 0;
      ic_chunk := {| ChunkingService.content := "Alpha beta."; ChunkingService.token_count := 2;
                     ChunkingService.start_char := 0; ChunkingService.end_char := 11;
                     ChunkingService.page_number := None |} |}].

Definition empty_store : store := {| client := true; collections := ∅ |}.

Lemma add_chunks_failure_adds_nothing_witness :
  chroma_ids (fst (add_chunks Samples.lib0 ["h1"%string] empty_store 7 one_chunk [] 1)) = []
  /\ snd (add_chunks Samples.lib0 ["h1"%string] empty_store 7 one_chunk [] 1) = empty_store.
Proof.
  destruct (add_chunks_failure_adds_nothing Samples.lib0 ["h1"%string] empty_store
              (snd (add_chunks Samples.lib0 ["h1"%string] empty_store 7 one_chunk [] 1))
              7 one_chunk [] 1
              (fst (add_chunks Samples.lib0 ["h1"%string] empty_store 7 one_chunk [] 1)))
    as (H1 & _ & H2 & _); [reflexivity | reflexivity | reflexivity |].
  split; assumption.
Defined.

(** X2: a successful [add_chunks] returns one handle per chunk and
    appends, in the collection of the user, one vector per chunk carrying
    these handles, all for the document given; the vectors of the other
    documents of the user and the collections of the other users are as
    before. *)
Theorem add_chunks_success_appends
        (lib : chroma) (fresh : list string) (st st' : store) (user : Z)
        (chunks : list indexed_chunk) (embeddings : list embedding) (document_id : Z)
        (r : add_result) :
  (length chunks <= length fresh)%nat ->
  add_chunks lib fresh st user chunks embeddings document_id = (r, st') ->
  add_success r = true ->
  exists added,
    vectors_of st' user document_id = vectors_of st user document_id ++ added
    /\ map e_id added = chroma_ids r
    /\ length added = length chunks
    /\ map e_document added = map (fun c => ChunkingService.content (ic_chunk c)) chunks
    /\ (forall d, d <> document_id -> vectors_of st' user d = vectors_of st user d)
    /\ (forall u, u <> user -> collections st' !! u = collections st !! u).
Proof.
  intros Hfresh. unfold add_chunks.
  destruct (length chunks =? length embeddings)%nat eqn:Hlen; cbn [negb].
  2: { intros H Hs. inversion H; subst. discriminate. }
  apply Nat.eqb_eq in Hlen.
  unfold get_user_collection. destruct (client st).
  2: { intros H Hs. inversion H; subst. discriminate. }
  set (ids := firstn (length chunks) fresh).
  assert (Hids : length ids = length chunks).
  { unfold ids. rewrite length_take. lia. }
  destruct (zip_entries_handles document_id chunks ids embeddings Hids ltac:(lia)) as [Hmap Hl].
  assert (Hdocs : forall ids' embs',
             length ids' = length chunks -> length embs' = length chunks ->
             map e_document (zip_entries document_id ids' chunks embs')
             = map (fun c => ChunkingService.content (ic_chunk c)) chunks).
  { clear. induction chunks as [|c chunks IH]; intros ids' embs' Hi He.
    - destruct ids'; [reflexivity | discriminate].
    - destruct ids' as [|i ids']; [discriminate|]. destruct embs' as [|v embs']; [discriminate|].
      cbn in *. f_equal. apply IH; lia. }
  assert (Hother : forall c d, d <> document_id ->
             List.filter (of_document d) (c ++ zip_entries document_id ids chunks embeddings)
             = List.filter (of_document d) c).
  { intros c d Hd. rewrite List.filter_app.
    rewrite (filter_none (of_document d) (zip_entries document_id ids chunks embeddings)).
    - apply app_nil_r.
    - eapply List.Forall_impl; [|apply zip_entries_tagged].
      cbn. intros e He. unfold of_document. rewrite He. apply Z.eqb_neq. congruence. }
  assert (Hsame : forall c,
             List.filter (of_document document_id)
                         (c ++ zip_entries document_id ids chunks embeddings)
             = List.filter (of_document document_id) c
               ++ zip_entries document_id ids chunks embeddings).
  { intros c. rewrite List.filter_app. f_equal. apply filter_keeps.
    eapply List.Forall_impl; [|apply zip_entries_tagged].
    cbn. intros e He. unfold of_document. rewrite He. apply Z.eqb_refl. }
  destruct (collections st !! user) as [c|] eqn:Hc;
    (destruct (add_error lib); intros H Hs; injection H as Hr Hst; subst r st';
     [discriminate|]);
    exists (zip_entries document_id ids chunks embeddings); cbn [chroma_ids].
  - split; [rewrite vectors_of_same_user, Hsame; unfold vectors_of; rewrite Hc; reflexivity|].
    split; [exact Hmap|]. split; [exact Hl|]. split; [apply Hdocs; lia|].
    split.
    + intros d Hd. rewrite vectors_of_same_user, Hother by exact Hd.
      unfold vectors_of. rewrite Hc. reflexivity.
    + intros u Hu. cbn. rewrite lookup_insert_ne by congruence. reflexivity.
  - pose proof (Hsame []) as Hsame0. cbn [app List.filter] in Hsame0.
    split; [rewrite vectors_of_same_user; cbn [app]; rewrite Hsame0; unfold vectors_of;
            rewrite Hc; reflexivity|].
    split; [exact Hmap|]. split; [exact Hl|]. split; [apply Hdocs; lia|].
    split.
    + intros d Hd. pose proof (Hother [] d Hd) as Hother0. cbn [app List.filter] in Hother0.
      rewrite vectors_of_same_user. cbn [app]. rewrite Hother0.
      unfold vectors_of. rewrite Hc. reflexivity.
    + intros u Hu. cbn. rewrite !lookup_insert_ne by congruence. reflexivity.
Qed.

Definition one_embedding : list embedding := [[QArith_base.Qmake 1 2]].

Lemma add_chunks_success_appends_witness :
  exists added,
    vectors_of (snd (add_chunks Samples.lib0 ["h1"%string] empty_store 7 one_chunk
                                one_embedding 1)) 7 1 = [] ++ added
    /\ map e_id added = ["h1"%string].
Proof.
  destruct (add_chunks_success_appends Samples.lib0 ["h1"%string] empty_store
              (snd (add_chunks Samples.lib0 ["h1"%string] empty_store 7 one_chunk one_embedding 1))
              7 one_chunk one_embedding 1
              (fst (add_chunks Samples.lib0 ["h1"%string] empty_store 7 one_chunk one_embedding 1)))
    as (added & H1 & H2 & _); [cbn; lia | reflexivity | reflexivity |].
  exists added. split; assumption.
Defined.


Lemma filter_filter_other (document_id d : Z) (c : list entry) :
  d <> document_id ->
  List.filter (of_document d) (List.filter (fun e => negb (of_document document_id e)) c)
  = List.filter (of_document d) c.
Proof.
  intros Hd. induction c as [|e c IH]; [reflexivity|].
  cbn. destruct (of_document document_id e) eqn:He; cbn.
  - destruct (of_document d e) eqn:He'; [|exact IH].
    unfold of_document in He, He'. apply Z.eqb_eq in He, He'. congruence.
  - destruct (of_document d e); [f_equal|]; exact IH.
Qed.

Lemma filter_filter_same (document_id : Z) (c : list entry) :
  List.filter (of_document document_id)
              (List.filter (fun e => negb (of_document document_id e)) c) = [].
Proof.
  induction c as [|e c IH]; [reflexivity|].
  cbn. destruct (of_document document_id e) eqn:He; cbn; [exact IH|].
  rewrite He. exact IH.
Qed.

(** X3: with a client and a library that does not raise,
    [delete_document] reports the number of vectors the document had,
    leaves none of them, and touches neither the other documents of the user
    nor the other users. *)
Theorem delete_document_removes_the_document
        (lib : chroma) (st st' : store) (user document_id : Z) (r : delete_result) :
  client st = true ->
  delete_error lib = None ->
  delete_document lib st user document_id = (r, st') ->
  del_success r = true
  /\ deleted_count r = len (vectors_of st user document_id)
  /\ vectors_of st' user document_id = []
  /\ (forall d, d <> document_id -> vectors_of st' user d = vectors_of st user d)
  /\ (forall u d, u <> user -> vectors_of st' u d = vectors_of st u d).
Proof.
  intros Hclient Hlib. unfold delete_document, get_user_collection. rewrite Hclient.
  destruct (collections st !! user) as [c|] eqn:Hc.
  - destruct (List.filter (of_document document_id) c) as [|e found] eqn:Hf.
    + intros H. injection H as <- <-. cbn.
      unfold vectors_of. rewrite Hc, Hf. repeat split; reflexivity.
    + rewrite Hlib. intros H. injection H as <- <-. cbn [del_success deleted_count].
      split; [reflexivity|].
      split; [unfold vectors_of; rewrite Hc, Hf; reflexivity|].
      split; [rewrite vectors_of_same_user; apply filter_filter_same|].
      split.
      * intros d Hd. rewrite vectors_of_same_user, filter_filter_other by exact Hd.
        unfold vectors_of. rewrite Hc. reflexivity.
      * intros u d Hu. apply vectors_of_other_user. exact Hu.
  - intros H. injection H as <- <-. cbn.
    unfold vectors_of. rewrite Hc. repeat split; reflexivity.
Qed.

Definition stored_once : store :=
  snd (add_chunks Samples.lib0 ["h1"%string] empty_store 7 one_chunk one_embedding 1).

Lemma delete_document_removes_the_document_witness :
  len (vectors_of stored_once 7 1) = 1
  /\ vectors_of (snd (delete_document Samples.lib0 stored_once 7 1)) 7 1 = []
  /\ deleted_count (fst (delete_document Samples.lib0 stored_once 7 1)) = 1.
Proof.
  destruct (delete_document_removes_the_document Samples.lib0 stored_once
              (snd (delete_document Samples.lib0 stored_once 7 1)) 7 1
              (fst (delete_document Samples.lib0 stored_once 7 1)))
    as (_ & H1 & H2 & _); [reflexivity | reflexivity | reflexivity |].
  split; [reflexivity|]. split; [exact H2 | exact H1].
Defined.

Lemma filter_drops_handles (ids : list string) (c added : list entry) :
  List.Forall (fun e => existsb (String.eqb (e_id e)) ids = false) c ->
  map e_id added = ids ->
  List.filter (fun e => negb (existsb (String.eqb (e_id e)) ids)) (c ++ added) = c.
Proof.
  intros Hc Hadded. rewrite List.filter_app.
  rewrite (filter_keeps _ c).
  2: { eapply List.Forall_impl; [|exact Hc]. cbn. intros e ->. reflexivity. }
  rewrite (filter_none _ added); [apply app_nil_r|].
  apply List.Forall_forall. intros e He.
  assert (Hin : In (e_id e) ids) by (rewrite <- Hadded; apply in_map; exact He).
  apply negb_false_iff, existsb_exists. exists (e_id e). split; [exact Hin|].
  apply String.eqb_refl.
Qed.

(** X4: deleting by the handles a successful [add_chunks] returned undoes
    it, when the handles are new to the collection and the library does not
    raise: for every document the user has the vectors of before. *)
Theorem delete_chunks_by_ids_undoes_add_chunks
        (lib : chroma) (fresh : list string) (st st1 st2 : store) (user : Z)
        (chunks : list indexed_chunk) (embeddings : list embedding) (document_id : Z)
        (r : add_result) (dr : bool * option string) :
  (length chunks <= length fresh)%nat ->
  (forall c, collections st !! user = Some c ->
             List.Forall (fun e => existsb (String.eqb (e_id e)) (chroma_ids r) = false) c) ->
  delete_error lib = None ->
  add_chunks lib fresh st user chunks embeddings document_id = (r, st1) ->
  add_success r = true ->
  delete_chunks_by_ids lib st1 user (chroma_ids r) = (dr, st2) ->
  dr = (true, None)
  /\ (forall d, vectors_of st2 user d = vectors_of st user d)
  /\ (forall u, u <> user -> collections st2 !! u = collections st !! u).
Proof.
  intros Hfresh Hnew Hlib. unfold add_chunks.
  destruct (length chunks =? length embeddings)%nat eqn:Hlen; cbn [negb].
  2: { intros H Hs. inversion H; subst. discriminate. }
  apply Nat.eqb_eq in Hlen.
  unfold get_user_collection at 1. destruct (client st) eqn:Hclient.
  2: { intros H Hs. inversion H; subst. discriminate. }
  set (ids := firstn (length chunks) fresh).
  assert (Hids : length ids = length chunks).
  { unfold ids. rewrite length_take. lia. }
  destruct (zip_entries_handles document_id chunks ids embeddings Hids ltac:(lia)) as [Hmap _].
  destruct (collections st !! user) as [c|] eqn:Hc;
    (destruct (add_error lib); intros H Hs; injection H as Hr Hst; subst r st1;
     [discriminate|]);
    cbn [chroma_ids] in *;
    unfold delete_chunks_by_ids, get_user_collection; cbn [client with_collection collections];
    rewrite Hclient, lookup_insert_eq, Hlib; intros H; injection H as <- <-.
  - split; [reflexivity|]. split.
    + intros d. rewrite vectors_of_same_user.
      rewrite (filter_drops_handles ids c _ (Hnew c eq_refl) Hmap).
      unfold vectors_of. rewrite Hc. reflexivity.
    + intros u Hu. cbn. rewrite !lookup_insert_ne by congruence. reflexivity.
  - split; [reflexivity|]. split.
    + intros d. rewrite vectors_of_same_user.
      pose proof (filter_drops_handles ids [] _ (List.Forall_nil _) Hmap) as H0.
      cbn [app] in H0. cbn [app]. rewrite H0.
      unfold vectors_of. rewrite Hc. reflexivity.
    + intros u Hu. cbn. rewrite !lookup_insert_ne by congruence. reflexivity.
Qed.

Lemma delete_chunks_by_ids_undoes_add_chunks_witness :
  vectors_of (snd (delete_chunks_by_ids Samples.lib0 stored_once 7 ["h1"%string])) 7 1
  = vectors_of empty_store 7 1.
Proof.
  destruct (delete_chunks_by_ids_undoes_add_chunks Samples.lib0 ["h1"%string] empty_store
              stored_once (snd (delete_chunks_by_ids Samples.lib0 stored_once 7 ["h1"%string]))
              7 one_chunk one_embedding 1
              (fst (add_chunks Samples.lib0 ["h1"%string] empty_store 7 one_chunk one_embedding 1))
              (fst (delete_chunks_by_ids Samples.lib0 stored_once 7 ["h1"%string])))
    as (_ & H & _);
    [cbn; lia | intros c Hc; discriminate Hc | reflexivity | reflexivity | reflexivity
     | reflexivity |].
  exact (H 1).
Defined.

End VectorStoreExtras.

(** ** Ingestion: what a run leaves behind *)
Module IngestionExtras.
Import Str VectorStore RAGService IngestionSpec IngestionProps IngestionRun.

Local Open Scope Z_scope.

(** The store [st'] holds what [st] held, and more in the collection of
    [user] only. *)
Definition grown (st st' : store) (user : Z) : Prop :=
  (forall u, u <> user -> collections st' !! u = collections st !! u)
  /\ (forall c, collections st !! user = Some c ->
                exists added, collections st' !! user = Some (c ++ added)).

Lemma grown_refl (st : store) (user : Z) : grown st st user.
Proof.
  split; [reflexivity|]. intros c Hc. exists []. rewrite app_nil_r. exact Hc.
Qed.

Lemma add_chunks_grown (lib : chroma) (fresh : list string) (st st' : store) (user : Z)
      (chunks : list indexed_chunk) (embeddings : list embedding) (document_id : Z)
      (r : add_result) :
  add_chunks lib fresh st user chunks embeddings document_id = (r, st') ->
  grown st st' user.
Proof.
  unfold add_chunks.
  destruct (negb (length chunks =? length embeddings)%nat).
  { intros H. injection H as <- <-. apply grown_refl. }
  unfold get_user_collection. destruct (client st).
  2: { intros H. injection H as <- <-. apply grown_refl. }
  destruct (collections st !! user) as [c|] eqn:Hc;
    destruct (add_error lib); intros H; injection H as <- <-;
    try apply grown_refl; split;
    try (intros u Hu; cbn; rewrite !lookup_insert_ne by congruence; reflexivity);
    intros c' Hc'; try congruence.
  replace c' with c by congruence. eexists. cbn. apply lookup_insert_eq.
Qed.

(** What the try block does to the tables: the vector store grows in the
    collection of the owner only, and chunk rows are added by a run that
    returns success only. *)
Lemma process_body_effect (E : env) (d : Document.t) (w1 w2 : world) (o : outcome result) :
  process_body E d w1 = (o, w2) ->
  grown (vectors w1) (vectors w2) (Document.user_id d)
  /\ (document_chunks w2 = document_chunks w1
      \/ exists r, o = Returns r /\ success r = true).
Proof.
  unfold process_body. intros H.
  assert (Hfail : forall doc e,
             (let* _ := commit doc [] in ret (failure e)) w1 = (o, w2) ->
             grown (vectors w1) (vectors w2) (Document.user_id d)
             /\ (document_chunks w2 = document_chunks w1
                 \/ exists r, o = Returns r /\ success r = true)).
  { intros doc e Hb. apply failing_branch in Hb. destruct Hb as (_ & Hr & Hv).
    rewrite Hv. split; [apply grown_refl | left; exact Hr]. }
  destruct (nonempty (ex_error _)); [eapply Hfail; exact H|].
  destruct (negb (ChunkingService.nonblank _)); [eapply Hfail; exact H|].
  destruct (ChunkingService.chunk_document _ _ _ _ _) as [|c0 cs]; [eapply Hfail; exact H|].
  destruct (nonempty (eb_error _)); [eapply Hfail; exact H|].
  destruct (negb (_ =? _)%nat); [eapply Hfail; exact H|].
  clear Hfail. unfold bind at 1 in H.
  match type of H with
  | context [store_add_chunks ?E ?u ?c ?e ?i w1] =>
      destruct (store_add_chunks E u c e i w1) as [[sr|e0] w1'] eqn:Hadd
  end.
  2: { unfold store_add_chunks in Hadd. destruct (add_chunks _ _ _ _ _ _ _). discriminate. }
  assert (Hgrown : grown (vectors w1) (vectors w1') (Document.user_id d)
                   /\ document_chunks w1' = document_chunks w1).
  { unfold store_add_chunks in Hadd.
    destruct (add_chunks _ _ _ _ _ _ _) as [r st] eqn:Ha.
    injection Hadd as <- <-. cbn. split; [|reflexivity].
    eapply add_chunks_grown. exact Ha. }
  destruct Hgrown as [Hg Hrows].
  destruct (negb (add_success sr)).
  { apply failing_branch in H. destruct H as (_ & Hr & Hv).
    rewrite Hv. split; [exact Hg | left; congruence]. }
  destruct (chunk_rows _ _ _) as [rows|].
  2: { injection H as <- <-. split; [exact Hg | left; exact Hrows]. }
  unfold bind, ret in H.
  destruct (commit _ rows w1') as [[u|e] w3] eqn:Hc.
  - injection H as <- <-. apply commit_returns in Hc. destruct Hc as (_ & _ & Hv & _).
    rewrite Hv. split; [exact Hg | right; eauto].
  - injection H as <- <-. apply commit_raises in Hc. destruct Hc as (_ & Hr & Hv & _).
    rewrite Hv. split; [exact Hg | left; congruence].
Qed.

Lemma process_document_effect (E : env) (document_id : Z) (w w' : world)
      (o : outcome result) (d : Document.t) :
  documents w !! document_id = Some d ->
  process_document E document_id w = (o, w') ->
  grown (vectors w) (vectors w') (Document.user_id d)
  /\ (document_chunks w' = document_chunks w
      \/ exists r, o = Returns r /\ success r = true).
Proof.
  intros Hd. unfold process_document. rewrite Hd. unfold bind at 1.
  destruct (commit (Document.mark_processing d) [] w) as [[u|e] w1] eqn:Hc1.
  2: { intros H. injection H as <- <-. apply commit_raises in Hc1.
       destruct Hc1 as (_ & Hr & Hv & _). rewrite Hv.
       split; [apply grown_refl | left; exact Hr]. }
  apply commit_returns in Hc1. destruct Hc1 as (_ & Hr1 & Hv1 & _).
  rewrite app_nil_r in Hr1.
  unfold try_except.
  destruct (process_body E (Document.mark_processing d) w1) as [[r|e] w2] eqn:Hbody;
    apply process_body_effect in Hbody; cbn [Document.user_id Document.mark_processing] in Hbody;
    destruct Hbody as [Hg Hrows]; rewrite Hv1 in Hg.
  - intros H. injection H as <- <-. split; [exact Hg|].
    destruct Hrows as [Hrows|Hs]; [left; congruence | right; exact Hs].
  - intros H. apply failing_branch in H. destruct H as (_ & Hr & Hv).
    rewrite Hv. split; [exact Hg|]. left.
    destruct Hrows as [Hrows|(r & Hr' & _)]; [congruence | discriminate].
Qed.

(** X5: a run of [process_document] that does not return success, whether
    it returns a failure or raises, persists no chunk row. *)
Theorem failed_processing_persists_no_rows
        (E : env) (document_id : Z) (w w' : world) (o : outcome result) :
  process_document E document_id w = (o, w') ->
  (forall r, o = Returns r -> success r = false) ->
  document_chunks w' = document_chunks w.
Proof.
  intros Hrun Hfail.
  destruct (documents w !! document_id) as [d|] eqn:Hd.
  - destruct (process_document_effect E document_id w w' o d Hd Hrun) as [_ [H|(r & Hr & Hs)]];
      [exact H|].
    rewrite (Hfail r Hr) in Hs. discriminate.
  - unfold process_document in Hrun. rewrite Hd in Hrun. injection Hrun as <- <-. reflexivity.
Qed.

Lemma failed_processing_persists_no_rows_witness :
  document_chunks
    (snd (process_document Samples.E0 1
            (Samples.w0 [None; Some "database is locked"%string]))) = [].
Proof.
  apply (failed_processing_persists_no_rows Samples.E0 1
           (Samples.w0 [None; Some "database is locked"%string])
           (snd (process_document Samples.E0 1
                   (Samples.w0 [None; Some "database is locked"%string])))
           (fst (process_document Samples.E0 1
                   (Samples.w0 [None; Some "database is locked"%string])))).
  - vm_compute. reflexivity.
  - vm_compute. intros r Hr. discriminate Hr.
Defined.

(** X6: [process_document] never removes a vector and never touches the
    collection of another user: every collection of before is a prefix of
    the collection of after, and only the collection of the owner of the
    document can differ. *)
Theorem process_document_only_adds_vectors
        (E : env) (document_id : Z) (w w' : world) (o : outcome result) :
  process_document E document_id w = (o, w') ->
  (forall u c, collections (vectors w) !! u = Some c ->
               exists added, collections (vectors w') !! u = Some (c ++ added))
  /\ (forall d u, documents w !! document_id = Some d -> u <> Document.user_id d ->
                  collections (vectors w') !! u = collections (vectors w) !! u).
Proof.
  intros Hrun.
  destruct (documents w !! document_id) as [d|] eqn:Hd.
  - destruct (process_document_effect E document_id w w' o d Hd Hrun) as [[Hother Hown] _].
    split.
    + intros u c Hc. destruct (Z.eq_dec u (Document.user_id d)) as [->|Hne].
      * apply Hown. exact Hc.
      * exists []. rewrite app_nil_r, Hother by exact Hne. exact Hc.
    + intros d' u Hd' Hu. injection Hd' as <-. apply Hother. exact Hu.
  - unfold process_document in Hrun. rewrite Hd in Hrun. injection Hrun as <- <-.
    split; [|discriminate].
    intros u c Hc. exists []. rewrite app_nil_r. exact Hc.
Qed.

Lemma process_document_only_adds_vectors_witness :
  collections (vectors (snd (process_document Samples.E0 1 (Samples.w0 [])))) !! 3
  = collections (vectors (Samples.w0 [])) !! 3.
Proof.
  apply (proj2 (process_document_only_adds_vectors Samples.E0 1 (Samples.w0 [])
                  (snd (process_document Samples.E0 1 (Samples.w0 [])))
                  (fst (process_document Samples.E0 1 (Samples.w0 [])))
                  ltac:(vm_compute; reflexivity))
               Samples.doc1 3);
    [reflexivity | discriminate].
Defined.

(** X7: every chunk [retrieve_context] returns has a similarity of at
    least the minimum score asked for, or of the settings when none is
    given. *)
Theorem retrieve_context_meets_min_score
        (E : env) (w : world) (user : Z) (query_text : string) (top_k : option Z)
        (min_score : option QArith_base.Q) (document_ids : option (list Z))
        (model_provider : option string) :
  List.Forall
    (fun r => QArith_base.Qle_bool
                (default (rag_min_similarity_score (get_settings E)) min_score)
                (r_similarity r) = true)
    (retrieve_context E w user query_text top_k min_score document_ids model_provider).
Proof.
  unfold retrieve_context.
  destruct (negb (is_enabled E)); [constructor|].
  destruct (nonempty (eo_error _)); [constructor|].
  destruct (eo_embedding _) as [[|x v]|]; try constructor.
  destruct (nonempty (VectorStore.error _)); [constructor|].
  apply List.Forall_forall. intros r Hr.
  apply in_map_iff in Hr. destruct Hr as (h & <- & Hh).
  apply List.filter_In in Hh. destruct Hh as [_ Hh]. exact Hh.
Qed.

(** X8: [upload_and_process] never succeeds and never processes anything:
    whatever the file, it returns success False without a document id, and
    the documents, the chunk rows and the vector store are as before. *)
Theorem upload_and_process_never_succeeds
        (E : env) (user : Z) (file : option upload) (project_id : option Z) (w : world) :
  exists r w',
    upload_and_process E user file project_id w = (Returns r, w')
    /\ u_success r = false
    /\ u_document_id r = None
    /\ documents w' = documents w
    /\ document_chunks w' = document_chunks w
    /\ vectors w' = vectors w.
Proof.
  destruct (UploadProps.save_uploaded_document_refused E user file project_id w)
    as (e & w' & Hsave & Hd & Hr & Hv).
  eexists _, w'. unfold upload_and_process, bind. rewrite Hsave. cbn. auto 10.
Qed.

End IngestionExtras.

(** ** Provider adapter: what the events say *)
Module AdapterExtras.
Import Py AIService AdapterSpec AdapterProps.

(** The text of the content events of a list of events, in order. *)
Fixpoint said (events : list event) : string :=
  match events with
  | [] => ""
  | EContent c :: rest => c ++ said rest
  | _ :: rest => said rest
  end.

Lemma append_assoc (a b c : string) : ((a ++ b) ++ c)%string = (a ++ b ++ c)%string.
Proof.
  induction a as [|x a IH]; [reflexivity|].
  change (String x ((a ++ b) ++ c) = String x (a ++ b ++ c))%string. f_equal. exact IH.
Qed.

Lemma said_app (xs ys : list event) : said (xs ++ ys) = (said xs ++ said ys)%string.
Proof.
  induction xs as [|[c| |] xs IH]; cbn; [reflexivity | | exact IH | exact IH].
  rewrite IH. symmetry. apply append_assoc.
Qed.

Lemma append_empty_r (s : string) : (s ++ "")%string = s.
Proof.
  induction s as [|c s IH]; [reflexivity|].
  change (String c (s ++ "") = String c s)%string. f_equal. exact IH.
Qed.

(** A step appends to the text so far exactly what it yields. *)
Definition extends (a : acc) (s : step) : Prop :=
  match s with
  | Next a' y | Break a' y => full a' = (full a ++ said (emitted y))%string
  | Raise _ _ => True
  end.

Lemma for_each_said {X : Type} (body : acc -> X -> step) (xs : list X) (raises : option exn) :
  (forall a x, extends a (body a x)) ->
  forall a events a',
    for_each body xs raises a = (events, Ok a') ->
    full a' = (full a ++ said events)%string.
Proof.
  intros Hbody. induction xs as [|x xs IH]; intros a events a'; cbn.
  - destruct raises; intros H; inversion H; subst. cbn. symmetry. apply append_empty_r.
  - specialize (Hbody a x). destruct (body a x) as [a1 y|a1 y|y e]; cbn in Hbody.
    + destruct (for_each body xs raises a1) as [events1 r] eqn:Hrest.
      intros H. inversion H; subst. rewrite (IH _ _ _ Hrest), Hbody, said_app.
      apply append_assoc.
    + intros H. inversion H; subst. exact Hbody.
    + discriminate.
Qed.

Lemma extends_next (a : acc) : extends a (Next a None).
Proof. cbn. symmetry. apply append_empty_r. Qed.

Lemma extends_break (a : acc) : extends a (Break a None).
Proof. cbn. symmetry. apply append_empty_r. Qed.

Lemma extends_same (a a' : acc) : full a' = full a -> extends a (Next a' None).
Proof. cbn. intros ->. symmetry. apply append_empty_r. Qed.

#[local] Hint Resolve extends_next extends_break : adapter.

Lemma usage_of_chunk_full (E : env) (v : value) (a a1 : acc) :
  usage_of_chunk E v a = Ok a1 -> full a1 = full a.
Proof.
  unfold usage_of_chunk. intros H. bind_inv H has_usage.
  destruct has_usage; [|inversion H; reflexivity].
  bind_inv H u. destruct (truthy (interp E) u); [|inversion H; reflexivity].
  bind_inv H i. bind_inv H o. bind_inv H t. inversion H; reflexivity.
Qed.

Lemma append_and_yield_extends (a : acc) (c : value) (s : step) :
  append_and_yield a c = Ok s -> extends a s.
Proof.
  unfold append_and_yield. intros H. bind_inv H full_content. inversion H; subst; clear H.
  destruct c; try discriminate. cbn in *. inversion Hfull_content; subst.
  now rewrite append_empty_r.
Qed.

Lemma extends_from (a a1 : acc) (s : step) :
  full a1 = full a -> extends a1 s -> extends a s.
Proof.
  intros Hf H. destruct s; cbn in *; [rewrite <- Hf; exact H | rewrite <- Hf; exact H | exact I].
Qed.

Lemma openai_chunk_extends (E : env) (a : acc) (v : value) (s : step) :
  openai_chunk E a v = Ok s -> extends a s.
Proof.
  unfold openai_chunk. intros H. bind_inv H a1. bind_inv H delta.
  apply usage_of_chunk_full in Ha1.
  destruct delta as [d|]; [|inversion H; apply extends_same; exact Ha1].
  bind_inv H c. destruct (truthy (interp E) c).
  - eapply extends_from; [exact Ha1 | eapply append_and_yield_extends; exact H].
  - inversion H; apply extends_same; exact Ha1.
Qed.

Lemma compatible_chunk_extends (E : env) (a : acc) (v : value) (s : step) :
  compatible_chunk E a v = Ok s -> extends a s.
Proof.
  unfold compatible_chunk. intros H. bind_inv H a1. bind_inv H delta.
  apply usage_of_chunk_full in Ha1.
  destruct delta as [d|]; [|inversion H; apply extends_same; exact Ha1].
  bind_inv H has_content. destruct has_content.
  - bind_inv H c. eapply extends_from; [exact Ha1 | eapply append_and_yield_extends; exact H].
  - inversion H; apply extends_same; exact Ha1.
Qed.

Lemma anthropic_event_extends (E : env) (a : acc) (v : value) (s : step) :
  anthropic_event E a v = Ok s -> extends a s.
Proof.
  unfold anthropic_event. intros H. bind_inv H event_type.
  destruct (is_str event_type "content_block_delta").
  { bind_inv H delta. bind_inv H delta_type. destruct (is_str delta_type "text_delta").
    - bind_inv H c. eapply append_and_yield_extends; exact H.
    - inversion H; auto with adapter. }
  destruct (is_str event_type "message_delta").
  { bind_inv H u. destruct (truthy (interp E) u); [|inversion H; auto with adapter].
    bind_inv H out. destruct (usage_so_far a).
    - bind_inv H total. inversion H; apply extends_same; reflexivity.
    - inversion H; apply extends_same; reflexivity. }
  destruct (is_str event_type "message_start").
  { bind_inv H message. bind_inv H u.
    destruct (truthy (interp E) u); [|inversion H; auto with adapter].
    bind_inv H inp. inversion H; apply extends_same; reflexivity. }
  destruct (is_str event_type "message_stop"); inversion H; auto with adapter.
Qed.

Lemma parsed_extends (E : env) (a : acc) (data_str : string) (handle : value -> res step) :
  (forall v s, handle v = Ok s -> extends a s) ->
  extends a (parsed E a data_str handle).
Proof.
  intros H. unfold parsed.
  destruct (json_loads (interp E) data_str) as [v|[]]; cbn; auto with adapter;
    try (symmetry; apply append_empty_r).
  destruct (handle v) as [s|e] eqn:Hh; cbn; [apply (H v s Hh) | exact I].
Qed.

Lemma sse_line_extends (E : env) (handle : acc -> value -> res step) :
  (forall a v s, handle a v = Ok s -> extends a s) ->
  forall a l, extends a (sse_line E handle a l).
Proof.
  intros H a [line_text|]; unfold sse_line; [|exact I].
  destruct (nonempty_str line_text); auto with adapter.
  destruct (data_of line_text) as [data_str|]; auto with adapter.
  destruct (String.eqb data_str "[DONE]"); auto with adapter.
  apply parsed_extends. apply H.
Qed.

Lemma anthropic_line_extends (E : env) (a : acc) (l : line) :
  extends a (anthropic_line E a l).
Proof.
  destruct l as [line_text|]; unfold anthropic_line; [|exact I].
  destruct (nonempty_str line_text); auto with adapter.
  destruct (data_of line_text) as [data_str|]; auto with adapter.
  apply parsed_extends. intros v s. apply anthropic_event_extends.
Qed.

Lemma ollama_line_extends (E : env) (a : acc) (l : line) :
  extends a (ollama_line E a l).
Proof.
  destruct l as [line_text|]; unfold ollama_line; [|exact I].
  destruct (nonempty_str line_text); auto with adapter.
  destruct (json_loads (interp E) line_text) as [v|[]]; cbn; auto with adapter;
    try (symmetry; apply append_empty_r).
  destruct (ollama_content a v) as [[a1 y]|e] eqn:Hc; [|exact I].
  assert (Hfull : full a1 = (full a ++ said (emitted y))%string).
  { unfold ollama_content in Hc. bind_inv Hc has_message.
    destruct has_message; [|inversion Hc; subst; cbn; symmetry; apply append_empty_r].
    bind_inv Hc message. bind_inv Hc has_content.
    destruct has_content; [|inversion Hc; subst; cbn; symmetry; apply append_empty_r].
    bind_inv Hc c. bind_inv Hc full_content. inversion Hc; subst; clear Hc.
    destruct c; try discriminate. cbn in *. inversion Hfull_content; subst.
    now rewrite append_empty_r. }
  destruct (ollama_done E a1 v) as [[done a2]|e] eqn:Hd; [|exact I].
  assert (Hfull2 : full a2 = full a1).
  { unfold ollama_done in Hd. bind_inv Hd done_flag.
    destruct (truthy (interp E) done_flag); [|inversion Hd; reflexivity].
    bind_inv Hd prompt_tokens. bind_inv Hd out.
    destruct (truthy (interp E) prompt_tokens || truthy (interp E) out)%bool;
      [|inversion Hd; reflexivity].
    bind_inv Hd total. inversion Hd; reflexivity. }
  destruct done; cbn; rewrite Hfull2; exact Hfull.
Qed.

Lemma gemini_chunk_step_extends (a : acc) (chunk : gemini_chunk) :
  extends a (gemini_chunk_step a chunk).
Proof.
  unfold gemini_chunk_step. destruct (chunk_text chunk) as [[t|]|e]; auto with adapter;
    [|exact I].
  destruct (nonempty_str t); auto with adapter.
  cbn. now rewrite append_empty_r.
Qed.

(** The done event of a run, if the run ends in one, carries the text of
    the content events before it. *)
Definition faithful (run : gen) : Prop :=
  forall contents full_content usage_data,
    fst run = contents ++ [EDone full_content usage_data] ->
    full_content = said contents.

Lemma faithful_error (events : list event) (m : string) (o : option exn) :
  faithful (events ++ [EError m], o).
Proof.
  intros contents f u H. cbn in H. apply app_inj_tail in H. destruct H as [_ H]. discriminate.
Qed.

Lemma faithful_single_error (m : string) (o : option exn) : faithful ([EError m], o).
Proof. apply (faithful_error [] m o). Qed.

Lemma http_try_faithful (E : env) (req : request) (body : acc -> line -> step)
      (finish : acc -> res (option usage)) :
  (forall a l, yields_content (body a l)) ->
  (forall a l, extends a (body a l)) ->
  faithful (http_try E req body finish).
Proof.
  intros Hc He. pose proof (http_try_well_run E req body finish Hc) as Hw.
  unfold http_try in *.
  destruct (post E req) as [e|r]; [intros cs f u H; destruct cs; discriminate|].
  destruct (raise_for_status r); [intros cs f u H; destruct cs; discriminate|].
  destruct (for_each body (lines r) (lines_raise r) start) as [events [a|e]] eqn:Hloop.
  - destruct (finish a) as [ud|e].
    + intros cs f u H. cbn in H. apply app_inj_tail in H. destruct H as [<- H].
      inversion H; subst. rewrite (for_each_said body _ _ He _ _ _ Hloop). reflexivity.
    + cbn in Hw. intros cs f u H. cbn in H. subst events.
      apply Forall_app in Hw. destruct Hw as [_ Hw]. inversion Hw; subst. discriminate.
  - cbn in Hw. intros cs f u H. cbn in H. subst events.
    apply Forall_app in Hw. destruct Hw as [_ Hw]. inversion Hw; subst. discriminate.
Qed.

Lemma handled_faithful (E : env) (texts : error_texts) (run : gen) :
  faithful run -> faithful (handled E texts run).
Proof.
  destruct run as [events [e|]]; cbn; intros H; [|exact H].
  destruct e; apply faithful_error.
Qed.


Lemma dispatch_faithful (E : env) messages provider model_name user_id upload_folder vision :
  faithful (dispatch E messages provider model_name user_id upload_folder vision).
Proof.
  unfold dispatch.
  destruct (String.eqb provider "gemini").
  { unfold _get_gemini_response_stream.
    destruct (_get_user_api_key E "gemini" user_id); [|apply faithful_single_error].
    match goal with |- context [generate_content_stream E ?r] =>
      set (stream := generate_content_stream E r) end.
    destruct (client_raises stream); [apply faithful_single_error|].
    destruct (for_each gemini_chunk_step (chunks stream) (chunks_raise stream) start)
      as [events [a|e]] eqn:Hloop; [|apply faithful_error].
    intros cs f u H. cbn in H. apply app_inj_tail in H. destruct H as [<- H].
    inversion H; subst.
    rewrite (for_each_said gemini_chunk_step _ _ gemini_chunk_step_extends _ _ _ Hloop).
    reflexivity. }
  destruct (String.eqb provider "openai").
  { unfold _get_openai_response_stream.
    destruct (_get_user_api_key E "openai" user_id); [|apply faithful_single_error].
    match goal with |- context [match ?b with Ok _ => _ | Err _ => _ end] =>
      destruct b as [[]|] end.
    - apply faithful_single_error.
    - apply handled_faithful, http_try_faithful;
        [apply sse_line_content; intros a v st; apply openai_chunk_content
        |apply sse_line_extends; intros a v st; apply openai_chunk_extends].
    - intros cs f u H. destruct cs; discriminate. }
  destruct (String.eqb provider "anthropic").
  { unfold _get_anthropic_response_stream.
    destruct (_get_user_api_key E "anthropic" user_id); [|apply faithful_single_error].
    apply handled_faithful, http_try_faithful;
      [apply anthropic_line_content | apply anthropic_line_extends]. }
  destruct (String.eqb provider "xai").
  { unfold _get_grok_response_stream.
    destruct (_get_user_api_key E "xai" user_id); [|apply faithful_single_error].
    apply handled_faithful, http_try_faithful;
      [apply sse_line_content; intros a v st; apply compatible_chunk_content
      |apply sse_line_extends; intros a v st; apply compatible_chunk_extends]. }
  destruct (String.eqb provider "lmstudio").
  { unfold _get_lmstudio_response_stream.
    destruct (has_image_attachment messages && negb vision)%bool;
      [apply faithful_single_error|].
    apply handled_faithful, http_try_faithful;
      [apply sse_line_content; intros a v st; apply compatible_chunk_content
      |apply sse_line_extends; intros a v st; apply compatible_chunk_extends]. }
  destruct (String.eqb provider "ollama").
  { unfold _get_ollama_response_stream.
    destruct (has_image_attachment messages && negb vision)%bool;
      [apply faithful_single_error|].
    apply handled_faithful, http_try_faithful;
      [apply ollama_line_content | apply ollama_line_extends]. }
  apply faithful_single_error.
Qed.

(** X9: when the stream of [get_response_stream] ends in a done event,
    its [full_content] is the concatenation, in order, of the contents of
    the content events yielded before it. *)
Theorem done_carries_the_streamed_text
        (E : env) (messages : list message) (provider : string) (model_name : option string)
        (user_id : option Z) (upload_folder : string)
        (rag_context age_system_prompt : option string) (local_vision_enabled : bool)
        (contents : list event) (full_content : string) (usage_data : option usage) :
  get_response_stream E messages provider model_name user_id upload_folder
                      rag_context age_system_prompt local_vision_enabled
  = contents ++ [EDone full_content usage_data] ->
  full_content = said contents.
Proof.
  unfold get_response_stream.
  pose proof (dispatch_faithful E (injected messages rag_context age_system_prompt)
                (normalized provider) model_name user_id upload_folder local_vision_enabled)
    as Hf.
  destruct (dispatch E _ _ _ _ _ _) as [events [e|]]; intros H.
  - apply app_inj_tail in H. destruct H as [_ H]. discriminate.
  - apply (Hf contents full_content usage_data). exact H.
Qed.


Lemma done_carries_the_streamed_text_witness :
  "Hello"%string = said [EContent "Hel"; EContent "lo"].
Proof.
  apply (done_carries_the_streamed_text AdapterSamples.sample_adapter AdapterSamples.hello
           "openai" None None "uploads" None None false
           [EContent "Hel"; EContent "lo"] "Hello" None).
  vm_compute. reflexivity.
Defined.

(** X10: in the loop over the lines of an OpenAI-compatible stream
    (OpenAI, xAI, LM Studio) the line [data: [DONE]] ends the reading:
    whatever lines follow it, and whether the iterator would raise after
    them, the events and the variables of the loop are the same. *)
Theorem nothing_after_done_is_read
        (E : env) (handle : acc -> value -> res step) (before after : list line)
        (raises : option exn) (a : acc) :
  for_each (sse_line E handle) (before ++ Decoded "data: [DONE]" :: after) raises a
  = for_each (sse_line E handle) (before ++ [Decoded "data: [DONE]"]) None a.
Proof.
  revert a. induction before as [|l before IH]; intros a; [reflexivity|].
  cbn [app for_each]. destruct (sse_line E handle a l) as [a' y|a' y|y e]; [|reflexivity..].
  rewrite IH. reflexivity.
Qed.

(** A line the loop passes over. *)
Definition ignorable (E : env) (l : line) : Prop :=
  exists line_text,
    l = Decoded line_text
    /\ (line_text = ""%string
        \/ data_of line_text = None
        \/ exists data_str m,
             data_of line_text = Some data_str
             /\ data_str <> "[DONE]"%string
             /\ json_loads (interp E) data_str = Err (JSONDecodeError m)).

Lemma ignorable_next (E : env) (handle : acc -> value -> res step) (l : line) (a : acc) :
  ignorable E l -> sse_line E handle a l = Next a None.
Proof.
  intros (line_text & -> & [->|[Hd|(data_str & m & Hd & Hne & Hj)]]); unfold sse_line.
  - reflexivity.
  - destruct (nonempty_str line_text); [rewrite Hd|]; reflexivity.
  - destruct (nonempty_str line_text); [|reflexivity]. rewrite Hd.
    destruct (String.eqb_spec data_str "[DONE]"); [contradiction|].
    unfold parsed. rewrite Hj. reflexivity.
Qed.

(** X11: in that loop an empty line, a line that does not start with
    [data: ], and a data line whose JSON does not parse are passed over:
    taking such a line out of the stream changes neither the events nor the
    variables of the loop. *)
Theorem unreadable_lines_are_skipped
        (E : env) (handle : acc -> value -> res step) (before after : list line)
        (l : line) (raises : option exn) (a : acc) :
  ignorable E l ->
  for_each (sse_line E handle) (before ++ l :: after) raises a
  = for_each (sse_line E handle) (before ++ after) raises a.
Proof.
  intros Hl. revert a. induction before as [|x before IH]; intros a.
  - cbn [app for_each]. rewrite (ignorable_next E handle l a Hl).
    destruct (for_each (sse_line E handle) after raises a). reflexivity.
  - cbn [app for_each]. destruct (sse_line E handle a x) as [a' y|a' y|y e]; [|reflexivity..].
    rewrite IH. reflexivity.
Qed.

Lemma unreadable_lines_are_skipped_witness :
  for_each (sse_line AdapterSamples.sample_adapter (openai_chunk AdapterSamples.sample_adapter))
           ([Decoded "data: A"] ++ Decoded "data: ?" :: [Decoded "data: B"]) None start
  = for_each (sse_line AdapterSamples.sample_adapter (openai_chunk AdapterSamples.sample_adapter))
             ([Decoded "data: A"] ++ [Decoded "data: B"]) None start.
Proof.
  apply unreadable_lines_are_skipped.
  exists "data: ?"%string. split; [reflexivity|]. right. right.
  exists "?"%string, "Expecting value"%string.
  split; [reflexivity|]. split; [discriminate | reflexivity].
Defined.

(** X12: for the four hosted providers, when no system key is stored for
    the provider the stream is one error event saying that the key is not
    configured; no request is made. *)
Theorem missing_key_is_one_error_event
        (E : env) (messages : list message) (provider : string) (model_name : option string)
        (user_id : option Z) (upload_folder : string)
        (rag_context age_system_prompt : option string) (local_vision_enabled : bool) :
  In (normalized provider) ["gemini"; "openai"; "anthropic"; "xai"]%string ->
  AdminSettings.get_system_api_key (lib E) (cipher E) (table E) (normalized provider)
  = ""%string ->
  exists name,
    In name ["Gemini"; "OpenAI"; "Anthropic"; "xAI"]%string
    /\ get_response_stream E messages provider model_name user_id upload_folder
                           rag_context age_system_prompt local_vision_enabled
       = [EError (name ++ " API key not configured. Please add your API key in your application settings.")].
Proof.
  intros Hin Hkey. unfold get_response_stream, dispatch.
  cbn in Hin. destruct Hin as [Hp|[Hp|[Hp|[Hp|[]]]]]; rewrite <- Hp in *; cbn [String.eqb].
  - exists "Gemini"%string. split; [cbn; auto|].
    unfold _get_gemini_response_stream, _get_user_api_key. rewrite Hkey. reflexivity.
  - exists "OpenAI"%string. split; [cbn; auto|].
    change (String.eqb "openai" "gemini") with false. cbv iota.
    change (String.eqb "openai" "openai") with true. cbv iota.
    unfold _get_openai_response_stream, _get_user_api_key. rewrite Hkey. reflexivity.
  - exists "Anthropic"%string. split; [cbn; auto|].
    change (String.eqb "anthropic" "gemini") with false.
    change (String.eqb "anthropic" "openai") with false.
    change (String.eqb "anthropic" "anthropic") with true. cbv iota.
    unfold _get_anthropic_response_stream, _get_user_api_key. rewrite Hkey. reflexivity.
  - exists "xAI"%string. split; [cbn; auto|].
    change (String.eqb "xai" "gemini") with false.
    change (String.eqb "xai" "openai") with false.
    change (String.eqb "xai" "anthropic") with false.
    change (String.eqb "xai" "xai") with true. cbv iota.
    unfold _get_grok_response_stream, _get_user_api_key. rewrite Hkey. reflexivity.
Qed.

Lemma missing_key_is_one_error_event_witness :
  exists name,
    get_response_stream AdapterSamples.sample_adapter AdapterSamples.hello "Gemini" None None
                        "uploads" None None false
    = [EError (name ++ " API key not configured. Please add your API key in your application settings.")].
Proof.
  destruct (missing_key_is_one_error_event AdapterSamples.sample_adapter AdapterSamples.hello
              "Gemini" None None "uploads" None None false) as (name & _ & H);
    [vm_compute; auto | vm_compute; reflexivity |].
  exists name. exact H.
Defined.


(** X13: a provider name that, lowered and with [lm_studio] read as
    [lmstudio], is none of the six known ones gives one error event naming
    the provider as normalized. *)
Theorem unknown_provider_is_one_error_event
        (E : env) (messages : list message) (provider : string) (model_name : option string)
        (user_id : option Z) (upload_folder : string)
        (rag_context age_system_prompt : option string) (local_vision_enabled : bool) :
  ~ In (normalized provider)
       ["gemini"; "openai"; "anthropic"; "xai"; "lmstudio"; "ollama"]%string ->
  get_response_stream E messages provider model_name user_id upload_folder
                      rag_context age_system_prompt local_vision_enabled
  = [EError ("Unknown provider: " ++ normalized provider)].
Proof.
  intros Hno. unfold get_response_stream, dispatch.
  repeat match goal with
         | |- context [String.eqb (normalized provider) ?name] =>
             destruct (String.eqb_spec (normalized provider) name) as [Heq|_];
             [exfalso; apply Hno; rewrite Heq; cbn; auto 10|]
         end.
  reflexivity.
Qed.

Lemma unknown_provider_is_one_error_event_witness :
  get_response_stream AdapterSamples.sample_adapter AdapterSamples.hello "Mistral" None None
                      "uploads" None None false
  = [EError "Unknown provider: mistral"].
Proof.
  apply (unknown_provider_is_one_error_event AdapterSamples.sample_adapter AdapterSamples.hello
           "Mistral" None None "uploads" None None false).
  vm_compute. intros H. repeat (destruct H as [H|H]; [discriminate H|]). exact H.
Defined.

Lemma has_image_attachment_injected (messages : list message)
      (rag_context age_system_prompt : option string) :
  has_image_attachment (injected messages rag_context age_system_prompt)
  = has_image_attachment messages.
Proof.
  unfold injected.
  destruct age_system_prompt as [[|c p]|], rag_context as [[|c' r]|]; reflexivity.
Qed.

(** X14: for the local providers, LM Studio and Ollama, a history with an
    image attachment and the vision toggle off gives one error event asking
    to enable vision; no request is made. *)
Theorem local_models_refuse_images_without_vision
        (E : env) (messages : list message) (provider : string) (model_name : option string)
        (user_id : option Z) (upload_folder : string)
        (rag_context age_system_prompt : option string) :
  In (normalized provider) ["lmstudio"; "ollama"]%string ->
  has_image_attachment messages = true ->
  get_response_stream E messages provider model_name user_id upload_folder
                      rag_context age_system_prompt false
  = [EError VISION_OFF].
Proof.
  intros Hin Himg. unfold get_response_stream, dispatch.
  cbn in Hin. destruct Hin as [Hp|[Hp|[]]]; rewrite <- Hp.
  - change (String.eqb "lmstudio" "gemini") with false.
    change (String.eqb "lmstudio" "openai") with false.
    change (String.eqb "lmstudio" "anthropic") with false.
    change (String.eqb "lmstudio" "xai") with false.
    change (String.eqb "lmstudio" "lmstudio") with true. cbv iota.
    unfold _get_lmstudio_response_stream.
    rewrite has_image_attachment_injected, Himg. reflexivity.
  - change (String.eqb "ollama" "gemini") with false.
    change (String.eqb "ollama" "openai") with false.
    change (String.eqb "ollama" "anthropic") with false.
    change (String.eqb "ollama" "xai") with false.
    change (String.eqb "ollama" "lmstudio") with false.
    change (String.eqb "ollama" "ollama") with true. cbv iota.
    unfold _get_ollama_response_stream.
    rewrite has_image_attachment_injected, Himg. reflexivity.
Qed.

Definition with_photo : list message :=
  [{| role := "user"; content := "what is this?";
      attachments := [{| att_file_path := "a.png"; att_mime_type := "image/png";
                         att_file_type := "image"; att_original_filename := "a.png" |}] |}].

Lemma local_models_refuse_images_without_vision_witness :
  get_response_stream AdapterSamples.sample_adapter with_photo "LM_Studio" None None
                      "uploads" None None false
  = [EError VISION_OFF].
Proof.
  apply (local_models_refuse_images_without_vision AdapterSamples.sample_adapter with_photo
           "LM_Studio" None None "uploads" None None);
    [vm_compute; auto | reflexivity].
Defined.

Definition is_text_part (p : part) : bool :=
  match p with Text _ => true | _ => false end.

(** X15: with the vision toggle off no image is sent to a local model:
    the LM Studio message consists of text only, and the Ollama message has
    no images. *)
Theorem no_image_is_sent_without_vision
        (F : files) (upload_folder : string) (msg : message) :
  match wire_body (lmstudio_message F upload_folder false msg) with
  | Plain _ => True
  | Parts parts => List.Forall (fun p => is_text_part p = true) parts
  end
  /\ wire_images (lmstudio_message F upload_folder false msg) = []
  /\ wire_images (ollama_message F upload_folder false msg) = [].
Proof.
  assert (Hparts : List.Forall (fun p => is_text_part p = true)
                     (content_parts F upload_folder (fun _ _ => None) msg)).
  { unfold content_parts. apply Forall_app. split.
    - destruct (nonempty_str (content msg)); repeat constructor.
    - induction (attachments msg) as [|a l IH]; [constructor|].
      cbn. apply Forall_app. split; [|exact IH].
      destruct (_get_attachment_content F a upload_folder) as [[]|]; repeat constructor. }
  split; [|split].
  - unfold lmstudio_message. cbn [wire_body].
    destruct (content_parts F upload_folder (fun _ _ => None) msg) as [|[] [|]]; auto.
  - reflexivity.
  - unfold ollama_message. cbn [wire_images].
    induction (attachments msg) as [|a l IH]; [reflexivity|].
    cbn. rewrite IH. destruct (_get_attachment_content F a upload_folder) as [[]|]; reflexivity.
Qed.

(** X16: the Anthropic request takes its system parameter from the last
    system message only.  With an age-based prompt and a document context
    both injected in front of a history without system messages, the
    parameter is the age-based prompt, and the messages sent are those of
    the history: the document context is not sent. *)
Theorem anthropic_keeps_the_last_system_message
        (history : list message) (rag_context age_system_prompt : string) :
  rag_context <> ""%string ->
  age_system_prompt <> ""%string ->
  List.Forall (fun m => String.eqb (role m) "system" = false) history ->
  anthropic_system (injected history (Some rag_context) (Some age_system_prompt))
  = Some age_system_prompt
  /\ List.filter (fun m => negb (String.eqb (role m) "system"))
                 (injected history (Some rag_context) (Some age_system_prompt))
     = history.
Proof.
  intros Hr Ha Hh. unfold injected.
  destruct rag_context; [contradiction|]. destruct age_system_prompt; [contradiction|].
  cbn [nonempty_str]. split.
  - unfold anthropic_system. cbn [fold_left system_message role content String.eqb].
    change (String.eqb "system" "system") with true. cbv iota.
    generalize (Some (String a0 age_system_prompt)). induction Hh as [|m l Hm _ IH]; intros o.
    + reflexivity.
    + cbn. rewrite Hm. apply IH.
  - cbn. induction Hh as [|m l Hm _ IH]; [reflexivity|].
    cbn. rewrite Hm. cbn. f_equal. exact IH.
Qed.

Lemma anthropic_keeps_the_last_system_message_witness :
  anthropic_system (injected AdapterSamples.hello (Some "CONTEXT"%string)
                             (Some "Be kind."%string))
  = Some "Be kind."%string.
Proof.
  apply (anthropic_keeps_the_last_system_message AdapterSamples.hello "CONTEXT" "Be kind.");
    [discriminate | discriminate | repeat constructor].
Defined.


Lemma text_app (a b : list ascii) : text (a ++ b) = (text a ++ text b)%string.
Proof.
  induction a as [|c a IH]; [reflexivity|].
  change (String c (text (a ++ b)) = String c (text a ++ text b))%string. f_equal. exact IH.
Qed.

(** X17: Gemini gets the system messages as one system instruction, their
    contents joined by a blank line in the order of the list: with both
    prompts injected in front of a history without system messages, the
    document-context prompt, a blank line, and the age-based prompt. *)
Theorem gemini_joins_the_system_messages
        (history : list message) (rag_context age_system_prompt : string) :
  rag_context <> ""%string ->
  age_system_prompt <> ""%string ->
  List.Forall (fun m => String.eqb (role m) "system" = false) history ->
  gemini_system_instruction (injected history (Some rag_context) (Some age_system_prompt))
  = Some (rag_prompt rag_context ++ nl ++ nl ++ age_system_prompt)%string.
Proof.
  intros Hr Ha Hh. unfold injected.
  destruct rag_context as [|r0 rag]; [contradiction|].
  destruct age_system_prompt as [|a0 age]; [contradiction|].
  cbn [nonempty_str]. unfold gemini_system_instruction.
  assert (Hnone : List.filter
                    (fun msg => (String.eqb (role msg) "system" && nonempty_str (content msg))%bool)
                    history = []).
  { induction Hh as [|m l Hm _ IH]; [reflexivity|]. cbn. rewrite Hm. exact IH. }
  cbn [List.filter system_message role content].
  change (String.eqb "system" "system") with true.
  assert (Hp : nonempty_str (rag_prompt (String r0 rag)) = true) by reflexivity.
  rewrite Hp. cbn [andb nonempty_str]. rewrite Hnone.
  cbn [map Str.join content]. rewrite !text_app, !text_chars. reflexivity.
Qed.

Lemma gemini_joins_the_system_messages_witness :
  gemini_system_instruction (injected AdapterSamples.hello (Some "CONTEXT"%string)
                                      (Some "Be kind."%string))
  = Some (rag_prompt "CONTEXT" ++ nl ++ nl ++ "Be kind.")%string.
Proof.
  apply (gemini_joins_the_system_messages AdapterSamples.hello "CONTEXT" "Be kind.");
    [discriminate | discriminate | repeat constructor].
Defined.

(** X18: what [_get_attachment_content] returns for an attachment: nothing
    unless its file exists; an image, with a non-empty encoding and the
    attachment's MIME type and name, only for the file type image; a text
    document only for the file type document with a plain-text or an
    extracted MIME type, and extracted text is never blank. *)
Theorem attachment_content_by_file_type
        (F : files) (a : attachment) (upload_folder : string) (c : attachment_content) :
  _get_attachment_content F a upload_folder = Some c ->
  path_exists F (join_path F upload_folder (att_file_path a)) = true
  /\ match c with
     | Image mime_type base64 filename =>
         att_file_type a = "image"%string
         /\ base64 <> ""%string
         /\ mime_type = att_mime_type a
         /\ filename = att_original_filename a
     | TextDocument mime_type text_content filename =>
         att_file_type a = "document"%string
         /\ filename = att_original_filename a
         /\ ((In (att_mime_type a) PLAIN_TEXT_TYPES /\ mime_type = att_mime_type a)
             \/ (In (att_mime_type a) EXTRACTED_TYPES /\ mime_type = "text/plain"%string
                 /\ ChunkingService.nonblank (chars text_content) = true))
     end.
Proof.
  unfold _get_attachment_content.
  destruct (path_exists F _) eqn:Hex; cbn [negb]; [|discriminate].
  intros H. split; [reflexivity|].
  destruct (String.eqb_spec (att_file_type a) "image") as [Hi|_].
  { unfold _encode_image_to_base64 in H.
    destruct (read_base64 F _) as [b|]; [|discriminate].
    destruct b as [|x b]; [discriminate|]. cbn in H. injection H as <-.
    repeat split; [exact Hi | discriminate]. }
  destruct (String.eqb_spec (att_file_type a) "document") as [Hd|_]; [|discriminate].
  destruct (existsb (String.eqb (att_mime_type a)) PLAIN_TEXT_TYPES) eqn:Hplain.
  { assert (Hin : In (att_mime_type a) PLAIN_TEXT_TYPES).
    { apply existsb_exists in Hplain. destruct Hplain as (x & Hx & He).
      apply String.eqb_eq in He. subst x. exact Hx. }
    destruct (read_text F _ "utf-8") as [t|[| | | |[]|]]; try discriminate.
    - injection H as <-. auto 10.
    - destruct (read_text F _ "latin-1") as [t|]; [|discriminate].
      injection H as <-. auto 10. }
  destruct (existsb (String.eqb (att_mime_type a)) EXTRACTED_TYPES) eqn:Hext; [|discriminate].
  assert (Hin : In (att_mime_type a) EXTRACTED_TYPES).
  { apply existsb_exists in Hext. destruct Hext as (x & Hx & He).
    apply String.eqb_eq in He. subst x. exact Hx. }
  destruct (extract F _ _) as [result|]; [|discriminate].
  destruct (RAGService.nonempty _); [discriminate|].
  destruct (ChunkingService.nonblank _) eqn:Hnb; [|discriminate].
  injection H as <-. auto 10.
Qed.

Definition one_photo : files :=
  {| join_path := fun folder path => (folder ++ "/" ++ path)%string;
     path_exists := fun _ => true;
     read_base64 := fun _ => Some "aGVsbG8="%string;
     read_text := fun _ _ => Err (Exception "binary");
     extract := fun _ _ => Err (Exception "binary") |}.

Lemma attachment_content_by_file_type_witness :
  _get_attachment_content one_photo
    {| att_file_path := "a.png"; att_mime_type := "image/png";
       att_file_type := "image"; att_original_filename := "a.png" |} "uploads"
  = Some (Image "image/png" "aGVsbG8=" "a.png")
  /\ path_exists one_photo (join_path one_photo "uploads" "a.png") = true.
Proof.
  split; [reflexivity|].
  exact (proj1 (attachment_content_by_file_type one_photo
                  {| att_file_path := "a.png"; att_mime_type := "image/png";
                     att_file_type := "image"; att_original_filename := "a.png" |}
                  "uploads" (Image "image/png" "aGVsbG8=" "a.png") eq_refl)).
Defined.

End AdapterExtras.

(** ** The chat routes: ownership, refusals, new chats, history *)
Module RouteExtras.
Import ChatRoute.

Local Open Scope Z_scope.

(** Requests of the two users. *)
Definition alices_question : chat_request :=
  {| message := "  And when?  "; model := "gemini"; local_model_provider := "lmstudio";
     session_id := Some "s-alice"%string; model_name := None; attachments_data := [];
     local_vision_enabled := false |}.

Definition bobs_first_message : chat_request :=
  {| message := "  plan a trip to the sea with me  "; model := "gemini";
     local_model_provider := "lmstudio"; session_id := None; model_name := None;
     attachments_data := []; local_vision_enabled := false |}.

Definition unknown_session : chat_request :=
  {| message := "hello"; model := "gemini"; local_model_provider := "lmstudio";
     session_id := Some "no-such-session"%string; model_name := None;
     attachments_data := []; local_vision_enabled := false |}.

Ltac run_chat H :=
  match goal with
  | |- context [chat ?E ?u ?d ?s = _] =>
      let r := fresh "r" in
      pose (r := chat E u d s);
      assert (H : chat E u d s = r) by reflexivity;
      vm_compute in r; subst r
  end.

Lemma below_next_id (ids : list Z) (i : Z) : In i ids -> i < next_id ids.
Proof.
  unfold next_id. induction ids as [|j ids IH]; cbn [In fold_right]; [tauto|].
  intros [->|Hin]; [lia|]. specialize (IH Hin). lia.
Qed.

Lemma resolve_refusal (E : env) (current_user : User.t) (data : chat_request)
      (message_content model_provider : string) (st : db) (refusal : reply) :
  resolve E current_user data message_content model_provider st = inl refusal ->
  refusal = Json 404 "Session not found".
Proof.
  unfold resolve. intros H.
  destruct (session_id data) as [s|]; [|discriminate].
  destruct (nonempty_str s); [|discriminate].
  destruct (find_chat st s); [discriminate|].
  injection H as <-. reflexivity.
Qed.

Lemma resolve_keeps_messages (E : env) (current_user : User.t) (data : chat_request)
      (message_content model_provider : string) (st st1 : db) (sid : string) (c : Chat.t) :
  resolve E current_user data message_content model_provider st = inr (sid, c, st1) ->
  messages st1 = messages st.
Proof.
  unfold resolve, new_chat. intros H.
  destruct (session_id data) as [s|].
  - destruct (nonempty_str s).
    + destruct (find_chat st s); [|discriminate]. injection H as _ _ <-. reflexivity.
    + injection H as _ _ <-. reflexivity.
  - injection H as _ _ <-. reflexivity.
Qed.

(** X19: [get_history] hands out the messages of a chat to its owner only:
    whenever it answers with messages, the handle names a chat of the
    current user, and the messages are those of that chat. *)
Theorem history_goes_to_the_owner_only
        (current_user : User.t) (sid : option string) (st : db) (ms : list Message.t) :
  get_history current_user sid st = inr ms ->
  exists s c,
    sid = Some s
    /\ find_chat st s = Some c
    /\ Chat.user_id c = User.id current_user
    /\ ms = messages_of st c.
Proof.
  unfold get_history. intros H.
  destruct sid as [s|]; [|discriminate].
  destruct s as [|a s']; [discriminate|].
  destruct (find_chat st (String a s')) as [c|] eqn:Hfind; [|discriminate].
  destruct (Z.eqb_spec (Chat.user_id c) (User.id current_user)) as [Heq|Hne];
    cbn [negb] in H; [|discriminate].
  injection H as <-. exists (String a s'), c. repeat split; assumption.
Qed.

Lemma history_goes_to_the_owner_only_witness :
  get_history ChatRouteProps.alice (Some "s-alice"%string) ChatRouteProps.alices_db
  = inr (messages ChatRouteProps.alices_db)
  /\ exists s c,
      Some "s-alice"%string = Some s
      /\ find_chat ChatRouteProps.alices_db s = Some c
      /\ Chat.user_id c = User.id ChatRouteProps.alice
      /\ messages ChatRouteProps.alices_db = messages_of ChatRouteProps.alices_db c.
Proof.
  assert (H : get_history ChatRouteProps.alice (Some "s-alice"%string) ChatRouteProps.alices_db
              = inr (messages ChatRouteProps.alices_db)) by reflexivity.
  split; [exact H|].
  exact (history_goes_to_the_owner_only _ _ _ _ H).
Defined.

Lemma map_rename_keeps {B : Type} (f : Chat.t -> B) (g : Chat.t -> Chat.t) (l : list Chat.t) :
  (forall x, f (g x) = f x) -> map f (map g l) = map f l.
Proof.
  intros H. rewrite map_map. apply map_ext. exact H.
Qed.

(** X20: [rename_chat] answers 200 to the owner of the chat only; any
    other answer leaves the tables as they were; and a rename touches no
    message, no owner and no session handle. *)
Theorem rename_chat_is_the_owners
        (current_user : User.t) (sid new_name : string) (st st' : db) (r : Z * string) :
  rename_chat current_user sid new_name st = (r, st') ->
  (fst r = 200 ->
   exists c, find_chat st sid = Some c
             /\ Chat.user_id c = User.id current_user
             /\ find_chat st' sid
                = Some {| Chat.id := Chat.id c; Chat.session_id := Chat.session_id c;
                          Chat.name := text (Str.strip (chars new_name));
                          Chat.user_id := Chat.user_id c;
                          Chat.model_provider := Chat.model_provider c;
                          Chat.model_name := Chat.model_name c |})
  /\ (fst r <> 200 -> st' = st)
  /\ messages st' = messages st
  /\ map Chat.user_id (chats st') = map Chat.user_id (chats st)
  /\ map Chat.session_id (chats st') = map Chat.session_id (chats st).
Proof.
  unfold rename_chat. intros H.
  destruct (find_chat st sid) as [c|] eqn:Hfind.
  2:{ injection H as <- <-. cbn. repeat split; try reflexivity. discriminate. }
  destruct (Z.eqb_spec (Chat.user_id c) (User.id current_user)) as [Heq|Hne]; cbn [negb] in H.
  2:{ injection H as <- <-. cbn. repeat split; try reflexivity. discriminate. }
  destruct (nonempty_str (text (Str.strip (chars new_name)))); cbn [negb] in H.
  2:{ injection H as <- <-. cbn. repeat split; try reflexivity. discriminate. }
  injection H as <- <-. cbn [fst chats messages].
  split; [|split; [|split; [|split]]].
  - intros _. exists c. split; [reflexivity|]. split; [exact Heq|].
    unfold find_chat in *. cbn [chats].
    set (g := fun x : Chat.t => if Chat.id x =? Chat.id c then _ else x).
    revert Hfind. induction (chats st) as [|x l IH]; cbn [List.find map]; [discriminate|].
    assert (Hg : Chat.session_id (g x) = Chat.session_id x).
    { unfold g. destruct (Chat.id x =? Chat.id c); reflexivity. }
    rewrite Hg. destruct (String.eqb (Chat.session_id x) sid).
    + intros Hx. injection Hx as ->. unfold g. rewrite Z.eqb_refl. reflexivity.
    + exact IH.
  - intros Hne. contradiction Hne. reflexivity.
  - reflexivity.
  - apply map_rename_keeps. intros x. destruct (Chat.id x =? Chat.id c); reflexivity.
  - apply map_rename_keeps. intros x. destruct (Chat.id x =? Chat.id c); reflexivity.
Qed.

Lemma rename_chat_is_the_owners_witness :
  exists st',
    rename_chat ChatRouteProps.alice "s-alice" "  Summer  " ChatRouteProps.alices_db
    = ((200, "Chat renamed"%string), st')
    /\ exists c,
        find_chat ChatRouteProps.alices_db "s-alice" = Some c
        /\ Chat.user_id c = User.id ChatRouteProps.alice
        /\ find_chat st' "s-alice"
           = Some {| Chat.id := Chat.id c; Chat.session_id := Chat.session_id c;
                     Chat.name := text (Str.strip (chars "  Summer  "));
                     Chat.user_id := Chat.user_id c;
                     Chat.model_provider := Chat.model_provider c;
                     Chat.model_name := Chat.model_name c |}.
Proof.
  pose (r := rename_chat ChatRouteProps.alice "s-alice" "  Summer  " ChatRouteProps.alices_db).
  assert (H : rename_chat ChatRouteProps.alice "s-alice" "  Summer  " ChatRouteProps.alices_db
              = r) by reflexivity.
  vm_compute in r. subst r. eexists. split; [exact H|].
  exact (proj1 (rename_chat_is_the_owners _ _ _ _ _ _ H) eq_refl).
Defined.

(** X21: a chat request that is refused persists nothing, and the only
    refusals are 400 (neither message nor attachments) and 404 (unknown
    session handle). *)
Theorem chat_refusal_persists_nothing
        (E : env) (current_user : User.t) (data : chat_request) (st st' : db)
        (status : Z) (error : string) :
  chat E current_user data st = (Json status error, st') ->
  st' = st /\ (status = 400 \/ status = 404).
Proof.
  unfold chat. intros H.
  destruct (negb (nonempty_str (text (Str.strip (chars (message data)))))
            && match attachments_data data with [] => true | _ => false end)%bool.
  { injection H as <- _ <-. split; [reflexivity | left; reflexivity]. }
  match type of H with
  | context [resolve ?r1 ?r2 ?r3 ?r4 ?r5 ?r6] => destruct (resolve r1 r2 r3 r4 r5 r6) as [refusal|[[sid c] st1]] eqn:Hres
  end.
  - apply resolve_refusal in Hres. subst refusal.
    injection H as <- _ <-. split; [reflexivity | right; reflexivity].
  - discriminate.
Qed.

Lemma chat_refusal_persists_nothing_witness :
  chat ChatRouteProps.bare_env ChatRouteProps.bob
       unknown_session ChatRouteProps.alices_db
  = (Json 404 "Session not found", ChatRouteProps.alices_db)
  /\ (ChatRouteProps.alices_db = ChatRouteProps.alices_db /\ ((404 : Z) = 400 \/ (404 : Z) = 404)).
Proof.
  run_chat H. split; [exact H|].
  exact (chat_refusal_persists_nothing _ _ _ _ _ _ _ H).
Defined.

(** The request carries no session handle. *)
Definition no_session (data : chat_request) : Prop :=
  session_id data = None \/ session_id data = Some ""%string.

(** X22: when [chat()] answers a request without session handle with
    the event stream, the turn runs in a new chat of the current user: the
    chat is owned by the requester, its handle is the one drawn from
    [uuid4], its id is one no chat had before, it is the one row added to
    [chats], and the user message is stored in it. *)
Theorem chat_without_session_opens_own_chat
        (E : env) (current_user : User.t) (data : chat_request) (st st' : db) (t : turn) :
  no_session data ->
  chat E current_user data st = (Stream t, st') ->
  Chat.user_id (turn_chat t) = User.id current_user
  /\ turn_session_id t = uuid4 E (uuids_drawn st)
  /\ Chat.session_id (turn_chat t) = turn_session_id t
  /\ chats st' = chats st ++ [turn_chat t]
  /\ (forall c, In c (chats st) -> Chat.id c <> Chat.id (turn_chat t))
  /\ Message.chat_id (turn_user_msg t) = Chat.id (turn_chat t)
  /\ In (turn_user_msg t) (messages st').
Proof.
  intros Hno. unfold chat. intros H.
  destruct (negb (nonempty_str (text (Str.strip (chars (message data)))))
            && match attachments_data data with [] => true | _ => false end)%bool;
    [discriminate|].
  assert (Hres : forall mc mp,
             resolve E current_user data mc mp st
             = inr (new_chat E current_user data mc mp st)).
  { intros mc mp. unfold resolve. destruct Hno as [-> | ->]; reflexivity. }
  rewrite Hres in H. unfold new_chat in H. cbn in H.
  injection H as <- <-. cbn.
  repeat split; try reflexivity.
  - intros c Hin Heq.
    pose proof (below_next_id (map Chat.id (chats st)) (Chat.id c) (in_map Chat.id _ _ Hin)).
    lia.
  - apply in_or_app. right. left. reflexivity.
Qed.

Lemma chat_without_session_opens_own_chat_witness :
  exists t st',
    chat ChatRouteProps.bare_env ChatRouteProps.bob
         bobs_first_message ChatRouteProps.alices_db = (Stream t, st')
    /\ Chat.user_id (turn_chat t) = 2
    /\ turn_session_id t = "uuid-0"%string
    /\ chats st' = chats ChatRouteProps.alices_db ++ [turn_chat t].
Proof.
  run_chat H. eexists _, _. split; [exact H|].
  destruct (chat_without_session_opens_own_chat
              ChatRouteProps.bare_env ChatRouteProps.bob bobs_first_message
              ChatRouteProps.alices_db _ _ (or_introl eq_refl) H)
    as (Hu & Hs & _ & Hc & _).
  split; [exact Hu|]. split; [exact Hs | exact Hc].
Defined.



(** X24: a message in which [has_sensitive_info] finds nothing is persisted
    and handed on as typed, up to the surrounding blanks, whether the filter
    is switched on or not. *)
Theorem clean_message_is_persisted_as_typed
        (E : env) (current_user : User.t) (data : chat_request) (st st' : db) (t : turn) :
  chat E current_user data st = (Stream t, st') ->
  text (Str.strip (chars (message data))) <> ""%string ->
  SensitiveInfoFilter.has_sensitive_info (text (Str.strip (chars (message data)))) = false ->
  Message.content (turn_user_msg t) = text (Str.strip (chars (message data)))
  /\ turn_message_content t = text (Str.strip (chars (message data))).
Proof.
  unfold chat. intros H Hne Hclean.
  set (m := text (Str.strip (chars (message data)))) in *.
  assert (Hfilter : (if (AdminSettings.truthy
                           (AdminSettings.is_sensitive_info_filter_enabled (lib E) (table E))
                         && nonempty_str m)%bool
                     then SensitiveInfoFilter.filter_message m else m) = m).
  { destruct (AdminSettings.truthy
                (AdminSettings.is_sensitive_info_filter_enabled (lib E) (table E))
              && nonempty_str m)%bool; [|reflexivity].
    unfold SensitiveInfoFilter.filter_message.
    rewrite (RedactorProps.filter_text_clean m false Hclean). reflexivity. }
  rewrite Hfilter in H.
  destruct (negb (nonempty_str m)
            && match attachments_data data with [] => true | _ => false end)%bool;
    [discriminate|].
  match type of H with
  | context [resolve ?r1 ?r2 ?r3 ?r4 ?r5 ?r6] =>
      destruct (resolve r1 r2 r3 r4 r5 r6) as [refusal|[[sid c] st1]] eqn:Hres
  end; [apply resolve_refusal in Hres; subst refusal; discriminate|].
  injection H as <- _. cbn.
  destruct m; [contradiction|]. split; reflexivity.
Qed.

Lemma clean_message_is_persisted_as_typed_witness :
  exists t st',
    chat ChatRouteProps.bare_env ChatRouteProps.alice
         alices_question ChatRouteProps.alices_db = (Stream t, st')
    /\ Message.content (turn_user_msg t) = "And when?"%string
    /\ turn_message_content t = "And when?"%string.
Proof.
  run_chat H. eexists _, _. split; [exact H|].
  refine (clean_message_is_persisted_as_typed _ _ _ _ _ _ H _ _).
  - vm_compute. discriminate.
  - vm_compute. reflexivity.
Defined.

(** X25: a turn carries no safety prompt for a user without date of birth,
    for an adult, or when child safety is switched off. *)
Theorem no_safety_prompt_for_adults
        (E : env) (current_user : User.t) (data : chat_request) (st st' : db) (t : turn) :
  chat E current_user data st = (Stream t, st') ->
  User.date_of_birth current_user = None
  \/ User.get_age_group (today E) current_user = "adult"%string
  \/ AdminSettings.truthy (AdminSettings.is_child_safety_enabled (lib E) (table E)) = false ->
  turn_age_system_prompt t = AdminSettings.VNone.
Proof.
  unfold chat. intros H Hwho.
  destruct (negb (nonempty_str (text (Str.strip (chars (message data)))))
            && match attachments_data data with [] => true | _ => false end)%bool;
    [discriminate|].
  match type of H with
  | context [resolve ?r1 ?r2 ?r3 ?r4 ?r5 ?r6] =>
      destruct (resolve r1 r2 r3 r4 r5 r6) as [refusal|[[sid c] st1]] eqn:Hres
  end; [apply resolve_refusal in Hres; subst refusal; discriminate|].
  injection H as <- _. cbn [turn_age_system_prompt].
  destruct (User.date_of_birth current_user) as [born|] eqn:Hdob; [|reflexivity].
  destruct Hwho as [Hnone | [Hadult | Hoff]]; [discriminate | |].
  - rewrite Hadult. reflexivity.
  - unfold AdminSettings.get_age_based_system_prompt,
      AdminSettings.get_child_system_prompt, AdminSettings.get_teen_system_prompt.
    rewrite Hoff. cbn [negb].
    destruct (String.eqb _ "child"); [reflexivity|].
    destruct (String.eqb _ "teen"); reflexivity.
Qed.

Lemma no_safety_prompt_for_adults_witness :
  exists t st',
    chat ChatRouteProps.bare_env ChatRouteProps.alice
         alices_question ChatRouteProps.alices_db = (Stream t, st')
    /\ turn_age_system_prompt t = AdminSettings.VNone.
Proof.
  run_chat H. eexists _, _. split; [exact H|].
  refine (no_safety_prompt_for_adults _ _ _ _ _ _ H _).
  left. reflexivity.
Defined.

(** X26: deleting a chat removes that chat with its messages and leaves
    every other chat and its messages in place. *)
Theorem delete_chat_removes_only_that_chat
        (current_user : User.t) (sid : string) (st : db) (c : Chat.t) :
  find_chat st sid = Some c ->
  Chat.user_id c = User.id current_user ->
  exists st',
    delete_chat None current_user sid st = ((200, "Chat deleted successfully"%string), st')
    /\ (forall x, In x (chats st') <-> In x (chats st) /\ Chat.id x <> Chat.id c)
    /\ messages_of st' c = []
    /\ (forall c2, Chat.id c2 <> Chat.id c -> messages_of st' c2 = messages_of st c2).
Proof.
  intros Hfind Hown. unfold delete_chat. rewrite Hfind.
  destruct (Z.eqb_spec (Chat.user_id c) (User.id current_user)) as [_|Hne];
    [|contradiction]. cbn [negb].
  eexists. split; [reflexivity|]. cbn [chats messages]. split; [|split].
  - intros x. rewrite List.filter_In.
    destruct (Z.eqb_spec (Chat.id x) (Chat.id c)); cbn [negb]; intuition congruence.
  - unfold messages_of. cbn [messages].
    induction (messages st) as [|m l IH]; [reflexivity|]. cbn [List.filter].
    destruct (Z.eqb_spec (Message.chat_id m) (Chat.id c)) as [Heq|Hneq]; cbn [negb].
    + exact IH.
    + cbn [List.filter]. destruct (Z.eqb_spec (Message.chat_id m) (Chat.id c));
        [contradiction | exact IH].
  - intros c2 Hc2. unfold messages_of. cbn [messages].
    induction (messages st) as [|m l IH]; [reflexivity|]. cbn [List.filter].
    destruct (Z.eqb_spec (Message.chat_id m) (Chat.id c)) as [Heq|Hneq]; cbn [negb].
    + destruct (Z.eqb_spec (Message.chat_id m) (Chat.id c2)); [congruence | exact IH].
    + cbn [List.filter]. destruct (Message.chat_id m =? Chat.id c2); [f_equal|]; exact IH.
Qed.

Lemma delete_chat_removes_only_that_chat_witness :
  exists st',
    delete_chat None ChatRouteProps.alice "s-alice" ChatRouteProps.alices_db
    = ((200, "Chat deleted successfully"%string), st')
    /\ messages_of st' ChatRouteProps.alices_chat = [].
Proof.
  destruct (delete_chat_removes_only_that_chat
              ChatRouteProps.alice "s-alice" ChatRouteProps.alices_db ChatRouteProps.alices_chat)
    as (st' & H & _ & Hm & _); [reflexivity | reflexivity |].
  exists st'. split; assumption.
Defined.

End RouteExtras.
(** ** Age groups *)
Module AgeExtras.
Import User.

Local Open Scope Z_scope.

(** [a] is an earlier day than [b]. *)
Definition earlier (a b : date) : Prop :=
  year a < year b
  \/ (year a = year b
      /\ (month a < month b \/ (month a = month b /\ day a < day b))).

(** The [n]th birthday. *)
Definition birthday (n : Z) (born : date) : date :=
  {| year := year born + n; month := month born; day := day born |}.

Lemma get_age_below (today born : date) (u : t) (n : Z) :
  date_of_birth u = Some born ->
  (exists age, get_age today u = Some age /\ (age < n <-> earlier today (birthday n born))).
Proof.
  intros Hdob. unfold get_age. rewrite Hdob. eexists. split; [reflexivity|].
  unfold earlier, birthday, before_birthday. cbn [year month day].
  destruct (Z.ltb_spec (month today) (month born));
    destruct (Z.eqb_spec (month today) (month born));
    destruct (Z.ltb_spec (day today) (day born)); cbn [orb andb]; lia.
Qed.

(** X27: the age group changes on the birthday: a user is a child on every
    day before the twelfth birthday, a teen from that day until the day
    before the eighteenth, and an adult from the eighteenth birthday on. *)
Theorem age_group_turns_on_the_birthday (today born : date) (u : t) :
  date_of_birth u = Some born ->
  (earlier today (birthday 12 born) -> get_age_group today u = "child"%string)
  /\ (~ earlier today (birthday 12 born) -> earlier today (birthday 18 born) ->
      get_age_group today u = "teen"%string)
  /\ (~ earlier today (birthday 18 born) -> get_age_group today u = "adult"%string).
Proof.
  intros Hdob.
  destruct (get_age_below today born u 12 Hdob) as (age & Hage & H12).
  destruct (get_age_below today born u 18 Hdob) as (age' & Hage' & H18).
  rewrite Hage in Hage'. injection Hage' as <-.
  unfold get_age_group. rewrite Hage.
  split; [|split].
  - intros He. apply H12 in He. apply Z.ltb_lt in He. rewrite He. reflexivity.
  - intros Hn He. apply H18 in He.
    destruct (Z.ltb_spec age 12) as [Hlt|_]; [apply H12 in Hlt; contradiction|].
    apply Z.ltb_lt in He. rewrite He. reflexivity.
  - intros Hn.
    destruct (Z.ltb_spec age 12) as [Hlt|_].
    { exfalso. apply Hn, H18. lia. }
    destruct (Z.ltb_spec age 18) as [Hlt|_]; [apply H18 in Hlt; contradiction | reflexivity].
Qed.

Definition born_2013_06_01 : t :=
  {| id := 3; date_of_birth := Some {| year := 2013; month := 6; day := 1 |} |}.

Lemma age_group_turns_on_the_birthday_witness :
  get_age_group {| year := 2025; month := 5; day := 31 |} born_2013_06_01 = "child"%string
  /\ get_age_group {| year := 2025; month := 6; day := 1 |} born_2013_06_01 = "teen"%string
  /\ get_age_group {| year := 2031; month := 6; day := 1 |} born_2013_06_01 = "adult"%string.
Proof.
  split; [|split].
  - apply (age_group_turns_on_the_birthday
             {| year := 2025; month := 5; day := 31 |}
             {| year := 2013; month := 6; day := 1 |} born_2013_06_01 eq_refl).
    unfold earlier; cbn; lia.
  - apply (age_group_turns_on_the_birthday
             {| year := 2025; month := 6; day := 1 |}
             {| year := 2013; month := 6; day := 1 |} born_2013_06_01 eq_refl).
    + unfold earlier; cbn; lia.
    + unfold earlier; cbn; lia.
  - apply (age_group_turns_on_the_birthday
             {| year := 2031; month := 6; day := 1 |}
             {| year := 2013; month := 6; day := 1 |} born_2013_06_01 eq_refl).
    unfold earlier; cbn; lia.
Defined.

End AgeExtras.

(** ** Settings: what is written is what is read *)
Module SettingsExtras.
Import Str AdminSettings.

(** A row that [get_typed_value] reads as a string. *)
Definition read_as_string (row : setting) : bool :=
  negb (existsb (String.eqb (setting_type row)) ["boolean"; "integer"; "json"]).

(** No row under [key], or one read as a string. *)
Definition free_or_string (table : gmap string setting) (key : string) : Prop :=
  forall row, table !! key = Some row -> read_as_string row = true.

Lemma read_as_string_inv (row : setting) :
  read_as_string row = true ->
  String.eqb (setting_type row) "boolean" = false
  /\ String.eqb (setting_type row) "integer" = false
  /\ String.eqb (setting_type row) "json" = false.
Proof.
  unfold read_as_string. cbn [existsb].
  destruct (String.eqb (setting_type row) "boolean");
    destruct (String.eqb (setting_type row) "integer");
    destruct (String.eqb (setting_type row) "json"); cbn; intros H;
    try discriminate; repeat split; reflexivity.
Qed.

(** Writing a string under a key that is free or held by a string row, and
    reading the key back. *)
Lemma set_then_get_string (out : dumper) (lib : pylib) (table : gmap string setting)
      (key s kind : string) (d : option string) (default : value) :
  free_or_string table key ->
  read_as_string {| setting_value := None; setting_type := kind; description := d |} = true ->
  exists table',
    set_setting out None table key (VStr s) kind d = inr table'
    /\ get_setting lib table' key default = VStr s
    /\ forall other, other <> key -> table' !! other = table !! other.
Proof.
  intros Hfree Hkind. unfold set_setting.
  set (row0 := match table !! key with
               | Some existing => existing
               | None => {| setting_value := None; setting_type := kind; description := d |}
               end).
  assert (Hrow0 : read_as_string row0 = true).
  { unfold row0. destruct (table !! key) as [row|] eqn:Hk; [exact (Hfree _ Hk) | exact Hkind]. }
  apply read_as_string_inv in Hrow0 as (Hb & Hi & Hj).
  eexists. split; [reflexivity|]. split.
  - unfold get_setting. rewrite lookup_insert_eq.
    assert (Hval : forall row, setting_type row = setting_type row0 ->
                               setting_value row = Some s ->
                               get_typed_value lib row = VStr s).
    { intros row Ht Hv. unfold get_typed_value. rewrite Hv, Ht, Hb, Hi, Hj. reflexivity. }
    assert (Hset : setting_value (set_typed_value out row0 (VStr s)) = Some s).
    { unfold set_typed_value. cbn [setting_value]. rewrite Hb, Hi, Hj. reflexivity. }
    destruct d as [[|a d']|]; apply Hval; try reflexivity; exact Hset.
  - intros other Hother. apply lookup_insert_ne. congruence.
Qed.

(** X28: a model id that is written is the one that is read: after
    [set_system_model_id], [get_system_model_id] gives the id without its
    surrounding blanks, also when that is the empty string (the default of
    the provider does not come back), and no other setting has changed.  The
    row, if there was one, must be a string row: [set_setting] keeps the type
    of a row that is there. *)
Theorem model_id_round_trip
        (out : dumper) (lib : pylib) (table : gmap string setting) (provider model_id : string) :
  existsb (String.eqb provider) SUPPORTED_MODEL_PROVIDERS = true ->
  free_or_string table ("system_model_id_" ++ provider) ->
  exists table',
    set_system_model_id out None table provider model_id = (true, table')
    /\ get_system_model_id lib table' provider = VStr (text (strip (chars model_id)))
    /\ forall other, other <> ("system_model_id_" ++ provider)%string ->
                     table' !! other = table !! other.
Proof.
  intros Hsup Hfree. unfold set_system_model_id, get_system_model_id. rewrite Hsup. cbn [negb].
  set (stored := match model_id with
                 | EmptyString => ""%string
                 | _ => text (strip (chars model_id))
                 end).
  assert (Hstored : stored = text (strip (chars model_id))).
  { unfold stored. destruct model_id; reflexivity. }
  destruct (set_then_get_string out lib table ("system_model_id_" ++ provider) stored "string"
              (Some ("System model ID for " ++ provider)%string) VNone Hfree eq_refl)
    as (table' & Hset & Hget & Hother).
  rewrite Hset. exists table'. split; [reflexivity|]. split; [|exact Hother].
  rewrite Hget, Hstored. reflexivity.
Qed.

Definition plain_dumper : dumper :=
  {| str_of_json := fun raw => raw; json_dumps := fun _ => "null" |}.

Definition plain_lib : pylib :=
  {| py_int := fun _ => None; AdminSettings.json_loads := fun _ => None |}.

Lemma model_id_round_trip_witness :
  exists table',
    set_system_model_id plain_dumper None ∅ "openai" "  gpt-4o " = (true, table')
    /\ get_system_model_id plain_lib table' "openai" = VStr "gpt-4o"
    /\ get_system_model_id plain_lib ∅ "openai" = VStr "gpt-5-mini-2025-08-07".
Proof.
  destruct (model_id_round_trip plain_dumper plain_lib ∅ "openai" "  gpt-4o ")
    as (table' & Hset & Hget & _).
  - reflexivity.
  - intros row Hrow. rewrite lookup_empty in Hrow. discriminate.
  - exists table'. split; [exact Hset|]. split; [exact Hget | reflexivity].
Defined.


(** A cipher that marks what it encrypts. *)
Definition marking_encrypt : EncryptionService.cipher := fun s => Some ("enc:" ++ s)%string.
Definition marking_decrypt : EncryptionService.cipher :=
  fun s => if String.prefix "enc:" s then Some (String.substring 4 (String.length s - 4) s)
           else None.


End SettingsExtras.

(** ** Deleting a document *)
Module DeletionExtras.
Import Str RAGService VectorStore.

Local Open Scope Z_scope.

(** The next commit does not raise. *)
Definition commit_succeeds (w : world) : Prop :=
  match commits w with
  | Some _ :: _ => False
  | _ => True
  end.

(** The file of the document can be removed, if it is there. *)
Definition removable (D : disk) (document : Document.t) : Prop :=
  file_exists D (Document.file_path document) = true ->
  remove_error D (Document.file_path document) = None.

Lemma store_delete_leaves_none (lib : chroma) (st : store) (user document_id : Z) :
  client st = true ->
  delete_error lib = None ->
  vectors_of (snd (VectorStore.delete_document lib st user document_id)) user document_id = [].
Proof.
  intros Hclient Hlib. unfold VectorStore.delete_document, get_user_collection.
  rewrite Hclient.
  destruct (collections st !! user) as [c|] eqn:Hc.
  - destruct (List.filter (of_document document_id) c) as [|e found] eqn:Hf.
    + cbn. unfold vectors_of. rewrite Hc. exact Hf.
    + rewrite Hlib. cbn [snd].
      rewrite VectorStoreExtras.vectors_of_same_user.
      apply VectorStoreExtras.filter_filter_same.
  - cbn. unfold vectors_of. rewrite Hc. reflexivity.
Qed.

(** X30: [delete_document] of a document that is there, with a file that
    can be removed and a commit that succeeds, reports success, removes the
    row and the chunk rows of the document and no other row, and, when the
    vector store works, leaves no vector of the document. *)
Theorem delete_document_removes_rows_and_vectors
        (E : env) (D : disk) (document_id : Z) (w : world) (document : Document.t) :
  documents w !! document_id = Some document ->
  Document.id document = document_id ->
  removable D document ->
  commit_succeeds w ->
  exists w',
    RAGService.delete_document E D document_id w
    = (Returns {| d_success := true; d_error := None |}, w')
    /\ documents w' !! document_id = None
    /\ (forall other, other <> document_id -> documents w' !! other = documents w !! other)
    /\ (forall r, In r (document_chunks w')
                  <-> In r (document_chunks w) /\ DocumentChunk.document_id r <> document_id)
    /\ (client (vectors w) = true -> delete_error (chroma_lib E) = None ->
        vectors_of (vectors w') (Document.user_id document) document_id = []).
Proof.
  intros Hdoc Hid Hrm Hcommit.
  unfold RAGService.delete_document. rewrite Hdoc.
  unfold try_except, bind, store_delete_document.
  destruct (VectorStore.delete_document (chroma_lib E) (vectors w) (Document.user_id document)
                                        document_id) as [r st] eqn:Hdel.
  assert (Hfile : forall w1 : world,
             (if file_exists D (Document.file_path document)
              then match remove_error D (Document.file_path document) with
                   | Some e => raise e
                   | None => ret tt
                   end
              else ret tt) w1 = (Returns tt, w1)).
  { intros w1. unfold removable in Hrm.
    destruct (file_exists D (Document.file_path document)); [|reflexivity].
    rewrite Hrm by reflexivity. reflexivity. }
  rewrite Hfile. unfold commit_delete. cbn [commits].
  unfold commit_succeeds in Hcommit.
  assert (Hgoal : forall cs',
             exists w',
               (Returns {| d_success := true; d_error := None |},
                {| documents := delete (Document.id document) (documents w);
                   document_chunks :=
                     List.filter
                       (fun r0 => negb (DocumentChunk.document_id r0 =? Document.id document))
                       (document_chunks w);
                   vectors := st; uuids_drawn := uuids_drawn w; commits := cs';
                   calls := calls w |})
               = (Returns {| d_success := true; d_error := None |}, w')
               /\ documents w' !! document_id = None
               /\ (forall other, other <> document_id ->
                                 documents w' !! other = documents w !! other)
               /\ (forall r0, In r0 (document_chunks w')
                              <-> In r0 (document_chunks w)
                                  /\ DocumentChunk.document_id r0 <> document_id)
               /\ (client (vectors w) = true -> delete_error (chroma_lib E) = None ->
                   vectors_of (vectors w') (Document.user_id document) document_id = [])).
  { intros cs'. eexists. split; [reflexivity|]. cbn [documents document_chunks vectors].
    rewrite Hid. split; [apply lookup_delete_eq|]. split; [|split].
    - intros other Hother. apply lookup_delete_ne. congruence.
    - intros r0. rewrite List.filter_In.
      destruct (Z.eqb_spec (DocumentChunk.document_id r0) document_id); cbn [negb];
        intuition congruence.
    - intros Hclient Hlib.
      pose proof (store_delete_leaves_none (chroma_lib E) (vectors w)
                    (Document.user_id document) document_id Hclient Hlib) as Hnone.
      rewrite Hdel in Hnone. exact Hnone. }
  destruct (commits w) as [|[e|] rest]; [apply Hgoal | contradiction | apply Hgoal].
Qed.

(** Document 1 of user 7, processed, and an upload directory that holds
    its file. *)
Definition processed : world :=
  snd (process_document Samples.E0 1 (Samples.w0 [])).

Definition full_disk : disk :=
  {| file_exists := fun _ => true; remove_error := fun _ => None |}.

Lemma delete_document_removes_rows_and_vectors_witness :
  (0 < len (document_chunks processed))
  /\ (0 < len (vectors_of (vectors processed) 7 1))
  /\ exists w',
      RAGService.delete_document Samples.E0 full_disk 1 processed
      = (Returns {| d_success := true; d_error := None |}, w')
      /\ documents w' !! 1 = None
      /\ vectors_of (vectors w') 7 1 = [].
Proof.
  split; [vm_compute; reflexivity|]. split; [vm_compute; reflexivity|].
  assert (Hdoc : exists document,
             documents processed !! 1 = Some document
             /\ Document.id document = 1 /\ Document.user_id document = 7).
  { eexists. split; [vm_compute; reflexivity|]. split; reflexivity. }
  destruct Hdoc as (document & Hdoc & Hid & Huser).
  destruct (delete_document_removes_rows_and_vectors Samples.E0 full_disk 1 processed document
              Hdoc Hid)
    as (w' & H & Hnone & _ & _ & Hvec).
  - intros _. reflexivity.
  - vm_compute. exact I.
  - exists w'. split; [exact H|]. split; [exact Hnone|].
    rewrite <- Huser. apply Hvec; reflexivity.
Defined.

End DeletionExtras.
